(* ===== verification/_CoqProject ===== *)
-Q . S2P
Prelude.v
Ulid.v
GoStd.v
Taxonomy.v
Json.v
Payloads.v
Tables.v
View.v
Gates.v
Project.v
Store.v
Steps.v
Invariants.v
Shape.v
Replay.v
Mint.v
Reach.v
Cycle.v
Completion.v
Content.v
Command.v
Resolve.v
Config.v
NodeVerbs.v
WorkVerbs.v
ReadSurface.v
Effects.v
Outcome.v
Verbs.v
VerbAtomic.v
Slug.v
Cascade.v
Seal.v
Archive.v
GateOrder.v
Removal.v
ReadFacts.v
Reap.v
Reorder.v
Waiting.v
WaitingFacts.v
Next.v
NextFacts.v
StatusFacts.v
Session.v
SessionFacts.v
SchedFrontier.v
SchedFacts.v
Cbor.v
CborFacts.v
OpText.v
Operation.v
OpCatalog.v
GoUrl.v
OpValidate.v
OpCodec.v
OpFacts.v
OpDispatch.v
Tracker.v
FlushFacts.v
Alignment.v
AlignFacts.v
Doctor.v
SchedLoop.v
PassLogic.v
PassFacts.v
Scenario.v
VerbScenario.v
EngineScenario.v
StoreTheorems.v
LifecycleTheorems.v
ContentTheorems.v
MintTheorems.v
GraphTheorems.v
GateTheorems.v
TaxonomyTheorems.v
VerbTheorems.v
ReadTheorems.v
OpTheorems.v
EngineTheorems.v
