(* ===== verification/Prelude.v ===== *)
(** * wip: the event-sourced work store, verified

    wip keeps a plan of work (Matters, their Stages and Steps), the gates that
    seal it, the dependencies between its parts, a backlog, an outbox towards
    external trackers and the record of who worked where, in one SQLite database
    per host.  The database is an append-only log of events and a projection of it:
    every command reads the projection, decides, and commits the events it wants in
    one transaction; each event is stamped, appended to [events] and folded into the
    projection tables by the same function that a rebuild uses.  The package that
    does this is src/internal/store.  Above it, src/internal/writesurface has one
    function per verb (create, start, finish, close a gate, triage, stand down, ...):
    it resolves locators, checks its refusals, commits its drafts and reads the result
    back.  Beside it, src/internal/readsurface derives what people are shown (the
    frontier, what is waiting, what comes next, status, sessions) and
    src/internal/scheduler what a Run may engage, and drives it: one pass claims, plans,
    starts, works and finishes what is ready and then settles the Run.
    src/internal/tracker delivers the outbox through a provider and compares a sealed
    Matter with its tracker, and src/internal/guards audits the store.
    src/internal/operation is the boundary towards a remote authority: versioned operations with typed inputs
    and results, what each accepts, and a byte encoding of every command that is its
    identity.  These seven are modelled here; the theorems about the store alone
    quantify over the decision a command makes.

    ** The parts, and the files that model them

    - [Prelude]: errors and the result monad (a Go [(T, error)] is a [result T]),
      orders on strings, generic lemmas and tactics.
    - [Ulid]: ulid.go.  A byte is a [Z], a uint64 wraps at 2^64.  [next] is
      idSource.next with the clock's reading and the entropy as arguments;
      [encodeCrockford], [timeOfID] and [IsIdentityShaped] are the Go loops.
    - [GoStd]: what the store uses of Go's library: SHA-256, hex, base64,
      strings.TrimSpace, the UTF-8 coercion of encoding/json.
    - [Taxonomy]: taxonomy.go.  Event types, dimension rules, the index that stamp
      consults, roles and the gates they own, and the enumerations ([Enum] class).
    - [Json], [Payloads]: encoding/json's struct rules over parsed trees and
      payloads.go, one record per struct with its tags ([Payload] class) and the law
      that decoding inverts encoding ([LawfulPayload]).
    - [Tables]: the schema at its latest version.  A table index [tbl] with key and
      row types, the projection [Proj] as a record of finite maps, and INSERT, UPDATE
      and upsert with every CHECK ([row_check]), UNIQUE index ([conflict]), foreign
      key ([row_refs]) and trigger ([insert_trigger], [update_trigger]).
    - [View]: view.go, the queries, as functions of the projection (and the log).
    - [Gates]: gates.go and the archive and tracker-aggregate reads of view.go.
    - [Project]: project.go, content.go's insertContent and edges.go: one definition
      per fold rule, dispatched by [applyEvent].
    - [Store]: store.go and Rebuild: [NewID], [stamp], [appendEvent], [Commit],
      [Rebuild], [reopen], [verifyTaxonomy].  [World] is the clock and entropy, read
      once per identity drawn; [Handle] is the state of the Go value that is not in
      the database (id source, floor, blobs on disk).
    - [Cycle]: cycle.go.  [Content]: content.go and blobs.go.
    - [Steps]: the fold as a transition system: [row_birth] and [row_change] say, per
      table, which rows an event may bear and which moves it may make;
      [applyEvent_steps] shows that every rule is such a sequence of statements.
    - [Invariants], [Shape], [Replay]: what every step keeps (constraints, references,
      the tree, brackets, the outbox, gates backed by the log) and that folding an
      event again, against the whole log and with foreign keys deferred, gives the
      same projection.
    - [Mint], [Reach]: what minting guarantees; the stores a run of Commit, Rebuild
      and reopen can produce ([reach], [future]) and what holds of them ([store_ok]).
    - [Completion]: lemmas on the gate evaluator.
    - [Command]: the two monads of the write surface: [tx], inside the transaction
      (reads, minting, content drafts), and [cmd], around it (reads of the store,
      [commit], results captured by the closure), both sound for [future].
    - [Resolve]: writesurface.go's slugify, resolve.go and ResolveBatch.  [Config]:
      config.go and the order of gates (guards/gateorder.go).  [NodeVerbs]: birth.go,
      amendment.go, lifecycle.go, seal.go, depend.go, content.go, bind.go.
      [WorkVerbs]: gate.go, backlog.go, outbox.go, tracker.go, batch.go, role.go,
      run.go.  An error of a verb is its code, [EWip code].
    - [Effects], [Outcome]: what a commit of given drafts did to the log and the rows
      ([folded], [Writes]).  [Verbs]: the verbs as one type [Verb] with [run_verb], and
      what they may draft.  [VerbAtomic], [Slug], [Cascade], [Seal], [Archive],
      [GateOrder], [Reap], [Reorder]: the lemmas of one behaviour each.
    - [ReadSurface]: readsurface's frontier.go, locator.go, cursor.go and the writes of
      next.go.  [Waiting]: waiting.go.  [Next]: next.go, handoff.go and status.go.
      [Session]: session.go.  [SchedFrontier]: the scheduler's frontier.go.  A read is a
      function of the log and the projection; a climb to the root carries [tree_depth]
      as its fuel.
    - [Removal]: only Steps are removed, which every climb relies on.  [ReadFacts],
      [WaitingFacts], [NextFacts], [StatusFacts], [SessionFacts],
      [SchedFacts]: the reads never fail on such a store, and what each answer holds.
    - [Cbor]: operation/canonical_cbor.go, with [CborFacts], a decoder written from RFC
      8949 that inverts it.  [OpText]: the texts a command carries.  [Operation]:
      contract.go, metadata.go and the input and output types.  [OpCatalog]: the
      definitions and their catalogues.  [GoUrl]: net/url as an incident reference is
      read.  [OpValidate]: ValidateRequest, step10.go, gate_repair_validation.go.
      [OpCodec]: command_identity.go and canonical_decode.go.  [OpDispatch]:
      ValidateResult and dispatcher.go.  [OpFacts]: every input is read back by the
      decoder of its operation.  Two third-party functions are parameters: [nfc]
      (golang.org/x/text, Unicode normal form) and [unmarshal] (fxamacker/cbor), of
      which the theorem on decoding supposes that it reads deterministic encodings
      within its configured limits.
    - [Tracker]: tracker/flush.go.  The three loops of Flush are [each] over [triage],
      [compose_group] and [deliver_entry]; an error stops them and is returned beside the
      report.  The provider [Seam] is a parameter that sees the calls before it, [visit]
      the order in which Go ranges over the references, [errText] the text of an error.
      [FlushFacts]: what each loop leaves settled.  [Alignment]: state.go,
      registry.go, resolve.go and alignment.go, with [AlignFacts].  [Doctor]: the checks
      of guards that read the store.
    - [SchedLoop]: the scheduler's loop.go and resume.go.  A pass is a state-and-error
      monad [pm] over [Pass] (the Go struct's mutable fields) and the store; the hooks are
      parameters that may run commands of their own.  [PassLogic]: triples for it and what
      its writes touch.  [PassFacts]: what holds while a pass drives and when it ends, and
      the loop that completes groupings.
    - [Scenario], [VerbScenario], [EngineScenario]: concrete runs that the witnesses use.
    - [StoreTheorems], [LifecycleTheorems], [ContentTheorems], [MintTheorems],
      [GraphTheorems], [GateTheorems], [TaxonomyTheorems], [VerbTheorems],
      [ReadTheorems], [OpTheorems], [EngineTheorems]: the properties.

    ** What the theorems show

    - The store (C1, C2, C4, C5; [projection_integrity]): a rebuild of any reachable store
      gives back its projection; a failed command leaves the database as it was and a
      successful one appends exactly its events, chained to its first; the log is
      strictly ascending and well formed; every row of every table satisfies the
      schema; the work tree is a tree of three scales.
    - The verbs (C3, C6 to C10, C14, C19, C36; [reorder_exact]): every verb
      is all or nothing and keeps to the lifecycle graph, no verb closes a cycle, breaks
      the order of gates or unseals a Matter; Start's cascade, the sealing flag,
      reordering, standing a Run down and addressing do exactly what they promise.
    - What stays (C11, C12, C13, C15; [closed_stays_closed], [backlog_triage_final]): identities and births are permanent,
      only Steps are ever removed, roles live inside open brackets, what is closed stays closed, each outbox state
      means what it says, triage is final.
    - Gates and graphs (C18, C20): what local completion, sealing and pending mean,
      read off the rows; the audit of cycles is exact.
    - The reads (C24 to C26, C29 to C32; [everything_sealed_means_it], [sessions_partition]): on every reachable store in which only Steps were
      removed (C12 shows that the verbs keep it so) no read fails; the frontier splits
      the planned nodes exactly and a plan without cycles never deadlocks; what a Run
      may engage agrees with what people are shown, within the cap; next agrees with
      the hand-off and says that everything is sealed only when it is; waiting lists
      every cause and nothing else; status accounts for every planned node, node in progress
      and finished node, and hides only sealed work; the cursor is set
      and cleared; the sessions are the log cut at its idle gaps.
    - A pass over a Run (C27, C28): what it reports is in
      the log; it halts exactly when a skip's handling says so; without an error it ended
      halted, finished with every member over, or standing by with one that is not; and
      completing groupings ends and leaves none behind.
    - Delivery and audits (C16, C17, C33, C34): a
      flush leaves every approved entry in the state it reports and calls the provider with
      the newest candidate of each reference only; the comparison after a seal covers the
      references of the Matter and offers a move only forward; the doctor's checks over
      the store report every cycle, every pair of gates out of order and every inert
      binding, each once, and nothing else.
    - Content (C37 to C38), identities (C39, C40;
      [encoding_faithful]) and vocabulary ([payloads_round_trip], [verifyTaxonomy_misses], [candidate_above_floor]).
    - The operation boundary (C21 to C23, C35; [definitions_sound], [verify_hash_exact], [target_claims_exact], [repair_limit_slack]): equal bytes mean
      equal data and equal commands; the decoder accepts exactly the bytes a command
      encodes to; an asserted hash is accepted exactly when it is the command's; the
      definitions' metadata is accepted, their names are distinct and each has one decoder; a set of target claims
      has one spelling; a handler runs only on a request its definition accepts and
      nothing it returns goes out unchecked; the size limit of a repair is never reached.

    ** Bounds and fuel

    NewID loops until the clock passes the floor, so [NewID], [stamp] and [Commit] take
    the number of draws allowed per identity and answer [None] only when it is spent;
    [NewID_terminates] and C40 give the number that is enough.  The walk to the root has three
    steps ([tree_depth]); [requirement_walk_complete] and the reads (C24 to C31) show it
    never runs out on a reachable store.  The stack search and the loop enumeration have
    one unit of fuel per node of the graph, which [reaches_decides] and C20 show to be
    enough.  The reference
    CBOR decoder and the percent-decoding loops have one unit per byte of their input.
    The loop that completes groupings has one round more than the Matter has nodes, and
    C28 shows that they are never spent.  The driving loop of a pass has
    no bound in the code, since its hooks can add work for ever: its rounds are an argument,
    spending them is the error [EFuel], and C27 covers that answer too.
    Everything else is structural.  Integers that Go keeps in
    int64 wrap ([wrap64]).

    ** What is not modelled

    Branches of the fold for stores under an older schema version, and the migrations;
    SQL and file-system failures other than constraint violations; the text layer of
    JSON; the process-level lock and the single connection (one writer, transactions in
    sequence); the wording of refusals; which Repo, Clone and Worktree a directory
    belongs to, which readsurface asks of git (an argument here), and the idle gap's
    configuration file; the default Run cap of the tool configuration; the inspection of
    installed and of tracked files by guards.  Outside these packages: the providers
    (clients of external services), the tiers (git subprocesses), rendering, the command
    line, the authority store, the scheduler hook and the wipd services: each is file,
    process or network I/O, or a second system beside the local store.  Of the operation
    package, the reflection over Go types that keeps inputs and outputs
    transport-neutral, and the registry's lock.  The authority store's claims are the next
    part with a contract of its own that could be modelled in this way. *)
From stdpp Require Export base gmap sets list strings sorting.
From Stdlib Require Export ZArith Lia.

#[global] Open Scope stdpp_scope.
#[global] Set Default Proof Using "Type".

(** ** Errors and the result monad

    A Go function returning [(T, error)] becomes a function to [result T].
    The error value keeps what the callers can observe of it: which layer
    refused, and with what message or code. *)
Inductive Err :=
| EDecode (* payload does not decode into the struct the type demands *)
| ERefuse (msg : string) (* fmt.Errorf refusal of the package itself *)
| EConstraint (name : string) (* SQLite refused: CHECK, UNIQUE, FOREIGN KEY or RAISE *)
| ERows (* exactlyRows: an UPDATE touched another number of rows *)
| ENoRows (* sql.ErrNoRows *)
| EWip (code : string) (* a wiperr code the write surface returns *)
| EFuel (* a bounded walk exceeded its bound; proved unreachable where used *).

#[global] Instance Err_eq_dec : EqDecision Err.
Proof. solve_decision. Defined.

Inductive result (A : Type) :=
| Ok (a : A)
| Error (e : Err).
Arguments Ok {A} a.
Arguments Error {A} e.

#[global] Instance result_ret : MRet result := λ A a, Ok a.
#[global] Instance result_bind : MBind result := λ A B f m,
  match m with Ok a => f a | Error e => Error e end.
#[global] Instance result_fmap : FMap result := λ A B f m,
  match m with Ok a => Ok (f a) | Error e => Error e end.

Definition ensure (b : bool) (e : Err) : result () :=
  if b then Ok () else Error e.

Definition from_option_err {A} (e : Err) (o : option A) : result A :=
  match o with Some a => Ok a | None => Error e end.

Definition is_ok {A} (m : result A) : bool :=
  match m with Ok _ => true | Error _ => false end.

Fixpoint foldM {A B} (f : A → B → result A) (a : A) (l : list B) : result A :=
  match l with
  | [] => Ok a
  | b :: l => a' ← f a b; foldM f a' l
  end.

Fixpoint mapM_r {A B} (f : A → result B) (l : list A) : result (list B) :=
  match l with
  | [] => Ok []
  | a :: l => b ← f a; bs ← mapM_r f l; Ok (b :: bs)
  end.

Section result_lemmas.
Context {A B : Type}.
Implicit Types (m : result A) (f : A → result B).

Lemma bind_Ok m f b :
  (m ≫= f) = Ok b ↔ ∃ a, m = Ok a ∧ f a = Ok b.
Proof. destruct m; naive_solver. Qed.

Lemma ensure_Ok b e u : ensure b e = Ok u ↔ b = true.
Proof. destruct b, u; naive_solver. Qed.

Lemma from_option_err_Ok e (o : option A) a :
  from_option_err e o = Ok a ↔ o = Some a.
Proof. destruct o; naive_solver. Qed.

Lemma is_ok_true m : is_ok m = true ↔ ∃ a, m = Ok a.
Proof. destruct m; naive_solver. Qed.

End result_lemmas.

Section fold_lemmas.
Context {A C : Type}.

Lemma foldM_app (g : A → C → result A) a l k :
  foldM g a (l ++ k) = (a' ← foldM g a l; foldM g a' k).
Proof. revert a; induction l as [|c l IH]; intros a; csimpl; [done|]. by destruct (g a c); csimpl. Qed.

(** An invariant kept by every step is kept by the fold. *)
Lemma foldM_ind (g : A → C → result A) (I : A → Prop) l a a' :
  (∀ a c a', c ∈ l → I a → g a c = Ok a' → I a') →
  I a → foldM g a l = Ok a' → I a'.
Proof.
  revert a; induction l as [|c l IH]; intros a Hs Ha; csimpl.
  - by intros [= <-].
  - intros (a1 & H1 & H2)%bind_Ok. apply (IH a1); [|by eapply Hs; [left| |]|done].
    intros b d b' Hd. apply Hs. by right.
Qed.
End fold_lemmas.

(** [rle m n]: whenever [m] succeeds, [n] succeeds with the same value. *)
Definition rle {A} (m n : result A) : Prop := ∀ a, m = Ok a → n = Ok a.

Section rle.
Context {A : Type}.
Implicit Types m n : result A.

#[global] Instance rle_preorder : PreOrder (@rle A).
Proof. split; [by intros m a|intros m n o H1 H2 a Ha; by apply H2, H1]. Qed.

Lemma rle_bind {B} (m n : result B) (f g : B → result A) :
  rle m n → (∀ b, m = Ok b → rle (f b) (g b)) → rle (m ≫= f) (n ≫= g).
Proof.
  intros Hmn Hfg a (b & Hb & Ha)%bind_Ok. rewrite (Hmn _ Hb). by apply (Hfg b).
Qed.

Lemma rle_foldM {B} (f g : A → B → result A) l a :
  (∀ a b, b ∈ l → rle (f a b) (g a b)) → rle (foldM f a l) (foldM g a l).
Proof.
  revert a; induction l as [|b l IH]; intros a H; csimpl; [done|].
  apply rle_bind; [apply H; by left|]. intros a' _. apply IH.
  intros ???; apply H; by right.
Qed.
End rle.

(** ** Tactics of the development *)

(** Decompose every successful monadic computation among the hypotheses. *)
Ltac inv_ok :=
  repeat match goal with
  | H : (_ ≫= _) = Ok _ |- _ => apply bind_Ok in H as (? & ? & H)
  | H : ensure _ _ = Ok _ |- _ => apply ensure_Ok in H
  | H : from_option_err _ _ = Ok _ |- _ => apply from_option_err_Ok in H
  | H : Error _ = Ok _ |- _ => discriminate H
  | H : Ok _ = Ok _ |- _ => injection H as H; try subst
  | H : mret _ = Ok _ |- _ => injection H as H; try subst
  end.

(** Split boolean conjunctions and reflect [bool_decide]. *)
Ltac inv_bool :=
  repeat match goal with
  | H : (_ && _) = true |- _ => apply andb_true_iff in H as [? ?]
  | H : negb _ = true |- _ => apply negb_true_iff in H
  | H : bool_decide _ = true |- _ => apply bool_decide_eq_true_1 in H
  | H : bool_decide _ = false |- _ => apply bool_decide_eq_false_1 in H
  | H : (_ || _) = false |- _ => apply orb_false_iff in H as [? ?]
  end.

(** Case on the scrutinee of a match or an if in a hypothesis or the goal. *)
Ltac case_match_hyp H :=
  match type of H with
  | context [match ?x with _ => _ end] => destruct x eqn:?
  end.

Ltac inv_ok_match :=
  repeat (inv_ok; match goal with
  | H : match ?x with _ => _ end = Ok _ |- _ => destruct x eqn:?
  end); inv_ok; inv_bool.

(** ** Strings in byte order *)
Definition slt (a b : string) : Prop := String.ltb a b = true.
Infix "<s" := slt (at level 70) : stdpp_scope.

#[global] Instance slt_dec a b : Decision (a <s b).
Proof. unfold slt. apply _. Defined.

Lemma string_compare_refl a : String.compare a a = Eq.
Proof.
  pose proof (String.compare_antisym a a) as H.
  by destruct (String.compare a a).
Qed.

Lemma slt_le a b : a <s b ↔ String.le a b ∧ a ≠ b.
Proof.
  unfold slt, String.ltb, String.le, String.leb. split.
  - intros H; destruct (String.compare a b) eqn:E; try done. split; [done|].
    intros ->. by rewrite string_compare_refl in E.
  - intros [H Hne]. destruct (String.compare a b) eqn:E; try done.
    by apply String.compare_eq_iff in E.
Qed.

#[global] Instance slt_strict : StrictOrder slt.
Proof.
  split.
  - intros a [_ ?]%slt_le. done.
  - intros a b c [H1 H2]%slt_le [H3 H4]%slt_le. apply slt_le. split.
    + by trans b.
    + intros ->. by apply H2, (anti_symm String.le).
Qed.

Lemma slt_irrefl a : ¬ a <s a.
Proof. apply irreflexivity, _. Qed.

Lemma slt_trans a b c : a <s b → b <s c → a <s c.
Proof. apply transitivity. Qed.

Lemma slt_asym a b : a <s b → ¬ b <s a.
Proof. intros H1 H2. exact (slt_irrefl a (slt_trans _ _ _ H1 H2)). Qed.

Lemma slt_total a b : a <s b ∨ a = b ∨ b <s a.
Proof.
  destruct (decide (a = b)) as [->|Hne]; [tauto|].
  destruct (total String.le a b); [left|right; right]; apply slt_le; done.
Qed.

Lemma slt_ne a b : a <s b → a ≠ b.
Proof. by intros [_ ?]%slt_le. Qed.

Create HintDb wip.
#[export] Hint Resolve slt_trans slt_ne : wip.

(** ** Lists *)
Lemma elem_of_NoDup_map_inj {A B} (f : A → B) l x y :
  NoDup (f <$> l) → x ∈ l → y ∈ l → f x = f y → x = y.
Proof.
  induction l as [|z l IH]; [by intros _ ?%elem_of_nil|].
  csimpl. intros [Hz Hnd]%NoDup_cons Hx Hy Hf.
  apply elem_of_cons in Hx, Hy. destruct Hx as [->|Hx], Hy as [->|Hy]; [done| | |by auto].
  - destruct Hz. rewrite Hf. by apply list_elem_of_fmap_2.
  - destruct Hz. rewrite <-Hf. by apply list_elem_of_fmap_2.
Qed.

(** ** Integers *)

(** Or-ing in [k] low bits below a shifted value is addition. *)
Lemma lor_add_low (a d k : Z) :
  (0 ≤ k)%Z → (0 ≤ d < 2 ^ k)%Z → Z.lor (a * 2 ^ k) d = (a * 2 ^ k + d)%Z.
Proof.
  intros Hk Hd.
  assert (Hl : Z.land (a * 2 ^ k) d = 0%Z).
  { apply Z.bits_inj_0; intros j. rewrite Z.land_spec.
    destruct (Z.ltb_spec j 0); [by rewrite Z.testbit_neg_r|].
    destruct (Z.ltb_spec j k); [by rewrite Z.mul_pow2_bits_low|].
    destruct (decide (d = 0%Z)) as [-> |]; [by rewrite Z.bits_0, andb_false_r|].
    rewrite (Z.bits_above_log2 d j), andb_false_r; [done|lia|].
    apply Z.log2_lt_pow2; [lia|].
    apply Z.lt_le_trans with (2 ^ k)%Z; [lia|apply Z.pow_le_mono_r; lia]. }
  symmetry. rewrite Z.add_nocarry_lxor by done. by apply Z.lxor_lor.
Qed.
