(* ===== verification/Ulid.v ===== *)
(** Identities (src/internal/store/ulid.go): the monotonic ULID source, the
    Crockford base-32 rendering of its 16 bytes, the timestamp recovered from a
    rendering, and the shape test.  A byte is a [Z] in [0,256); a [[16]byte] is
    a list of sixteen of them; a uint64 wraps at [2^64]. *)
From S2P Require Import Prelude.
Local Open Scope Z_scope.

Definition IDLen : nat := 26.

Definition crockford : string := "0123456789ABCDEFGHJKMNPQRSTVWXYZ".

(** [crockford[i]]: Go indexes the constant string by a byte. *)
Definition crockford_at (i : Z) : Ascii.ascii :=
  default Ascii.zero (String.get (Z.to_nat i) crockford).

Fixpoint index_of (c : Ascii.ascii) (s : string) (i : Z) : Z :=
  match s with
  | EmptyString => -1
  | String c' s => if bool_decide (c' = c) then i else index_of c s (i + 1)
  end.

Definition crockfordValue (c : Ascii.ascii) : Z := index_of c crockford 0.

(** One bit of [raw], counted from the most significant: the body of the inner
    loop of encodeCrockford. *)
Definition raw_bit (raw : list Z) (bitPos : Z) : Z :=
  let byteIdx := Z.shiftr bitPos 3 in
  let bitIdx := 7 - Z.land bitPos 7 in
  Z.land (Z.shiftr (nth (Z.to_nat byteIdx) raw 0) bitIdx) 1.

Fixpoint digit_loop (n : nat) (raw : list Z) (v bitPos : Z) : Z * Z :=
  match n with
  | O => (v, bitPos)
  | S n =>
      digit_loop n raw
        (Z.lor (Z.shiftl v 1 mod 256) (raw_bit raw bitPos)) (bitPos + 1)
  end.

Fixpoint chars_loop (n : nat) (raw : list Z) (bitPos : Z) : string :=
  match n with
  | O => ""
  | S n =>
      let '(v, bitPos') := digit_loop 5 raw 0 bitPos in
      String (crockford_at v) (chars_loop n raw bitPos')
  end.

Definition encodeCrockford (raw : list Z) : string :=
  String (crockford_at (Z.shiftr (Z.land (nth 0 raw 0) 0xE0) 5))
    (chars_loop 25 raw 3).

(** timeOfID's loop over the first ten characters. *)
Fixpoint time_loop (n : nat) (s : string) (ms : Z) : result Z :=
  match n with
  | O => Ok ms
  | S n =>
      match s with
      | EmptyString => Ok ms
      | String c s =>
          let v := crockfordValue c in
          ensure (negb (v <? 0)) (ERefuse "not a Crockford base32 digit") ;;
          time_loop n s (Z.lor (Z.shiftl ms 5 mod 2 ^ 64) v)
      end
  end.

(** Milliseconds since the epoch. *)
Definition timeOfID (id : string) : result Z :=
  ensure (bool_decide (String.length id = IDLen))
    (ERefuse "not a 26-character identity") ;;
  time_loop 10 id 0.

Fixpoint all_crockford (s : string) : bool :=
  match s with
  | EmptyString => true
  | String c s => negb (crockfordValue c <? 0) && all_crockford s
  end.

Definition IsIdentityShaped (s : string) : bool :=
  bool_decide (String.length s = IDLen) && all_crockford s.

(** ** The source *)
Record idSource := IdSource { lastMS : Z; lastRand : list Z }.

(** newIDSourceWithClock: both fields start at Go's zero value. *)
Definition newIDSource : idSource := IdSource 0 (replicate 10 0).

(** The increment loop, least significant byte first. *)
Fixpoint incr_rev (bs : list Z) : list Z :=
  match bs with
  | [] => []
  | b :: bs =>
      let b' := (b + 1) mod 256 in
      if b' =? 0 then b' :: incr_rev bs else b' :: bs
  end.

Definition incr (bs : list Z) : list Z := rev (incr_rev (rev bs)).

(** binary.BigEndian.PutUint64, low six bytes. *)
Definition ms_bytes (ms : Z) : list Z :=
  (λ k, Z.land (Z.shiftr ms k) 255) <$> [40; 32; 24; 16; 8; 0].

(** [now] is the reading of the clock in milliseconds, [entropy] the ten bytes
    crypto/rand would give; a failed read panics and never returns. *)
Definition next (s : idSource) (now : Z) (entropy : list Z) : idSource * string :=
  let ms := now mod 2 ^ 64 in
  let s' := if lastMS s <? ms then IdSource ms entropy
            else IdSource (lastMS s) (incr (lastRand s)) in
  (s', encodeCrockford (ms_bytes (lastMS s') ++ lastRand s')).

(** ** Numeric reading of the bytes *)
Definition is_byte (b : Z) : Prop := 0 <= b < 256.

Fixpoint be (bs : list Z) : Z :=
  match bs with
  | [] => 0
  | b :: bs => b * 2 ^ (8 * Z.of_nat (length bs)) + be bs
  end.

(** The 26 base-32 digits of a number below [2^130], most significant first. *)
Fixpoint digits32 (n : nat) (v : Z) : list Z :=
  match n with
  | O => []
  | S n => (v / 32 ^ Z.of_nat n) mod 32 :: digits32 n v
  end.

Fixpoint render32 (ds : list Z) : string :=
  match ds with
  | [] => ""
  | d :: ds => String (crockford_at d) (render32 ds)
  end.

Lemma be_bound bs : Forall is_byte bs → 0 <= be bs < 2 ^ (8 * Z.of_nat (length bs)).
Proof.
  induction 1 as [|b bs Hb _ IH]; simpl; [lia|]. unfold is_byte in Hb.
  replace (8 * Z.of_nat (S (length bs))) with (8 + 8 * Z.of_nat (length bs)) by lia.
  rewrite Z.pow_add_r by lia. change (2 ^ 8) with 256. nia.
Qed.

Lemma be_app a b : be (a ++ b) = be a * 2 ^ (8 * Z.of_nat (length b)) + be b.
Proof.
  induction a as [|x a IH]; simpl; [done|]. rewrite IH, length_app.
  replace (8 * Z.of_nat (length a + length b))
    with (8 * Z.of_nat (length a) + 8 * Z.of_nat (length b)) by lia.
  rewrite Z.pow_add_r by lia. ring.
Qed.

(** Shifting out whole trailing bytes. *)
Lemma be_shift_tail bs k :
  Forall is_byte bs → (k < length bs)%nat →
  Z.shiftr (be bs) (8 * Z.of_nat (length bs - S k)) mod 256 = nth k bs 0.
Proof.
  intros H Hk. destruct (lookup_lt_is_Some_2 bs k Hk) as [b Hb].
  rewrite (nth_lookup bs k 0), Hb. simpl.
  assert (Hsplit := take_drop_middle bs k b Hb).
  rewrite <-Hsplit, !be_app. simpl.
  assert (is_byte b) by (by eapply Forall_lookup_1).
  assert (Hl : length (drop (S k) bs) = (length bs - S k)%nat) by apply length_drop.
  rewrite length_app. simpl. rewrite Hl, length_take, Nat.min_l by lia.
  replace (k + S (length bs - S k) - S k)%nat with (length bs - S k)%nat by lia.
  set (m := 8 * Z.of_nat (length bs - S k)).
  replace (8 * Z.of_nat (S (length bs - S k))) with (8 + m) by (unfold m; lia).
  pose proof (be_bound (drop (S k) bs) ltac:(by apply Forall_drop)) as Hd.
  rewrite Hl in Hd. fold m in Hd.
  rewrite Z.shiftr_div_pow2 by (unfold m; lia). rewrite Z.pow_add_r by (unfold m; lia).
  replace (be (take k bs) * (2 ^ 8 * 2 ^ m) + (b * 2 ^ m + be (drop (S k) bs)))
    with ((be (take k bs) * 256 + b) * 2 ^ m + be (drop (S k) bs))
    by (change (2 ^ 8) with 256; ring).
  rewrite Z.div_add_l by lia. rewrite (Z.div_small (be _)) by lia.
  rewrite Z.add_0_r, Z.add_comm, Z.mod_add by lia.
  apply Z.mod_small. done.
Qed.

Lemma raw_bit_spec raw p :
  Forall is_byte raw → 0 <= p < 8 * Z.of_nat (length raw) →
  raw_bit raw p = (be raw / 2 ^ (8 * Z.of_nat (length raw) - 1 - p)) mod 2.
Proof.
  intros H Hp. unfold raw_bit.
  change 7 with (Z.ones 3) at 2. rewrite (Z.land_ones p), (Z.shiftr_div_pow2 p 3) by lia.
  change (2 ^ 3) with 8. change 1 with (Z.ones 1) at 1. rewrite Z.land_ones by lia.
  set (k := Z.to_nat (p / 8)).
  assert (Hk : Z.of_nat k = p / 8) by (unfold k; rewrite Z2Nat.id; [done|apply Z.div_pos; lia]).
  pose proof (Z.div_mod p 8 ltac:(lia)) as Hdm. pose proof (Z.mod_pos_bound p 8 ltac:(lia)).
  rewrite <-(be_shift_tail raw k H) by lia.
  rewrite !Z.shiftr_div_pow2 by lia. change (2 ^ 1) with 2.
  set (q := 7 - p mod 8). set (m := 8 * Z.of_nat (length raw - S k)).
  replace (8 * Z.of_nat (length raw) - 1 - p) with (m + q) by (unfold m, q; lia).
  rewrite Z.pow_add_r by (unfold m, q; lia). rewrite <-Z.div_div by (unfold m, q; lia).
  set (x := be raw / 2 ^ m).
  change 256 with (2 ^ 8). replace 8 with (q + (8 - q)) at 1 by lia.
  rewrite Z.pow_add_r by (unfold q; lia).
  rewrite Z.rem_mul_r by (unfold q; lia).
  rewrite (Z.mul_comm (2 ^ q)), Z.div_add by (unfold q; lia).
  rewrite (Z.div_small (x mod 2 ^ q)) by (apply Z.mod_pos_bound; unfold q; lia).
  rewrite Z.add_0_l. replace (8 - q) with (1 + (7 - q)) by lia.
  rewrite Z.pow_add_r, Z.pow_1_r by (unfold q; lia).
  rewrite Z.rem_mul_r by (unfold q; lia).
  rewrite (Z.mul_comm 2 (_ mod _)), Z.mod_add by lia. by rewrite Z.mod_mod by lia.
Qed.

(** Accumulating [n] bits starting at [p] appends them to [v]. *)
Lemma digit_loop_spec n raw v p :
  Forall is_byte raw → 0 <= p → p + Z.of_nat n <= 8 * Z.of_nat (length raw) →
  (n <= 5)%nat → 0 <= v → (v + 1) * 2 ^ Z.of_nat n <= 128 →
  let L := 8 * Z.of_nat (length raw) in
  digit_loop n raw v p =
    (v * 2 ^ Z.of_nat n
       + (be raw / 2 ^ (L - p - Z.of_nat n)) mod 2 ^ Z.of_nat n, p + Z.of_nat n).
Proof.
  intros H. revert v p. induction n as [|n IH]; intros v p Hp Hb Hn Hv Hs L; cbn [digit_loop].
  { change (2 ^ Z.of_nat 0) with 1. rewrite Z.mod_1_r. f_equal; lia. }
  assert (Hp2 : 2 ^ Z.of_nat (S n) = 2 * 2 ^ Z.of_nat n).
  { rewrite Nat2Z.inj_succ, Z.pow_succ_r; lia. }
  assert (0 < 2 ^ Z.of_nat n) by (apply Z.pow_pos_nonneg; lia).
  rewrite raw_bit_spec by (done || lia). fold L.
  set (b := (be raw / 2 ^ (L - 1 - p)) mod 2).
  assert (Hb2 : 0 <= b < 2) by (apply Z.mod_pos_bound; lia).
  rewrite Z.shiftl_mul_pow2 by lia. change (2 ^ 1) with 2.
  rewrite (Z.mod_small (v * 2)) by nia.
  assert (Hor : Z.lor (v * 2) b = v * 2 + b).
  { apply (lor_add_low v b 1); lia. }
  rewrite Hor, IH by (lia || nia). fold L. f_equal; [|lia].
  replace (L - (p + 1) - Z.of_nat n) with (L - p - Z.of_nat (S n)) by lia.
  set (x := be raw / 2 ^ (L - p - Z.of_nat (S n))).
  rewrite Hp2, (Z.mul_comm 2 (2 ^ _)), Z.rem_mul_r by lia.
  unfold b. replace (L - 1 - p) with ((L - p - Z.of_nat (S n)) + Z.of_nat n) by lia.
  rewrite Z.pow_add_r by lia. rewrite <-Z.div_div by (apply Z.pow_nonzero || apply Z.pow_pos_nonneg; lia).
  fold x. ring.
Qed.

Lemma chars_loop_spec n raw p :
  Forall is_byte raw → 0 <= p → p + 5 * Z.of_nat n = 8 * Z.of_nat (length raw) →
  chars_loop n raw p = render32 (digits32 n (be raw)).
Proof.
  intros H. revert p. induction n as [|n IH]; intros p Hp Hb; [done|].
  cbn [chars_loop]. rewrite digit_loop_spec by (done || lia).
  cbn [digits32 render32]. rewrite IH by lia. do 2 f_equal.
  rewrite Z.mul_0_l, Z.add_0_l. change (2 ^ Z.of_nat 5) with 32.
  replace (8 * Z.of_nat (length raw) - p - Z.of_nat 5) with (5 * Z.of_nat n) by lia.
  by rewrite Z.pow_mul_r by lia.
Qed.

(** The rendering is the big-endian value in base 32, 26 digits. *)
Lemma encodeCrockford_render raw :
  Forall is_byte raw → length raw = 16%nat →
  encodeCrockford raw = render32 (digits32 26 (be raw)).
Proof.
  intros H Hl. unfold encodeCrockford.
  change (render32 (digits32 26 (be raw))) with
    (String (crockford_at ((be raw / 32 ^ Z.of_nat 25) mod 32)) (render32 (digits32 25 (be raw)))).
  rewrite <-(chars_loop_spec 25 raw 3) by (done || lia). do 2 f_equal.
  pose proof (be_shift_tail raw 0 H ltac:(lia)) as H0. rewrite Hl in H0.
  rewrite <-H0. pose proof (be_bound raw H) as Hbd. rewrite Hl in Hbd.
  change 0xE0 with (Z.shiftl (Z.ones 3) 5).
  rewrite Z.shiftr_land, Z.shiftr_shiftl_l by lia. change (5 - 5) with 0.
  rewrite Z.shiftl_0_r, Z.land_ones, !Z.shiftr_div_pow2 by lia.
  change (8 * Z.of_nat (16 - 1)) with 120. 
  change (32 ^ Z.of_nat 25) with (2 ^ 120 * 2 ^ 5).
  rewrite <-Z.div_div by lia. set (x := be raw / 2 ^ 120).
  assert (Hx : 0 <= x < 256).
  { unfold x. change (8 * Z.of_nat 16) with 128 in Hbd. split; [apply Z.div_pos; lia|].
    apply Z.div_lt_upper_bound; lia. }
  rewrite (Z.mod_small x 256) by lia. change (2 ^ 5) with 32. change (2 ^ 3) with 8.
  assert (0 <= x / 32 < 8) by (split; [apply Z.div_pos; lia|apply Z.div_lt_upper_bound; lia]).
  by rewrite !Z.mod_small by lia.
Qed.

(** ** Base-32 digit strings: shape, order and value *)
Definition is_digit (d : Z) : Prop := 0 <= d < 32.

Lemma digits32_length n v : length (digits32 n v) = n.
Proof. induction n; simpl; congruence. Qed.

Lemma digits32_digit n v : Forall is_digit (digits32 n v).
Proof. induction n; constructor; [|done]. apply Z.mod_pos_bound; lia. Qed.

Lemma render32_length ds : String.length (render32 ds) = length ds.
Proof. induction ds; simpl; congruence. Qed.

(** Facts about the 32 characters, checked one by one. *)
Definition all_digits : list Z := Z.of_nat <$> seq 0 32.

Lemma all_digits_spec d : is_digit d → d ∈ all_digits.
Proof.
  intros Hd. unfold all_digits. apply list_elem_of_fmap. exists (Z.to_nat d).
  split; [unfold is_digit in Hd; lia|]. apply elem_of_seq. unfold is_digit in Hd. lia.
Qed.

Lemma crockfordValue_at d : is_digit d → crockfordValue (crockford_at d) = d.
Proof.
  intros H%all_digits_spec. revert d H. apply Forall_forall.
  apply (bool_decide_unpack _). vm_compute. exact I.
Qed.

Lemma crockford_at_compare d e : is_digit d → is_digit e →
  Ascii.compare (crockford_at d) (crockford_at e) = Z.compare d e.
Proof.
  intros Hd%all_digits_spec He%all_digits_spec. revert d Hd e He.
  assert (Forall (λ d, Forall (λ e, Ascii.compare (crockford_at d) (crockford_at e)
    = Z.compare d e) all_digits) all_digits) as H.
  { apply (bool_decide_unpack _). vm_compute. exact I. }
  intros d Hd e He. rewrite Forall_forall in H.
  by apply (proj1 (Forall_forall _ _) (H d Hd)).
Qed.

Lemma render32_shape ds : Forall is_digit ds → all_crockford (render32 ds) = true.
Proof.
  induction 1 as [|d ds Hd _ IH]; [done|]. cbn [render32 all_crockford].
  rewrite IH, crockfordValue_at by done. unfold is_digit in Hd.
  rewrite (proj2 (Z.ltb_ge d 0)); [done|lia].
Qed.

Lemma string_compare_cons a s b t :
  String.compare (String a s) (String b t) =
    match Ascii.compare a b with Eq => String.compare s t | c => c end.
Proof. done. Qed.

Lemma render32_compare n v w :
  String.compare (render32 (digits32 n v)) (render32 (digits32 n w)) =
    Z.compare (v mod 32 ^ Z.of_nat n) (w mod 32 ^ Z.of_nat n).
Proof.
  induction n as [|n IH].
  { cbn. by rewrite !Z.mod_1_r. }
  cbn [digits32 render32]. rewrite string_compare_cons, crockford_at_compare, IH
    by (apply Z.mod_pos_bound; lia).
  set (M := 32 ^ Z.of_nat n). assert (0 < M) by (apply Z.pow_pos_nonneg; lia).
  replace (32 ^ Z.of_nat (S n)) with (M * 32)
    by (unfold M; rewrite Nat2Z.inj_succ, Z.pow_succ_r; lia).
  rewrite !Z.rem_mul_r by lia.
  pose proof (Z.mod_pos_bound v M ltac:(lia)). pose proof (Z.mod_pos_bound w M ltac:(lia)).
  set (a := (v / M) mod 32). set (b := (w / M) mod 32).
  destruct (Z.compare_spec a b) as [-> |Hlt|Hgt].
  - destruct (Z.compare_spec (v mod M) (w mod M)); symmetry;
      [apply Z.compare_eq_iff|apply Z.compare_lt_iff|apply Z.compare_gt_iff]; lia.
  - symmetry. apply Z.compare_lt_iff. nia.
  - symmetry. apply Z.compare_gt_iff. nia.
Qed.

Lemma encodeCrockford_compare raw1 raw2 :
  Forall is_byte raw1 → Forall is_byte raw2 →
  length raw1 = 16%nat → length raw2 = 16%nat →
  String.compare (encodeCrockford raw1) (encodeCrockford raw2) =
    Z.compare (be raw1) (be raw2).
Proof.
  intros H1 H2 L1 L2. rewrite !encodeCrockford_render, render32_compare by done.
  pose proof (be_bound raw1 H1) as B1. pose proof (be_bound raw2 H2) as B2.
  rewrite L1 in B1. rewrite L2 in B2. rewrite !Z.mod_small; [done| |];
    change (32 ^ Z.of_nat 26) with (2 ^ 130); change (8 * Z.of_nat 16) with 128 in *;
    assert (2 ^ 128 < 2 ^ 130) by (apply Z.pow_lt_mono_r; lia); lia.
Qed.

Lemma encodeCrockford_lt raw1 raw2 :
  Forall is_byte raw1 → Forall is_byte raw2 →
  length raw1 = 16%nat → length raw2 = 16%nat →
  encodeCrockford raw1 <s encodeCrockford raw2 ↔ be raw1 < be raw2.
Proof.
  intros. unfold slt, String.ltb. rewrite encodeCrockford_compare by done.
  by destruct (Z.compare_spec (be raw1) (be raw2)); split; (done || lia).
Qed.

Lemma encodeCrockford_shaped raw :
  Forall is_byte raw → length raw = 16%nat →
  IsIdentityShaped (encodeCrockford raw) = true.
Proof.
  intros H Hl. unfold IsIdentityShaped. rewrite encodeCrockford_render by done.
  rewrite render32_length, digits32_length, render32_shape by apply digits32_digit.
  done.
Qed.

(** ** The timestamp half *)
Fixpoint horner (ds : list Z) (acc : Z) : Z :=
  match ds with [] => acc | d :: ds => horner ds (acc * 32 + d) end.

Lemma time_loop_render k ds acc :
  Forall is_digit ds → (k <= length ds)%nat → 0 <= acc →
  (acc + 1) * 32 ^ Z.of_nat k <= 2 ^ 64 →
  time_loop k (render32 ds) acc = Ok (horner (take k ds) acc).
Proof.
  revert ds acc. induction k as [|k IH]; intros ds acc Hds Hk Ha Hb; [done|].
  destruct ds as [|d ds]; [simpl in Hk; lia|]. inversion Hds as [|? ? Hd Hds']; subst.
  cbn [render32 time_loop take horner]. rewrite crockfordValue_at by done.
  unfold is_digit in Hd. rewrite (proj2 (Z.ltb_ge d 0)) by lia. csimpl.
  rewrite Nat2Z.inj_succ, Z.pow_succ_r in Hb by lia.
  assert (0 < 32 ^ Z.of_nat k) by (apply Z.pow_pos_nonneg; lia).
  rewrite Z.shiftl_mul_pow2 by lia. change (2 ^ 5) with 32.
  rewrite (Z.mod_small (acc * 32)) by nia.
  assert (Z.lor (acc * 32) d = acc * 32 + d) as ->.
  { apply (lor_add_low acc d 5); lia. }
  apply IH; simpl in *; (done || lia || nia).
Qed.

Lemma horner_digits32 j n v acc :
  (j <= n)%nat → 0 <= v →
  horner (take j (digits32 n v)) acc =
    acc * 32 ^ Z.of_nat j + (v / 32 ^ Z.of_nat (n - j)) mod 32 ^ Z.of_nat j.
Proof.
  revert n acc. induction j as [|j IH]; intros n acc Hj Hv.
  { simpl. rewrite Z.mod_1_r. lia. }
  destruct n as [|n]; [lia|]. cbn [digits32 take horner]. rewrite IH by lia.
  replace (S n - S j)%nat with (n - j)%nat by lia.
  rewrite (Nat2Z.inj_succ j), Z.pow_succ_r by lia.
  set (P := 32 ^ Z.of_nat j). assert (0 < P) by (apply Z.pow_pos_nonneg; lia).
  rewrite (Z.mul_comm 32 P) at 2. rewrite (Z.rem_mul_r _ P 32) by lia.
  rewrite Z.div_div by (try apply Z.pow_nonzero; lia).
  replace (32 ^ Z.of_nat (n - j) * P) with (32 ^ Z.of_nat n)
    by (unfold P; rewrite <-Z.pow_add_r by lia; f_equal; lia).
  lia.
Qed.

Lemma timeOfID_encode raw :
  Forall is_byte raw → length raw = 16%nat →
  timeOfID (encodeCrockford raw) = Ok (be (take 6 raw)).
Proof.
  intros H Hl. unfold timeOfID. rewrite encodeCrockford_render by done.
  rewrite render32_length, digits32_length, bool_decide_true by done.
  cbn [ensure mbind result_bind].
  pose proof (be_bound raw H) as Hb. rewrite Hl in Hb.
  rewrite time_loop_render by (try apply digits32_digit; rewrite ?digits32_length; lia).
  f_equal. rewrite horner_digits32 by lia.
  rewrite <-(take_drop 6 raw) at 1. rewrite be_app, length_drop, Hl.
  pose proof (be_bound (drop 6 raw) ltac:(by apply Forall_drop)) as Hd.
  pose proof (be_bound (take 6 raw) ltac:(by apply Forall_take)) as Ht.
  rewrite length_drop, Hl in Hd. rewrite length_take, Hl in Ht.
  change (32 ^ Z.of_nat (26 - 10)) with (2 ^ (8 * Z.of_nat (16 - 6))).
  rewrite Z.div_add_l, (Z.div_small (be (drop 6 raw))) by lia.
  rewrite Z.add_0_r, Z.mod_small; [lia|].
  change (32 ^ Z.of_nat 10) with (2 ^ 50). change (8 * Z.of_nat (6 `min` 16)) with 48 in Ht.
  assert (2 ^ 48 < 2 ^ 50) by (apply Z.pow_lt_mono_r; lia). lia.
Qed.

(** ** The increment and the source *)
Fixpoint le (bs : list Z) : Z :=
  match bs with [] => 0 | b :: bs => b + 256 * le bs end.

Lemma le_app a b : le (a ++ b) = le a + 2 ^ (8 * Z.of_nat (length a)) * le b.
Proof.
  induction a as [|x a IH]; cbn [app le length]; [simpl; lia|].
  rewrite IH. replace (8 * Z.of_nat (S (length a))) with (8 + 8 * Z.of_nat (length a)) by lia.
  rewrite Z.pow_add_r by lia. change (2 ^ 8) with 256. ring.
Qed.

Lemma le_rev bs : le (rev bs) = be bs.
Proof.
  induction bs as [|b bs IH]; simpl; [done|]. rewrite le_app, IH, length_rev. simpl. lia.
Qed.

Lemma be_rev bs : be (rev bs) = le bs.
Proof. by rewrite <-le_rev, rev_involutive. Qed.

Lemma incr_rev_length bs : length (incr_rev bs) = length bs.
Proof. induction bs as [|b bs IH]; simpl; [done|]. case_match; simpl; congruence. Qed.

Lemma incr_rev_byte bs : Forall is_byte bs → Forall is_byte (incr_rev bs).
Proof.
  induction 1 as [|b bs Hb Hbs IH]; simpl; [done|].
  assert (is_byte ((b + 1) mod 256)) by (apply Z.mod_pos_bound; lia).
  case_match; by constructor.
Qed.

Lemma incr_rev_le bs : Forall is_byte bs →
  le (incr_rev bs) = (le bs + 1) mod 2 ^ (8 * Z.of_nat (length bs)).
Proof.
  intros H. assert (B : ∀ l, Forall is_byte l → 0 <= le l < 2 ^ (8 * Z.of_nat (length l))).
  { intros l Hl. rewrite <-be_rev, <-length_rev. by apply be_bound, Forall_rev. }
  induction H as [|b bs Hb Hbs IH]; [done|]. unfold is_byte in Hb.
  pose proof (B bs Hbs) as Hbd. cbn [incr_rev le length].
  replace (8 * Z.of_nat (S (length bs))) with (8 + 8 * Z.of_nat (length bs)) by lia.
  rewrite Z.pow_add_r by lia. change (2 ^ 8) with 256.
  set (M := 2 ^ _) in *. assert (0 < M) by lia.
  destruct (Z.eqb_spec ((b + 1) mod 256) 0) as [E|E].
  - assert (b = 255) as ->.
    { destruct (decide (b = 255)); [done|]. rewrite Z.mod_small in E by lia. lia. }
    cbn [le]. rewrite IH. change ((255 + 1) mod 256) with 0.
    replace (255 + 256 * le bs + 1) with (256 * (le bs + 1)) by ring.
    rewrite Z.mul_mod_distr_l by lia. lia.
  - assert (b < 255).
    { destruct (decide (b = 255)) as [-> |]; [done|lia]. }
    cbn [le]. rewrite !Z.mod_small by lia. lia.
Qed.

Lemma incr_length bs : length (incr bs) = length bs.
Proof. unfold incr. by rewrite length_rev, incr_rev_length, length_rev. Qed.

Lemma incr_byte bs : Forall is_byte bs → Forall is_byte (incr bs).
Proof. intros H. by apply Forall_rev, incr_rev_byte, Forall_rev. Qed.

Lemma incr_be bs : Forall is_byte bs →
  be (incr bs) = (be bs + 1) mod 2 ^ (8 * Z.of_nat (length bs)).
Proof.
  intros H. unfold incr. rewrite be_rev, incr_rev_le by (by apply Forall_rev).
  by rewrite le_rev, length_rev.
Qed.

Lemma ms_bytes_byte ms : Forall is_byte (ms_bytes ms).
Proof.
  apply Forall_fmap, Forall_forall. intros k _. unfold compose.
  change 255 with (Z.ones 8). rewrite Z.land_ones by lia. by apply Z.mod_pos_bound.
Qed.

Lemma ms_bytes_be ms : be (ms_bytes ms) = ms mod 2 ^ 48.
Proof.
  cbn [ms_bytes fmap list_fmap be length]. change 255 with (Z.ones 8).
  rewrite !Z.land_ones, !Z.shiftr_div_pow2 by lia. simpl Z.of_nat.
  change (8 * 5) with 40. change (8 * 4) with 32. change (8 * 3) with 24.
  change (8 * 2) with 16. change (8 * 1) with 8. change (8 * 0) with 0.
  change (2 ^ 8) with 256. change (2 ^ 0) with 1. rewrite Z.div_1_r.
  pose proof (Z.rem_mul_r ms (2 ^ 40) 256 ltac:(done) ltac:(done)) as H1.
  pose proof (Z.rem_mul_r ms (2 ^ 32) 256 ltac:(done) ltac:(done)) as H2.
  pose proof (Z.rem_mul_r ms (2 ^ 24) 256 ltac:(done) ltac:(done)) as H3.
  pose proof (Z.rem_mul_r ms (2 ^ 16) 256 ltac:(done) ltac:(done)) as H4.
  pose proof (Z.rem_mul_r ms 256 256 ltac:(done) ltac:(done)) as H5.
  change (2 ^ 40 * 256) with (2 ^ 48) in H1. change (2 ^ 32 * 256) with (2 ^ 40) in H2.
  change (2 ^ 24 * 256) with (2 ^ 32) in H3. change (2 ^ 16 * 256) with (2 ^ 24) in H4.
  change (256 * 256) with (2 ^ 16) in H5. lia.
Qed.

(** A source whose fields are a uint64 and ten bytes. *)
Definition source_wf (s : idSource) : Prop :=
  0 <= lastMS s < 2 ^ 64 ∧ Forall is_byte (lastRand s) ∧ length (lastRand s) = 10%nat.

Definition entropy_wf (e : list Z) : Prop := Forall is_byte e ∧ length e = 10%nat.

(** The 128-bit value and the identity a source renders. *)
Definition source_value (s : idSource) : Z := lastMS s mod 2 ^ 48 * 2 ^ 80 + be (lastRand s).

Definition source_raw (s : idSource) : list Z := ms_bytes (lastMS s) ++ lastRand s.

Lemma source_raw_wf s : source_wf s →
  Forall is_byte (source_raw s) ∧ length (source_raw s) = 16%nat.
Proof.
  intros (_ & Hb & Hl). split; [apply Forall_app; split; [apply ms_bytes_byte|done]|].
  unfold source_raw. by rewrite length_app, Hl.
Qed.

Lemma source_raw_be s : source_wf s → be (source_raw s) = source_value s.
Proof. intros (_ & _ & Hl). unfold source_raw. by rewrite be_app, ms_bytes_be, Hl. Qed.

Lemma next_id s now e : (next s now e).2 = encodeCrockford (source_raw (next s now e).1).
Proof. done. Qed.

Lemma next_wf s now e : source_wf s → entropy_wf e → source_wf (next s now e).1.
Proof.
  intros (? & ? & ?) (? & ?). unfold next. cbn [fst].
  case_match; split_and!; cbn [lastMS lastRand]; try done;
    try (by apply Z.mod_pos_bound); try (by apply incr_byte); try (by rewrite incr_length).
  all: pose proof (Z.mod_pos_bound now (2 ^ 64)); lia.
Qed.

Lemma newIDSource_wf : source_wf newIDSource.
Proof. split_and!; try done. by apply Forall_replicate. Qed.

Lemma be_all_ones bs : Forall is_byte bs →
  be bs = 2 ^ (8 * Z.of_nat (length bs)) - 1 ↔ bs = replicate (length bs) 255.
Proof.
  induction 1 as [|b bs Hb Hbs IH]; [done|]. cbn [be length replicate].
  pose proof (be_bound bs Hbs) as Hbd. unfold is_byte in Hb.
  replace (8 * Z.of_nat (S (length bs))) with (8 + 8 * Z.of_nat (length bs)) by lia.
  rewrite Z.pow_add_r by lia. change (2 ^ 8) with 256. set (M := 2 ^ _) in *. split.
  - intros E. assert (b = 255) by nia. f_equal; [done|]. apply IH. nia.
  - intros [= -> E]. rewrite (proj2 IH E). lia.
Qed.

(** What one draw does to the 128-bit value the source holds. *)
Lemma next_value s now e :
  source_wf s → entropy_wf e →
  source_value (next s now e).1 =
    if lastMS s <? now mod 2 ^ 64
    then now mod 2 ^ 48 * 2 ^ 80 + be e
    else lastMS s mod 2 ^ 48 * 2 ^ 80 + (be (lastRand s) + 1) mod 2 ^ 80.
Proof.
  intros (_ & Hr & Hl) _. unfold next. cbn [fst]. case_match; unfold source_value; cbn.
  - f_equal. f_equal. change (2 ^ 64) with (2 ^ 48 * 2 ^ 16).
    by rewrite Z.rem_mul_r, (Z.mul_comm (2 ^ 48)), Z.mod_add, Z.mod_mod by lia.
  - by rewrite incr_be, Hl by done.
Qed.

Lemma source_lt s s' : source_wf s → source_wf s' →
  encodeCrockford (source_raw s) <s encodeCrockford (source_raw s')
    ↔ source_value s < source_value s'.
Proof.
  intros H H'. destruct (source_raw_wf s H), (source_raw_wf s' H').
  by rewrite encodeCrockford_lt, !source_raw_be.
Qed.

(** Before the 48-bit timestamp runs out, the drawn identity is above the last
    one exactly unless the clock has not moved and the random half is all ones. *)
Lemma next_ascends_iff s now e :
  source_wf s → entropy_wf e →
  lastMS s < 2 ^ 48 → now mod 2 ^ 64 < 2 ^ 48 →
  encodeCrockford (source_raw s) <s (next s now e).2 ↔
    ¬ (now mod 2 ^ 64 <= lastMS s ∧ lastRand s = replicate 10 255).
Proof.
  intros Hs He Hms Hnow. rewrite next_id, source_lt, next_value by eauto using next_wf.
  destruct Hs as (H0 & Hr & Hl), He as (He & Hel).
  pose proof (be_bound e He) as Be. pose proof (be_bound _ Hr) as Br.
  pose proof (be_all_ones _ Hr) as Ho. rewrite Hl in Ho, Br. rewrite Hel in Be.
  change (8 * Z.of_nat 10) with 80 in *. unfold source_value.
  rewrite (Z.mod_small (lastMS s)) by lia.
  destruct (Z.ltb_spec (lastMS s) (now mod 2 ^ 64)) as [Hlt|Hge].
  - assert (now mod 2 ^ 48 = now mod 2 ^ 64) as ->.
    { rewrite <-(Z.mod_small (now mod 2 ^ 64) (2 ^ 48)) by (split; [apply Z.mod_pos_bound|]; lia).
      change (2 ^ 64) with (2 ^ 48 * 2 ^ 16).
      by rewrite Z.rem_mul_r, (Z.mul_comm (2 ^ 48) (_ mod _)), Z.mod_add, Z.mod_mod by lia. }
    split; [lia|]. nia.
  - destruct (decide (be (lastRand s) = 2 ^ 80 - 1)) as [E|E].
    + rewrite E at 2. replace (2 ^ 80 - 1 + 1) with (1 * 2 ^ 80) by lia.
      rewrite Z.mod_mul by lia. split; [lia|]. intros []. split; [lia|by apply Ho].
    + rewrite Z.mod_small by lia. split; [|lia]. intros _ [_ ?%Ho]. done.
Qed.
