(* ===== verification/GoStd.v ===== *)
(** The parts of Go's standard library the store's behaviour depends on, over
    Go strings and []byte as byte sequences: crypto/sha256, encoding/hex,
    encoding/base64 (StdEncoding), strings.TrimSpace and the UTF-8 coercion
    encoding/json applies to strings. *)
From S2P Require Import Prelude.
Local Open Scope Z_scope.

Definition byte_of (c : Ascii.ascii) : Z := Z.of_N (Ascii.N_of_ascii c).
Definition ascii_of (z : Z) : Ascii.ascii := Ascii.ascii_of_N (Z.to_N z).

Fixpoint bytes_of (s : string) : list Z :=
  match s with EmptyString => [] | String c s => byte_of c :: bytes_of s end.

Fixpoint string_of (bs : list Z) : string :=
  match bs with [] => "" | b :: bs => String (ascii_of b) (string_of bs) end.

Lemma byte_of_bound c : 0 <= byte_of c < 256.
Proof. unfold byte_of. pose proof (Ascii.N_ascii_bounded c). lia. Qed.

Lemma ascii_byte c : ascii_of (byte_of c) = c.
Proof. unfold ascii_of, byte_of. rewrite N2Z.id. apply Ascii.ascii_N_embedding. Qed.

Lemma byte_ascii z : 0 <= z < 256 → byte_of (ascii_of z) = z.
Proof.
  intros H. unfold ascii_of, byte_of. rewrite Ascii.N_ascii_embedding by lia. lia.
Qed.

Lemma string_bytes s : string_of (bytes_of s) = s.
Proof. induction s as [|c s IH]; cbn; [done|]. by rewrite ascii_byte, IH. Qed.

Lemma bytes_of_length s : length (bytes_of s) = String.length s.
Proof. induction s; cbn; congruence. Qed.

Lemma bytes_of_bound s : Forall (λ b, 0 <= b < 256) (bytes_of s).
Proof. induction s; constructor; [apply byte_of_bound|done]. Qed.

(** ** crypto/sha256 *)
Module Sha256.

Definition add32 (a b : Z) : Z := (a + b) mod 2 ^ 32.
Definition rotr (x n : Z) : Z :=
  Z.lor (Z.shiftr x n) (Z.shiftl x (32 - n) mod 2 ^ 32).
Definition not32 (x : Z) : Z := Z.lxor x 0xffffffff.

(** The constants are the first thirty-two bits of the fractional parts of the
    roots of the first primes; [root k v] is the integer k-th root of [v], one bit
    at a time from bit [b] down. *)
Fixpoint root (k : Z) (b : nat) (acc v : Z) : Z :=
  let try := acc + Z.shiftl 1 (Z.of_nat b) in
  let acc := if try ^ k <=? v then try else acc in
  match b with O => acc | S b => root k b acc v end.

Definition is_prime (n : Z) : bool :=
  forallb (λ d, negb (n mod d =? 0)) (seqZ 2 (n - 2)).

Definition primes (n : nat) : list Z := take n (filter (λ p, is_prime p = true) (seqZ 2 310)).

(** The cube roots of the first sixty-four primes. *)
Definition K : list Z :=
  Eval vm_compute in (λ p, root 3 36 0 (Z.shiftl p 96) mod 2 ^ 32) <$> primes 64.

(** The square roots of the first eight. *)
Definition H0 : list Z :=
  Eval vm_compute in (λ p, root 2 36 0 (Z.shiftl p 64) mod 2 ^ 32) <$> primes 8.

(** The low [n] bytes of [z], most significant first. *)
Fixpoint be_bytes (n : nat) (z : Z) : list Z :=
  match n with
  | O => []
  | S n => Z.land (Z.shiftr z (8 * Z.of_nat n)) 255 :: be_bytes n z
  end.

Definition be_word (bs : list Z) : Z := fold_left (λ acc b, acc * 256 + b) bs 0.

Definition pad (m : list Z) : list Z :=
  let len := Z.of_nat (length m) in
  let zeros := Z.to_nat ((55 - len) mod 64) in
  m ++ 0x80 :: replicate zeros 0 ++ be_bytes 8 (len * 8).

(** The message schedule, newest word first. *)
Fixpoint extend (n : nat) (w : list Z) : list Z :=
  match n with
  | O => w
  | S n =>
      let x := nth 14 w 0 in let y := nth 1 w 0 in
      let s0 := Z.lxor (Z.lxor (rotr x 7) (rotr x 18)) (Z.shiftr x 3) in
      let s1 := Z.lxor (Z.lxor (rotr y 17) (rotr y 19)) (Z.shiftr y 10) in
      extend n (add32 (add32 (nth 15 w 0) s0) (add32 (nth 6 w 0) s1) :: w)
  end.

Definition round (st : list Z) (kw : Z * Z) : list Z :=
  match st with
  | [a; b; c; d; e; f; g; h] =>
      let s1 := Z.lxor (Z.lxor (rotr e 6) (rotr e 11)) (rotr e 25) in
      let ch := Z.lxor (Z.land e f) (Z.land (not32 e) g) in
      let t1 := add32 (add32 (add32 h s1) ch) (add32 kw.1 kw.2) in
      let s0 := Z.lxor (Z.lxor (rotr a 2) (rotr a 13)) (rotr a 22) in
      let maj := Z.lxor (Z.lxor (Z.land a b) (Z.land a c)) (Z.land b c) in
      [add32 t1 (add32 s0 maj); a; b; c; add32 d t1; e; f; g]
  | _ => st
  end.

Fixpoint words (n : nat) (bs : list Z) : list Z :=
  match n with O => [] | S n => be_word (take 4 bs) :: words n (drop 4 bs) end.

Definition compress (st block : list Z) : list Z :=
  let w := rev (extend 48 (rev (words 16 block))) in
  zip_with add32 st (fold_left round (zip K w) st).

Fixpoint blocks (n : nat) (bs st : list Z) : list Z :=
  match n with
  | O => st
  | S n => blocks n (drop 64 bs) (compress st (take 64 bs))
  end.

(** sha256.Sum256 *)
Definition sum (data : string) : list Z :=
  let m := pad (bytes_of data) in
  concat (be_bytes 4 <$> blocks (length m / 64) m H0).

Lemma be_bytes_length n z : length (be_bytes n z) = n.
Proof. induction n; cbn; congruence. Qed.

Lemma be_bytes_byte n z : Forall (λ b, 0 <= b < 256) (be_bytes n z).
Proof.
  induction n; constructor; [|done]. change 255 with (Z.ones 8).
  rewrite Z.land_ones by lia. by apply Z.mod_pos_bound.
Qed.

Lemma round_length st kw : length st = 8%nat → length (round st kw) = 8%nat.
Proof. intros. do 9 (destruct st as [|? st]; try done). Qed.

Lemma rounds_length l st : length st = 8%nat → length (fold_left round l st) = 8%nat.
Proof. revert st. induction l; cbn; auto using round_length. Qed.

Lemma compress_length st b : length st = 8%nat → length (compress st b) = 8%nat.
Proof.
  intros H. unfold compress. rewrite length_zip_with, rounds_length by done. lia.
Qed.

Lemma blocks_length n bs st : length st = 8%nat → length (blocks n bs st) = 8%nat.
Proof. revert bs st. induction n; cbn; auto using compress_length. Qed.

Lemma concat_be_bytes_length l : length (concat (be_bytes 4 <$> l)) = (4 * length l)%nat.
Proof.
  induction l as [|x l IH]; [done|]. cbn [fmap list_fmap concat length].
  rewrite length_app, be_bytes_length. change (concat (list_fmap _ _ (be_bytes 4) l))
    with (concat (be_bytes 4 <$> l)). rewrite IH. lia.
Qed.

Lemma sum_length data : length (sum data) = 32%nat.
Proof. unfold sum. by rewrite concat_be_bytes_length, blocks_length. Qed.

Lemma sum_byte data : Forall (λ b, 0 <= b < 256) (sum data).
Proof.
  unfold sum. apply Forall_concat, Forall_fmap, Forall_forall. intros. apply be_bytes_byte.
Qed.
End Sha256.

(** ** encoding/hex *)
Definition hexdigit (d : Z) : Ascii.ascii :=
  ascii_of (if d <? 10 then 48 + d else 87 + d).

Fixpoint hex_encode (bs : list Z) : string :=
  match bs with
  | [] => ""
  | b :: bs => String (hexdigit (b / 16)) (String (hexdigit (b mod 16)) (hex_encode bs))
  end.

Lemma hex_encode_length bs : String.length (hex_encode bs) = (2 * length bs)%nat.
Proof. induction bs; cbn; lia. Qed.

(** Known answer (FIPS 180-2): the digest of the three bytes abc. *)
Example sha256_abc :
  hex_encode (Sha256.sum "abc") =
  "ba7816bf8f01cfea414140de5dae2223b00361a396177a9cb410ff61f20015ad".
Proof. vm_compute. reflexivity. Qed.

Example sha256_two_blocks :
  hex_encode (Sha256.sum "abcdbcdecdefdefgefghfghighijhijkijkljklmklmnlmnomnopnopq") =
  "248d6a61d20638b8e5c026930c3e6039a33ce45964ff2167f6ecedd419db06c1".
Proof. vm_compute. reflexivity. Qed.

(** ** encoding/base64, StdEncoding *)
Module Base64.

Definition alphabet : string :=
  "ABCDEFGHIJKLMNOPQRSTUVWXYZabcdefghijklmnopqrstuvwxyz0123456789+/".

Definition enc1 (v : Z) : Ascii.ascii :=
  default Ascii.zero (String.get (Z.to_nat v) alphabet).

Fixpoint index (c : Ascii.ascii) (s : string) (i : Z) : option Z :=
  match s with
  | EmptyString => None
  | String c' s => if bool_decide (c' = c) then Some i else index c s (i + 1)
  end.

Definition dec1 (c : Ascii.ascii) : option Z := index c alphabet 0.

Definition eqc : Ascii.ascii := ascii_of 61.

Fixpoint encode (bs : list Z) : string :=
  match bs with
  | [] => ""
  | [a] =>
      String (enc1 (a / 4)) (String (enc1 (a mod 4 * 16)) (String eqc (String eqc "")))
  | [a; b] =>
      String (enc1 (a / 4)) (String (enc1 (a mod 4 * 16 + b / 16))
        (String (enc1 (b mod 16 * 4)) (String eqc "")))
  | a :: b :: c :: bs =>
      String (enc1 (a / 4)) (String (enc1 (a mod 4 * 16 + b / 16))
        (String (enc1 (b mod 16 * 4 + c / 64)) (String (enc1 (c mod 64)) (encode bs))))
  end.

(** CR and LF are skipped wherever they occur. *)
Fixpoint strip_newlines (s : string) : string :=
  match s with
  | EmptyString => ""
  | String c s =>
      if bool_decide (byte_of c = 10) || bool_decide (byte_of c = 13)
      then strip_newlines s else String c (strip_newlines s)
  end.

Fixpoint decode_groups (s : string) : option (list Z) :=
  match s with
  | EmptyString => Some []
  | String c1 (String c2 (String c3 (String c4 s))) =>
      v1 ← dec1 c1; v2 ← dec1 c2;
      let b1 := v1 * 4 + v2 / 16 in
      if bool_decide (c4 = eqc) then
        if bool_decide (s = "") then
          if bool_decide (c3 = eqc) then Some [b1]
          else v3 ← dec1 c3; Some [b1; v2 mod 16 * 16 + v3 / 4]
        else None
      else
        v3 ← dec1 c3; v4 ← dec1 c4; rest ← decode_groups s;
        Some (b1 :: v2 mod 16 * 16 + v3 / 4 :: v3 mod 4 * 64 + v4 :: rest)
  | _ => None
  end.

Definition decode (s : string) : option (list Z) := decode_groups (strip_newlines s).

Definition all64 : list Z := Z.of_nat <$> seq 0 64.

Lemma all64_spec v : 0 <= v < 64 → v ∈ all64.
Proof.
  intros. apply list_elem_of_fmap. exists (Z.to_nat v). rewrite elem_of_seq. lia.
Qed.

Lemma enc1_facts v : 0 <= v < 64 →
  dec1 (enc1 v) = Some v ∧ enc1 v ≠ eqc ∧ byte_of (enc1 v) ≠ 10 ∧ byte_of (enc1 v) ≠ 13.
Proof.
  intros H%all64_spec. revert v H. apply Forall_forall.
  apply (bool_decide_unpack _); vm_compute; exact I.
Qed.

Lemma dec_enc1 v : 0 <= v < 64 → dec1 (enc1 v) = Some v.
Proof. intros. by apply enc1_facts. Qed.

Lemma enc1_eqc v : 0 <= v < 64 → bool_decide (enc1 v = eqc) = false.
Proof. intros. by apply bool_decide_false, enc1_facts. Qed.

Lemma strip_enc1 v s : 0 <= v < 64 →
  strip_newlines (String (enc1 v) s) = String (enc1 v) (strip_newlines s).
Proof. intros (_ & _ & H1 & H2)%enc1_facts. cbn. by rewrite !bool_decide_false. Qed.

Lemma byte_split6 a : 0 <= a < 256 → 0 <= a / 4 < 64 ∧ 0 <= a mod 4 < 4.
Proof. intros. pose proof (Z.div_mod a 4). pose proof (Z.mod_pos_bound a 4). nia. Qed.

Lemma byte_split4 a : 0 <= a < 256 → 0 <= a / 16 < 16 ∧ 0 <= a mod 16 < 16.
Proof. intros. pose proof (Z.div_mod a 16). pose proof (Z.mod_pos_bound a 16). nia. Qed.

Lemma byte_split2 a : 0 <= a < 256 → 0 <= a / 64 < 4 ∧ 0 <= a mod 64 < 64.
Proof. intros. pose proof (Z.div_mod a 64). pose proof (Z.mod_pos_bound a 64). nia. Qed.

Lemma div_add_small a b k : 0 < k → 0 <= b < k → (a * k + b) / k = a ∧ (a * k + b) mod k = b.
Proof.
  intros. rewrite Z.div_add_l, (Z.div_small b) by lia.
  rewrite (Z.add_comm (a * k)), Z.mod_add, Z.mod_small by lia. lia.
Qed.

(** Every byte sequence is recovered from its encoding. *)
Lemma decode_encode bs : Forall (λ b, 0 <= b < 256) bs → decode (encode bs) = Some bs.
Proof.
  unfold decode. revert bs. fix IH 1. intros bs H.
  destruct bs as [|a [|b [|c bs]]]; [done| | |].
  all: repeat match goal with H : Forall _ (_ :: _) |- _ => apply Forall_cons in H as [? H] end.
  all: pose proof (byte_split6 a ltac:(done)); pose proof (Z.div_mod a 4 ltac:(done)).
  - cbn [encode]. rewrite !strip_enc1 by lia. cbn [strip_newlines decode_groups].
    change (strip_newlines (String eqc (String eqc ""))) with (String eqc (String eqc "")).
    rewrite !dec_enc1 by lia. csimpl.
    rewrite (Z.div_mul _ 16) by done. f_equal. repeat (apply (f_equal2 cons); [lia|]). done.
  - pose proof (byte_split4 b ltac:(done)); pose proof (Z.div_mod b 16 ltac:(done)).
    cbn [encode]. rewrite !strip_enc1 by lia.
    change (strip_newlines (String eqc "")) with (String eqc ""). cbn [decode_groups].
    rewrite !dec_enc1, enc1_eqc by lia. csimpl.
    destruct (div_add_small (a mod 4) (b / 16) 16) as [-> ->]; try lia.
    rewrite (Z.div_mul _ 4) by done. f_equal. repeat (apply (f_equal2 cons); [lia|]). done.
  - pose proof (byte_split4 b ltac:(done)); pose proof (Z.div_mod b 16 ltac:(done)).
    pose proof (byte_split2 c ltac:(done)); pose proof (Z.div_mod c 64 ltac:(done)).
    cbn [encode]. rewrite !strip_enc1 by lia. cbn [decode_groups].
    rewrite !dec_enc1, enc1_eqc by lia. csimpl. rewrite (IH bs) by done. csimpl.
    destruct (div_add_small (a mod 4) (b / 16) 16) as [-> ->]; try lia.
    destruct (div_add_small (b mod 16) (c / 64) 4) as [-> ->]; try lia.
    f_equal. repeat (apply (f_equal2 cons); [lia|]). done.
Qed.

Example encode_foobar : encode (bytes_of "foobar!") = "Zm9vYmFyIQ==".
Proof. reflexivity. Qed.
End Base64.

(** ** strings.TrimSpace *)
Definition is_prefix (p s : string) : bool := String.prefix p s.

(** UTF-8 encodings of the code points unicode.IsSpace accepts. *)
Definition space_runes : list string :=
  (string_of <$> [[9]; [10]; [11]; [12]; [13]; [32]; [0xC2; 0x85]; [0xC2; 0xA0]; [0xE1; 0x9A; 0x80];
    [0xE2; 0x80; 0xA8]; [0xE2; 0x80; 0xA9]; [0xE2; 0x80; 0xAF]; [0xE2; 0x81; 0x9F]; [0xE3; 0x80; 0x80]])
  ++ ((λ k, string_of [0xE2; 0x80; 0x80 + k]) <$> [0; 1; 2; 3; 4; 5; 6; 7; 8; 9; 10]).

Definition drop_str (n : nat) (s : string) : string :=
  String.substring n (String.length s - n) s.

Fixpoint trim_left (fuel : nat) (s : string) : string :=
  match fuel with
  | O => s
  | S fuel =>
      match find (λ r, is_prefix r s) space_runes with
      | Some r => trim_left fuel (drop_str (String.length r) s)
      | None => s
      end
  end.

Definition is_suffix (p s : string) : bool :=
  (String.length p <=? String.length s)%nat &&
  bool_decide (String.substring (String.length s - String.length p) (String.length p) s = p).

Fixpoint trim_right (fuel : nat) (s : string) : string :=
  match fuel with
  | O => s
  | S fuel =>
      match find (λ r, is_suffix r s) space_runes with
      | Some r => trim_right fuel (String.substring 0 (String.length s - String.length r) s)
      | None => s
      end
  end.

(** Each iteration removes at least one byte, so the length bounds both loops. *)
Definition TrimSpace (s : string) : string :=
  let s := trim_left (String.length s) s in trim_right (String.length s) s.

Definition isBlank (s : string) : bool := bool_decide (TrimSpace s = "").

Example trim_example : TrimSpace (string_of [0xC2; 0xA0; 32; 97; 32; 98; 9; 0xE3; 0x80; 0x80]) = "a b".
Proof. vm_compute. reflexivity. Qed.

(** ** UTF-8: what encoding/json writes for a Go string

    Every byte that does not start a well-formed sequence becomes U+FFFD. *)
Definition replacement : list Z := [0xEF; 0xBF; 0xBD].

Definition cont (b : Z) : bool := (0x80 <=? b) && (b <=? 0xBF).
Definition between (lo b hi : Z) : bool := (lo <=? b) && (b <=? hi).

(** Length of the well-formed sequence at the head, or 0. *)
Definition rune_len (bs : list Z) : nat :=
  match bs with
  | [] => 0%nat
  | b0 :: r0 =>
      if b0 <? 0x80 then 1%nat else
      match r0 with
      | b1 :: r1 =>
          if between 0xC2 b0 0xDF && cont b1 then 2%nat else
          match r1 with
          | b2 :: r2 =>
              if ((bool_decide (b0 = 0xE0) && between 0xA0 b1 0xBF) ||
                  (between 0xE1 b0 0xEC && cont b1) ||
                  (bool_decide (b0 = 0xED) && between 0x80 b1 0x9F) ||
                  (between 0xEE b0 0xEF && cont b1)) && cont b2 then 3%nat else
              match r2 with
              | b3 :: _ =>
                  if ((bool_decide (b0 = 0xF0) && between 0x90 b1 0xBF) ||
                      (between 0xF1 b0 0xF3 && cont b1) ||
                      (bool_decide (b0 = 0xF4) && between 0x80 b1 0x8F)) && cont b2 && cont b3
                  then 4%nat else 0%nat
              | [] => 0%nat
              end
          | [] => 0%nat
          end
      | [] => 0%nat
      end
  end.

Fixpoint coerce_bytes (fuel : nat) (bs : list Z) : list Z :=
  match fuel with
  | O => []
  | S fuel =>
      match bs with
      | [] => []
      | b :: rest =>
          match rune_len bs with
          | O => replacement ++ coerce_bytes fuel rest
          | n => take n bs ++ coerce_bytes fuel (drop n bs)
          end
      end
  end.

Definition utf8_coerce (s : string) : string :=
  string_of (coerce_bytes (S (String.length s)) (bytes_of s)).

Definition utf8_valid (s : string) : bool := bool_decide (utf8_coerce s = s).

Lemma ascii_coerce fuel bs :
  (length bs < fuel)%nat → Forall (λ b, 0 <= b < 128) bs → coerce_bytes fuel bs = bs.
Proof.
  revert bs. induction fuel as [|fuel IH]; intros bs Hl H; [lia|].
  destruct bs as [|b bs]; [done|]. apply Forall_cons in H as [Hb H].
  cbn [coerce_bytes rune_len]. rewrite (proj2 (Z.ltb_lt b 0x80)) by lia.
  cbn [take drop app]. f_equal. apply IH; [cbn in Hl; lia|done].
Qed.

(** Plain ASCII is untouched. *)
Lemma utf8_coerce_ascii s :
  Forall (λ b, 0 <= b < 128) (bytes_of s) → utf8_coerce s = s.
Proof.
  intros H. unfold utf8_coerce. rewrite ascii_coerce by (rewrite ?bytes_of_length; (lia || done)).
  apply string_bytes.
Qed.

(** SQLite's length() of a TEXT value: characters up to the first NUL. *)
Fixpoint sql_length (s : string) : nat :=
  match s with
  | EmptyString => 0%nat
  | String c s =>
      let b := byte_of c in
      if b =? 0 then 0%nat else if cont b then sql_length s else S (sql_length s)
  end.
