(* ===== verification/Taxonomy.v ===== *)
(** The event taxonomy and the model's enumerations
    (src/internal/store/taxonomy.go).  Event types are a table of the store: the
    constants, the per-migration slices, the dimension rule each type carries and
    the lookup the stamp uses.  Enumerations that Go spells as string constants
    are inductive types with an injective string form; a stored column whose
    CHECK lists the constants is parsed with [enum_parse]. *)
From S2P Require Import Prelude.

(** ** Enumerations with a string form *)
Class Enum (A : Type) `{EqDecision A} := {
  enum_all : list A;
  enum_str : A → string;
  enum_complete : ∀ a, a ∈ enum_all;
  enum_nodup : NoDup (enum_str <$> enum_all);
}.

Definition enum_parse {A} `{Enum A} (s : string) : option A :=
  find (λ a, bool_decide (enum_str a = s)) enum_all.

Section enum.
Context {A : Type} `{Enum A}.

Lemma enum_str_inj (a b : A) : enum_str a = enum_str b → a = b.
Proof.
  apply elem_of_NoDup_map_inj with (l := enum_all);
    [apply enum_nodup|apply enum_complete..].
Qed.

Lemma enum_parse_Some s (a : A) : enum_parse s = Some a ↔ s = enum_str a.
Proof.
  unfold enum_parse. split.
  - intros [_ E]%List.find_some. by apply bool_decide_eq_true_1 in E.
  - intros ->. destruct (find _ _) as [b|] eqn:E.
    + apply List.find_some in E as [_ E%bool_decide_eq_true_1].
      by apply enum_str_inj in E as ->.
    + apply List.find_none with (x := a) in E; [|apply list_elem_of_In, enum_complete].
      by rewrite bool_decide_true in E.
Qed.

Lemma enum_parse_str (a : A) : enum_parse (enum_str a) = Some a.
Proof. by apply enum_parse_Some. Qed.
End enum.

(** Discharges the two laws of a concrete enumeration by evaluation. *)
Ltac solve_enum :=
  first
    [ intros []; cbn; repeat (first [left; reflexivity | right])
    | apply (bool_decide_unpack _); vm_compute; exact I ].

(** ** Event types *)
Inductive EType :=
| TypeMatterCreated
| TypeStageCreated
| TypeStepCreated
| TypeMatterStarted
| TypeStageStarted
| TypeStepStarted
| TypeMatterFinished
| TypeStageFinished
| TypeStepFinished
| TypeMatterCanceled
| TypeStageCanceled
| TypeStepCanceled
| TypeMatterPaused
| TypeStagePaused
| TypeStepPaused
| TypeMatterResumed
| TypeStageResumed
| TypeStepResumed
| TypeContentCreated
| TypeContentAppended
| TypeStepInserted
| TypeStepReordered
| TypeStepReplaced
| TypeStepRemoved
| TypeDependencyAdded
| TypeDependencyRemoved
| TypeGateClosed
| TypeGateDismissed
| TypeGateDeclared
| TypeGateExemptionRepaired
| TypeConfigSet
| TypeBacklogEntered
| TypeBacklogPlanned
| TypeBacklogDeclined
| TypeBacklogDelegated
| TypeReferenceBound
| TypeReferenceAdded
| TypeReferenceRemoved
| TypeReferenceRebound
| TypeRepoAttached
| TypeCloneAttached
| TypeWorktreeAttached
| TypeRepoKeyAdopted
| TypeCloneRelinked
| TypeCloneLabeled
| TypeRenderPerformed
| TypeCursorMoved
| TypeBatchCreated
| TypeBatchJoined
| TypeBatchLeft
| TypeBatchDismissed
| TypeBatchSwept
| TypeDispatchOpened
| TypeDispatchClosed
| TypeRunStarted
| TypeRunSkipped
| TypeRunResumed
| TypeRunFinished
| TypeRunStoodDown
| TypeRoleSpawned
| TypeRoleClosed
| TypeTrackerItemCreated
| TypeTrackerStatePushed
| TypeTrackerStateObserved
| TypeTrackerAdhocProposed
| TypeOutboxApproved
| TypeOutboxDeclined
| TypeOutboxWithheld
| TypeOutboxDeliveryFailed
| TypeOutboxRetried
| TypeOutboxFlushed.

#[global] Instance EType_eq_dec : EqDecision EType.
Proof. solve_decision. Defined.

Definition etype_str (t : EType) : string :=
  match t with
  | TypeMatterCreated => "matter.created"
  | TypeStageCreated => "stage.created"
  | TypeStepCreated => "step.created"
  | TypeMatterStarted => "matter.started"
  | TypeStageStarted => "stage.started"
  | TypeStepStarted => "step.started"
  | TypeMatterFinished => "matter.finished"
  | TypeStageFinished => "stage.finished"
  | TypeStepFinished => "step.finished"
  | TypeMatterCanceled => "matter.canceled"
  | TypeStageCanceled => "stage.canceled"
  | TypeStepCanceled => "step.canceled"
  | TypeMatterPaused => "matter.paused"
  | TypeStagePaused => "stage.paused"
  | TypeStepPaused => "step.paused"
  | TypeMatterResumed => "matter.resumed"
  | TypeStageResumed => "stage.resumed"
  | TypeStepResumed => "step.resumed"
  | TypeContentCreated => "content.created"
  | TypeContentAppended => "content.appended"
  | TypeStepInserted => "step.inserted"
  | TypeStepReordered => "step.reordered"
  | TypeStepReplaced => "step.replaced"
  | TypeStepRemoved => "step.removed"
  | TypeDependencyAdded => "dependency.added"
  | TypeDependencyRemoved => "dependency.removed"
  | TypeGateClosed => "gate.closed"
  | TypeGateDismissed => "gate.dismissed"
  | TypeGateDeclared => "gate.declared"
  | TypeGateExemptionRepaired => "gate.exemption-repaired"
  | TypeConfigSet => "config.set"
  | TypeBacklogEntered => "backlog.entered"
  | TypeBacklogPlanned => "backlog.planned"
  | TypeBacklogDeclined => "backlog.declined"
  | TypeBacklogDelegated => "backlog.delegated"
  | TypeReferenceBound => "reference.bound"
  | TypeReferenceAdded => "reference.added"
  | TypeReferenceRemoved => "reference.removed"
  | TypeReferenceRebound => "reference.rebound"
  | TypeRepoAttached => "repo.attached"
  | TypeCloneAttached => "clone.attached"
  | TypeWorktreeAttached => "worktree.attached"
  | TypeRepoKeyAdopted => "repo.key-adopted"
  | TypeCloneRelinked => "clone.relinked"
  | TypeCloneLabeled => "clone.labeled"
  | TypeRenderPerformed => "render.performed"
  | TypeCursorMoved => "cursor.moved"
  | TypeBatchCreated => "batch.created"
  | TypeBatchJoined => "batch.joined"
  | TypeBatchLeft => "batch.left"
  | TypeBatchDismissed => "batch.dismissed"
  | TypeBatchSwept => "batch.swept"
  | TypeDispatchOpened => "dispatch.opened"
  | TypeDispatchClosed => "dispatch.closed"
  | TypeRunStarted => "run.started"
  | TypeRunSkipped => "run.skipped"
  | TypeRunResumed => "run.resumed"
  | TypeRunFinished => "run.finished"
  | TypeRunStoodDown => "run.stood-down"
  | TypeRoleSpawned => "role.spawned"
  | TypeRoleClosed => "role.closed"
  | TypeTrackerItemCreated => "tracker.item-created"
  | TypeTrackerStatePushed => "tracker.state-pushed"
  | TypeTrackerStateObserved => "tracker.state-observed"
  | TypeTrackerAdhocProposed => "tracker.adhoc-proposed"
  | TypeOutboxApproved => "outbox.approved"
  | TypeOutboxDeclined => "outbox.declined"
  | TypeOutboxWithheld => "outbox.withheld"
  | TypeOutboxDeliveryFailed => "outbox.delivery-failed"
  | TypeOutboxRetried => "outbox.retried"
  | TypeOutboxFlushed => "outbox.flushed"
  end.

Definition all_etypes : list EType :=
  [TypeMatterCreated;
   TypeStageCreated;
   TypeStepCreated;
   TypeMatterStarted;
   TypeStageStarted;
   TypeStepStarted;
   TypeMatterFinished;
   TypeStageFinished;
   TypeStepFinished;
   TypeMatterCanceled;
   TypeStageCanceled;
   TypeStepCanceled;
   TypeMatterPaused;
   TypeStagePaused;
   TypeStepPaused;
   TypeMatterResumed;
   TypeStageResumed;
   TypeStepResumed;
   TypeContentCreated;
   TypeContentAppended;
   TypeStepInserted;
   TypeStepReordered;
   TypeStepReplaced;
   TypeStepRemoved;
   TypeDependencyAdded;
   TypeDependencyRemoved;
   TypeGateClosed;
   TypeGateDismissed;
   TypeGateDeclared;
   TypeGateExemptionRepaired;
   TypeConfigSet;
   TypeBacklogEntered;
   TypeBacklogPlanned;
   TypeBacklogDeclined;
   TypeBacklogDelegated;
   TypeReferenceBound;
   TypeReferenceAdded;
   TypeReferenceRemoved;
   TypeReferenceRebound;
   TypeRepoAttached;
   TypeCloneAttached;
   TypeWorktreeAttached;
   TypeRepoKeyAdopted;
   TypeCloneRelinked;
   TypeCloneLabeled;
   TypeRenderPerformed;
   TypeCursorMoved;
   TypeBatchCreated;
   TypeBatchJoined;
   TypeBatchLeft;
   TypeBatchDismissed;
   TypeBatchSwept;
   TypeDispatchOpened;
   TypeDispatchClosed;
   TypeRunStarted;
   TypeRunSkipped;
   TypeRunResumed;
   TypeRunFinished;
   TypeRunStoodDown;
   TypeRoleSpawned;
   TypeRoleClosed;
   TypeTrackerItemCreated;
   TypeTrackerStatePushed;
   TypeTrackerStateObserved;
   TypeTrackerAdhocProposed;
   TypeOutboxApproved;
   TypeOutboxDeclined;
   TypeOutboxWithheld;
   TypeOutboxDeliveryFailed;
   TypeOutboxRetried;
   TypeOutboxFlushed].

#[global] Instance EType_enum : Enum EType.
Proof. refine {| enum_all := all_etypes; enum_str := etype_str |}; solve_enum. Defined.

(** The families, recorded as data next to each type. *)
Inductive Family :=
| FamilyLifecycle
| FamilyContent
| FamilyAmendment
| FamilyDependency
| FamilyGate
| FamilyConfig
| FamilyBacklog
| FamilyReference
| FamilyTier
| FamilyRender
| FamilyCursor
| FamilyBatch
| FamilyDispatch
| FamilyRun
| FamilyRole
| FamilyTracker.

#[global] Instance Family_eq_dec : EqDecision Family.
Proof. solve_decision. Defined.

Definition Family_str (x : Family) : string :=
  match x with
  | FamilyLifecycle => "lifecycle"
  | FamilyContent => "content"
  | FamilyAmendment => "amendment"
  | FamilyDependency => "dependency"
  | FamilyGate => "gate"
  | FamilyConfig => "config"
  | FamilyBacklog => "backlog"
  | FamilyReference => "reference"
  | FamilyTier => "tier"
  | FamilyRender => "render"
  | FamilyCursor => "cursor"
  | FamilyBatch => "batch"
  | FamilyDispatch => "dispatch"
  | FamilyRun => "run"
  | FamilyRole => "role"
  | FamilyTracker => "tracker"
  end.

#[global] Instance Family_enum : Enum Family.
Proof. refine {| enum_all := [FamilyLifecycle; FamilyContent; FamilyAmendment; FamilyDependency; FamilyGate; FamilyConfig; FamilyBacklog; FamilyReference; FamilyTier; FamilyRender; FamilyCursor; FamilyBatch; FamilyDispatch; FamilyRun; FamilyRole; FamilyTracker]; enum_str := Family_str |}; solve_enum. Defined.

(** One row of the taxonomy: the token, its family and the tier dimensions it
    must carry. *)
Record EventType := MkEventType {
  et_type : EType; et_family : Family;
  et_repo : bool; et_clone : bool; et_worktree : bool
}.

Definition durable (t : EType) (f : Family) : EventType := MkEventType t f true false false.
Definition execution (t : EType) (f : Family) : EventType := MkEventType t f true true true.
Definition batchScoped (t : EType) : EventType := MkEventType t FamilyBatch false true true.

Definition P1Taxonomy : list EventType :=
  [durable TypeMatterCreated FamilyLifecycle;
   durable TypeStageCreated FamilyLifecycle;
   durable TypeStepCreated FamilyLifecycle;
   durable TypeMatterStarted FamilyLifecycle;
   durable TypeStageStarted FamilyLifecycle;
   durable TypeStepStarted FamilyLifecycle;
   durable TypeMatterFinished FamilyLifecycle;
   durable TypeStageFinished FamilyLifecycle;
   durable TypeStepFinished FamilyLifecycle;
   durable TypeMatterCanceled FamilyLifecycle;
   durable TypeStageCanceled FamilyLifecycle;
   durable TypeStepCanceled FamilyLifecycle;
   durable TypeMatterPaused FamilyLifecycle;
   durable TypeStagePaused FamilyLifecycle;
   durable TypeStepPaused FamilyLifecycle;
   durable TypeMatterResumed FamilyLifecycle;
   durable TypeStageResumed FamilyLifecycle;
   durable TypeStepResumed FamilyLifecycle;
   durable TypeContentCreated FamilyContent;
   durable TypeContentAppended FamilyContent;
   durable TypeStepInserted FamilyAmendment;
   durable TypeStepReordered FamilyAmendment;
   durable TypeStepReplaced FamilyAmendment;
   durable TypeStepRemoved FamilyAmendment;
   durable TypeDependencyAdded FamilyDependency;
   durable TypeDependencyRemoved FamilyDependency;
   durable TypeGateClosed FamilyGate;
   durable TypeBacklogEntered FamilyBacklog;
   durable TypeBacklogPlanned FamilyBacklog;
   durable TypeBacklogDeclined FamilyBacklog;
   durable TypeReferenceBound FamilyReference;
   durable TypeRepoAttached FamilyTier;
   durable TypeCloneAttached FamilyTier;
   durable TypeWorktreeAttached FamilyTier;
   durable TypeRepoKeyAdopted FamilyTier;
   durable TypeCloneRelinked FamilyTier;
   durable TypeCloneLabeled FamilyTier;
   execution TypeRenderPerformed FamilyRender;
   execution TypeCursorMoved FamilyCursor;
   execution TypeDispatchOpened FamilyDispatch;
   execution TypeDispatchClosed FamilyDispatch;
   batchScoped TypeBatchCreated;
   batchScoped TypeBatchJoined;
   batchScoped TypeBatchLeft].

Definition V2Taxonomy : list EventType :=
  [execution TypeRunStarted FamilyRun;
   execution TypeRunSkipped FamilyRun;
   execution TypeRunResumed FamilyRun;
   execution TypeRunFinished FamilyRun;
   execution TypeRunStoodDown FamilyRun].

Definition V3Taxonomy : list EventType :=
  [batchScoped TypeBatchDismissed;
   batchScoped TypeBatchSwept].

Definition V4Taxonomy : list EventType :=
  [execution TypeRoleSpawned FamilyRole;
   execution TypeRoleClosed FamilyRole].

Definition V5Taxonomy : list EventType :=
  [durable TypeReferenceAdded FamilyReference;
   durable TypeReferenceRemoved FamilyReference;
   durable TypeReferenceRebound FamilyReference;
   durable TypeBacklogDelegated FamilyBacklog;
   durable TypeTrackerStatePushed FamilyTracker].

Definition V6Taxonomy : list EventType :=
  [durable TypeTrackerItemCreated FamilyTracker].

Definition V7Taxonomy : list EventType :=
  [durable TypeOutboxApproved FamilyTracker;
   durable TypeOutboxDeclined FamilyTracker;
   durable TypeOutboxWithheld FamilyTracker;
   durable TypeOutboxDeliveryFailed FamilyTracker;
   durable TypeOutboxRetried FamilyTracker;
   durable TypeOutboxFlushed FamilyTracker].

Definition V9Taxonomy : list EventType :=
  [durable TypeTrackerStateObserved FamilyTracker].

Definition V11Taxonomy : list EventType :=
  [durable TypeGateDismissed FamilyGate].

Definition V13Taxonomy : list EventType :=
  [durable TypeConfigSet FamilyConfig;
   durable TypeGateDeclared FamilyGate;
   durable TypeGateExemptionRepaired FamilyGate].

Definition V14Taxonomy : list EventType :=
  [durable TypeTrackerAdhocProposed FamilyTracker].

Definition taxonomySets : list (list EventType) :=
  [P1Taxonomy; V2Taxonomy; V3Taxonomy; V4Taxonomy; V5Taxonomy; V6Taxonomy;
   V7Taxonomy; V9Taxonomy; V11Taxonomy; V13Taxonomy; V14Taxonomy].

Definition registeredTypes : list EventType := concat taxonomySets.

(** taxonomyIndex: built once; a token that appears twice panics at start-up. *)
Fixpoint build_index (l : list EventType) (index : gmap string EventType)
    : option (gmap string EventType) :=
  match l with
  | [] => Some index
  | t :: l =>
      match index !! enum_str (et_type t) with
      | Some _ => None
      | None => build_index l (<[enum_str (et_type t) := t]> index)
      end
  end.

Definition taxonomyIndex : option (gmap string EventType) :=
  build_index registeredTypes ∅.

Definition requiredDimensions (eventType : string) : result EventType :=
  match taxonomyIndex with
  | None => Error (ERefuse "taxonomy panic")
  | Some index =>
      from_option_err (ERefuse "not a registered event type") (index !! eventType)
  end.

(** ** The model's enumerations *)
(** The five lifecycle states. *)
Inductive Lifecycle :=
| Planned
| InProgress
| Done
| Canceled
| Paused.

#[global] Instance Lifecycle_eq_dec : EqDecision Lifecycle.
Proof. solve_decision. Defined.

Definition Lifecycle_str (x : Lifecycle) : string :=
  match x with
  | Planned => "planned"
  | InProgress => "in-progress"
  | Done => "done"
  | Canceled => "canceled"
  | Paused => "paused"
  end.

#[global] Instance Lifecycle_enum : Enum Lifecycle.
Proof. refine {| enum_all := [Planned; InProgress; Done; Canceled; Paused]; enum_str := Lifecycle_str |}; solve_enum. Defined.

(** The three scales. *)
Inductive Scale :=
| ScaleMatter
| ScaleStage
| ScaleStep.

#[global] Instance Scale_eq_dec : EqDecision Scale.
Proof. solve_decision. Defined.

Definition Scale_str (x : Scale) : string :=
  match x with
  | ScaleMatter => "matter"
  | ScaleStage => "stage"
  | ScaleStep => "step"
  end.

#[global] Instance Scale_enum : Enum Scale.
Proof. refine {| enum_all := [ScaleMatter; ScaleStage; ScaleStep]; enum_str := Scale_str |}; solve_enum. Defined.

Inductive ContentKind :=
| KindBrief
| KindWorkplan
| KindBody
| KindFindings.

#[global] Instance ContentKind_eq_dec : EqDecision ContentKind.
Proof. solve_decision. Defined.

Definition ContentKind_str (x : ContentKind) : string :=
  match x with
  | KindBrief => "brief"
  | KindWorkplan => "workplan"
  | KindBody => "body"
  | KindFindings => "findings"
  end.

#[global] Instance ContentKind_enum : Enum ContentKind.
Proof. refine {| enum_all := [KindBrief; KindWorkplan; KindBody; KindFindings]; enum_str := ContentKind_str |}; solve_enum. Defined.

Definition AppendOnlyKind (k : ContentKind) : bool := bool_decide (k = KindFindings).

Inductive Provenance :=
| ProvenanceIntake
| ProvenanceFound
| ProvenanceDeferred.

#[global] Instance Provenance_eq_dec : EqDecision Provenance.
Proof. solve_decision. Defined.

Definition Provenance_str (x : Provenance) : string :=
  match x with
  | ProvenanceIntake => "intake"
  | ProvenanceFound => "found"
  | ProvenanceDeferred => "deferred"
  end.

#[global] Instance Provenance_enum : Enum Provenance.
Proof. refine {| enum_all := [ProvenanceIntake; ProvenanceFound; ProvenanceDeferred]; enum_str := Provenance_str |}; solve_enum. Defined.

Inductive RunSkipReason :=
| RunSkipContention
| RunSkipBlocked
| RunSkipFailed.

#[global] Instance RunSkipReason_eq_dec : EqDecision RunSkipReason.
Proof. solve_decision. Defined.

Definition RunSkipReason_str (x : RunSkipReason) : string :=
  match x with
  | RunSkipContention => "contention"
  | RunSkipBlocked => "blocked"
  | RunSkipFailed => "failed"
  end.

#[global] Instance RunSkipReason_enum : Enum RunSkipReason.
Proof. refine {| enum_all := [RunSkipContention; RunSkipBlocked; RunSkipFailed]; enum_str := RunSkipReason_str |}; solve_enum. Defined.

Inductive CloseReason :=
| CloseCompleted
| CloseSuperseded
| CloseReaped.

#[global] Instance CloseReason_eq_dec : EqDecision CloseReason.
Proof. solve_decision. Defined.

Definition CloseReason_str (x : CloseReason) : string :=
  match x with
  | CloseCompleted => "completed"
  | CloseSuperseded => "superseded"
  | CloseReaped => "reaped"
  end.

#[global] Instance CloseReason_enum : Enum CloseReason.
Proof. refine {| enum_all := [CloseCompleted; CloseSuperseded; CloseReaped]; enum_str := CloseReason_str |}; solve_enum. Defined.

Inductive BatchCloseReason :=
| BatchDismissed
| BatchSwept.

#[global] Instance BatchCloseReason_eq_dec : EqDecision BatchCloseReason.
Proof. solve_decision. Defined.

Definition BatchCloseReason_str (x : BatchCloseReason) : string :=
  match x with
  | BatchDismissed => "dismissed"
  | BatchSwept => "swept"
  end.

#[global] Instance BatchCloseReason_enum : Enum BatchCloseReason.
Proof. refine {| enum_all := [BatchDismissed; BatchSwept]; enum_str := BatchCloseReason_str |}; solve_enum. Defined.

(** The six roles. *)
Inductive RoleName :=
| RoleOrchestrator
| RoleCoordinator
| RoleResearcher
| RoleBuilder
| RoleVerifier
| RoleWarden.

#[global] Instance RoleName_eq_dec : EqDecision RoleName.
Proof. solve_decision. Defined.

Definition RoleName_str (x : RoleName) : string :=
  match x with
  | RoleOrchestrator => "orchestrator"
  | RoleCoordinator => "coordinator"
  | RoleResearcher => "researcher"
  | RoleBuilder => "builder"
  | RoleVerifier => "verifier"
  | RoleWarden => "warden"
  end.

#[global] Instance RoleName_enum : Enum RoleName.
Proof. refine {| enum_all := [RoleOrchestrator; RoleCoordinator; RoleResearcher; RoleBuilder; RoleVerifier; RoleWarden]; enum_str := RoleName_str |}; solve_enum. Defined.

Definition KnownRole (name : string) : bool :=
  match enum_parse (A := RoleName) name with Some _ => true | None => false end.

Definition OuterLoop (n : RoleName) : bool :=
  match n with RoleVerifier | RoleWarden => true | _ => false end.

Definition GateOwner (gate : string) : option RoleName :=
  if bool_decide (gate = "verified") then Some RoleVerifier
  else if bool_decide (gate = "reviewed") || bool_decide (gate = "ci-green") then Some RoleWarden
  else None.

Definition OwnedGates (n : RoleName) : list string :=
  match n with
  | RoleVerifier => ["verified"]
  | RoleWarden => ["reviewed"; "ci-green"]
  | _ => []
  end.

Inductive RoleCloseReason :=
| RoleCloseCompleted
| RoleCloseReaped.

#[global] Instance RoleCloseReason_eq_dec : EqDecision RoleCloseReason.
Proof. solve_decision. Defined.

Definition RoleCloseReason_str (x : RoleCloseReason) : string :=
  match x with
  | RoleCloseCompleted => "completed"
  | RoleCloseReaped => "reaped"
  end.

#[global] Instance RoleCloseReason_enum : Enum RoleCloseReason.
Proof. refine {| enum_all := [RoleCloseCompleted; RoleCloseReaped]; enum_str := RoleCloseReason_str |}; solve_enum. Defined.

(** ** Laws of the tables *)

Lemma build_index_spec l index0 index :
  build_index l index0 = Some index →
  (∀ t, t ∈ l → index0 !! enum_str (et_type t) = None) ∧
  ∀ s et, index !! s = Some et ↔
    index0 !! s = Some et ∨ (et ∈ l ∧ enum_str (et_type et) = s).
Proof.
  revert index0. induction l as [|t l IH]; intros index0; cbn [build_index].
  { intros [= ->]. split; [by intros ? ?%elem_of_nil|]. set_solver. }
  destruct (index0 !! _) eqn:E; [done|]. intros [Hf Hs]%IH. split.
  - intros u [->|Hu]%elem_of_cons; [done|]. specialize (Hf u Hu).
    apply lookup_insert_None in Hf as [? _]. done.
  - intros s et. rewrite Hs, elem_of_cons, lookup_insert_Some. split.
    + intros [[[<- <-]|[? ?]]|[? ?]]; eauto.
    + intros [H|[[->|H] <-]]; [left; right|by left; left|by right].
      split; [|done]. intros <-. congruence.
Qed.

Definition taxonomy_index_value : gmap string EventType :=
  default ∅ taxonomyIndex.

(** No token appears twice: building the index does not panic. *)
Lemma taxonomyIndex_ok : taxonomyIndex = Some taxonomy_index_value.
Proof.
  unfold taxonomy_index_value. destruct taxonomyIndex eqn:E; [done|].
  assert (bool_decide (taxonomyIndex = None) = false) as H by (vm_compute; reflexivity).
  by rewrite E in H.
Qed.

Lemma requiredDimensions_Ok s et :
  requiredDimensions s = Ok et ↔ et ∈ registeredTypes ∧ enum_str (et_type et) = s.
Proof.
  unfold requiredDimensions. rewrite taxonomyIndex_ok, from_option_err_Ok.
  destruct (build_index_spec _ _ _ taxonomyIndex_ok) as [_ ->].
  rewrite lookup_empty. naive_solver.
Qed.

(** Every constant of the file is registered exactly once. *)
Lemma registeredTypes_perm : et_type <$> registeredTypes ≡ₚ all_etypes.
Proof.
  apply NoDup_Permutation.
  - apply (bool_decide_unpack _); vm_compute; exact I.
  - apply NoDup_fmap_1 with (f := etype_str). exact (enum_nodup (A := EType)).
  - intros t. split; [intros _; exact (enum_complete (A := EType) t)|].
    revert t. apply (Forall_forall (λ t, t ∈ et_type <$> registeredTypes) all_etypes).
    + apply (bool_decide_unpack _); vm_compute; exact I.
Qed.

Lemma requiredDimensions_total (t : EType) :
  ∃ et, requiredDimensions (enum_str t) = Ok et ∧ et_type et = t.
Proof.
  assert (t ∈ et_type <$> registeredTypes) as Ht.
  { rewrite registeredTypes_perm. exact (enum_complete (A := EType) t). }
  apply list_elem_of_fmap in Ht as (et & -> & Hin). exists et.
  split; [|done]. by apply requiredDimensions_Ok.
Qed.

Lemma requiredDimensions_parse s et :
  requiredDimensions s = Ok et → enum_parse s = Some (et_type et).
Proof. intros [_ <-]%requiredDimensions_Ok. apply enum_parse_str. Qed.

Lemma GateOwner_OwnedGates g n : GateOwner g = Some n ↔ g ∈ OwnedGates n.
Proof.
  unfold GateOwner. split.
  - intros H. repeat case_bool_decide; simpl in H; simplify_eq; set_solver.
  - destruct n; cbn [OwnedGates]; rewrite ?elem_of_cons, ?elem_of_nil;
      intros; destruct_or?; subst; done.
Qed.

Lemma OuterLoop_OwnedGates n : OuterLoop n = true ↔ OwnedGates n ≠ [].
Proof. by destruct n. Qed.
