(* ===== verification/Json.v ===== *)
(** JSON values and encoding/json's struct rules, over parsed trees.

    The text layer (json.Marshal's rendering and the scanner) is not modelled: a
    payload is the tree the text denotes.  What is modelled is what the structs
    can observe: which keys match which fields, in which order they are applied,
    when a value of another JSON type is an error, what null does, how []byte
    travels, what omitempty drops, and which strings json.Marshal rewrites. *)
From S2P Require Import Prelude GoStd.
Local Open Scope Z_scope.

Inductive json :=
| JNull
| JBool (b : bool)
| JNum (z : Z) (* a number literal that is an integer *)
| JReal (text : string) (* any other number literal *)
| JStr (s : string)
| JArr (l : list json)
| JObj (m : list (string * json)).

(** encoding/json matches object keys to field names under simple case folding.
    Field names here are ASCII; the only non-ASCII code points that fold onto
    ASCII letters are U+017F (long s) and U+212A (Kelvin sign). *)
Fixpoint fold_key (s : string) : string :=
  match s with
  | EmptyString => ""
  | String c1 r1 =>
      let b1 := byte_of c1 in
      match r1 with
      | String c2 r2 =>
          if bool_decide (b1 = 0xC5) && bool_decide (byte_of c2 = 0xBF)
          then String (ascii_of 115) (fold_key r2)
          else
            match r2 with
            | String c3 r3 =>
                if bool_decide (b1 = 0xE2) && bool_decide (byte_of c2 = 0x84)
                   && bool_decide (byte_of c3 = 0xAA)
                then String (ascii_of 107) (fold_key r3)
                else String (if between 65 b1 90 then ascii_of (b1 + 32) else c1) (fold_key r1)
            | EmptyString =>
                String (if between 65 b1 90 then ascii_of (b1 + 32) else c1) (fold_key r1)
            end
      | EmptyString => String (if between 65 b1 90 then ascii_of (b1 + 32) else c1) ""
      end
  end.

(** ** Field decoders *)
Record field (S : Type) := Field { f_name : string; f_set : json → S → result S }.
Arguments Field {S}.
Arguments f_name {S}.
Arguments f_set {S}.

Section fields.
Context {S : Type}.

Definition str_field (name : string) (set : string → S → S) : field S :=
  Field name (λ j s,
    match j with JStr v => Ok (set v s) | JNull => Ok s | _ => Error EDecode end).

Definition bool_field (name : string) (set : bool → S → S) : field S :=
  Field name (λ j s,
    match j with JBool v => Ok (set v s) | JNull => Ok s | _ => Error EDecode end).

Definition int64_ok (z : Z) : bool := (- 2 ^ 63 <=? z) && (z <? 2 ^ 63).

Definition int_field (name : string) (set : Z → S → S) : field S :=
  Field name (λ j s,
    match j with
    | JNum v => if int64_ok v then Ok (set v s) else Error EDecode
    | JNull => Ok s
    | _ => Error EDecode
    end).

Definition str_elem (j : json) : result string :=
  match j with JStr v => Ok v | JNull => Ok "" | _ => Error EDecode end.

Definition strs_field (name : string) (set : list string → S → S) : field S :=
  Field name (λ j s,
    match j with
    | JArr l => vs ← mapM_r str_elem l; Ok (set vs s)
    | JNull => Ok (set [] s)
    | _ => Error EDecode
    end).

Definition byte_elem (j : json) : result Z :=
  match j with
  | JNum z => if (0 <=? z) && (z <? 256) then Ok z else Error EDecode
  | JNull => Ok 0
  | _ => Error EDecode
  end.

(** A nil []byte is [None]; an empty one is [Some ""]. *)
Definition bytes_field (name : string) (set : option string → S → S) : field S :=
  Field name (λ j s,
    match j with
    | JStr v => bs ← from_option_err EDecode (Base64.decode v); Ok (set (Some (string_of bs)) s)
    | JArr l => bs ← mapM_r byte_elem l; Ok (set (Some (string_of bs)) s)
    | JNull => Ok (set None s)
    | _ => Error EDecode
    end).

Definition match_field (fs : list (field S)) (key : string) : option (field S) :=
  find (λ f, bool_decide (fold_key (f_name f) = fold_key key)) fs.

(** Keys are applied in order, so the last occurrence of a field wins;
    [strict] is DisallowUnknownFields. *)
Fixpoint dec_obj (strict : bool) (fs : list (field S)) (m : list (string * json)) (s : S)
    : result S :=
  match m with
  | [] => Ok s
  | (k, v) :: m =>
      match match_field fs k with
      | Some f => s' ← f_set f v s; dec_obj strict fs m s'
      | None => if strict then Error EDecode else dec_obj strict fs m s
      end
  end.
End fields.

(** A struct type with json tags: its zero value, its fields, its encoding, and
    which of its values json.Marshal renders without loss. *)
Class Payload (S : Type) := {
  pl_zero : S;
  pl_fields : list (field S);
  pl_enc : S → json;
  pl_valid : S → bool;
}.

(** decode (project.go): json.Unmarshal into a zero struct. *)
Definition decode {S} `{Payload S} (j : json) : result S :=
  match j with
  | JObj m => dec_obj false pl_fields m pl_zero
  | JNull => Ok pl_zero
  | _ => Error EDecode
  end.

(** decodeStrict (project.go): an object, and no unknown field. *)
Definition decodeStrict {S} `{Payload S} (j : json) : result S :=
  match j with
  | JObj m => dec_obj true pl_fields m pl_zero
  | _ => Error EDecode
  end.

(** ** Encoders *)
Definition jstr (k s : string) : list (string * json) := [(k, JStr (utf8_coerce s))].
Definition jstr_omit (k s : string) : list (string * json) :=
  if bool_decide (s = "") then [] else jstr k s.
Definition jint (k : string) (z : Z) : list (string * json) := [(k, JNum z)].
Definition jbool (k : string) (b : bool) : list (string * json) := [(k, JBool b)].
Definition jbool_omit (k : string) (b : bool) : list (string * json) :=
  if b then jbool k b else [].
Definition jstrs (k : string) (l : list string) : list (string * json) :=
  [(k, JArr ((λ s, JStr (utf8_coerce s)) <$> l))].
Definition jstrs_omit (k : string) (l : list string) : list (string * json) :=
  if bool_decide (l = []) then [] else jstrs k l.
Definition jbytes (k : string) (b : option string) : list (string * json) :=
  [(k, match b with None => JNull | Some s => JStr (Base64.encode (bytes_of s)) end)].

(** The law every struct below satisfies: strict decoding inverts encoding. *)
Class LawfulPayload (S : Type) `{Payload S} := {
  pl_roundtrip : ∀ s : S, pl_valid s = true → decodeStrict (pl_enc s) = Ok s;
}.

Lemma utf8_valid_true s : utf8_valid s = true → utf8_coerce s = s.
Proof. apply bool_decide_eq_true_1. Qed.

Lemma mapM_str_elem l :
  forallb utf8_valid l = true →
  mapM_r str_elem ((λ s, JStr (utf8_coerce s)) <$> l) = Ok l.
Proof.
  induction l as [|s l IH]; [done|]. cbn [forallb]. intros [Hs Hl]%andb_true_iff.
  cbn [fmap list_fmap mapM_r str_elem].
  change (list_fmap _ _ ?f l) with (f <$> l). cbn [mbind result_bind].
  by rewrite (IH Hl), utf8_valid_true.
Qed.

Lemma bytes_roundtrip s :
  Base64.decode (Base64.encode (bytes_of s)) = Some (bytes_of s).
Proof. apply Base64.decode_encode, bytes_of_bound. Qed.

Lemma dec_obj_strict_lenient {S} (fs : list (field S)) m s s' :
  dec_obj true fs m s = Ok s' → dec_obj false fs m s = Ok s'.
Proof.
  revert s. induction m as [|[k v] m IH]; intros s; cbn [dec_obj]; [done|].
  destruct (match_field fs k) as [f|]; [|done].
  intros (s1 & H1 & H2)%bind_Ok. rewrite H1. cbn. by apply IH.
Qed.

(** What the strict decoder accepts, the lenient one reads identically. *)
Lemma decodeStrict_decode {S} `{Payload S} j (s : S) :
  decodeStrict j = Ok s → decode j = Ok s.
Proof. destruct j; try done. apply dec_obj_strict_lenient. Qed.

Lemma pl_roundtrip_lenient {S} `{LawfulPayload S} (s : S) :
  pl_valid s = true → decode (pl_enc s) = Ok s.
Proof. intros. by apply decodeStrict_decode, pl_roundtrip. Qed.

(** Drops the encoding-side coercions using the validity hypothesis, splits on
    omitempty and evaluates the decoder. *)
Ltac json_cbn :=
  cbn -[utf8_coerce utf8_valid fold_key bool_decide int64_ok Base64.decode Base64.encode
        bytes_of string_of mapM_r fmap] in *.

Ltac solve_roundtrip inst :=
  let s := fresh in let H := fresh in
  intros s H; destruct s; unfold decodeStrict, inst, jstr_omit, jstrs_omit, jbool_omit in *;
  json_cbn; inv_bool;
  repeat match goal with
  | H : utf8_valid _ = true |- _ => apply utf8_valid_true in H
  end;
  repeat match goal with x : bool |- _ => destruct x | x : option string |- _ => destruct x end;
  repeat match goal with
  | |- context [bool_decide (?x = ?y)] =>
      is_var x; let E := fresh in destruct (bool_decide (x = y)) eqn:E; inv_bool; subst
  end; json_cbn;
  repeat first
    [ match goal with
      | |- context [bool_decide (fold_key ?a = fold_key ?b)] =>
          let r := eval vm_compute in (bool_decide (fold_key a = fold_key b)) in
          change (bool_decide (fold_key a = fold_key b)) with r
      end; json_cbn
    | rewrite bytes_roundtrip; json_cbn
    | rewrite mapM_str_elem by done; json_cbn
    | match goal with H : int64_ok _ = true |- _ => rewrite H; json_cbn end ];
  repeat match goal with H : utf8_coerce ?s = ?s |- context [utf8_coerce ?s] => rewrite H end;
  rewrite ?string_bytes; try reflexivity.

(** json_extract(doc, '$.key') for a string-valued key: SQL NULL when the key is
    absent or null. *)
Fixpoint json_key (k : string) (m : list (string * json)) : option json :=
  match m with
  | [] => None
  | (k', v) :: m => if bool_decide (k' = k) then Some v else json_key k m
  end.

Definition json_extract_str (j : json) (k : string) : option string :=
  match j with
  | JObj m => match json_key k m with Some (JStr s) => Some s | _ => None end
  | _ => None
  end.

Definition json_is_object (j : json) : bool :=
  match j with JObj _ => true | _ => false end.
