(* ===== verification/Payloads.v ===== *)
(** Event payloads (src/internal/store/payloads.go): one record per struct, with
    its json tags as a [Payload] instance and the round-trip law.  Fields whose
    Go type is a named string (Lifecycle, Scale, ...) are strings here as there:
    nothing but the projection and the schema constrains them. *)
From S2P Require Import Prelude GoStd Json.

Ltac payload_law inst := constructor; solve_roundtrip inst.

Record NodeBirth := MkNodeBirth {
  NodeBirth_Title : string;
  NodeBirth_Locator : string;
  NodeBirth_Parent : string;
  NodeBirth_SortKey : Z
}.

#[global] Instance NodeBirth_payload : Payload NodeBirth := {|
  pl_zero := MkNodeBirth "" "" "" 0%Z;
  pl_fields := [str_field "title" (λ v p, MkNodeBirth v (NodeBirth_Locator p) (NodeBirth_Parent p) (NodeBirth_SortKey p));
    str_field "locator" (λ v p, MkNodeBirth (NodeBirth_Title p) v (NodeBirth_Parent p) (NodeBirth_SortKey p));
    str_field "parent" (λ v p, MkNodeBirth (NodeBirth_Title p) (NodeBirth_Locator p) v (NodeBirth_SortKey p));
    int_field "sort_key" (λ v p, MkNodeBirth (NodeBirth_Title p) (NodeBirth_Locator p) (NodeBirth_Parent p) v)];
  pl_enc p := JObj (jstr "title" (NodeBirth_Title p) ++ jstr "locator" (NodeBirth_Locator p) ++ jstr_omit "parent" (NodeBirth_Parent p) ++ jint "sort_key" (NodeBirth_SortKey p));
  pl_valid p := utf8_valid (NodeBirth_Title p) && utf8_valid (NodeBirth_Locator p) && utf8_valid (NodeBirth_Parent p) && int64_ok (NodeBirth_SortKey p);
|}.

#[global] Instance NodeBirth_law : LawfulPayload NodeBirth.
Proof. payload_law NodeBirth_payload. Qed.

Record Transition := MkTransition {
  Transition_From : string;
  Transition_To : string;
  Transition_Cascade : bool;
  Transition_TrackerPushLevel : string;
  Transition_Reason : string
}.

#[global] Instance Transition_payload : Payload Transition := {|
  pl_zero := MkTransition "" "" false "" "";
  pl_fields := [str_field "from" (λ v p, MkTransition v (Transition_To p) (Transition_Cascade p) (Transition_TrackerPushLevel p) (Transition_Reason p));
    str_field "to" (λ v p, MkTransition (Transition_From p) v (Transition_Cascade p) (Transition_TrackerPushLevel p) (Transition_Reason p));
    bool_field "cascade" (λ v p, MkTransition (Transition_From p) (Transition_To p) v (Transition_TrackerPushLevel p) (Transition_Reason p));
    str_field "tracker_push_level" (λ v p, MkTransition (Transition_From p) (Transition_To p) (Transition_Cascade p) v (Transition_Reason p));
    str_field "reason" (λ v p, MkTransition (Transition_From p) (Transition_To p) (Transition_Cascade p) (Transition_TrackerPushLevel p) v)];
  pl_enc p := JObj (jstr "from" (Transition_From p) ++ jstr "to" (Transition_To p) ++ jbool_omit "cascade" (Transition_Cascade p) ++ jstr_omit "tracker_push_level" (Transition_TrackerPushLevel p) ++ jstr_omit "reason" (Transition_Reason p));
  pl_valid p := utf8_valid (Transition_From p) && utf8_valid (Transition_To p) && utf8_valid (Transition_TrackerPushLevel p) && utf8_valid (Transition_Reason p);
|}.

#[global] Instance Transition_law : LawfulPayload Transition.
Proof. payload_law Transition_payload. Qed.

Record ContentWritten := MkContentWritten {
  ContentWritten_Kind : string;
  ContentWritten_Content : string;
  ContentWritten_Bytes : option string;
  ContentWritten_BlobRef : string;
  ContentWritten_ByteLen : Z;
  ContentWritten_SHA256 : string
}.

#[global] Instance ContentWritten_payload : Payload ContentWritten := {|
  pl_zero := MkContentWritten "" "" None "" 0%Z "";
  pl_fields := [str_field "kind" (λ v p, MkContentWritten v (ContentWritten_Content p) (ContentWritten_Bytes p) (ContentWritten_BlobRef p) (ContentWritten_ByteLen p) (ContentWritten_SHA256 p));
    str_field "content" (λ v p, MkContentWritten (ContentWritten_Kind p) v (ContentWritten_Bytes p) (ContentWritten_BlobRef p) (ContentWritten_ByteLen p) (ContentWritten_SHA256 p));
    bytes_field "bytes" (λ v p, MkContentWritten (ContentWritten_Kind p) (ContentWritten_Content p) v (ContentWritten_BlobRef p) (ContentWritten_ByteLen p) (ContentWritten_SHA256 p));
    str_field "blob_ref" (λ v p, MkContentWritten (ContentWritten_Kind p) (ContentWritten_Content p) (ContentWritten_Bytes p) v (ContentWritten_ByteLen p) (ContentWritten_SHA256 p));
    int_field "byte_len" (λ v p, MkContentWritten (ContentWritten_Kind p) (ContentWritten_Content p) (ContentWritten_Bytes p) (ContentWritten_BlobRef p) v (ContentWritten_SHA256 p));
    str_field "sha256" (λ v p, MkContentWritten (ContentWritten_Kind p) (ContentWritten_Content p) (ContentWritten_Bytes p) (ContentWritten_BlobRef p) (ContentWritten_ByteLen p) v)];
  pl_enc p := JObj (jstr "kind" (ContentWritten_Kind p) ++ jstr "content" (ContentWritten_Content p) ++ jbytes "bytes" (ContentWritten_Bytes p) ++ jstr_omit "blob_ref" (ContentWritten_BlobRef p) ++ jint "byte_len" (ContentWritten_ByteLen p) ++ jstr "sha256" (ContentWritten_SHA256 p));
  pl_valid p := utf8_valid (ContentWritten_Kind p) && utf8_valid (ContentWritten_Content p) && utf8_valid (ContentWritten_BlobRef p) && int64_ok (ContentWritten_ByteLen p) && utf8_valid (ContentWritten_SHA256 p);
|}.

#[global] Instance ContentWritten_law : LawfulPayload ContentWritten.
Proof. payload_law ContentWritten_payload. Qed.

Record Reordered := MkReordered {
  Reordered_Order : list string
}.

#[global] Instance Reordered_payload : Payload Reordered := {|
  pl_zero := MkReordered [];
  pl_fields := [strs_field "order" (λ v p, MkReordered v)];
  pl_enc p := JObj (jstrs "order" (Reordered_Order p));
  pl_valid p := forallb utf8_valid (Reordered_Order p);
|}.

#[global] Instance Reordered_law : LawfulPayload Reordered.
Proof. payload_law Reordered_payload. Qed.

Record Replaced := MkReplaced {
  Replaced_Replacement : string;
  Replaced_Title : string;
  Replaced_Locator : string
}.

#[global] Instance Replaced_payload : Payload Replaced := {|
  pl_zero := MkReplaced "" "" "";
  pl_fields := [str_field "replacement" (λ v p, MkReplaced v (Replaced_Title p) (Replaced_Locator p));
    str_field "title" (λ v p, MkReplaced (Replaced_Replacement p) v (Replaced_Locator p));
    str_field "locator" (λ v p, MkReplaced (Replaced_Replacement p) (Replaced_Title p) v)];
  pl_enc p := JObj (jstr "replacement" (Replaced_Replacement p) ++ jstr "title" (Replaced_Title p) ++ jstr "locator" (Replaced_Locator p));
  pl_valid p := utf8_valid (Replaced_Replacement p) && utf8_valid (Replaced_Title p) && utf8_valid (Replaced_Locator p);
|}.

#[global] Instance Replaced_law : LawfulPayload Replaced.
Proof. payload_law Replaced_payload. Qed.

Record Removed := MkRemoved {
  Removed_Reason : string
}.

#[global] Instance Removed_payload : Payload Removed := {|
  pl_zero := MkRemoved "";
  pl_fields := [str_field "reason" (λ v p, MkRemoved v)];
  pl_enc p := JObj (jstr_omit "reason" (Removed_Reason p));
  pl_valid p := utf8_valid (Removed_Reason p);
|}.

#[global] Instance Removed_law : LawfulPayload Removed.
Proof. payload_law Removed_payload. Qed.

Record DependencyChange := MkDependencyChange {
  DependencyChange_Edge : string;
  DependencyChange_Blocker : string
}.

#[global] Instance DependencyChange_payload : Payload DependencyChange := {|
  pl_zero := MkDependencyChange "" "";
  pl_fields := [str_field "edge" (λ v p, MkDependencyChange v (DependencyChange_Blocker p));
    str_field "blocker" (λ v p, MkDependencyChange (DependencyChange_Edge p) v)];
  pl_enc p := JObj (jstr "edge" (DependencyChange_Edge p) ++ jstr "blocker" (DependencyChange_Blocker p));
  pl_valid p := utf8_valid (DependencyChange_Edge p) && utf8_valid (DependencyChange_Blocker p);
|}.

#[global] Instance DependencyChange_law : LawfulPayload DependencyChange.
Proof. payload_law DependencyChange_payload. Qed.

Record GateClosed := MkGateClosed {
  GateClosed_Gate : string;
  GateClosed_Scale : string;
  GateClosed_TrackerPushLevel : string
}.

#[global] Instance GateClosed_payload : Payload GateClosed := {|
  pl_zero := MkGateClosed "" "" "";
  pl_fields := [str_field "gate" (λ v p, MkGateClosed v (GateClosed_Scale p) (GateClosed_TrackerPushLevel p));
    str_field "scale" (λ v p, MkGateClosed (GateClosed_Gate p) v (GateClosed_TrackerPushLevel p));
    str_field "tracker_push_level" (λ v p, MkGateClosed (GateClosed_Gate p) (GateClosed_Scale p) v)];
  pl_enc p := JObj (jstr "gate" (GateClosed_Gate p) ++ jstr "scale" (GateClosed_Scale p) ++ jstr_omit "tracker_push_level" (GateClosed_TrackerPushLevel p));
  pl_valid p := utf8_valid (GateClosed_Gate p) && utf8_valid (GateClosed_Scale p) && utf8_valid (GateClosed_TrackerPushLevel p);
|}.

#[global] Instance GateClosed_law : LawfulPayload GateClosed.
Proof. payload_law GateClosed_payload. Qed.

Record GateDismissed := MkGateDismissed {
  GateDismissed_Gate : string;
  GateDismissed_Scale : string;
  GateDismissed_Reason : string;
  GateDismissed_TrackerPushLevel : string
}.

#[global] Instance GateDismissed_payload : Payload GateDismissed := {|
  pl_zero := MkGateDismissed "" "" "" "";
  pl_fields := [str_field "gate" (λ v p, MkGateDismissed v (GateDismissed_Scale p) (GateDismissed_Reason p) (GateDismissed_TrackerPushLevel p));
    str_field "scale" (λ v p, MkGateDismissed (GateDismissed_Gate p) v (GateDismissed_Reason p) (GateDismissed_TrackerPushLevel p));
    str_field "reason" (λ v p, MkGateDismissed (GateDismissed_Gate p) (GateDismissed_Scale p) v (GateDismissed_TrackerPushLevel p));
    str_field "tracker_push_level" (λ v p, MkGateDismissed (GateDismissed_Gate p) (GateDismissed_Scale p) (GateDismissed_Reason p) v)];
  pl_enc p := JObj (jstr "gate" (GateDismissed_Gate p) ++ jstr "scale" (GateDismissed_Scale p) ++ jstr "reason" (GateDismissed_Reason p) ++ jstr_omit "tracker_push_level" (GateDismissed_TrackerPushLevel p));
  pl_valid p := utf8_valid (GateDismissed_Gate p) && utf8_valid (GateDismissed_Scale p) && utf8_valid (GateDismissed_Reason p) && utf8_valid (GateDismissed_TrackerPushLevel p);
|}.

#[global] Instance GateDismissed_law : LawfulPayload GateDismissed.
Proof. payload_law GateDismissed_payload. Qed.

Record GateDeclared := MkGateDeclared {
  GateDeclared_Gate : string;
  GateDeclared_Scale : string;
  GateDeclared_Exempt : list string
}.

#[global] Instance GateDeclared_payload : Payload GateDeclared := {|
  pl_zero := MkGateDeclared "" "" [];
  pl_fields := [str_field "gate" (λ v p, MkGateDeclared v (GateDeclared_Scale p) (GateDeclared_Exempt p));
    str_field "scale" (λ v p, MkGateDeclared (GateDeclared_Gate p) v (GateDeclared_Exempt p));
    strs_field "exempt" (λ v p, MkGateDeclared (GateDeclared_Gate p) (GateDeclared_Scale p) v)];
  pl_enc p := JObj (jstr "gate" (GateDeclared_Gate p) ++ jstr "scale" (GateDeclared_Scale p) ++ jstrs_omit "exempt" (GateDeclared_Exempt p));
  pl_valid p := utf8_valid (GateDeclared_Gate p) && utf8_valid (GateDeclared_Scale p) && forallb utf8_valid (GateDeclared_Exempt p);
|}.

#[global] Instance GateDeclared_law : LawfulPayload GateDeclared.
Proof. payload_law GateDeclared_payload. Qed.

Record GateExemptionRepaired := MkGateExemptionRepaired {
  GateExemptionRepaired_Gate : string
}.

#[global] Instance GateExemptionRepaired_payload : Payload GateExemptionRepaired := {|
  pl_zero := MkGateExemptionRepaired "";
  pl_fields := [str_field "gate" (λ v p, MkGateExemptionRepaired v)];
  pl_enc p := JObj (jstr "gate" (GateExemptionRepaired_Gate p));
  pl_valid p := utf8_valid (GateExemptionRepaired_Gate p);
|}.

#[global] Instance GateExemptionRepaired_law : LawfulPayload GateExemptionRepaired.
Proof. payload_law GateExemptionRepaired_payload. Qed.

Record ConfigSet := MkConfigSet {
  ConfigSet_Key : string;
  ConfigSet_Value : string
}.

#[global] Instance ConfigSet_payload : Payload ConfigSet := {|
  pl_zero := MkConfigSet "" "";
  pl_fields := [str_field "key" (λ v p, MkConfigSet v (ConfigSet_Value p));
    str_field "value" (λ v p, MkConfigSet (ConfigSet_Key p) v)];
  pl_enc p := JObj (jstr "key" (ConfigSet_Key p) ++ jstr "value" (ConfigSet_Value p));
  pl_valid p := utf8_valid (ConfigSet_Key p) && utf8_valid (ConfigSet_Value p);
|}.

#[global] Instance ConfigSet_law : LawfulPayload ConfigSet.
Proof. payload_law ConfigSet_payload. Qed.

Record BacklogEntered := MkBacklogEntered {
  BacklogEntered_Provenance : string;
  BacklogEntered_Title : string;
  BacklogEntered_Detail : string;
  BacklogEntered_OriginNode : string
}.

#[global] Instance BacklogEntered_payload : Payload BacklogEntered := {|
  pl_zero := MkBacklogEntered "" "" "" "";
  pl_fields := [str_field "provenance" (λ v p, MkBacklogEntered v (BacklogEntered_Title p) (BacklogEntered_Detail p) (BacklogEntered_OriginNode p));
    str_field "title" (λ v p, MkBacklogEntered (BacklogEntered_Provenance p) v (BacklogEntered_Detail p) (BacklogEntered_OriginNode p));
    str_field "detail" (λ v p, MkBacklogEntered (BacklogEntered_Provenance p) (BacklogEntered_Title p) v (BacklogEntered_OriginNode p));
    str_field "origin_node" (λ v p, MkBacklogEntered (BacklogEntered_Provenance p) (BacklogEntered_Title p) (BacklogEntered_Detail p) v)];
  pl_enc p := JObj (jstr "provenance" (BacklogEntered_Provenance p) ++ jstr "title" (BacklogEntered_Title p) ++ jstr_omit "detail" (BacklogEntered_Detail p) ++ jstr_omit "origin_node" (BacklogEntered_OriginNode p));
  pl_valid p := utf8_valid (BacklogEntered_Provenance p) && utf8_valid (BacklogEntered_Title p) && utf8_valid (BacklogEntered_Detail p) && utf8_valid (BacklogEntered_OriginNode p);
|}.

#[global] Instance BacklogEntered_law : LawfulPayload BacklogEntered.
Proof. payload_law BacklogEntered_payload. Qed.

Record BacklogPlanned := MkBacklogPlanned {
  BacklogPlanned_Matter : string
}.

#[global] Instance BacklogPlanned_payload : Payload BacklogPlanned := {|
  pl_zero := MkBacklogPlanned "";
  pl_fields := [str_field "matter" (λ v p, MkBacklogPlanned v)];
  pl_enc p := JObj (jstr "matter" (BacklogPlanned_Matter p));
  pl_valid p := utf8_valid (BacklogPlanned_Matter p);
|}.

#[global] Instance BacklogPlanned_law : LawfulPayload BacklogPlanned.
Proof. payload_law BacklogPlanned_payload. Qed.

Record BacklogDeclined := MkBacklogDeclined {
  BacklogDeclined_Reason : string
}.

#[global] Instance BacklogDeclined_payload : Payload BacklogDeclined := {|
  pl_zero := MkBacklogDeclined "";
  pl_fields := [str_field "reason" (λ v p, MkBacklogDeclined v)];
  pl_enc p := JObj (jstr "reason" (BacklogDeclined_Reason p));
  pl_valid p := utf8_valid (BacklogDeclined_Reason p);
|}.

#[global] Instance BacklogDeclined_law : LawfulPayload BacklogDeclined.
Proof. payload_law BacklogDeclined_payload. Qed.

Record BacklogDelegated := MkBacklogDelegated {
  BacklogDelegated_Outbox : string;
  BacklogDelegated_IdempotencyKey : string
}.

#[global] Instance BacklogDelegated_payload : Payload BacklogDelegated := {|
  pl_zero := MkBacklogDelegated "" "";
  pl_fields := [str_field "outbox" (λ v p, MkBacklogDelegated v (BacklogDelegated_IdempotencyKey p));
    str_field "idempotency_key" (λ v p, MkBacklogDelegated (BacklogDelegated_Outbox p) v)];
  pl_enc p := JObj (jstr "outbox" (BacklogDelegated_Outbox p) ++ jstr "idempotency_key" (BacklogDelegated_IdempotencyKey p));
  pl_valid p := utf8_valid (BacklogDelegated_Outbox p) && utf8_valid (BacklogDelegated_IdempotencyKey p);
|}.

#[global] Instance BacklogDelegated_law : LawfulPayload BacklogDelegated.
Proof. payload_law BacklogDelegated_payload. Qed.

Record ReferenceBound := MkReferenceBound {
  ReferenceBound_Ref : string
}.

#[global] Instance ReferenceBound_payload : Payload ReferenceBound := {|
  pl_zero := MkReferenceBound "";
  pl_fields := [str_field "ref" (λ v p, MkReferenceBound v)];
  pl_enc p := JObj (jstr "ref" (ReferenceBound_Ref p));
  pl_valid p := utf8_valid (ReferenceBound_Ref p);
|}.

#[global] Instance ReferenceBound_law : LawfulPayload ReferenceBound.
Proof. payload_law ReferenceBound_payload. Qed.

Record ReferenceAdded := MkReferenceAdded {
  ReferenceAdded_Ref : string;
  ReferenceAdded_TrackerPushLevel : string
}.

#[global] Instance ReferenceAdded_payload : Payload ReferenceAdded := {|
  pl_zero := MkReferenceAdded "" "";
  pl_fields := [str_field "ref" (λ v p, MkReferenceAdded v (ReferenceAdded_TrackerPushLevel p));
    str_field "tracker_push_level" (λ v p, MkReferenceAdded (ReferenceAdded_Ref p) v)];
  pl_enc p := JObj (jstr "ref" (ReferenceAdded_Ref p) ++ jstr_omit "tracker_push_level" (ReferenceAdded_TrackerPushLevel p));
  pl_valid p := utf8_valid (ReferenceAdded_Ref p) && utf8_valid (ReferenceAdded_TrackerPushLevel p);
|}.

#[global] Instance ReferenceAdded_law : LawfulPayload ReferenceAdded.
Proof. payload_law ReferenceAdded_payload. Qed.

Record ReferenceRemoved := MkReferenceRemoved {
  ReferenceRemoved_Ref : string;
  ReferenceRemoved_TrackerPushLevel : string
}.

#[global] Instance ReferenceRemoved_payload : Payload ReferenceRemoved := {|
  pl_zero := MkReferenceRemoved "" "";
  pl_fields := [str_field "ref" (λ v p, MkReferenceRemoved v (ReferenceRemoved_TrackerPushLevel p));
    str_field "tracker_push_level" (λ v p, MkReferenceRemoved (ReferenceRemoved_Ref p) v)];
  pl_enc p := JObj (jstr "ref" (ReferenceRemoved_Ref p) ++ jstr_omit "tracker_push_level" (ReferenceRemoved_TrackerPushLevel p));
  pl_valid p := utf8_valid (ReferenceRemoved_Ref p) && utf8_valid (ReferenceRemoved_TrackerPushLevel p);
|}.

#[global] Instance ReferenceRemoved_law : LawfulPayload ReferenceRemoved.
Proof. payload_law ReferenceRemoved_payload. Qed.

Record ReferenceRebound := MkReferenceRebound {
  ReferenceRebound_From : string;
  ReferenceRebound_To : string;
  ReferenceRebound_TrackerPushLevel : string
}.

#[global] Instance ReferenceRebound_payload : Payload ReferenceRebound := {|
  pl_zero := MkReferenceRebound "" "" "";
  pl_fields := [str_field "from" (λ v p, MkReferenceRebound v (ReferenceRebound_To p) (ReferenceRebound_TrackerPushLevel p));
    str_field "to" (λ v p, MkReferenceRebound (ReferenceRebound_From p) v (ReferenceRebound_TrackerPushLevel p));
    str_field "tracker_push_level" (λ v p, MkReferenceRebound (ReferenceRebound_From p) (ReferenceRebound_To p) v)];
  pl_enc p := JObj (jstr "from" (ReferenceRebound_From p) ++ jstr "to" (ReferenceRebound_To p) ++ jstr_omit "tracker_push_level" (ReferenceRebound_TrackerPushLevel p));
  pl_valid p := utf8_valid (ReferenceRebound_From p) && utf8_valid (ReferenceRebound_To p) && utf8_valid (ReferenceRebound_TrackerPushLevel p);
|}.

#[global] Instance ReferenceRebound_law : LawfulPayload ReferenceRebound.
Proof. payload_law ReferenceRebound_payload. Qed.

Record TrackerStatePushed := MkTrackerStatePushed {
  TrackerStatePushed_Ref : string;
  TrackerStatePushed_Disposition : string;
  TrackerStatePushed_Lease : string
}.

#[global] Instance TrackerStatePushed_payload : Payload TrackerStatePushed := {|
  pl_zero := MkTrackerStatePushed "" "" "";
  pl_fields := [str_field "ref" (λ v p, MkTrackerStatePushed v (TrackerStatePushed_Disposition p) (TrackerStatePushed_Lease p));
    str_field "disposition" (λ v p, MkTrackerStatePushed (TrackerStatePushed_Ref p) v (TrackerStatePushed_Lease p));
    str_field "lease" (λ v p, MkTrackerStatePushed (TrackerStatePushed_Ref p) (TrackerStatePushed_Disposition p) v)];
  pl_enc p := JObj (jstr "ref" (TrackerStatePushed_Ref p) ++ jstr "disposition" (TrackerStatePushed_Disposition p) ++ jstr "lease" (TrackerStatePushed_Lease p));
  pl_valid p := utf8_valid (TrackerStatePushed_Ref p) && utf8_valid (TrackerStatePushed_Disposition p) && utf8_valid (TrackerStatePushed_Lease p);
|}.

#[global] Instance TrackerStatePushed_law : LawfulPayload TrackerStatePushed.
Proof. payload_law TrackerStatePushed_payload. Qed.

Record TrackerStateObserved := MkTrackerStateObserved {
  TrackerStateObserved_Ref : string;
  TrackerStateObserved_Disposition : string;
  TrackerStateObserved_Lease : string
}.

#[global] Instance TrackerStateObserved_payload : Payload TrackerStateObserved := {|
  pl_zero := MkTrackerStateObserved "" "" "";
  pl_fields := [str_field "ref" (λ v p, MkTrackerStateObserved v (TrackerStateObserved_Disposition p) (TrackerStateObserved_Lease p));
    str_field "disposition" (λ v p, MkTrackerStateObserved (TrackerStateObserved_Ref p) v (TrackerStateObserved_Lease p));
    str_field "lease" (λ v p, MkTrackerStateObserved (TrackerStateObserved_Ref p) (TrackerStateObserved_Disposition p) v)];
  pl_enc p := JObj (jstr "ref" (TrackerStateObserved_Ref p) ++ jstr "disposition" (TrackerStateObserved_Disposition p) ++ jstr "lease" (TrackerStateObserved_Lease p));
  pl_valid p := utf8_valid (TrackerStateObserved_Ref p) && utf8_valid (TrackerStateObserved_Disposition p) && utf8_valid (TrackerStateObserved_Lease p);
|}.

#[global] Instance TrackerStateObserved_law : LawfulPayload TrackerStateObserved.
Proof. payload_law TrackerStateObserved_payload. Qed.

Record TrackerItemCreated := MkTrackerItemCreated {
  TrackerItemCreated_Ref : string
}.

#[global] Instance TrackerItemCreated_payload : Payload TrackerItemCreated := {|
  pl_zero := MkTrackerItemCreated "";
  pl_fields := [str_field "ref" (λ v p, MkTrackerItemCreated v)];
  pl_enc p := JObj (jstr "ref" (TrackerItemCreated_Ref p));
  pl_valid p := utf8_valid (TrackerItemCreated_Ref p);
|}.

#[global] Instance TrackerItemCreated_law : LawfulPayload TrackerItemCreated.
Proof. payload_law TrackerItemCreated_payload. Qed.

Record TrackerAdhocProposed := MkTrackerAdhocProposed {
  TrackerAdhocProposed_Kind : string;
  TrackerAdhocProposed_Title : string;
  TrackerAdhocProposed_Detail : string;
  TrackerAdhocProposed_Ref : string;
  TrackerAdhocProposed_Body : string;
  TrackerAdhocProposed_Disposition : string
}.

#[global] Instance TrackerAdhocProposed_payload : Payload TrackerAdhocProposed := {|
  pl_zero := MkTrackerAdhocProposed "" "" "" "" "" "";
  pl_fields := [str_field "kind" (λ v p, MkTrackerAdhocProposed v (TrackerAdhocProposed_Title p) (TrackerAdhocProposed_Detail p) (TrackerAdhocProposed_Ref p) (TrackerAdhocProposed_Body p) (TrackerAdhocProposed_Disposition p));
    str_field "title" (λ v p, MkTrackerAdhocProposed (TrackerAdhocProposed_Kind p) v (TrackerAdhocProposed_Detail p) (TrackerAdhocProposed_Ref p) (TrackerAdhocProposed_Body p) (TrackerAdhocProposed_Disposition p));
    str_field "detail" (λ v p, MkTrackerAdhocProposed (TrackerAdhocProposed_Kind p) (TrackerAdhocProposed_Title p) v (TrackerAdhocProposed_Ref p) (TrackerAdhocProposed_Body p) (TrackerAdhocProposed_Disposition p));
    str_field "ref" (λ v p, MkTrackerAdhocProposed (TrackerAdhocProposed_Kind p) (TrackerAdhocProposed_Title p) (TrackerAdhocProposed_Detail p) v (TrackerAdhocProposed_Body p) (TrackerAdhocProposed_Disposition p));
    str_field "body" (λ v p, MkTrackerAdhocProposed (TrackerAdhocProposed_Kind p) (TrackerAdhocProposed_Title p) (TrackerAdhocProposed_Detail p) (TrackerAdhocProposed_Ref p) v (TrackerAdhocProposed_Disposition p));
    str_field "disposition" (λ v p, MkTrackerAdhocProposed (TrackerAdhocProposed_Kind p) (TrackerAdhocProposed_Title p) (TrackerAdhocProposed_Detail p) (TrackerAdhocProposed_Ref p) (TrackerAdhocProposed_Body p) v)];
  pl_enc p := JObj (jstr "kind" (TrackerAdhocProposed_Kind p) ++ jstr_omit "title" (TrackerAdhocProposed_Title p) ++ jstr_omit "detail" (TrackerAdhocProposed_Detail p) ++ jstr_omit "ref" (TrackerAdhocProposed_Ref p) ++ jstr_omit "body" (TrackerAdhocProposed_Body p) ++ jstr_omit "disposition" (TrackerAdhocProposed_Disposition p));
  pl_valid p := utf8_valid (TrackerAdhocProposed_Kind p) && utf8_valid (TrackerAdhocProposed_Title p) && utf8_valid (TrackerAdhocProposed_Detail p) && utf8_valid (TrackerAdhocProposed_Ref p) && utf8_valid (TrackerAdhocProposed_Body p) && utf8_valid (TrackerAdhocProposed_Disposition p);
|}.

#[global] Instance TrackerAdhocProposed_law : LawfulPayload TrackerAdhocProposed.
Proof. payload_law TrackerAdhocProposed_payload. Qed.

Record OutboxApproved := MkOutboxApproved {}.

#[global] Instance OutboxApproved_payload : Payload OutboxApproved := {|
  pl_zero := MkOutboxApproved;
  pl_fields := [];
  pl_enc _ := JObj [];
  pl_valid p := true;
|}.

#[global] Instance OutboxApproved_law : LawfulPayload OutboxApproved.
Proof. payload_law OutboxApproved_payload. Qed.

Record OutboxDeclined := MkOutboxDeclined {
  OutboxDeclined_Reason : string
}.

#[global] Instance OutboxDeclined_payload : Payload OutboxDeclined := {|
  pl_zero := MkOutboxDeclined "";
  pl_fields := [str_field "reason" (λ v p, MkOutboxDeclined v)];
  pl_enc p := JObj (jstr "reason" (OutboxDeclined_Reason p));
  pl_valid p := utf8_valid (OutboxDeclined_Reason p);
|}.

#[global] Instance OutboxDeclined_law : LawfulPayload OutboxDeclined.
Proof. payload_law OutboxDeclined_payload. Qed.

Record OutboxWithheld := MkOutboxWithheld {
  OutboxWithheld_Reason : string;
  OutboxWithheld_Attempted : bool;
  OutboxWithheld_Cause : string
}.

#[global] Instance OutboxWithheld_payload : Payload OutboxWithheld := {|
  pl_zero := MkOutboxWithheld "" false "";
  pl_fields := [str_field "reason" (λ v p, MkOutboxWithheld v (OutboxWithheld_Attempted p) (OutboxWithheld_Cause p));
    bool_field "attempted" (λ v p, MkOutboxWithheld (OutboxWithheld_Reason p) v (OutboxWithheld_Cause p));
    str_field "cause" (λ v p, MkOutboxWithheld (OutboxWithheld_Reason p) (OutboxWithheld_Attempted p) v)];
  pl_enc p := JObj (jstr "reason" (OutboxWithheld_Reason p) ++ jbool "attempted" (OutboxWithheld_Attempted p) ++ jstr_omit "cause" (OutboxWithheld_Cause p));
  pl_valid p := utf8_valid (OutboxWithheld_Reason p) && utf8_valid (OutboxWithheld_Cause p);
|}.

#[global] Instance OutboxWithheld_law : LawfulPayload OutboxWithheld.
Proof. payload_law OutboxWithheld_payload. Qed.

Record OutboxDeliveryFailed := MkOutboxDeliveryFailed {
  OutboxDeliveryFailed_Reason : string
}.

#[global] Instance OutboxDeliveryFailed_payload : Payload OutboxDeliveryFailed := {|
  pl_zero := MkOutboxDeliveryFailed "";
  pl_fields := [str_field "reason" (λ v p, MkOutboxDeliveryFailed v)];
  pl_enc p := JObj (jstr "reason" (OutboxDeliveryFailed_Reason p));
  pl_valid p := utf8_valid (OutboxDeliveryFailed_Reason p);
|}.

#[global] Instance OutboxDeliveryFailed_law : LawfulPayload OutboxDeliveryFailed.
Proof. payload_law OutboxDeliveryFailed_payload. Qed.

Record OutboxRetried := MkOutboxRetried {}.

#[global] Instance OutboxRetried_payload : Payload OutboxRetried := {|
  pl_zero := MkOutboxRetried;
  pl_fields := [];
  pl_enc _ := JObj [];
  pl_valid p := true;
|}.

#[global] Instance OutboxRetried_law : LawfulPayload OutboxRetried.
Proof. payload_law OutboxRetried_payload. Qed.

Record OutboxFlushed := MkOutboxFlushed {}.

#[global] Instance OutboxFlushed_payload : Payload OutboxFlushed := {|
  pl_zero := MkOutboxFlushed;
  pl_fields := [];
  pl_enc _ := JObj [];
  pl_valid p := true;
|}.

#[global] Instance OutboxFlushed_law : LawfulPayload OutboxFlushed.
Proof. payload_law OutboxFlushed_payload. Qed.

Record RepoAttached := MkRepoAttached {
  RepoAttached_RemoteURL : string;
  RepoAttached_IdentityRemote : string;
  RepoAttached_Label : string
}.

#[global] Instance RepoAttached_payload : Payload RepoAttached := {|
  pl_zero := MkRepoAttached "" "" "";
  pl_fields := [str_field "remote_url" (λ v p, MkRepoAttached v (RepoAttached_IdentityRemote p) (RepoAttached_Label p));
    str_field "identity_remote" (λ v p, MkRepoAttached (RepoAttached_RemoteURL p) v (RepoAttached_Label p));
    str_field "label" (λ v p, MkRepoAttached (RepoAttached_RemoteURL p) (RepoAttached_IdentityRemote p) v)];
  pl_enc p := JObj (jstr_omit "remote_url" (RepoAttached_RemoteURL p) ++ jstr_omit "identity_remote" (RepoAttached_IdentityRemote p) ++ jstr_omit "label" (RepoAttached_Label p));
  pl_valid p := utf8_valid (RepoAttached_RemoteURL p) && utf8_valid (RepoAttached_IdentityRemote p) && utf8_valid (RepoAttached_Label p);
|}.

#[global] Instance RepoAttached_law : LawfulPayload RepoAttached.
Proof. payload_law RepoAttached_payload. Qed.

Record CloneAttached := MkCloneAttached {
  CloneAttached_Repo : string;
  CloneAttached_GitCommonDir : string;
  CloneAttached_Label : string
}.

#[global] Instance CloneAttached_payload : Payload CloneAttached := {|
  pl_zero := MkCloneAttached "" "" "";
  pl_fields := [str_field "repo" (λ v p, MkCloneAttached v (CloneAttached_GitCommonDir p) (CloneAttached_Label p));
    str_field "git_common_dir" (λ v p, MkCloneAttached (CloneAttached_Repo p) v (CloneAttached_Label p));
    str_field "label" (λ v p, MkCloneAttached (CloneAttached_Repo p) (CloneAttached_GitCommonDir p) v)];
  pl_enc p := JObj (jstr "repo" (CloneAttached_Repo p) ++ jstr "git_common_dir" (CloneAttached_GitCommonDir p) ++ jstr "label" (CloneAttached_Label p));
  pl_valid p := utf8_valid (CloneAttached_Repo p) && utf8_valid (CloneAttached_GitCommonDir p) && utf8_valid (CloneAttached_Label p);
|}.

#[global] Instance CloneAttached_law : LawfulPayload CloneAttached.
Proof. payload_law CloneAttached_payload. Qed.

Record WorktreeAttached := MkWorktreeAttached {
  WorktreeAttached_Clone : string;
  WorktreeAttached_Name : string
}.

#[global] Instance WorktreeAttached_payload : Payload WorktreeAttached := {|
  pl_zero := MkWorktreeAttached "" "";
  pl_fields := [str_field "clone" (λ v p, MkWorktreeAttached v (WorktreeAttached_Name p));
    str_field "name" (λ v p, MkWorktreeAttached (WorktreeAttached_Clone p) v)];
  pl_enc p := JObj (jstr "clone" (WorktreeAttached_Clone p) ++ jstr_omit "name" (WorktreeAttached_Name p));
  pl_valid p := utf8_valid (WorktreeAttached_Clone p) && utf8_valid (WorktreeAttached_Name p);
|}.

#[global] Instance WorktreeAttached_law : LawfulPayload WorktreeAttached.
Proof. payload_law WorktreeAttached_payload. Qed.

Record RepoKeyAdopted := MkRepoKeyAdopted {
  RepoKeyAdopted_RemoteURL : string;
  RepoKeyAdopted_IdentityRemote : string
}.

#[global] Instance RepoKeyAdopted_payload : Payload RepoKeyAdopted := {|
  pl_zero := MkRepoKeyAdopted "" "";
  pl_fields := [str_field "remote_url" (λ v p, MkRepoKeyAdopted v (RepoKeyAdopted_IdentityRemote p));
    str_field "identity_remote" (λ v p, MkRepoKeyAdopted (RepoKeyAdopted_RemoteURL p) v)];
  pl_enc p := JObj (jstr "remote_url" (RepoKeyAdopted_RemoteURL p) ++ jstr_omit "identity_remote" (RepoKeyAdopted_IdentityRemote p));
  pl_valid p := utf8_valid (RepoKeyAdopted_RemoteURL p) && utf8_valid (RepoKeyAdopted_IdentityRemote p);
|}.

#[global] Instance RepoKeyAdopted_law : LawfulPayload RepoKeyAdopted.
Proof. payload_law RepoKeyAdopted_payload. Qed.

Record CloneRelinked := MkCloneRelinked {
  CloneRelinked_GitCommonDir : string
}.

#[global] Instance CloneRelinked_payload : Payload CloneRelinked := {|
  pl_zero := MkCloneRelinked "";
  pl_fields := [str_field "git_common_dir" (λ v p, MkCloneRelinked v)];
  pl_enc p := JObj (jstr "git_common_dir" (CloneRelinked_GitCommonDir p));
  pl_valid p := utf8_valid (CloneRelinked_GitCommonDir p);
|}.

#[global] Instance CloneRelinked_law : LawfulPayload CloneRelinked.
Proof. payload_law CloneRelinked_payload. Qed.

Record CloneLabeled := MkCloneLabeled {
  CloneLabeled_Label : string
}.

#[global] Instance CloneLabeled_payload : Payload CloneLabeled := {|
  pl_zero := MkCloneLabeled "";
  pl_fields := [str_field "label" (λ v p, MkCloneLabeled v)];
  pl_enc p := JObj (jstr "label" (CloneLabeled_Label p));
  pl_valid p := utf8_valid (CloneLabeled_Label p);
|}.

#[global] Instance CloneLabeled_law : LawfulPayload CloneLabeled.
Proof. payload_law CloneLabeled_payload. Qed.

Record CursorMoved := MkCursorMoved {
  CursorMoved_Node : string;
  CursorMoved_Previous : string
}.

#[global] Instance CursorMoved_payload : Payload CursorMoved := {|
  pl_zero := MkCursorMoved "" "";
  pl_fields := [str_field "node" (λ v p, MkCursorMoved v (CursorMoved_Previous p));
    str_field "previous" (λ v p, MkCursorMoved (CursorMoved_Node p) v)];
  pl_enc p := JObj (jstr_omit "node" (CursorMoved_Node p) ++ jstr_omit "previous" (CursorMoved_Previous p));
  pl_valid p := utf8_valid (CursorMoved_Node p) && utf8_valid (CursorMoved_Previous p);
|}.

#[global] Instance CursorMoved_law : LawfulPayload CursorMoved.
Proof. payload_law CursorMoved_payload. Qed.

Record BatchCreated := MkBatchCreated {
  BatchCreated_Name : string;
  BatchCreated_Matter : string
}.

#[global] Instance BatchCreated_payload : Payload BatchCreated := {|
  pl_zero := MkBatchCreated "" "";
  pl_fields := [str_field "name" (λ v p, MkBatchCreated v (BatchCreated_Matter p));
    str_field "matter" (λ v p, MkBatchCreated (BatchCreated_Name p) v)];
  pl_enc p := JObj (jstr_omit "name" (BatchCreated_Name p) ++ jstr_omit "matter" (BatchCreated_Matter p));
  pl_valid p := utf8_valid (BatchCreated_Name p) && utf8_valid (BatchCreated_Matter p);
|}.

#[global] Instance BatchCreated_law : LawfulPayload BatchCreated.
Proof. payload_law BatchCreated_payload. Qed.

Record BatchMembership := MkBatchMembership {
  BatchMembership_Matter : string
}.

#[global] Instance BatchMembership_payload : Payload BatchMembership := {|
  pl_zero := MkBatchMembership "";
  pl_fields := [str_field "matter" (λ v p, MkBatchMembership v)];
  pl_enc p := JObj (jstr "matter" (BatchMembership_Matter p));
  pl_valid p := utf8_valid (BatchMembership_Matter p);
|}.

#[global] Instance BatchMembership_law : LawfulPayload BatchMembership.
Proof. payload_law BatchMembership_payload. Qed.

Record BatchDismissedPayload := MkBatchDismissedPayload {}.

#[global] Instance BatchDismissedPayload_payload : Payload BatchDismissedPayload := {|
  pl_zero := MkBatchDismissedPayload;
  pl_fields := [];
  pl_enc _ := JObj [];
  pl_valid p := true;
|}.

#[global] Instance BatchDismissedPayload_law : LawfulPayload BatchDismissedPayload.
Proof. payload_law BatchDismissedPayload_payload. Qed.

Record BatchSweptPayload := MkBatchSweptPayload {}.

#[global] Instance BatchSweptPayload_payload : Payload BatchSweptPayload := {|
  pl_zero := MkBatchSweptPayload;
  pl_fields := [];
  pl_enc _ := JObj [];
  pl_valid p := true;
|}.

#[global] Instance BatchSweptPayload_law : LawfulPayload BatchSweptPayload.
Proof. payload_law BatchSweptPayload_payload. Qed.

Record DispatchOpened := MkDispatchOpened {
  DispatchOpened_Run : string;
  DispatchOpened_Matter : string
}.

#[global] Instance DispatchOpened_payload : Payload DispatchOpened := {|
  pl_zero := MkDispatchOpened "" "";
  pl_fields := [str_field "run" (λ v p, MkDispatchOpened v (DispatchOpened_Matter p));
    str_field "matter" (λ v p, MkDispatchOpened (DispatchOpened_Run p) v)];
  pl_enc p := JObj (jstr_omit "run" (DispatchOpened_Run p) ++ jstr_omit "matter" (DispatchOpened_Matter p));
  pl_valid p := utf8_valid (DispatchOpened_Run p) && utf8_valid (DispatchOpened_Matter p);
|}.

#[global] Instance DispatchOpened_law : LawfulPayload DispatchOpened.
Proof. payload_law DispatchOpened_payload. Qed.

Record DispatchClosed := MkDispatchClosed {
  DispatchClosed_Reason : string
}.

#[global] Instance DispatchClosed_payload : Payload DispatchClosed := {|
  pl_zero := MkDispatchClosed "";
  pl_fields := [str_field "reason" (λ v p, MkDispatchClosed v)];
  pl_enc p := JObj (jstr "reason" (DispatchClosed_Reason p));
  pl_valid p := utf8_valid (DispatchClosed_Reason p);
|}.

#[global] Instance DispatchClosed_law : LawfulPayload DispatchClosed.
Proof. payload_law DispatchClosed_payload. Qed.

Record RunStarted := MkRunStarted {
  RunStarted_Batch : string;
  RunStarted_Locator : string;
  RunStarted_Matters : list string
}.

#[global] Instance RunStarted_payload : Payload RunStarted := {|
  pl_zero := MkRunStarted "" "" [];
  pl_fields := [str_field "batch" (λ v p, MkRunStarted v (RunStarted_Locator p) (RunStarted_Matters p));
    str_field "locator" (λ v p, MkRunStarted (RunStarted_Batch p) v (RunStarted_Matters p));
    strs_field "matters" (λ v p, MkRunStarted (RunStarted_Batch p) (RunStarted_Locator p) v)];
  pl_enc p := JObj (jstr "batch" (RunStarted_Batch p) ++ jstr "locator" (RunStarted_Locator p) ++ jstrs "matters" (RunStarted_Matters p));
  pl_valid p := utf8_valid (RunStarted_Batch p) && utf8_valid (RunStarted_Locator p) && forallb utf8_valid (RunStarted_Matters p);
|}.

#[global] Instance RunStarted_law : LawfulPayload RunStarted.
Proof. payload_law RunStarted_payload. Qed.

Record RunSkipped := MkRunSkipped {
  RunSkipped_Run : string;
  RunSkipped_Reason : string
}.

#[global] Instance RunSkipped_payload : Payload RunSkipped := {|
  pl_zero := MkRunSkipped "" "";
  pl_fields := [str_field "run" (λ v p, MkRunSkipped v (RunSkipped_Reason p));
    str_field "reason" (λ v p, MkRunSkipped (RunSkipped_Run p) v)];
  pl_enc p := JObj (jstr "run" (RunSkipped_Run p) ++ jstr "reason" (RunSkipped_Reason p));
  pl_valid p := utf8_valid (RunSkipped_Run p) && utf8_valid (RunSkipped_Reason p);
|}.

#[global] Instance RunSkipped_law : LawfulPayload RunSkipped.
Proof. payload_law RunSkipped_payload. Qed.

Record RunResumed := MkRunResumed {}.

#[global] Instance RunResumed_payload : Payload RunResumed := {|
  pl_zero := MkRunResumed;
  pl_fields := [];
  pl_enc _ := JObj [];
  pl_valid p := true;
|}.

#[global] Instance RunResumed_law : LawfulPayload RunResumed.
Proof. payload_law RunResumed_payload. Qed.

Record RunFinished := MkRunFinished {}.

#[global] Instance RunFinished_payload : Payload RunFinished := {|
  pl_zero := MkRunFinished;
  pl_fields := [];
  pl_enc _ := JObj [];
  pl_valid p := true;
|}.

#[global] Instance RunFinished_law : LawfulPayload RunFinished.
Proof. payload_law RunFinished_payload. Qed.

Record RunStoodDown := MkRunStoodDown {
  RunStoodDown_ActingClone : string;
  RunStoodDown_OwningClone : string
}.

#[global] Instance RunStoodDown_payload : Payload RunStoodDown := {|
  pl_zero := MkRunStoodDown "" "";
  pl_fields := [str_field "acting_clone" (λ v p, MkRunStoodDown v (RunStoodDown_OwningClone p));
    str_field "owning_clone" (λ v p, MkRunStoodDown (RunStoodDown_ActingClone p) v)];
  pl_enc p := JObj (jstr "acting_clone" (RunStoodDown_ActingClone p) ++ jstr "owning_clone" (RunStoodDown_OwningClone p));
  pl_valid p := utf8_valid (RunStoodDown_ActingClone p) && utf8_valid (RunStoodDown_OwningClone p);
|}.

#[global] Instance RunStoodDown_law : LawfulPayload RunStoodDown.
Proof. payload_law RunStoodDown_payload. Qed.

Record RoleSpawned := MkRoleSpawned {
  RoleSpawned_Dispatch : string;
  RoleSpawned_Name : string
}.

#[global] Instance RoleSpawned_payload : Payload RoleSpawned := {|
  pl_zero := MkRoleSpawned "" "";
  pl_fields := [str_field "dispatch" (λ v p, MkRoleSpawned v (RoleSpawned_Name p));
    str_field "name" (λ v p, MkRoleSpawned (RoleSpawned_Dispatch p) v)];
  pl_enc p := JObj (jstr "dispatch" (RoleSpawned_Dispatch p) ++ jstr "name" (RoleSpawned_Name p));
  pl_valid p := utf8_valid (RoleSpawned_Dispatch p) && utf8_valid (RoleSpawned_Name p);
|}.

#[global] Instance RoleSpawned_law : LawfulPayload RoleSpawned.
Proof. payload_law RoleSpawned_payload. Qed.

Record RoleClosed := MkRoleClosed {
  RoleClosed_Reason : string
}.

#[global] Instance RoleClosed_payload : Payload RoleClosed := {|
  pl_zero := MkRoleClosed "";
  pl_fields := [str_field "reason" (λ v p, MkRoleClosed v)];
  pl_enc p := JObj (jstr "reason" (RoleClosed_Reason p));
  pl_valid p := utf8_valid (RoleClosed_Reason p);
|}.

#[global] Instance RoleClosed_law : LawfulPayload RoleClosed.
Proof. payload_law RoleClosed_payload. Qed.

Record RenderPerformed := MkRenderPerformed {
  RenderPerformed_Target : string
}.

#[global] Instance RenderPerformed_payload : Payload RenderPerformed := {|
  pl_zero := MkRenderPerformed "";
  pl_fields := [str_field "target" (λ v p, MkRenderPerformed v)];
  pl_enc p := JObj (jstr_omit "target" (RenderPerformed_Target p));
  pl_valid p := utf8_valid (RenderPerformed_Target p);
|}.

#[global] Instance RenderPerformed_law : LawfulPayload RenderPerformed.
Proof. payload_law RenderPerformed_payload. Qed.

