(* ===== verification/Tables.v ===== *)
(** The database (src/internal/store/schema_v1.go to schema_v14.go, at the
    latest version): the event envelope, one record per table row, the whole
    projection as a record of finite maps, and the SQL statements the fold uses
    (INSERT, guarded UPDATE, bulk UPDATE) with every CHECK, UNIQUE index, FOREIGN
    KEY and trigger the schema declares.

    Tables are indexed by [tbl], with the key and row types of each as functions
    of the index, so a fact about the SQL statements is proved once for all
    tables. *)
From S2P Require Import Prelude GoStd Ulid Taxonomy Json.

(** ** Column enumerations the schema CHECKs list *)
Inductive BacklogState :=
| BacklogEnteredState
| BacklogPlannedState
| BacklogDeclinedState
| BacklogDelegatedState.

#[global] Instance BacklogState_eq_dec : EqDecision BacklogState.
Proof. solve_decision. Defined.

Definition BacklogState_str (x : BacklogState) : string :=
  match x with
  | BacklogEnteredState => "entered"
  | BacklogPlannedState => "planned"
  | BacklogDeclinedState => "declined"
  | BacklogDelegatedState => "delegated"
  end.

#[global] Instance BacklogState_enum : Enum BacklogState.
Proof. refine {| enum_all := [BacklogEnteredState; BacklogPlannedState; BacklogDeclinedState; BacklogDelegatedState]; enum_str := BacklogState_str |}; solve_enum. Defined.

Inductive OutboxKind :=
| OutboxCreate
| OutboxStateKind
| OutboxComment.

#[global] Instance OutboxKind_eq_dec : EqDecision OutboxKind.
Proof. solve_decision. Defined.

Definition OutboxKind_str (x : OutboxKind) : string :=
  match x with
  | OutboxCreate => "create"
  | OutboxStateKind => "state"
  | OutboxComment => "comment"
  end.

#[global] Instance OutboxKind_enum : Enum OutboxKind.
Proof. refine {| enum_all := [OutboxCreate; OutboxStateKind; OutboxComment]; enum_str := OutboxKind_str |}; solve_enum. Defined.

Inductive OutboxState :=
| OutboxQueued
| OutboxApprovedState
| OutboxDeclinedState
| OutboxWithheldState
| OutboxFlushedState.

#[global] Instance OutboxState_eq_dec : EqDecision OutboxState.
Proof. solve_decision. Defined.

Definition OutboxState_str (x : OutboxState) : string :=
  match x with
  | OutboxQueued => "queued"
  | OutboxApprovedState => "approved"
  | OutboxDeclinedState => "declined"
  | OutboxWithheldState => "withheld"
  | OutboxFlushedState => "flushed"
  end.

#[global] Instance OutboxState_enum : Enum OutboxState.
Proof. refine {| enum_all := [OutboxQueued; OutboxApprovedState; OutboxDeclinedState; OutboxWithheldState; OutboxFlushedState]; enum_str := OutboxState_str |}; solve_enum. Defined.

Inductive BatchState :=
| BatchLive
| BatchClosedState.

#[global] Instance BatchState_eq_dec : EqDecision BatchState.
Proof. solve_decision. Defined.

Definition BatchState_str (x : BatchState) : string :=
  match x with
  | BatchLive => "live"
  | BatchClosedState => "closed"
  end.

#[global] Instance BatchState_enum : Enum BatchState.
Proof. refine {| enum_all := [BatchLive; BatchClosedState]; enum_str := BatchState_str |}; solve_enum. Defined.

Inductive OpenState :=
| StOpen
| StClosed.

#[global] Instance OpenState_eq_dec : EqDecision OpenState.
Proof. solve_decision. Defined.

Definition OpenState_str (x : OpenState) : string :=
  match x with
  | StOpen => "open"
  | StClosed => "closed"
  end.

#[global] Instance OpenState_enum : Enum OpenState.
Proof. refine {| enum_all := [StOpen; StClosed]; enum_str := OpenState_str |}; solve_enum. Defined.

Inductive RunCloseReason :=
| RunCompleted
| RunStoodDownReason
| RunReaped.

#[global] Instance RunCloseReason_eq_dec : EqDecision RunCloseReason.
Proof. solve_decision. Defined.

Definition RunCloseReason_str (x : RunCloseReason) : string :=
  match x with
  | RunCompleted => "completed"
  | RunStoodDownReason => "stood-down"
  | RunReaped => "reaped"
  end.

#[global] Instance RunCloseReason_enum : Enum RunCloseReason.
Proof. refine {| enum_all := [RunCompleted; RunStoodDownReason; RunReaped]; enum_str := RunCloseReason_str |}; solve_enum. Defined.

(** The provider-neutral dispositions (payloads.go). *)
Inductive TrackerDisposition :=
| TrackerActive
| TrackerCompleted
| TrackerCanceled.

#[global] Instance TrackerDisposition_eq_dec : EqDecision TrackerDisposition.
Proof. solve_decision. Defined.

Definition TrackerDisposition_str (x : TrackerDisposition) : string :=
  match x with
  | TrackerActive => "active"
  | TrackerCompleted => "completed"
  | TrackerCanceled => "canceled"
  end.

#[global] Instance TrackerDisposition_enum : Enum TrackerDisposition.
Proof. refine {| enum_all := [TrackerActive; TrackerCompleted; TrackerCanceled]; enum_str := TrackerDisposition_str |}; solve_enum. Defined.

(** ** The envelope (store.go, Event): an absent dimension is the empty string,
    stored as NULL *)
Record Event := MkEvent {
  ev_id : string;
  ev_type : string;
  ev_occurred : Z;
  ev_actor : string;
  ev_causation : string;
  ev_correlation : string;
  ev_repo : string;
  ev_clone : string;
  ev_worktree : string;
  ev_subject : string;
  ev_payload : json;
}.

(** ** Rows *)
Record RepoRow := MkRepoRow {
  rp_remote_url : option string;
  rp_identity_remote : option string;
  rp_label : option string;
  rp_birth : string;
  rp_last : string
}.

Record CloneRow := MkCloneRow {
  cl_repo : string;
  cl_git_common_dir : string;
  cl_label : string;
  cl_birth : string;
  cl_last : string
}.

Record WorktreeRow := MkWorktreeRow {
  wt_clone : string;
  wt_name : option string;
  wt_birth : string;
  wt_last : string
}.

Record NodeRow := MkNodeRow {
  nd_kind : Scale;
  nd_repo : string;
  nd_matter : string;
  nd_parent : option string;
  nd_locator : string;
  nd_title : string;
  nd_lifecycle : Lifecycle;
  nd_sort_key : Z;
  nd_external_ref : option string;
  nd_birth : string;
  nd_last : string;
  nd_tombstone : option string
}.

Record ContentRow := MkContentRow {
  ct_node : string;
  ct_kind : ContentKind;
  ct_bytes : option string;
  ct_blob_ref : option string;
  ct_byte_len : Z;
  ct_sha256 : string;
  ct_birth : string;
  ct_last : string;
  ct_tombstone : option string
}.

Record EdgeRow := MkEdgeRow {
  eg_blocked : string;
  eg_blocker : string;
  eg_birth : string;
  eg_last : string;
  eg_tombstone : option string
}.

Record GateStateRow := MkGateStateRow {
  gs_scale : Scale;
  gs_closed_at : Z;
  gs_last : string
}.

Record BacklogRow := MkBacklogRow {
  bl_repo : string;
  bl_provenance : Provenance;
  bl_state : BacklogState;
  bl_title : string;
  bl_detail : string;
  bl_origin_node : option string;
  bl_matter : option string;
  bl_outbox : option string;
  bl_decline_reason : string;
  bl_birth : string;
  bl_last : string
}.

Record OutboxRow := MkOutboxRow {
  ob_repo : string;
  ob_kind : OutboxKind;
  ob_state : OutboxState;
  ob_subject : string;
  ob_ref : option string;
  ob_idempotency_key : string;
  ob_payload : json;
  ob_reason : string;
  ob_attempts : Z;
  ob_birth : string;
  ob_last : string
}.

Record BatchRow := MkBatchRow {
  bt_name : option string;
  bt_matter : option string;
  bt_state : BatchState;
  bt_close_reason : option BatchCloseReason;
  bt_closed_at : option Z;
  bt_birth : string;
  bt_last : string
}.

Record MemberRow := MkMemberRow {
  mb_left : option string;
  mb_last : string
}.

Record RunRow := MkRunRow {
  rn_clone : string;
  rn_batch : string;
  rn_locator : string;
  rn_state : OpenState;
  rn_close_reason : option RunCloseReason;
  rn_started_at : Z;
  rn_closed_at : option Z;
  rn_birth : string;
  rn_last : string
}.

Record DispatchRow := MkDispatchRow {
  dp_clone : string;
  dp_worktree : string;
  dp_run : option string;
  dp_matter : option string;
  dp_state : OpenState;
  dp_close_reason : option CloseReason;
  dp_opened_at : Z;
  dp_closed_at : option Z;
  dp_birth : string;
  dp_last : string
}.

Record CursorRow := MkCursorRow {
  cu_node : option string;
  cu_last : string
}.

Record RoleRow := MkRoleRow {
  ro_clone : string;
  ro_dispatch : string;
  ro_name : RoleName;
  ro_state : OpenState;
  ro_close_reason : option RoleCloseReason;
  ro_spawned_at : Z;
  ro_closed_at : option Z;
  ro_birth : string;
  ro_last : string
}.

Record RefRow := MkRefRow {
  rf_removed : option string;
  rf_birth : string;
  rf_last : string
}.

Record PushRow := MkPushRow {
  pr_disposition : TrackerDisposition;
  pr_lease : string;
  pr_outbox : string;
  pr_birth : string;
  pr_last : string
}.

(** ** Tables *)
Inductive tbl :=
| TRepos
| TClones
| TWorktrees
| TNodes
| TContent
| TEdges
| TGateState
| TBacklog
| TOutbox
| TBatches
| TMembers
| TRuns
| TRunMatters
| TDispatches
| TCursors
| TRoles
| TRefs
| TPush
| TExempt
| TDecls
| TConfig.

#[global] Instance tbl_eq_dec : EqDecision tbl.
Proof. solve_decision. Defined.

Definition Key (t : tbl) : Type :=
  match t with
  | TRepos => string
  | TClones => string
  | TWorktrees => string
  | TNodes => string
  | TContent => string
  | TEdges => string
  | TGateState => (string * string)
  | TBacklog => string
  | TOutbox => string
  | TBatches => string
  | TMembers => (string * string)
  | TRuns => string
  | TRunMatters => (string * string)
  | TDispatches => string
  | TCursors => (string * string)
  | TRoles => string
  | TRefs => (string * string)
  | TPush => string
  | TExempt => ((string * string) * string)
  | TDecls => (string * string)
  | TConfig => (string * string)
  end.

Definition Row (t : tbl) : Type :=
  match t with
  | TRepos => RepoRow
  | TClones => CloneRow
  | TWorktrees => WorktreeRow
  | TNodes => NodeRow
  | TContent => ContentRow
  | TEdges => EdgeRow
  | TGateState => GateStateRow
  | TBacklog => BacklogRow
  | TOutbox => OutboxRow
  | TBatches => BatchRow
  | TMembers => MemberRow
  | TRuns => RunRow
  | TRunMatters => Z
  | TDispatches => DispatchRow
  | TCursors => CursorRow
  | TRoles => RoleRow
  | TRefs => RefRow
  | TPush => PushRow
  | TExempt => unit
  | TDecls => Scale
  | TConfig => string
  end.

#[global] Instance Key_eq_dec t : EqDecision (Key t) :=
  match t with
  | TRepos => _ : EqDecision string
  | TClones => _ : EqDecision string
  | TWorktrees => _ : EqDecision string
  | TNodes => _ : EqDecision string
  | TContent => _ : EqDecision string
  | TEdges => _ : EqDecision string
  | TGateState => _ : EqDecision (string * string)
  | TBacklog => _ : EqDecision string
  | TOutbox => _ : EqDecision string
  | TBatches => _ : EqDecision string
  | TMembers => _ : EqDecision (string * string)
  | TRuns => _ : EqDecision string
  | TRunMatters => _ : EqDecision (string * string)
  | TDispatches => _ : EqDecision string
  | TCursors => _ : EqDecision (string * string)
  | TRoles => _ : EqDecision string
  | TRefs => _ : EqDecision (string * string)
  | TPush => _ : EqDecision string
  | TExempt => _ : EqDecision ((string * string) * string)
  | TDecls => _ : EqDecision (string * string)
  | TConfig => _ : EqDecision (string * string)
  end.

#[global] Instance Key_countable t : Countable (Key t) :=
  match t as t return @Countable (Key t) (Key_eq_dec t) with
  | TRepos => _ : Countable string
  | TClones => _ : Countable string
  | TWorktrees => _ : Countable string
  | TNodes => _ : Countable string
  | TContent => _ : Countable string
  | TEdges => _ : Countable string
  | TGateState => _ : Countable (string * string)
  | TBacklog => _ : Countable string
  | TOutbox => _ : Countable string
  | TBatches => _ : Countable string
  | TMembers => _ : Countable (string * string)
  | TRuns => _ : Countable string
  | TRunMatters => _ : Countable (string * string)
  | TDispatches => _ : Countable string
  | TCursors => _ : Countable (string * string)
  | TRoles => _ : Countable string
  | TRefs => _ : Countable (string * string)
  | TPush => _ : Countable string
  | TExempt => _ : Countable ((string * string) * string)
  | TDecls => _ : Countable (string * string)
  | TConfig => _ : Countable (string * string)
  end.

(** run_matters holds the ordinal, gate_declarations the scale, config the value. *)
Record Proj := MkProj {
  repos : gmap string RepoRow;
  clones : gmap string CloneRow;
  worktrees : gmap string WorktreeRow;
  nodes : gmap string NodeRow;
  content : gmap string ContentRow;
  edges : gmap string EdgeRow;
  gate_state : gmap (string * string) GateStateRow;
  backlog_entries : gmap string BacklogRow;
  outbox_entries : gmap string OutboxRow;
  batches : gmap string BatchRow;
  batch_members : gmap (string * string) MemberRow;
  runs : gmap string RunRow;
  run_matters : gmap (string * string) Z;
  dispatches : gmap string DispatchRow;
  cursors : gmap (string * string) CursorRow;
  roles : gmap string RoleRow;
  tracker_references : gmap (string * string) RefRow;
  tracker_push_records : gmap string PushRow;
  gate_exemptions : gmap ((string * string) * string) unit;
  gate_declarations : gmap (string * string) Scale;
  config : gmap (string * string) string
}.

Definition empty_proj : Proj := MkProj ∅ ∅ ∅ ∅ ∅ ∅ ∅ ∅ ∅ ∅ ∅ ∅ ∅ ∅ ∅ ∅ ∅ ∅ ∅ ∅ ∅.

Definition tget (t : tbl) (p : Proj) : gmap (Key t) (Row t) :=
  match t with
  | TRepos => repos p
  | TClones => clones p
  | TWorktrees => worktrees p
  | TNodes => nodes p
  | TContent => content p
  | TEdges => edges p
  | TGateState => gate_state p
  | TBacklog => backlog_entries p
  | TOutbox => outbox_entries p
  | TBatches => batches p
  | TMembers => batch_members p
  | TRuns => runs p
  | TRunMatters => run_matters p
  | TDispatches => dispatches p
  | TCursors => cursors p
  | TRoles => roles p
  | TRefs => tracker_references p
  | TPush => tracker_push_records p
  | TExempt => gate_exemptions p
  | TDecls => gate_declarations p
  | TConfig => config p
  end.

Definition tset (t : tbl) : gmap (Key t) (Row t) → Proj → Proj :=
  match t with
  | TRepos => λ m p,
      MkProj m (clones p) (worktrees p) (nodes p) (content p) (edges p) (gate_state p) (backlog_entries p) (outbox_entries p) (batches p) (batch_members p) (runs p) (run_matters p) (dispatches p) (cursors p) (roles p) (tracker_references p) (tracker_push_records p) (gate_exemptions p) (gate_declarations p) (config p)
  | TClones => λ m p,
      MkProj (repos p) m (worktrees p) (nodes p) (content p) (edges p) (gate_state p) (backlog_entries p) (outbox_entries p) (batches p) (batch_members p) (runs p) (run_matters p) (dispatches p) (cursors p) (roles p) (tracker_references p) (tracker_push_records p) (gate_exemptions p) (gate_declarations p) (config p)
  | TWorktrees => λ m p,
      MkProj (repos p) (clones p) m (nodes p) (content p) (edges p) (gate_state p) (backlog_entries p) (outbox_entries p) (batches p) (batch_members p) (runs p) (run_matters p) (dispatches p) (cursors p) (roles p) (tracker_references p) (tracker_push_records p) (gate_exemptions p) (gate_declarations p) (config p)
  | TNodes => λ m p,
      MkProj (repos p) (clones p) (worktrees p) m (content p) (edges p) (gate_state p) (backlog_entries p) (outbox_entries p) (batches p) (batch_members p) (runs p) (run_matters p) (dispatches p) (cursors p) (roles p) (tracker_references p) (tracker_push_records p) (gate_exemptions p) (gate_declarations p) (config p)
  | TContent => λ m p,
      MkProj (repos p) (clones p) (worktrees p) (nodes p) m (edges p) (gate_state p) (backlog_entries p) (outbox_entries p) (batches p) (batch_members p) (runs p) (run_matters p) (dispatches p) (cursors p) (roles p) (tracker_references p) (tracker_push_records p) (gate_exemptions p) (gate_declarations p) (config p)
  | TEdges => λ m p,
      MkProj (repos p) (clones p) (worktrees p) (nodes p) (content p) m (gate_state p) (backlog_entries p) (outbox_entries p) (batches p) (batch_members p) (runs p) (run_matters p) (dispatches p) (cursors p) (roles p) (tracker_references p) (tracker_push_records p) (gate_exemptions p) (gate_declarations p) (config p)
  | TGateState => λ m p,
      MkProj (repos p) (clones p) (worktrees p) (nodes p) (content p) (edges p) m (backlog_entries p) (outbox_entries p) (batches p) (batch_members p) (runs p) (run_matters p) (dispatches p) (cursors p) (roles p) (tracker_references p) (tracker_push_records p) (gate_exemptions p) (gate_declarations p) (config p)
  | TBacklog => λ m p,
      MkProj (repos p) (clones p) (worktrees p) (nodes p) (content p) (edges p) (gate_state p) m (outbox_entries p) (batches p) (batch_members p) (runs p) (run_matters p) (dispatches p) (cursors p) (roles p) (tracker_references p) (tracker_push_records p) (gate_exemptions p) (gate_declarations p) (config p)
  | TOutbox => λ m p,
      MkProj (repos p) (clones p) (worktrees p) (nodes p) (content p) (edges p) (gate_state p) (backlog_entries p) m (batches p) (batch_members p) (runs p) (run_matters p) (dispatches p) (cursors p) (roles p) (tracker_references p) (tracker_push_records p) (gate_exemptions p) (gate_declarations p) (config p)
  | TBatches => λ m p,
      MkProj (repos p) (clones p) (worktrees p) (nodes p) (content p) (edges p) (gate_state p) (backlog_entries p) (outbox_entries p) m (batch_members p) (runs p) (run_matters p) (dispatches p) (cursors p) (roles p) (tracker_references p) (tracker_push_records p) (gate_exemptions p) (gate_declarations p) (config p)
  | TMembers => λ m p,
      MkProj (repos p) (clones p) (worktrees p) (nodes p) (content p) (edges p) (gate_state p) (backlog_entries p) (outbox_entries p) (batches p) m (runs p) (run_matters p) (dispatches p) (cursors p) (roles p) (tracker_references p) (tracker_push_records p) (gate_exemptions p) (gate_declarations p) (config p)
  | TRuns => λ m p,
      MkProj (repos p) (clones p) (worktrees p) (nodes p) (content p) (edges p) (gate_state p) (backlog_entries p) (outbox_entries p) (batches p) (batch_members p) m (run_matters p) (dispatches p) (cursors p) (roles p) (tracker_references p) (tracker_push_records p) (gate_exemptions p) (gate_declarations p) (config p)
  | TRunMatters => λ m p,
      MkProj (repos p) (clones p) (worktrees p) (nodes p) (content p) (edges p) (gate_state p) (backlog_entries p) (outbox_entries p) (batches p) (batch_members p) (runs p) m (dispatches p) (cursors p) (roles p) (tracker_references p) (tracker_push_records p) (gate_exemptions p) (gate_declarations p) (config p)
  | TDispatches => λ m p,
      MkProj (repos p) (clones p) (worktrees p) (nodes p) (content p) (edges p) (gate_state p) (backlog_entries p) (outbox_entries p) (batches p) (batch_members p) (runs p) (run_matters p) m (cursors p) (roles p) (tracker_references p) (tracker_push_records p) (gate_exemptions p) (gate_declarations p) (config p)
  | TCursors => λ m p,
      MkProj (repos p) (clones p) (worktrees p) (nodes p) (content p) (edges p) (gate_state p) (backlog_entries p) (outbox_entries p) (batches p) (batch_members p) (runs p) (run_matters p) (dispatches p) m (roles p) (tracker_references p) (tracker_push_records p) (gate_exemptions p) (gate_declarations p) (config p)
  | TRoles => λ m p,
      MkProj (repos p) (clones p) (worktrees p) (nodes p) (content p) (edges p) (gate_state p) (backlog_entries p) (outbox_entries p) (batches p) (batch_members p) (runs p) (run_matters p) (dispatches p) (cursors p) m (tracker_references p) (tracker_push_records p) (gate_exemptions p) (gate_declarations p) (config p)
  | TRefs => λ m p,
      MkProj (repos p) (clones p) (worktrees p) (nodes p) (content p) (edges p) (gate_state p) (backlog_entries p) (outbox_entries p) (batches p) (batch_members p) (runs p) (run_matters p) (dispatches p) (cursors p) (roles p) m (tracker_push_records p) (gate_exemptions p) (gate_declarations p) (config p)
  | TPush => λ m p,
      MkProj (repos p) (clones p) (worktrees p) (nodes p) (content p) (edges p) (gate_state p) (backlog_entries p) (outbox_entries p) (batches p) (batch_members p) (runs p) (run_matters p) (dispatches p) (cursors p) (roles p) (tracker_references p) m (gate_exemptions p) (gate_declarations p) (config p)
  | TExempt => λ m p,
      MkProj (repos p) (clones p) (worktrees p) (nodes p) (content p) (edges p) (gate_state p) (backlog_entries p) (outbox_entries p) (batches p) (batch_members p) (runs p) (run_matters p) (dispatches p) (cursors p) (roles p) (tracker_references p) (tracker_push_records p) m (gate_declarations p) (config p)
  | TDecls => λ m p,
      MkProj (repos p) (clones p) (worktrees p) (nodes p) (content p) (edges p) (gate_state p) (backlog_entries p) (outbox_entries p) (batches p) (batch_members p) (runs p) (run_matters p) (dispatches p) (cursors p) (roles p) (tracker_references p) (tracker_push_records p) (gate_exemptions p) m (config p)
  | TConfig => λ m p,
      MkProj (repos p) (clones p) (worktrees p) (nodes p) (content p) (edges p) (gate_state p) (backlog_entries p) (outbox_entries p) (batches p) (batch_members p) (runs p) (run_matters p) (dispatches p) (cursors p) (roles p) (tracker_references p) (tracker_push_records p) (gate_exemptions p) (gate_declarations p) m
  end.

Lemma tget_tset_eq t m p : tget t (tset t m p) = m.
Proof. by destruct t. Qed.

Lemma tget_tset_ne t t' m p : t ≠ t' → tget t' (tset t m p) = tget t' p.
Proof. by destruct t, t'. Qed.

Lemma proj_ext p p' : (∀ t, tget t p = tget t p') → p = p'.
Proof.
  intros H. destruct p, p'.
  pose proof (H TRepos) as H0.
  pose proof (H TClones) as H1.
  pose proof (H TWorktrees) as H2.
  pose proof (H TNodes) as H3.
  pose proof (H TContent) as H4.
  pose proof (H TEdges) as H5.
  pose proof (H TGateState) as H6.
  pose proof (H TBacklog) as H7.
  pose proof (H TOutbox) as H8.
  pose proof (H TBatches) as H9.
  pose proof (H TMembers) as H10.
  pose proof (H TRuns) as H11.
  pose proof (H TRunMatters) as H12.
  pose proof (H TDispatches) as H13.
  pose proof (H TCursors) as H14.
  pose proof (H TRoles) as H15.
  pose proof (H TRefs) as H16.
  pose proof (H TPush) as H17.
  pose proof (H TExempt) as H18.
  pose proof (H TDecls) as H19.
  pose proof (H TConfig) as H20.
  cbn in *. by subst.
Qed.

(** ** What the schema says of one row *)

Definition is_some {A} (o : option A) : bool :=
  match o with Some _ => true | None => false end.

Definition opt_eqb (a b : option string) : bool :=
  match a, b with Some x, Some y => bool_decide (x = y) | _, _ => false end.

(** Go's nullable: an empty string is bound as NULL. *)
Definition nullable (s : string) : option string :=
  if bool_decide (s = "") then None else Some s.

(** COALESCE(column, ''). *)
Definition coalesce (o : option string) : string := default "" o.

(** The last_event column, where the table has one. *)
Definition last_event (t : tbl) : Row t → option string :=
  match t as t return Row t → option string with
  | TRepos => λ r, Some (rp_last r)
  | TClones => λ r, Some (cl_last r)
  | TWorktrees => λ r, Some (wt_last r)
  | TNodes => λ r, Some (nd_last r)
  | TContent => λ r, Some (ct_last r)
  | TEdges => λ r, Some (eg_last r)
  | TGateState => λ r, Some (gs_last r)
  | TBacklog => λ r, Some (bl_last r)
  | TOutbox => λ r, Some (ob_last r)
  | TBatches => λ r, Some (bt_last r)
  | TMembers => λ r, Some (mb_last r)
  | TRuns => λ r, Some (rn_last r)
  | TDispatches => λ r, Some (dp_last r)
  | TCursors => λ r, Some (cu_last r)
  | TRoles => λ r, Some (ro_last r)
  | TRefs => λ r, Some (rf_last r)
  | TPush => λ r, Some (pr_last r)
  | TRunMatters | TExempt | TDecls | TConfig => λ _, None
  end.

(** The birth_event column, where the table has one. *)
Definition birth_event (t : tbl) : Row t → option string :=
  match t as t return Row t → option string with
  | TRepos => λ r, Some (rp_birth r)
  | TClones => λ r, Some (cl_birth r)
  | TWorktrees => λ r, Some (wt_birth r)
  | TNodes => λ r, Some (nd_birth r)
  | TContent => λ r, Some (ct_birth r)
  | TEdges => λ r, Some (eg_birth r)
  | TBacklog => λ r, Some (bl_birth r)
  | TOutbox => λ r, Some (ob_birth r)
  | TBatches => λ r, Some (bt_birth r)
  | TRuns => λ r, Some (rn_birth r)
  | TDispatches => λ r, Some (dp_birth r)
  | TRoles => λ r, Some (ro_birth r)
  | TRefs => λ r, Some (rf_birth r)
  | TPush => λ r, Some (pr_birth r)
  | TGateState | TMembers | TCursors | TRunMatters | TExempt | TDecls | TConfig => λ _, None
  end.

(** Tables with a born_by_event trigger (v1BornTables and roles). *)
Definition born_table (t : tbl) : bool :=
  match t with
  | TRepos | TClones | TWorktrees | TNodes | TContent | TEdges | TBacklog | TOutbox
  | TBatches | TRuns | TDispatches | TRoles => true
  | _ => false
  end.

Definition id_len (k : string) : bool := bool_decide (sql_length k = IDLen).

(** length(x) > 0 *)
Definition sql_nonempty (s : string) : bool := (0 <? sql_length s)%nat.

(** CHECK constraints; columns of enumeration type are checked by their type. *)
Definition row_check (t : tbl) : Key t → Row t → bool :=
  match t as t return Key t → Row t → bool with
  | TRepos | TClones | TWorktrees => λ k _, id_len k
  | TNodes => λ k r,
      id_len k
      && bool_decide (bool_decide (nd_kind r = ScaleMatter) = negb (is_some (nd_parent r)))
      && bool_decide (bool_decide (nd_kind r = ScaleMatter) = bool_decide (nd_matter r = k))
  | TContent => λ k r,
      IsIdentityShaped k && IsIdentityShaped (ct_node r)
      && (0 <=? ct_byte_len r)%Z && bool_decide (sql_length (ct_sha256 r) = 64)
      && bool_decide (is_some (ct_bytes r) = negb (is_some (ct_blob_ref r)))
  | TEdges => λ k r, id_len k && bool_decide (eg_blocked r ≠ eg_blocker r)
  | TBacklog => λ k r,
      id_len k
      && bool_decide (bool_decide (bl_state r = BacklogPlannedState) = is_some (bl_matter r))
      && bool_decide (bool_decide (bl_state r = BacklogDelegatedState) = is_some (bl_outbox r))
      && match bl_outbox r with None => true | Some o => IsIdentityShaped o end
  | TOutbox => λ k r,
      IsIdentityShaped k && IsIdentityShaped (ob_subject r)
      && json_is_object (ob_payload r) && (0 <=? ob_attempts r)%Z
      && bool_decide (bool_decide (ob_kind r = OutboxCreate) = negb (is_some (ob_ref r)))
      && (negb (bool_decide (ob_state r = OutboxDeclinedState)
                || bool_decide (ob_state r = OutboxWithheldState))
          || sql_nonempty (ob_reason r))
  | TBatches => λ k r,
      id_len k
      && (bool_decide (negb (is_some (bt_name r)) = is_some (bt_matter r))
          || (negb (is_some (bt_name r)) && negb (is_some (bt_matter r))
              && bool_decide (bt_state r = BatchClosedState)
              && bool_decide (bt_close_reason r = Some BatchSwept)))
      && match bt_name r with None => true | Some n => sql_nonempty n end
      && bool_decide (bool_decide (bt_state r = BatchClosedState) = is_some (bt_close_reason r))
      && bool_decide (bool_decide (bt_state r = BatchClosedState) = is_some (bt_closed_at r))
  | TRuns => λ k r,
      id_len k
      && bool_decide (bool_decide (rn_state r = StClosed) = is_some (rn_close_reason r))
      && bool_decide (bool_decide (rn_state r = StClosed) = is_some (rn_closed_at r))
  | TRunMatters => λ _ r, (0 <=? r)%Z
  | TDispatches => λ k r,
      id_len k
      && bool_decide (bool_decide (dp_state r = StClosed) = is_some (dp_close_reason r))
      && bool_decide (bool_decide (dp_state r = StClosed) = is_some (dp_closed_at r))
      && bool_decide (is_some (dp_run r) = is_some (dp_matter r))
  | TRoles => λ k r,
      id_len k
      && bool_decide (bool_decide (ro_state r = StClosed) = is_some (ro_close_reason r))
      && bool_decide (bool_decide (ro_state r = StClosed) = is_some (ro_closed_at r))
  | TRefs => λ k _, sql_nonempty k.2
  | TPush => λ k r,
      sql_nonempty k && sql_nonempty (pr_lease r) && IsIdentityShaped (pr_outbox r)
  | TGateState | TMembers | TCursors | TExempt | TDecls | TConfig => λ _ _, true
  end.

Definition node_live (r : NodeRow) : bool := negb (is_some (nd_tombstone r)).
Definition content_live (r : ContentRow) : bool := negb (is_some (ct_tombstone r)).
Definition edge_live (r : EdgeRow) : bool := negb (is_some (eg_tombstone r)).

(** UNIQUE indexes: do two distinct rows collide? *)
Definition conflict (t : tbl) : Key t → Row t → Key t → Row t → bool :=
  match t as t return Key t → Row t → Key t → Row t → bool with
  | TRepos => λ _ r _ r', opt_eqb (rp_remote_url r) (rp_remote_url r')
  | TClones => λ _ r _ r',
      bool_decide (cl_git_common_dir r = cl_git_common_dir r')
      || (bool_decide (cl_repo r = cl_repo r') && bool_decide (cl_label r = cl_label r'))
  | TWorktrees => λ _ r _ r',
      bool_decide (wt_clone r = wt_clone r')
      && bool_decide (coalesce (wt_name r) = coalesce (wt_name r'))
  | TNodes => λ _ r _ r',
      node_live r && node_live r' && bool_decide (nd_matter r = nd_matter r')
      && bool_decide (nd_locator r = nd_locator r')
  | TContent => λ _ r _ r',
      content_live r && content_live r' && negb (AppendOnlyKind (ct_kind r))
      && bool_decide (ct_kind r = ct_kind r') && bool_decide (ct_node r = ct_node r')
  | TEdges => λ _ r _ r',
      edge_live r && edge_live r' && bool_decide (eg_blocked r = eg_blocked r')
      && bool_decide (eg_blocker r = eg_blocker r')
  | TOutbox => λ _ r _ r', bool_decide (ob_idempotency_key r = ob_idempotency_key r')
  | TBatches => λ _ r _ r',
      opt_eqb (bt_name r) (bt_name r') || opt_eqb (bt_matter r) (bt_matter r')
  | TRuns => λ _ r _ r',
      bool_decide (rn_batch r = rn_batch r') && bool_decide (rn_locator r = rn_locator r')
  | TRunMatters => λ k r k' r', bool_decide (k.1 = k'.1) && bool_decide (r = r')
  | TDispatches => λ _ r _ r',
      bool_decide (dp_state r = StOpen) && bool_decide (dp_state r' = StOpen)
      && opt_eqb (dp_matter r) (dp_matter r')
  | TRoles => λ _ r _ r',
      bool_decide (ro_state r = StOpen) && bool_decide (ro_state r' = StOpen)
      && bool_decide (ro_dispatch r = ro_dispatch r') && bool_decide (ro_name r = ro_name r')
  | TGateState | TBacklog | TMembers | TCursors | TRefs | TPush | TExempt | TDecls | TConfig =>
      λ _ _ _ _, false
  end.

(** A foreign key: into a table of the projection, or into events(id). *)
Inductive ref :=
| RRow (t : tbl) (k : Key t)
| REvent (id : string).

Definition opt_ref (t : tbl) (k : option (Key t)) : list ref :=
  match k with Some k => [RRow t k] | None => [] end.
Arguments opt_ref : clear implicits.

Definition opt_event (o : option string) : list ref :=
  match o with Some e => [REvent e] | None => [] end.

(** REFERENCES clauses of one row. *)
Definition row_refs (t : tbl) : Key t → Row t → list ref :=
  match t as t return Key t → Row t → list ref with
  | TRepos => λ _ r, [REvent (rp_birth r); REvent (rp_last r)]
  | TClones => λ _ r, [RRow TRepos (cl_repo r); REvent (cl_birth r); REvent (cl_last r)]
  | TWorktrees => λ _ r, [RRow TClones (wt_clone r); REvent (wt_birth r); REvent (wt_last r)]
  | TNodes => λ _ r,
      [RRow TRepos (nd_repo r); RRow TNodes (nd_matter r)] ++ opt_ref TNodes (nd_parent r)
      ++ [REvent (nd_birth r); REvent (nd_last r)] ++ opt_event (nd_tombstone r)
  | TContent => λ _ r, [REvent (ct_birth r); REvent (ct_last r)] ++ opt_event (ct_tombstone r)
  | TEdges => λ _ r,
      [RRow TNodes (eg_blocked r); RRow TNodes (eg_blocker r);
       REvent (eg_birth r); REvent (eg_last r)] ++ opt_event (eg_tombstone r)
  | TGateState => λ k r, [RRow TNodes k.1; REvent (gs_last r)]
  | TBacklog => λ _ r,
      [RRow TRepos (bl_repo r)] ++ opt_ref TNodes (bl_origin_node r)
      ++ opt_ref TNodes (bl_matter r) ++ [REvent (bl_birth r); REvent (bl_last r)]
  | TOutbox => λ _ r, [RRow TRepos (ob_repo r); REvent (ob_birth r); REvent (ob_last r)]
  | TBatches => λ _ r, opt_ref TNodes (bt_matter r) ++ [REvent (bt_birth r); REvent (bt_last r)]
  | TMembers => λ k r,
      [RRow TBatches k.1; RRow TNodes k.2] ++ opt_event (mb_left r) ++ [REvent (mb_last r)]
  | TRuns => λ _ r,
      [RRow TClones (rn_clone r); RRow TBatches (rn_batch r);
       REvent (rn_birth r); REvent (rn_last r)]
  | TRunMatters => λ k _, [RRow TRuns k.1; RRow TNodes k.2]
  | TDispatches => λ _ r,
      [RRow TClones (dp_clone r); RRow TWorktrees (dp_worktree r)]
      ++ opt_ref TRuns (dp_run r) ++ opt_ref TNodes (dp_matter r)
      ++ [REvent (dp_birth r); REvent (dp_last r)]
  | TCursors => λ k r,
      [RRow TClones k.1; RRow TWorktrees k.2] ++ opt_ref TNodes (cu_node r)
      ++ [REvent (cu_last r)]
  | TRoles => λ _ r,
      [RRow TClones (ro_clone r); RRow TDispatches (ro_dispatch r);
       REvent (ro_birth r); REvent (ro_last r)]
  | TRefs => λ k r,
      [RRow TNodes k.1] ++ opt_event (rf_removed r) ++ [REvent (rf_birth r); REvent (rf_last r)]
  | TPush => λ _ r, [REvent (pr_birth r); REvent (pr_last r)]
  | TExempt => λ k _, [RRow TRepos k.1.1; RRow TNodes k.2; RRow TDecls k.1]
  | TDecls => λ k _, [RRow TRepos k.1]
  | TConfig => λ k _, [RRow TRepos k.1]
  end.

(** BEFORE INSERT triggers: born_by_event, and nodes_depth. *)
Definition insert_trigger (p : Proj) (t : tbl) (r : Row t) : bool :=
  (negb (born_table t) || bool_decide (birth_event t r = last_event t r))
  && match t as t return Row t → bool with
     | TNodes => λ r,
         match nd_parent r ≫= (λ k, nodes p !! k) with
         | None => true
         | Some parent =>
             match nd_kind r with
             | ScaleMatter => true
             | ScaleStage => bool_decide (nd_kind parent = ScaleMatter)
             | ScaleStep => negb (bool_decide (nd_kind parent = ScaleStep))
             end
         end
     | _ => λ _, true
     end r.

(** BEFORE UPDATE triggers: immutable_birth, nodes_immutable_identity, advance. *)
Definition update_trigger (t : tbl) (old new : Row t) : bool :=
  bool_decide (birth_event t new = birth_event t old)
  && match t as t return Row t → Row t → bool with
     | TNodes => λ old new,
         bool_decide (nd_kind new = nd_kind old) && bool_decide (nd_repo new = nd_repo old)
         && bool_decide (nd_matter new = nd_matter old)
         && bool_decide (coalesce (nd_parent new) = coalesce (nd_parent old))
     | _ => λ _ _, true
     end old new
  && match last_event t old, last_event t new with
     | Some o, Some n => String.ltb o n
     | _, _ => true
     end.

(** ** The statements *)

(** What a statement can see beside the projection: the log it joins, and
    whether foreign keys are checked now (the live path) or at commit
    (PRAGMA defer_foreign_keys, the rebuild). *)
Record Ctx := MkCtx { c_log : list Event; c_fk : bool }.

Definition find_event (log : list Event) (id : string) : option Event :=
  find (λ e, bool_decide (ev_id e = id)) log.

Definition ref_ok (log : list Event) (p : Proj) (r : ref) : bool :=
  match r with
  | RRow t k => is_some (tget t p !! k)
  | REvent id => is_some (find_event log id)
  end.

Definition no_conflict (t : tbl) (m : gmap (Key t) (Row t)) (k : Key t) (r : Row t) : bool :=
  forallb (λ kr, bool_decide (kr.1 = k) || negb (conflict t k r kr.1 kr.2)) (map_to_list m).

Definition put (c : Ctx) (t : tbl) (k : Key t) (r : Row t) (p : Proj) : result Proj :=
  ensure (row_check t k r) (EConstraint "CHECK") ;;
  ensure (no_conflict t (tget t p) k r) (EConstraint "UNIQUE") ;;
  let p' := tset t (<[k := r]> (tget t p)) p in
  ensure (negb (c_fk c) || forallb (ref_ok (c_log c) p') (row_refs t k r))
    (EConstraint "FOREIGN KEY") ;;
  Ok p'.

(** INSERT INTO t VALUES ... *)
Definition sql_insert (c : Ctx) (t : tbl) (k : Key t) (r : Row t) (p : Proj) : result Proj :=
  ensure (insert_trigger p t r) (EConstraint "RAISE") ;;
  ensure (negb (is_some (tget t p !! k))) (EConstraint "PRIMARY KEY") ;;
  put c t k r p.

(** The effect of an UPDATE on one existing row. *)
Definition sql_set (c : Ctx) (t : tbl) (k : Key t) (old new : Row t) (p : Proj) : result Proj :=
  ensure (update_trigger t old new) (EConstraint "RAISE") ;;
  put c t k new p.

(** UPDATE t SET ... WHERE pk = k AND guard, followed by exactlyRows(1). *)
Definition update1 (c : Ctx) (t : tbl) (k : Key t) (guard : Row t → bool)
    (f : Row t → result (Row t)) (p : Proj) : result Proj :=
  match tget t p !! k with
  | Some r =>
      ensure (guard r) ERows ;;
      r' ← f r; sql_set c t k r r' p
  | None => Error ERows
  end.

(** UPDATE t SET ... WHERE guard, any number of rows. *)
Definition update_all (c : Ctx) (t : tbl) (guard : Key t → Row t → bool) (f : Row t → Row t)
    (p : Proj) : result Proj :=
  foldM (λ p kr, sql_set c t kr.1 kr.2 (f kr.2) p) p
    (filter (λ kr, guard kr.1 kr.2 = true) (map_to_list (tget t p))).

(** INSERT ... ON CONFLICT (pk) DO UPDATE SET ... WHERE guard; the result says
    whether a row was touched, which exactlyRows may ask. *)
Definition upsert (c : Ctx) (t : tbl) (k : Key t) (r : Row t) (guard : Row t → bool)
    (f : Row t → Row t) (p : Proj) : result (Proj * bool) :=
  match tget t p !! k with
  | None => p' ← sql_insert c t k r p; Ok (p', true)
  | Some old =>
      if guard old then p' ← sql_set c t k old (f old) p; Ok (p', true) else Ok (p, false)
  end.
