(* ===== verification/View.v ===== *)
(** The store's read surface (src/internal/store/view.go, edges.go): every query
    over the projection the fold, the guards and the verbs use.  A read is a
    function of the projection (and of the log where the query joins events);
    WHERE is a filter over the table, ORDER BY a sort of the selected rows. *)
From S2P Require Import Prelude GoStd Ulid Taxonomy Json Payloads Tables.

(** ** ORDER BY *)
Section order_by.
Context {A : Type} (leb : A → A → bool).

Fixpoint ord_insert (x : A) (l : list A) : list A :=
  match l with
  | [] => [x]
  | y :: l => if leb x y then x :: y :: l else y :: ord_insert x l
  end.

Fixpoint order_by (l : list A) : list A :=
  match l with [] => [] | x :: l => ord_insert x (order_by l) end.

Lemma ord_insert_perm x l : ord_insert x l ≡ₚ x :: l.
Proof.
  induction l as [|y l IH]; cbn; [done|]. destruct (leb x y); [done|].
  rewrite IH. apply Permutation_swap.
Qed.

Lemma order_by_perm l : order_by l ≡ₚ l.
Proof. induction l as [|x l IH]; cbn; [done|]. by rewrite ord_insert_perm, IH. Qed.

Lemma elem_of_order_by x l : x ∈ order_by l ↔ x ∈ l.
Proof. by rewrite order_by_perm. Qed.

Context (total : ∀ x y, leb x y = true ∨ leb y x = true)
        (trans : ∀ x y z, leb x y = true → leb y z = true → leb x z = true).

Let le x y := leb x y = true.

Lemma ord_insert_sorted x l : Sorted le l → Sorted le (ord_insert x l).
Proof using total trans.
  induction 1 as [|y l Hl IH Hd]; cbn; [by repeat constructor|].
  destruct (leb x y) eqn:E; [by repeat constructor|]. constructor; [done|].
  destruct (total x y) as [?|Hyx]; [congruence|].
  destruct l as [|z l]; cbn; [by repeat constructor|].
  destruct (leb x z); constructor; [done|]. by inversion Hd.
Qed.

Lemma order_by_sorted l : Sorted le (order_by l).
Proof using total trans. induction l; cbn; [constructor|by apply ord_insert_sorted]. Qed.
End order_by.

(** SELECT ... FROM t WHERE guard ORDER BY leb. *)
Definition select (t : tbl) (p : Proj) (guard : Key t → Row t → bool)
    (leb : (Key t * Row t) → (Key t * Row t) → bool) : list (Key t * Row t) :=
  order_by leb (filter (λ kr, guard kr.1 kr.2 = true) (map_to_list (tget t p))).

Lemma elem_of_select t p guard leb k r :
  (k, r) ∈ select t p guard leb ↔ tget t p !! k = Some r ∧ guard k r = true.
Proof.
  unfold select. rewrite elem_of_order_by, list_elem_of_filter, elem_of_map_to_list. tauto.
Qed.

Lemma select_NoDup t p guard leb : NoDup (select t p guard leb).
Proof.
  unfold select. rewrite order_by_perm. apply NoDup_filter, NoDup_map_to_list.
Qed.

(** The first row a QueryRow would scan, for a WHERE on a unique index. *)
Definition select_one (t : tbl) (p : Proj) (guard : Key t → Row t → bool)
    : option (Key t * Row t) :=
  head (filter (λ kr, guard kr.1 kr.2 = true) (map_to_list (tget t p))).

Definition select_count (t : tbl) (p : Proj) (guard : Key t → Row t → bool) : nat :=
  length (filter (λ kr, guard kr.1 kr.2 = true) (map_to_list (tget t p))).

Lemma select_one_Some t p guard k r :
  select_one t p guard = Some (k, r) → tget t p !! k = Some r ∧ guard k r = true.
Proof.
  unfold select_one. intros H%head_Some_elem_of.
  apply list_elem_of_filter in H as [Hg Hm]. by apply elem_of_map_to_list in Hm.
Qed.

Lemma select_one_None t p guard :
  select_one t p guard = None ↔ ∀ k r, tget t p !! k = Some r → guard k r = false.
Proof.
  unfold select_one. rewrite head_None. split.
  - intros H k r Hk. destruct (guard k r) eqn:E; [|done].
    assert ((k, r) ∈ filter (λ kr : Key t * Row t, guard kr.1 kr.2 = true) (map_to_list (tget t p))) as Hin.
    { apply list_elem_of_filter. by rewrite elem_of_map_to_list. }
    rewrite H in Hin. by apply elem_of_nil in Hin.
  - intros H. apply elem_of_nil_inv. intros [k r] [Hg Hm]%list_elem_of_filter.
    apply elem_of_map_to_list in Hm. cbn in Hg. by rewrite (H k r Hm) in Hg.
Qed.

(** ** Nodes *)
Record Node := MkNode {
  n_id : string; n_kind : Scale; n_repo : string; n_parent : string; n_matter : string;
  n_locator : string; n_title : string; n_lifecycle : Lifecycle; n_sort_key : Z;
  n_external_ref : string
}.

#[global] Instance Node_eq_dec : EqDecision Node.
Proof. solve_decision. Defined.

(** scanNode over nodeColumns. *)
Definition scanNode (id : string) (r : NodeRow) : Node :=
  MkNode id (nd_kind r) (nd_repo r) (coalesce (nd_parent r)) (nd_matter r) (nd_locator r)
    (nd_title r) (nd_lifecycle r) (nd_sort_key r) (coalesce (nd_external_ref r)).

(** SELECT ... FROM nodes WHERE id = ? AND tombstone_event IS NULL *)
Definition live_node (p : Proj) (id : string) : option NodeRow :=
  r ← nodes p !! id; if node_live r then Some r else None.

Definition view_Node (p : Proj) (id : string) : result Node :=
  match live_node p id with
  | Some r => Ok (scanNode id r)
  | None => Error (ERefuse "no live node")
  end.

Definition NodeByLocator (p : Proj) (matter locator : string) : result Node :=
  match select_one TNodes p (λ _ r, bool_decide (nd_matter r = matter)
      && bool_decide (nd_locator r = locator) && node_live r) with
  | Some (id, r) => Ok (scanNode id r)
  | None => Error (ERefuse "addresses no live node")
  end.

Definition MatterByLocator (p : Proj) (repo locator : string) : result Node :=
  match select_one TNodes p (λ _ r, bool_decide (nd_repo r = repo)
      && bool_decide (nd_kind r = ScaleMatter) && bool_decide (nd_locator r = locator)
      && node_live r) with
  | Some (id, r) => Ok (scanNode id r)
  | None => Error (ERefuse "addresses no live matter")
  end.

Definition Tombstoned (p : Proj) (id : string) : result bool :=
  match nodes p !! id with
  | Some r => Ok (is_some (nd_tombstone r))
  | None => Error (ERefuse "no node has ever existed")
  end.

Definition by_birth (a b : string * NodeRow) : bool := String.leb (nd_birth a.2) (nd_birth b.2).

Definition by_sort_key (a b : string * NodeRow) : bool :=
  (nd_sort_key a.2 <? nd_sort_key b.2)%Z
  || ((nd_sort_key a.2 =? nd_sort_key b.2)%Z && by_birth a b).

Definition nodeList (p : Proj) (guard : NodeRow → bool)
    (leb : string * NodeRow → string * NodeRow → bool) : list Node :=
  (λ kr, scanNode kr.1 kr.2) <$> select TNodes p (λ _ r, guard r && node_live r) leb.

Definition Children (p : Proj) (parent : string) : list Node :=
  nodeList p (λ r, bool_decide (nd_parent r = Some parent)) by_sort_key.

Definition MatterNodes (p : Proj) (matter : string) : list Node :=
  nodeList p (λ r, bool_decide (nd_matter r = matter)) by_sort_key.

Definition Matters (p : Proj) (repo : string) : list Node :=
  nodeList p (λ r, bool_decide (nd_repo r = repo) && bool_decide (nd_kind r = ScaleMatter)) by_birth.

Definition by_lifecycle (p : Proj) (l : Lifecycle) : list Node :=
  nodeList p (λ r, bool_decide (nd_lifecycle r = l)) by_birth.

Definition view_InProgress (p : Proj) : list Node := by_lifecycle p InProgress.
Definition view_Planned (p : Proj) : list Node := by_lifecycle p Planned.
Definition view_Done (p : Proj) : list Node := by_lifecycle p Done.

Definition sortKeyGap : Z := 1000.

(** int64 addition wraps. *)
Definition wrap64 (z : Z) : Z := ((z + 2 ^ 63) mod 2 ^ 64 - 2 ^ 63)%Z.

Lemma wrap64_id z : (- 2 ^ 63 <= z < 2 ^ 63)%Z → wrap64 z = z.
Proof. intros H. unfold wrap64. rewrite Z.mod_small; lia. Qed.

Definition NextSortKey (p : Proj) (parent : string) : Z :=
  match n_sort_key <$> Children p parent with
  | [] => sortKeyGap
  | k :: ks => wrap64 (foldr Z.max k ks + sortKeyGap)
  end.

Definition SortKeyBetween (before after : Z) : option Z :=
  let d := wrap64 (after - before) in
  if (d <? 2)%Z then None else Some (wrap64 (before + Z.quot d 2)).

(** fmt %02d of a non-negative number. *)
Definition digit_char (d : Z) : string := String (ascii_of (48 + d)) "".

Fixpoint decimal (fuel : nat) (n : Z) : string :=
  match fuel with
  | O => ""
  | S fuel =>
      if (n <? 10)%Z then digit_char n
      else String.append (decimal fuel (n / 10)%Z) (digit_char (n mod 10)%Z)
  end.

Definition itoa (n : Z) : string := decimal (S (Z.to_nat (Z.log2 n))) n.

Definition pad2 (n : Z) : string :=
  if (n <? 10)%Z then String.append "0" (itoa n) else itoa n.

(** Tombstoned Steps are counted on purpose. *)
Definition NextStepLocator (p : Proj) (matter : string) : string :=
  let count := select_count TNodes p (λ _ r, bool_decide (nd_matter r = matter)
                 && bool_decide (nd_kind r = ScaleStep)) in
  String.append "step-" (pad2 (Z.of_nat count + 1)).

(** ** Edges *)
Record Edge := MkEdge { e_id : string; e_blocked : string; e_blocker : string }.

#[global] Instance Edge_eq_dec : EqDecision Edge.
Proof. solve_decision. Defined.

(** The edges_in_force view: a live edge between two live nodes. *)
Definition in_force (p : Proj) (r : EdgeRow) : bool :=
  edge_live r && is_some (live_node p (eg_blocked r)) && is_some (live_node p (eg_blocker r)).

Definition edgeList (p : Proj) (guard : EdgeRow → bool) : list Edge :=
  (λ kr, MkEdge kr.1 (eg_blocked kr.2) (eg_blocker kr.2))
    <$> select TEdges p (λ _ r, in_force p r && guard r) (λ a b, String.leb a.1 b.1).

Definition BlockedBy (p : Proj) (node : string) : list Edge :=
  edgeList p (λ r, bool_decide (eg_blocked r = node)).

Definition LiveEdges (p : Proj) : list Edge := edgeList p (λ _, true).

Definition EdgeBetween (p : Proj) (blocked blocker : string) : option Edge :=
  match select_one TEdges p (λ _ r, in_force p r && bool_decide (eg_blocked r = blocked)
      && bool_decide (eg_blocker r = blocker)) with
  | Some (id, r) => Some (MkEdge id (eg_blocked r) (eg_blocker r))
  | None => None
  end.

(** ** Gate configuration and state *)
Record GateDeclaration := MkGateDeclaration { gd_repo : string; gd_gate : string; gd_scale : Scale }.

Definition GateDeclarations (p : Proj) (repo : string) : list GateDeclaration :=
  (λ kr : (string * string) * Scale, MkGateDeclaration kr.1.1 kr.1.2 kr.2)
    <$> select TDecls p (λ k _, bool_decide (k.1 = repo)) (λ a b, String.leb a.1.2 b.1.2).

Definition GateExempt (p : Proj) (repo node gate : string) : bool :=
  is_some (gate_exemptions p !! (repo, gate, node)).

Definition GateSatisfied (p : Proj) (repo node gate : string) : bool :=
  is_some (gate_state p !! (node, gate)) || is_some (gate_exemptions p !! (repo, gate, node)).

(** ** Config (config.go, View.Config) *)
Definition view_Config (p : Proj) (repo key : string) : option string := config p !! (repo, key).

(** ** Tracker references, push records, outbox *)
Definition by_ref_birth (a b : (string * string) * RefRow) : bool :=
  (String.ltb (rf_birth a.2) (rf_birth b.2))
  || (bool_decide (rf_birth a.2 = rf_birth b.2) && String.leb a.1.2 b.1.2).

Definition TrackerReferences (p : Proj) (matter : string) : list string :=
  (λ kr : (string * string) * RefRow, kr.1.2)
    <$> select TRefs p (λ k r, bool_decide (k.1 = matter) && negb (is_some (rf_removed r)))
          by_ref_birth.

Record MatterReference := MkMatterReference {
  mr_matter : string; mr_locator : string; mr_ref : string
}.

Definition RepoTrackerReferences (p : Proj) (repo : string) : list MatterReference :=
  omap (λ kr : (string * string) * RefRow,
      n ← nodes p !! kr.1.1;
      if bool_decide (nd_repo n = repo) && bool_decide (nd_kind n = ScaleMatter) && node_live n
      then Some (MkMatterReference kr.1.1 (nd_locator n) kr.1.2) else None)
    (select TRefs p (λ _ r, negb (is_some (rf_removed r))) by_ref_birth).

Record TrackerPushRecord := MkTrackerPushRecord {
  tp_ref : string; tp_disposition : TrackerDisposition; tp_lease : string; tp_outbox : string
}.

Definition FindTrackerPushRecord (p : Proj) (r : string) : option TrackerPushRecord :=
  row ← tracker_push_records p !! r;
  Some (MkTrackerPushRecord r (pr_disposition row) (pr_lease row) (pr_outbox row)).

Record OutboxEntry := MkOutboxEntry {
  oe_id : string; oe_repo : string; oe_kind : OutboxKind; oe_state : OutboxState;
  oe_subject : string; oe_ref : string; oe_lease : string; oe_key : string;
  oe_payload : json; oe_reason : string; oe_attempts : Z
}.

(** The lease column: only a state entry reads the push record of its ref. *)
Definition scanOutbox (p : Proj) (id : string) (r : OutboxRow) : OutboxEntry :=
  MkOutboxEntry id (ob_repo r) (ob_kind r) (ob_state r) (ob_subject r) (coalesce (ob_ref r))
    (if bool_decide (ob_kind r = OutboxStateKind)
     then coalesce (x ← ob_ref r; pr ← tracker_push_records p !! x; Some (pr_lease pr)) else "")
    (ob_idempotency_key r) (ob_payload r) (ob_reason r) (ob_attempts r).

Definition Outbox (p : Proj) (repo : string) : list OutboxEntry :=
  (λ kr, scanOutbox p kr.1 kr.2)
    <$> select TOutbox p (λ _ r, bool_decide (ob_repo r = repo))
          (λ a b, String.leb (ob_birth a.2) (ob_birth b.2)).

Definition view_OutboxEntry (p : Proj) (repo id : string) : result OutboxEntry :=
  match outbox_entries p !! id with
  | Some r => if bool_decide (ob_repo r = repo) then Ok (scanOutbox p id r)
              else Error (ERefuse "no outbox entry")
  | None => Error (ERefuse "no outbox entry")
  end.

Definition OutboxEntryByBirth (p : Proj) (repo eventID : string) : result OutboxEntry :=
  match select TOutbox p (λ _ r, bool_decide (ob_repo r = repo) && bool_decide (ob_birth r = eventID))
          (λ a b, String.leb a.1 b.1) with
  | [(id, r)] => Ok (scanOutbox p id r)
  | [] => Error (ERefuse "no outbox entry born by")
  | _ => Error (ERefuse "minted more than one outbox entry")
  end.

(** ** Tiers and the cursor *)
Definition view_Cursor (p : Proj) (clone worktree : string) : option string :=
  r ← cursors p !! (clone, worktree); cu_node r.

Definition RepoByRemote (p : Proj) (remote : string) : option (string * RepoRow) :=
  select_one TRepos p (λ _ r, bool_decide (rp_remote_url r = Some remote)).

Definition Repos (p : Proj) : list (string * RepoRow) :=
  select TRepos p (λ _ _, true) (λ a b, String.leb (rp_birth a.2) (rp_birth b.2)).

Definition CloneByCommonDir (p : Proj) (dir : string) : option (string * CloneRow) :=
  select_one TClones p (λ _ r, bool_decide (cl_git_common_dir r = dir)).

Definition WorktreeByName (p : Proj) (clone name : string) : option (string * WorktreeRow) :=
  select_one TWorktrees p (λ _ r, bool_decide (wt_clone r = clone)
    && bool_decide (coalesce (wt_name r) = name)).

Definition ClonesOfRepo (p : Proj) (repo : string) : list (string * CloneRow) :=
  select TClones p (λ _ r, bool_decide (cl_repo r = repo))
    (λ a b, String.leb (cl_birth a.2) (cl_birth b.2)).

Definition WorktreesOfClone (p : Proj) (clone : string) : list (string * WorktreeRow) :=
  select TWorktrees p (λ _ r, bool_decide (wt_clone r = clone))
    (λ a b, String.leb (wt_birth a.2) (wt_birth b.2)).

(** ** Batches, runs, dispatches, roles *)
Definition BatchNameExists (p : Proj) (name : string) : bool :=
  bool_decide (select_count TBatches p (λ _ r, bool_decide (bt_name r = Some name)) = 1).

Definition BatchByName (p : Proj) (name : string) : result (string * BatchRow) :=
  from_option_err (ERefuse "no live Batch named")
    (select_one TBatches p (λ _ r, bool_decide (bt_name r = Some name)
       && bool_decide (bt_state r = BatchLive))).

Definition AnonymousBatchForMatter (p : Proj) (matter : string) : option (string * BatchRow) :=
  select_one TBatches p (λ _ r, bool_decide (bt_matter r = Some matter)).

Definition BatchMember (p : Proj) (batch matter : string) : bool :=
  match batch_members p !! (batch, matter) with
  | Some r => negb (is_some (mb_left r))
  | None => false
  end.

Definition BatchMembers (p : Proj) (batch : string) : list string :=
  (λ kr : (string * string) * MemberRow, kr.1.2)
    <$> select TMembers p (λ k r, bool_decide (k.1 = batch) && negb (is_some (mb_left r)))
          (λ a b, String.leb a.1.2 b.1.2).

Definition RunMatters (p : Proj) (run : string) : list string :=
  (λ kr : (string * string) * Z, kr.1.2)
    <$> select TRunMatters p (λ k _, bool_decide (k.1 = run)) (λ a b, (a.2 <=? b.2)%Z).

Definition Runs (p : Proj) : list (string * RunRow) :=
  select TRuns p (λ _ _, true) (λ a b, String.leb (rn_birth a.2) (rn_birth b.2)).

Definition OpenDispatchesForRun (p : Proj) (run : string) : list (string * DispatchRow) :=
  select TDispatches p (λ _ r, bool_decide (dp_run r = Some run) && bool_decide (dp_state r = StOpen))
    (λ a b, String.leb (dp_birth a.2) (dp_birth b.2)).

(** The plain bracket of a worktree: open, with no Run. *)
Definition OpenDispatch (p : Proj) (worktree : string) : option (string * DispatchRow) :=
  select_one TDispatches p (λ _ r, bool_decide (dp_worktree r = worktree)
    && bool_decide (dp_state r = StOpen) && negb (is_some (dp_run r))).

Definition RolesForDispatch (p : Proj) (dispatch : string) : list (string * RoleRow) :=
  select TRoles p (λ _ r, bool_decide (ro_dispatch r = dispatch))
    (λ a b, String.leb (ro_birth a.2) (ro_birth b.2)).

Definition OpenRole (p : Proj) (dispatch : string) (name : RoleName) : option (string * RoleRow) :=
  select_one TRoles p (λ _ r, bool_decide (ro_dispatch r = dispatch)
    && bool_decide (ro_name r = name) && bool_decide (ro_state r = StOpen)).

(** ** Backlog *)
Definition Backlog (p : Proj) (repo : string) : list (string * BacklogRow) :=
  select TBacklog p (λ _ r, bool_decide (bl_repo r = repo)) (λ a b, String.leb a.1 b.1).

Definition BacklogEntry (p : Proj) (repo id : string) : option BacklogRow :=
  r ← backlog_entries p !! id; if bool_decide (bl_repo r = repo) then Some r else None.

(** A delegated stub is active until its creation entry is flushed; the LEFT
    JOIN yields NULL, hence not active, when the outbox row is missing. *)
Definition active_entry (p : Proj) (r : BacklogRow) : bool :=
  match bl_state r with
  | BacklogEnteredState => true
  | BacklogDelegatedState =>
      match bl_outbox r ≫= (λ o, outbox_entries p !! o) with
      | Some o => negb (bool_decide (ob_state o = OutboxFlushedState))
      | None => false
      end
  | _ => false
  end.

Definition ActiveBacklog (p : Proj) (repo : string) : list (string * BacklogRow) :=
  select TBacklog p (λ _ r, bool_decide (bl_repo r = repo) && active_entry p r)
    (λ a b, String.leb a.1 b.1).

(** ** The log *)
Definition EventsOfSubject (log : list Event) (subject : string) : list Event :=
  filter (λ e, ev_subject e = subject) log.

Definition EventsOfChain (log : list Event) (correlation : string) : list Event :=
  filter (λ e, ev_correlation e = correlation) log.

Definition LastEventAt (log : list Event) (subject : string) (types : list string) : option Z :=
  ev_occurred <$> last (filter (λ e, ev_subject e = subject ∧ ev_type e ∈ types) log).

(** ** One row by identity *)
Definition view_Repo (p : Proj) (id : string) : result RepoRow :=
  from_option_err (ERefuse "no repo") (repos p !! id).

Definition view_Clone (p : Proj) (id : string) : result CloneRow :=
  from_option_err (ERefuse "no clone") (clones p !! id).

Definition view_Worktree (p : Proj) (id : string) : result WorktreeRow :=
  from_option_err (ERefuse "no worktree") (worktrees p !! id).

Definition view_Batch (p : Proj) (id : string) : result BatchRow :=
  from_option_err (ERefuse "no Batch") (batches p !! id).

Definition view_Run (p : Proj) (id : string) : result RunRow :=
  from_option_err (ERefuse "no Run") (runs p !! id).

Definition view_Dispatch (p : Proj) (id : string) : result DispatchRow :=
  from_option_err (ERefuse "no dispatch") (dispatches p !! id).

Definition view_Role (p : Proj) (id : string) : result RoleRow :=
  from_option_err (ERefuse "no role") (roles p !! id).

(** The rows of LiveBatches, in birth order. *)
Definition LiveBatches (p : Proj) : list (string * BatchRow) :=
  select TBatches p (λ _ r, bool_decide (bt_state r = BatchLive))
    (λ a b, String.leb (bt_birth a.2) (bt_birth b.2)).
