(* ===== verification/Gates.v ===== *)
(** Gates and completion (src/internal/store/gates.go and the reads of view.go
    built on it): which requirements apply to a node, how each is satisfied,
    when a node is locally complete and when it is sealed, the prospective
    overlay, the archive, and the aggregate disposition of a tracker reference. *)
From S2P Require Import Prelude GoStd Ulid Taxonomy Json Payloads Tables View.

Inductive GateRequirementState :=
| GateRequirementOpen
| GateRequirementClosed
| GateRequirementDismissed
| GateRequirementExempt.

#[global] Instance GateRequirementState_eq_dec : EqDecision GateRequirementState.
Proof. solve_decision. Defined.

Inductive GateRelationship := GateOwn | GateEnclosing.

#[global] Instance GateRelationship_eq_dec : EqDecision GateRelationship.
Proof. solve_decision. Defined.

Definition ActorHuman : string := "human".
Definition RoleActor (name : string) : string := String.append "role:" name.
Definition role_actor (n : RoleName) : string := RoleActor (enum_str n).

Record GateRequirement := MkGateRequirement {
  gr_gate : string;
  gr_scale : Scale;
  gr_owner : string;
  gr_subject : Node;
  gr_relationship : GateRelationship;
  gr_state : GateRequirementState;
  gr_closed_by : string;
  gr_closed_at : option Z;
  gr_dismissed_by : string;
  gr_dismissed_at : option Z;
  gr_dismissal_reason : string;
}.

Record CompletionOverlay := MkOverlay {
  FinishingNode : string; ClosingNode : string; ClosingGate : string
}.

Record NodeCompletion := MkNodeCompletion {
  LocallyComplete : bool;
  Sealed : bool;
  Requirements : list GateRequirement;
  Pending : list GateRequirement;
}.

Record closedGateMeta := MkClosedGate {
  cg_scale : Scale; cg_state : GateRequirementState; cg_actor : string; cg_at : Z;
  cg_reason : string
}.

(** One joined row of closedGateMetadata: gate_state s JOIN events e ON
    e.id = s.last_event. *)
Definition gate_metadata (gate : string) (s : GateStateRow) (e : Event) : result closedGateMeta :=
  match enum_parse (ev_type e) with
  | Some TypeGateClosed =>
      Ok (MkClosedGate (gs_scale s) GateRequirementClosed (ev_actor e) (ev_occurred e) "")
  | Some TypeGateDismissed =>
      d ← decodeStrict (S := GateDismissed) (ev_payload e);
      ensure (bool_decide (GateDismissed_Gate d = gate)
              && bool_decide (GateDismissed_Scale d = enum_str (gs_scale s)))
        (ERefuse "inconsistent dismissal metadata") ;;
      Ok (MkClosedGate (gs_scale s) GateRequirementDismissed (ev_actor e) (ev_occurred e)
            (GateDismissed_Reason d))
  | _ => Error (ERefuse "points at non-gate event")
  end.

(** The inner join drops a row whose event is not in the log. *)
Fixpoint closed_gates (log : list Event) (rows : list ((string * string) * GateStateRow))
    : result (list (string * closedGateMeta)) :=
  match rows with
  | [] => Ok []
  | (k, s) :: rows =>
      match find_event log (gs_last s) with
      | None => closed_gates log rows
      | Some e =>
          m ← gate_metadata k.2 s e;
          rest ← closed_gates log rows;
          Ok ((k.2, m) :: rest)
      end
  end.

Definition closedGateMetadata (log : list Event) (p : Proj) (node : string)
    : result (gmap string closedGateMeta) :=
  l ← closed_gates log
        (filter (λ kr, kr.1.1 = node) (map_to_list (tget TGateState p)));
  Ok (list_to_map l).

Definition gateExemptOnNode (p : Proj) (repo node gate : string) : bool :=
  is_some (gate_exemptions p !! (repo, gate, node)).

(** The body of the declaration loop for one node of the walk. *)
Definition requirement (p : Proj) (closed : gmap string closedGateMeta) (target current : Node)
    (d : GateDeclaration) : GateRequirement :=
  let owner := match GateOwner (gd_gate d) with
               | Some n => role_actor n | None => ActorHuman end in
  let rel := if bool_decide (n_id current = n_id target) then GateOwn else GateEnclosing in
  match closed !! gd_gate d with
  | Some m =>
      if bool_decide (cg_state m = GateRequirementDismissed) then
        MkGateRequirement (gd_gate d) (gd_scale d) owner current rel (cg_state m) "" None
          (cg_actor m) (Some (cg_at m)) (cg_reason m)
      else
        MkGateRequirement (gd_gate d) (gd_scale d) owner current rel (cg_state m)
          (cg_actor m) (Some (cg_at m)) "" None ""
  | None =>
      let st := if gateExemptOnNode p (n_repo target) (n_id current) (gd_gate d)
                then GateRequirementExempt else GateRequirementOpen in
      MkGateRequirement (gd_gate d) (gd_scale d) owner current rel st "" None "" None ""
  end.

(** The requirements contributed by one node of the walk. *)
Definition node_requirements (log : list Event) (p : Proj) (decls : list GateDeclaration)
    (target current : Node) : result (list GateRequirement) :=
  closed ← closedGateMetadata log p (n_id current);
  Ok (requirement p closed target current
        <$> filter (λ d, gd_scale d = n_kind current) decls).

(** The walk to the root.  The source loops until a node has no parent; the
    depth of the tree is Matter, Stage, Step, so three nodes are enough
    ([walk_fuel_enough]). *)
Fixpoint walk_requirements (fuel : nat) (log : list Event) (p : Proj)
    (decls : list GateDeclaration) (target current : Node) : result (list GateRequirement) :=
  match fuel with
  | O => Error EFuel
  | S fuel =>
      here ← node_requirements log p decls target current;
      if bool_decide (n_parent current = "") then Ok here
      else
        next ← view_Node p (n_parent current);
        rest ← walk_requirements fuel log p decls target next;
        Ok (here ++ rest)
  end.

Definition tree_depth : nat := 3.

Definition EffectiveGateRequirements (log : list Event) (p : Proj) (target : Node)
    : result (list GateRequirement) :=
  walk_requirements tree_depth log p (GateDeclarations p (n_repo target)) target target.

(** The terminal set, made explicit. *)
Definition state_satisfied (s : GateRequirementState) : bool :=
  match s with
  | GateRequirementClosed | GateRequirementDismissed | GateRequirementExempt => true
  | GateRequirementOpen => false
  end.

Definition satisfied (o : CompletionOverlay) (r : GateRequirement) : bool :=
  state_satisfied (gr_state r)
  || (negb (bool_decide (ClosingNode o = "")) && negb (bool_decide (ClosingGate o = ""))
      && bool_decide (n_id (gr_subject r) = ClosingNode o)
      && bool_decide (gr_gate r = ClosingGate o)).

(** The accumulating loop of NodeCompletionWithOverlay: (ownComplete, sealed, pending). *)
Definition completion_step (o : CompletionOverlay) (done : bool)
    (acc : bool * bool * list GateRequirement) (r : GateRequirement)
    : bool * bool * list GateRequirement :=
  let '(own, sealed, pending) := acc in
  let sat := satisfied o r in
  let own := if bool_decide (gr_relationship r = GateOwn) && negb sat then false else own in
  if sat then (own, sealed, pending)
  else (own, false, if done then pending ++ [r] else pending).

Definition NodeCompletionWithOverlay (log : list Event) (p : Proj) (target : Node)
    (o : CompletionOverlay) : result NodeCompletion :=
  reqs ← EffectiveGateRequirements log p target;
  let done := bool_decide (n_lifecycle target = Done)
              || bool_decide (FinishingNode o = n_id target) in
  let '(own, sealed, pending) := foldl (completion_step o done) (done, done, []) reqs in
  let sealed := if negb own then false else sealed in
  Ok (MkNodeCompletion own sealed reqs pending).

Definition no_overlay : CompletionOverlay := MkOverlay "" "" "".

Definition view_NodeCompletion (log : list Event) (p : Proj) (target : Node)
    : result NodeCompletion :=
  NodeCompletionWithOverlay log p target no_overlay.

(** ** Readers of completion *)

(** The loop of TrackerAggregate over bound Matters, once one has left Planned. *)
Fixpoint aggregate_loop (log : list Event) (p : Proj) (matters : list Node) (sealedCount : nat)
    : result TrackerDisposition :=
  match matters with
  | [] => Ok (if (0 <? sealedCount)%nat then TrackerCompleted else TrackerCanceled)
  | m :: rest =>
      if bool_decide (n_lifecycle m = Canceled) then aggregate_loop log p rest sealedCount
      else
        c ← view_NodeCompletion log p m;
        if Sealed c then aggregate_loop log p rest (S sealedCount)
        else Ok TrackerActive
  end.

(** Live Matters bound to the reference, oldest first. *)
Definition bound_matters (p : Proj) (r : string) : list Node :=
  (λ kr, scanNode kr.1 kr.2)
    <$> select TNodes p (λ id n,
          match tracker_references p !! (id, r) with
          | Some x => negb (is_some (rf_removed x)) | None => false end
          && bool_decide (nd_kind n = ScaleMatter) && node_live n) by_birth.

(** [None]: no live membership; [Some None]: membership, nothing to deliver. *)
Definition TrackerAggregate (log : list Event) (p : Proj) (r : string)
    : result (option (option TrackerDisposition)) :=
  match bound_matters p r with
  | [] => Ok None
  | ms =>
      if forallb (λ m, bool_decide (n_lifecycle m = Planned)) ms then Ok (Some None)
      else d ← aggregate_loop log p ms 0; Ok (Some (Some d))
  end.

(** ArchivedMatters: the sealed Matters of a Repo. *)
Fixpoint keep_sealed (log : list Event) (p : Proj) (matters : list Node) : result (list Node) :=
  match matters with
  | [] => Ok []
  | m :: rest =>
      c ← view_NodeCompletion log p m;
      out ← keep_sealed log p rest;
      Ok (if Sealed c then m :: out else out)
  end.

Definition ArchivedMatters (log : list Event) (p : Proj) (repo : string) : result (list Node) :=
  keep_sealed log p (Matters p repo).

(** The SQL view archived_matters (schema_v8.go), as a predicate on a row. *)
Definition archived_row (p : Proj) (id : string) (r : NodeRow) : bool :=
  bool_decide (nd_kind r = ScaleMatter) && bool_decide (nd_lifecycle r = Done) && node_live r
  && forallb (λ d : GateDeclaration,
       negb (bool_decide (gd_scale d = ScaleMatter))
       || is_some (gate_state p !! (id, gd_gate d))
       || is_some (gate_exemptions p !! (nd_repo r, gd_gate d, id)))
     (GateDeclarations p (nd_repo r)).

(** ClosedGates: the same join as closedGateMetadata, listed by gate. *)
Definition ClosedGates (log : list Event) (p : Proj) (node : string)
    : result (list (string * closedGateMeta)) :=
  closed_gates log
    (select TGateState p (λ k _, bool_decide (k.1 = node)) (λ a b, String.leb a.1.2 b.1.2)).
