(* ===== verification/Project.v ===== *)
(** The projection (src/internal/store/project.go, with insertContent of
    content.go and the edge rules of edges.go): the fold of one event, one
    definition per rule, dispatched by [applyEvent] over the whole taxonomy.
    The store is at its latest schema version, so the branches that keep
    pre-migration stores foldable under an older version are not here.

    Every rule changes the projection through the SQL statements of Tables only,
    in the order the source executes them; the guards between them are the
    source's conditions, and an error anywhere is the error of the whole fold. *)
From S2P Require Import Prelude GoStd Ulid Taxonomy Json Payloads Tables View Gates.

(** ** SET clauses of the UPDATE statements *)
Definition set_lifecycle (l : Lifecycle) (e : string) (r : NodeRow) : NodeRow :=
  MkNodeRow (nd_kind r) (nd_repo r) (nd_matter r) (nd_parent r) (nd_locator r) (nd_title r) (l) (nd_sort_key r) (nd_external_ref r) (nd_birth r) (e) (nd_tombstone r).

Definition set_sort_key (k : Z) (e : string) (r : NodeRow) : NodeRow :=
  MkNodeRow (nd_kind r) (nd_repo r) (nd_matter r) (nd_parent r) (nd_locator r) (nd_title r) (nd_lifecycle r) (k) (nd_external_ref r) (nd_birth r) (e) (nd_tombstone r).

Definition set_external_ref (x : string) (e : string) (r : NodeRow) : NodeRow :=
  MkNodeRow (nd_kind r) (nd_repo r) (nd_matter r) (nd_parent r) (nd_locator r) (nd_title r) (nd_lifecycle r) (nd_sort_key r) (Some x) (nd_birth r) (e) (nd_tombstone r).

Definition set_node_tombstone (e : string) (r : NodeRow) : NodeRow :=
  MkNodeRow (nd_kind r) (nd_repo r) (nd_matter r) (nd_parent r) (nd_locator r) (nd_title r) (nd_lifecycle r) (nd_sort_key r) (nd_external_ref r) (nd_birth r) (e) (Some e).

Definition set_edge_tombstone (e : string) (r : EdgeRow) : EdgeRow :=
  MkEdgeRow (eg_blocked r) (eg_blocker r) (eg_birth r) (e) (Some e).

Definition set_planned (m : string) (e : string) (r : BacklogRow) : BacklogRow :=
  MkBacklogRow (bl_repo r) (bl_provenance r) (BacklogPlannedState) (bl_title r) (bl_detail r) (bl_origin_node r) (Some m) (bl_outbox r) (bl_decline_reason r) (bl_birth r) (e).

Definition set_declined (reason : string) (e : string) (r : BacklogRow) : BacklogRow :=
  MkBacklogRow (bl_repo r) (bl_provenance r) (BacklogDeclinedState) (bl_title r) (bl_detail r) (bl_origin_node r) (bl_matter r) (bl_outbox r) (reason) (bl_birth r) (e).

Definition set_delegated (o : string) (e : string) (r : BacklogRow) : BacklogRow :=
  MkBacklogRow (bl_repo r) (bl_provenance r) (BacklogDelegatedState) (bl_title r) (bl_detail r) (bl_origin_node r) (bl_matter r) (Some o) (bl_decline_reason r) (bl_birth r) (e).

Definition set_backlog_last (e : string) (r : BacklogRow) : BacklogRow :=
  MkBacklogRow (bl_repo r) (bl_provenance r) (bl_state r) (bl_title r) (bl_detail r) (bl_origin_node r) (bl_matter r) (bl_outbox r) (bl_decline_reason r) (bl_birth r) (e).

Definition set_outbox (st : OutboxState) (reason : string) (inc : Z) (e : string) (r : OutboxRow) : OutboxRow :=
  MkOutboxRow (ob_repo r) (ob_kind r) (st) (ob_subject r) (ob_ref r) (ob_idempotency_key r) (ob_payload r) (reason) (ob_attempts r + inc)%Z (ob_birth r) (e).

Definition set_remote (u : string) (ir : option string) (e : string) (r : RepoRow) : RepoRow :=
  MkRepoRow (Some u) (ir) (rp_label r) (rp_birth r) (e).

Definition set_common_dir (d : string) (e : string) (r : CloneRow) : CloneRow :=
  MkCloneRow (cl_repo r) (d) (cl_label r) (cl_birth r) (e).

Definition set_label (l : string) (e : string) (r : CloneRow) : CloneRow :=
  MkCloneRow (cl_repo r) (cl_git_common_dir r) (l) (cl_birth r) (e).

Definition close_batch (reason : BatchCloseReason) (at_ : Z) (e : string) (r : BatchRow) : BatchRow :=
  MkBatchRow (bt_name r) (bt_matter r) (BatchClosedState) (Some reason) (Some at_) (bt_birth r) (e).

Definition close_run (reason : RunCloseReason) (at_ : Z) (e : string) (r : RunRow) : RunRow :=
  MkRunRow (rn_clone r) (rn_batch r) (rn_locator r) (StClosed) (Some reason) (rn_started_at r) (Some at_) (rn_birth r) (e).

Definition close_dispatch (reason : CloseReason) (at_ : Z) (e : string) (r : DispatchRow) : DispatchRow :=
  MkDispatchRow (dp_clone r) (dp_worktree r) (dp_run r) (dp_matter r) (StClosed) (Some reason) (dp_opened_at r) (Some at_) (dp_birth r) (e).

Definition close_role (reason : RoleCloseReason) (at_ : Z) (e : string) (r : RoleRow) : RoleRow :=
  MkRoleRow (ro_clone r) (ro_dispatch r) (ro_name r) (StClosed) (Some reason) (ro_spawned_at r) (Some at_) (ro_birth r) (e).

(** An INSERT whose UNIQUE failure the source renames into a domain refusal. *)
Definition on_unique (e : Err) (m : result Proj) : result Proj :=
  match m with
  | Error (EConstraint n) =>
      if bool_decide (n = "UNIQUE") then Error e else Error (EConstraint n)
  | _ => m
  end.

(** ** Nodes *)

(** matterOf: a Matter is its own Matter, anything else inherits its parent's. *)
Definition matterOf (p : Proj) (scale : Scale) (id parent : string) : result string :=
  if bool_decide (scale = ScaleMatter) then
    ensure (bool_decide (parent = "")) (ERefuse "a Matter has no parent") ;; Ok id
  else
    ensure (negb (bool_decide (parent = ""))) (ERefuse "needs a parent") ;;
    match nodes p !! parent with
    | None => Error (ERefuse "names a parent which is not a node")
    | Some r => ensure (node_live r) (ERefuse "names a parent which was removed") ;; Ok (nd_matter r)
    end.

Definition insertNode (c : Ctx) (ev : Event) (scale : Scale) (p : Proj) : result Proj :=
  b ← decode (S := NodeBirth) (ev_payload ev);
  matter ← matterOf p scale (ev_subject ev) (NodeBirth_Parent b);
  sql_insert c TNodes (ev_subject ev)
    (MkNodeRow scale (ev_repo ev) matter (nullable (NodeBirth_Parent b)) (NodeBirth_Locator b)
       (NodeBirth_Title b) Planned (NodeBirth_SortKey b) None (ev_id ev) (ev_id ev) None) p.

(** A string column whose CHECK lists an enumeration. *)
Definition check_enum {A} `{Enum A} (s : string) : result A :=
  from_option_err (EConstraint "CHECK") (enum_parse s).

Definition applyTransition (c : Ctx) (ev : Event) (p : Proj) : result Proj :=
  t ← decode (S := Transition) (ev_payload ev);
  ensure (negb (bool_decide (Transition_From t = "") || bool_decide (Transition_To t = "")))
    (ERefuse "must record both ends of the transition") ;;
  update1 c TNodes (ev_subject ev)
    (λ r, bool_decide (enum_str (nd_lifecycle r) = Transition_From t) && node_live r)
    (λ r, l ← check_enum (Transition_To t); Ok (set_lifecycle l (ev_id ev) r)) p.

(** Position [i] (from 0) gets [(i+1) * sortKeyGap]. *)
Fixpoint reorder_loop (c : Ctx) (ev : Event) (i : Z) (order : list string) (p : Proj)
    : result Proj :=
  match order with
  | [] => Ok p
  | id :: order =>
      p' ← update1 c TNodes id
             (λ r, bool_decide (nd_parent r = Some (ev_subject ev))
                   && bool_decide (nd_kind r = ScaleStep) && node_live r)
             (λ r, Ok (set_sort_key (wrap64 (wrap64 (i + 1) * sortKeyGap)) (ev_id ev) r)) p;
      reorder_loop c ev (i + 1)%Z order p'
  end.

Definition applyReorder (c : Ctx) (ev : Event) (p : Proj) : result Proj :=
  o ← decode (S := Reordered) (ev_payload ev);
  ensure (negb (bool_decide (Reordered_Order o = []))) (ERefuse "names no order") ;;
  reorder_loop c ev 0 (Reordered_Order o) p.

(** tombstone (edges.go), at its two tables. *)
Definition tombstone_node (c : Ctx) (id : string) (ev : Event) (p : Proj) : result Proj :=
  update1 c TNodes id node_live (λ r, Ok (set_node_tombstone (ev_id ev) r)) p.

Definition tombstone_edge (c : Ctx) (id : string) (ev : Event) (p : Proj) : result Proj :=
  update1 c TEdges id edge_live (λ r, Ok (set_edge_tombstone (ev_id ev) r)) p.

Definition applyReplace (c : Ctx) (ev : Event) (p : Proj) : result Proj :=
  b ← decode (S := Replaced) (ev_payload ev);
  ensure (bool_decide (String.length (Replaced_Replacement b) = IDLen))
    (ERefuse "names a replacement which is not an identity") ;;
  match live_node p (ev_subject ev) with
  | None => Error (ERefuse "names something which is not a live node")
  | Some r =>
      ensure (bool_decide (nd_kind r = ScaleStep)) (ERefuse "replacement is step-scoped") ;;
      p' ← tombstone_node c (ev_subject ev) ev p;
      sql_insert c TNodes (Replaced_Replacement b)
        (MkNodeRow ScaleStep (nd_repo r) (nd_matter r) (nullable (coalesce (nd_parent r)))
           (Replaced_Locator b) (Replaced_Title b) Planned (nd_sort_key r) None
           (ev_id ev) (ev_id ev) None) p'
  end.

Definition tombstoneNode (c : Ctx) (ev : Event) (p : Proj) : result Proj :=
  decode (S := Removed) (ev_payload ev) ;;
  tombstone_node c (ev_subject ev) ev p.

Definition bindReference (c : Ctx) (ev : Event) (p : Proj) : result Proj :=
  b ← decode (S := ReferenceBound) (ev_payload ev);
  update1 c TNodes (ev_subject ev) node_live
    (λ r, Ok (set_external_ref (ReferenceBound_Ref b) (ev_id ev) r)) p.

(** ** Content (content.go) *)

Definition contentSubjectExists (p : Proj) (ev : Event) (appendOnly : bool) : result () :=
  if is_some (nodes p !! ev_subject ev) then Ok ()
  else
    ensure appendOnly (ERefuse "content is written on nodes only") ;;
    ensure (is_some (backlog_entries p !! ev_subject ev))
      (ERefuse "neither a node nor a backlog entry").

Definition sha256_hex (data : string) : string := hex_encode (Sha256.sum data).

Definition insertContent (c : Ctx) (ev : Event) (p : Proj) : result Proj :=
  w ← decode (S := ContentWritten) (ev_payload ev);
  ensure (bool_decide (String.length (ContentWritten_Content w) = IDLen))
    (ERefuse "names content which is not an identity") ;;
  ensure (negb (bool_decide (negb (is_some (ContentWritten_Bytes w))
                             = bool_decide (ContentWritten_BlobRef w = ""))))
    (ERefuse "must carry either its bytes or a blob reference") ;;
  let appendOnly := bool_decide (ContentWritten_Kind w = enum_str KindFindings) in
  ensure (bool_decide (appendOnly = bool_decide (ev_type ev = enum_str TypeContentAppended)))
    (ERefuse "kind does not belong on this type") ;;
  match ContentWritten_Bytes w with
  | None => Ok ()
  | Some b =>
      ensure (bool_decide (Z.of_nat (String.length b) = ContentWritten_ByteLen w))
        (ERefuse "carries another length than it records") ;;
      ensure (bool_decide (sha256_hex b = ContentWritten_SHA256 w))
        (ERefuse "carries bytes hashing to another digest")
  end ;;
  contentSubjectExists p ev appendOnly ;;
  kind ← check_enum (ContentWritten_Kind w);
  sql_insert c TContent (ContentWritten_Content w)
    (MkContentRow (ev_subject ev) kind (ContentWritten_Bytes w)
       (nullable (ContentWritten_BlobRef w)) (ContentWritten_ByteLen w)
       (ContentWritten_SHA256 w) (ev_id ev) (ev_id ev) None) p.

(** ** Edges (edges.go) *)

Definition insertEdge (c : Ctx) (ev : Event) (p : Proj) : result Proj :=
  d ← decode (S := DependencyChange) (ev_payload ev);
  ensure (bool_decide (String.length (DependencyChange_Edge d) = IDLen))
    (ERefuse "names an edge which is not an identity") ;;
  sql_insert c TEdges (DependencyChange_Edge d)
    (MkEdgeRow (ev_subject ev) (DependencyChange_Blocker d) (ev_id ev) (ev_id ev) None) p.

Definition tombstoneEdge (c : Ctx) (ev : Event) (p : Proj) : result Proj :=
  d ← decode (S := DependencyChange) (ev_payload ev);
  match edges p !! DependencyChange_Edge d with
  | None => Error (ERefuse "names something which is not an edge")
  | Some r =>
      ensure (bool_decide (eg_blocked r = ev_subject ev)
              && bool_decide (eg_blocker r = DependencyChange_Blocker d))
        (ERefuse "the edge belongs to another pair") ;;
      tombstone_edge c (DependencyChange_Edge d) ev p
  end.

(** ** Gates and config *)

Definition closeGate (c : Ctx) (ev : Event) (p : Proj) : result Proj :=
  g ← decode (S := GateClosed) (ev_payload ev);
  ensure (negb (bool_decide (GateClosed_Gate g = "") || bool_decide (GateClosed_Scale g = "")))
    (ERefuse "must name a gate and a scale") ;;
  match nodes p !! ev_subject ev with
  | None => Error (ERefuse "names no node as its subject")
  | Some r =>
      ensure (bool_decide (GateClosed_Scale g = enum_str (nd_kind r)))
        (ERefuse "a gate closes at the scale of its subject") ;;
      sql_insert c TGateState (ev_subject ev, GateClosed_Gate g)
        (MkGateStateRow (nd_kind r) (ev_occurred ev) (ev_id ev)) p
  end.

Definition dismissalActorAllowed (actor gate : string) : bool :=
  bool_decide (actor = ActorHuman)
  || match GateOwner gate with Some n => bool_decide (actor = role_actor n) | None => false end.

Definition dismissGate (c : Ctx) (ev : Event) (p : Proj) : result Proj :=
  g ← decodeStrict (S := GateDismissed) (ev_payload ev);
  ensure (negb (bool_decide (GateDismissed_Gate g = "") || bool_decide (GateDismissed_Scale g = "")))
    (ERefuse "must name a gate and a scale") ;;
  scale ← from_option_err (ERefuse "names invalid scale") (enum_parse (A := Scale) (GateDismissed_Scale g));
  ensure (negb (isBlank (GateDismissed_Reason g))) (ERefuse "must carry a non-empty reason") ;;
  ensure (dismissalActorAllowed (ev_actor ev) (GateDismissed_Gate g))
    (ERefuse "actor is not authorized to dismiss gate") ;;
  match nodes p !! ev_subject ev with
  | None => Error (ERefuse "names no node as its subject")
  | Some r =>
      ensure (node_live r) (ERefuse "names a removed node") ;;
      ensure (bool_decide (nd_lifecycle r = Done)) (ERefuse "requires a Done node") ;;
      ensure (bool_decide (nd_kind r = scale)) (ERefuse "dismisses at another scale") ;;
      ensure (bool_decide (ev_repo ev = nd_repo r)) (ERefuse "targets another Repo") ;;
      match gate_declarations p !! (nd_repo r, GateDismissed_Gate g) with
      | None => Error (ERefuse "names a gate which is not declared")
      | Some declared =>
          ensure (bool_decide (declared = scale)) (ERefuse "the declared gate is bound to another scale") ;;
          (* SELECT e.type FROM gate_state s JOIN events e ON e.id = s.last_event *)
          match gate_state p !! (ev_subject ev, GateDismissed_Gate g)
                ≫= (λ s, find_event (c_log c) (gs_last s)) with
          | Some _ => Error (ERefuse "is already satisfied")
          | None =>
              ensure (negb (is_some (gate_exemptions p !! (nd_repo r, GateDismissed_Gate g, ev_subject ev))))
                (ERefuse "is already satisfied by an exemption") ;;
              sql_insert c TGateState (ev_subject ev, GateDismissed_Gate g)
                (MkGateStateRow scale (ev_occurred ev) (ev_id ev)) p
          end
      end
  end.

Definition requireExemptNode (p : Proj) (ev : Event) (node : string) (scale : Scale) : result () :=
  ensure (IsIdentityShaped node) (ERefuse "names as exempt something which is not an identity") ;;
  match nodes p !! node with
  | None => Error (ERefuse "exempts something which is not a node")
  | Some r =>
      ensure (bool_decide (nd_repo r = ev_repo ev)) (ERefuse "exempts a node of another Repo") ;;
      ensure (node_live r) (ERefuse "exempts a node which was removed") ;;
      ensure (bool_decide (nd_kind r = scale)) (ERefuse "exempts a node of another scale")
  end.

Fixpoint exempt_loop (c : Ctx) (ev : Event) (gate : string) (scale : Scale)
    (ns : list string) (p : Proj) : result Proj :=
  match ns with
  | [] => Ok p
  | node :: ns =>
      requireExemptNode p ev node scale ;;
      p' ← sql_insert c TExempt (ev_repo ev, gate, node) tt p;
      exempt_loop c ev gate scale ns p'
  end.

Definition declareGateProjection (c : Ctx) (ev : Event) (p : Proj) : result Proj :=
  g ← decodeStrict (S := GateDeclared) (ev_payload ev);
  ensure (negb (bool_decide (GateDeclared_Gate g = ""))) (ERefuse "must name a gate") ;;
  scale ← from_option_err (ERefuse "not a scale a gate can bind to")
            (enum_parse (A := Scale) (GateDeclared_Scale g));
  ensure (bool_decide (ev_subject ev = ev_repo ev)) (ERefuse "a gate declaration keys at its Repo") ;;
  ensure (negb (is_some (gate_declarations p !! (ev_repo ev, GateDeclared_Gate g))))
    (ERefuse "re-declares gate") ;;
  p' ← sql_insert c TDecls (ev_repo ev, GateDeclared_Gate g) scale p;
  exempt_loop c ev (GateDeclared_Gate g) scale (GateDeclared_Exempt g) p'.

Definition repairGateExemptionProjection (c : Ctx) (ev : Event) (p : Proj) : result Proj :=
  g ← decodeStrict (S := GateExemptionRepaired) (ev_payload ev);
  ensure (negb (bool_decide (GateExemptionRepaired_Gate g = ""))) (ERefuse "must name a gate") ;;
  match gate_declarations p !! (ev_repo ev, GateExemptionRepaired_Gate g) with
  | None => Error (ERefuse "names a gate which is not declared")
  | Some scale =>
      requireExemptNode p ev (ev_subject ev) scale ;;
      (* ON CONFLICT (repo,gate,node) DO NOTHING *)
      pb ← upsert c TExempt (ev_repo ev, GateExemptionRepaired_Gate g, ev_subject ev) tt
             (λ _, false) (λ r, r) p;
      Ok pb.1
  end.

Definition setConfigProjection (c : Ctx) (ev : Event) (p : Proj) : result Proj :=
  s ← decodeStrict (S := ConfigSet) (ev_payload ev);
  ensure (negb (bool_decide (ConfigSet_Key s = ""))) (ERefuse "must name a config key") ;;
  ensure (bool_decide (ev_subject ev = ev_repo ev)) (ERefuse "config keys at its Repo") ;;
  pb ← upsert c TConfig (ev_repo ev, ConfigSet_Key s) (ConfigSet_Value s)
         (λ _, true) (λ _, ConfigSet_Value s) p;
  ensure pb.2 ERows ;; Ok pb.1.

(** ** Backlog *)

Definition insertBacklogEntry (c : Ctx) (ev : Event) (p : Proj) : result Proj :=
  b ← decode (S := BacklogEntered) (ev_payload ev);
  prov ← check_enum (BacklogEntered_Provenance b);
  sql_insert c TBacklog (ev_subject ev)
    (MkBacklogRow (ev_repo ev) prov BacklogEnteredState (BacklogEntered_Title b)
       (BacklogEntered_Detail b) (nullable (BacklogEntered_OriginNode b)) None None ""
       (ev_id ev) (ev_id ev)) p.

Definition is_entered (r : BacklogRow) : bool := bool_decide (bl_state r = BacklogEnteredState).

Definition planBacklogEntry (c : Ctx) (ev : Event) (p : Proj) : result Proj :=
  b ← decode (S := BacklogPlanned) (ev_payload ev);
  update1 c TBacklog (ev_subject ev) is_entered
    (λ r, Ok (set_planned (BacklogPlanned_Matter b) (ev_id ev) r)) p.

Definition declineBacklogEntry (c : Ctx) (ev : Event) (p : Proj) : result Proj :=
  b ← decode (S := BacklogDeclined) (ev_payload ev);
  ensure (negb (bool_decide (BacklogDeclined_Reason b = ""))) (ERefuse "must carry a reason") ;;
  update1 c TBacklog (ev_subject ev) is_entered
    (λ r, Ok (set_declined (BacklogDeclined_Reason b) (ev_id ev) r)) p.

(** The create payload a delegation queues. *)
Definition delegated_payload (subject provenance title detail origin : string) : json :=
  JObj (jstr "kind" "create" ++ jstr "backlog" subject ++ jstr "provenance" provenance
        ++ jstr "title" title ++ jstr_omit "detail" detail ++ jstr_omit "origin_node" origin).

Definition delegateBacklogEntry (c : Ctx) (ev : Event) (p : Proj) : result Proj :=
  b ← decodeStrict (S := BacklogDelegated) (ev_payload ev);
  ensure (IsIdentityShaped (BacklogDelegated_Outbox b)
          && negb (bool_decide (BacklogDelegated_IdempotencyKey b = "")))
    (ERefuse "requires an Outbox identity and idempotency key") ;;
  match backlog_entries p !! ev_subject ev with
  | None => Error ERows
  | Some r =>
      ensure (is_entered r) ERows ;;
      ensure (bool_decide (bl_repo r = ev_repo ev)) (ERefuse "backlog entry belongs to another Repo") ;;
      p' ← sql_insert c TOutbox (BacklogDelegated_Outbox b)
             (MkOutboxRow (ev_repo ev) OutboxCreate OutboxQueued (ev_subject ev) None
                (BacklogDelegated_IdempotencyKey b)
                (delegated_payload (ev_subject ev) (enum_str (bl_provenance r)) (bl_title r)
                   (bl_detail r) (coalesce (bl_origin_node r)))
                "" 0%Z (ev_id ev) (ev_id ev)) p;
      update1 c TBacklog (ev_subject ev)
        (λ r, bool_decide (bl_repo r = ev_repo ev) && is_entered r)
        (λ r, Ok (set_delegated (BacklogDelegated_Outbox b) (ev_id ev) r)) p'
  end.

(** ** Tracker references *)

Definition requireMatterSubject (p : Proj) (ev : Event) : result () :=
  match live_node p (ev_subject ev) with
  | None => Error (ERefuse "subject is not a live Matter")
  | Some r => ensure (bool_decide (nd_kind r = ScaleMatter)) (ERefuse "subject is not a Matter")
  end.

(** INSERT ... ON CONFLICT (matter,ref) DO UPDATE SET removed_event=NULL *)
Definition upsert_reference (c : Ctx) (ev : Event) (r : string) (guard : RefRow → bool)
    (p : Proj) : result (Proj * bool) :=
  upsert c TRefs (ev_subject ev, r) (MkRefRow None (ev_id ev) (ev_id ev)) guard
    (λ old, MkRefRow None (rf_birth old) (ev_id ev)) p.

Definition retire_reference (c : Ctx) (ev : Event) (r : string) (p : Proj) : result Proj :=
  update1 c TRefs (ev_subject ev, r) (λ x, negb (is_some (rf_removed x)))
    (λ x, Ok (MkRefRow (Some (ev_id ev)) (rf_birth x) (ev_id ev))) p.

Definition addTrackerReference (c : Ctx) (ev : Event) (p : Proj) : result Proj :=
  a ← decodeStrict (S := ReferenceAdded) (ev_payload ev);
  ensure (negb (bool_decide (ReferenceAdded_Ref a = ""))) (ERefuse "must carry a non-empty reference") ;;
  requireMatterSubject p ev ;;
  pb ← upsert_reference c ev (ReferenceAdded_Ref a) (λ x, is_some (rf_removed x)) p;
  ensure pb.2 ERows ;; Ok pb.1.

Definition removeTrackerReference (c : Ctx) (ev : Event) (p : Proj) : result Proj :=
  a ← decodeStrict (S := ReferenceRemoved) (ev_payload ev);
  requireMatterSubject p ev ;;
  retire_reference c ev (ReferenceRemoved_Ref a) p.

Definition reboundTrackerReference (c : Ctx) (ev : Event) (p : Proj) : result Proj :=
  a ← decodeStrict (S := ReferenceRebound) (ev_payload ev);
  ensure (negb (bool_decide (ReferenceRebound_From a = "")
                || bool_decide (ReferenceRebound_To a = "")
                || bool_decide (ReferenceRebound_From a = ReferenceRebound_To a)))
    (ERefuse "needs two different non-empty references") ;;
  requireMatterSubject p ev ;;
  p' ← retire_reference c ev (ReferenceRebound_From a) p;
  pb ← upsert_reference c ev (ReferenceRebound_To a) (λ x, is_some (rf_removed x)) p';
  ensure pb.2 ERows ;; Ok pb.1.

(** reference.bound keeps its first meaning, singleton replacement on Matters. *)
Definition projectLegacyMatterReference (c : Ctx) (ev : Event) (p : Proj) : result Proj :=
  match nodes p !! ev_subject ev with
  | None => Error ENoRows
  | Some r =>
      if negb (bool_decide (nd_kind r = ScaleMatter)) then Ok p
      else
        b ← decodeStrict (S := ReferenceBound) (ev_payload ev);
        p' ← update_all c TRefs
               (λ k x, bool_decide (k.1 = ev_subject ev)
                       && negb (bool_decide (k.2 = ReferenceBound_Ref b))
                       && negb (is_some (rf_removed x)))
               (λ x, MkRefRow (Some (ev_id ev)) (rf_birth x) (ev_id ev)) p;
        pb ← upsert_reference c ev (ReferenceBound_Ref b) (λ _, true) p';
        Ok pb.1
  end.

(** ** Tracker candidates *)

Definition TrackerPushOff : string := "off".
Definition TrackerPushBoundary : string := "boundary".
Definition TrackerPushNarrated : string := "narrated".

Definition ParseTrackerPushLevel (v : string) : result string :=
  ensure (bool_decide (v = TrackerPushOff) || bool_decide (v = TrackerPushBoundary)
          || bool_decide (v = TrackerPushNarrated)) (ERefuse "not a tracker push level") ;;
  Ok v.

Definition candidate_key (ev : Event) (kind r discriminator : string) : string :=
  let key := String.append "tracker:" (String.append (ev_id ev)
               (String.append ":" (String.append kind (String.append ":" r)))) in
  if bool_decide (discriminator = "") then key
  else String.append key (String.append ":" discriminator).

(** The deterministic identity: the first sixteen bytes of the key's digest. *)
Definition candidate_id (key : string) : string := encodeCrockford (take 16 (Sha256.sum key)).

Definition insertTrackerCandidate (c : Ctx) (ev : Event) (kind : OutboxKind)
    (subject r : string) (payload : json) (discriminator : string) (p : Proj) : result Proj :=
  let key := candidate_key ev (enum_str kind) r discriminator in
  sql_insert c TOutbox (candidate_id key)
    (MkOutboxRow (ev_repo ev) kind OutboxQueued subject (nullable r) key payload "" 0%Z
       (ev_id ev) (ev_id ev)) p.

Definition disposition_payload (d : TrackerDisposition) : json :=
  JObj (jstr "disposition" (enum_str d)).

Fixpoint state_candidates (c : Ctx) (ev : Event) (subject : string) (seen refs : list string)
    (p : Proj) : result Proj :=
  match refs with
  | [] => Ok p
  | r :: refs =>
      if bool_decide (r ∈ seen) then state_candidates c ev subject seen refs p
      else
        agg ← TrackerAggregate (c_log c) p r;
        match agg with
        | Some (Some d) =>
            p' ← insertTrackerCandidate c ev OutboxStateKind subject r (disposition_payload d) "" p;
            state_candidates c ev subject (r :: seen) refs p'
        | _ => state_candidates c ev subject (r :: seen) refs p
        end
  end.

(** [None] stands for the nil slice: every active reference of the subject. *)
Definition queueMatterStateCandidates (c : Ctx) (ev : Event) (subject : string)
    (onlyRefs : option (list string)) (p : Proj) : result Proj :=
  state_candidates c ev subject []
    match onlyRefs with Some l => l | None => TrackerReferences p subject end p.

Definition stage_payload (stage : Node) : json :=
  JObj (jstr "stage" (n_id stage) ++ jstr "title" (n_title stage) ++ jstr "action" "closed").

Definition queueStageComments (c : Ctx) (ev : Event) (stage : Node) (p : Proj) : result Proj :=
  let existing := select_count TOutbox p (λ _ r,
      bool_decide (ob_kind r = OutboxComment) && bool_decide (ob_subject r = n_matter stage)
      && bool_decide (json_extract_str (ob_payload r) "stage" = Some (n_id stage))) in
  if (0 <? existing)%nat then Ok p
  else
    foldM (λ p r, insertTrackerCandidate c ev OutboxComment (n_matter stage) r
                    (stage_payload stage) (n_id stage) p) p
      (TrackerReferences p (n_matter stage)).

Definition level_off (level : string) : bool :=
  bool_decide (level = "") || bool_decide (level = TrackerPushOff).

Definition projectTransitionCandidates (c : Ctx) (ev : Event) (p : Proj) : result Proj :=
  t ← decode (S := Transition) (ev_payload ev);
  let level := Transition_TrackerPushLevel t in
  if level_off level then Ok p
  else
    ParseTrackerPushLevel level ;;
    n ← view_Node p (ev_subject ev);
    match n_kind n, enum_parse (ev_type ev) with
    | ScaleMatter, Some (TypeMatterStarted | TypeMatterCanceled) =>
        queueMatterStateCandidates c ev (n_id n) None p
    | ScaleMatter, Some TypeMatterFinished =>
        cpl ← view_NodeCompletion (c_log c) p n;
        if Sealed cpl then queueMatterStateCandidates c ev (n_id n) None p else Ok p
    | ScaleStage, Some TypeStageFinished =>
        if bool_decide (level = TrackerPushNarrated) then
          cpl ← view_NodeCompletion (c_log c) p n;
          if Sealed cpl then queueStageComments c ev n p else Ok p
        else Ok p
    | _, _ => Ok p
    end.

(** The done Stages of a Matter, in birth order. *)
Definition done_stages (p : Proj) (matter : string) : list Node :=
  nodeList p (λ r, bool_decide (nd_matter r = matter) && bool_decide (nd_kind r = ScaleStage)
                   && bool_decide (nd_lifecycle r = Done)) by_birth.

Definition narrate_stages (c : Ctx) (ev : Event) (stages : list Node) (p : Proj) : result Proj :=
  foldM (λ p stage,
    cpl ← view_NodeCompletion (c_log c) p stage;
    if Sealed cpl then queueStageComments c ev stage p else Ok p) p stages.

Definition gate_level (ev : Event) : result string :=
  match enum_parse (ev_type ev) with
  | Some TypeGateClosed =>
      g ← decode (S := GateClosed) (ev_payload ev); Ok (GateClosed_TrackerPushLevel g)
  | Some TypeGateDismissed =>
      g ← decodeStrict (S := GateDismissed) (ev_payload ev); Ok (GateDismissed_TrackerPushLevel g)
  | _ => Error (ERefuse "is not a gate event")
  end.

Definition projectGateCandidates (c : Ctx) (ev : Event) (p : Proj) : result Proj :=
  level ← gate_level ev;
  if level_off level then Ok p
  else
    ParseTrackerPushLevel level ;;
    n ← view_Node p (ev_subject ev);
    p ← (if bool_decide (n_kind n = ScaleMatter) then
           cpl ← view_NodeCompletion (c_log c) p n;
           if Sealed cpl then queueMatterStateCandidates c ev (n_id n) None p else Ok p
         else Ok p);
    if negb (bool_decide (level = TrackerPushNarrated)) then Ok p
    else
      match n_kind n with
      | ScaleMatter => narrate_stages c ev (done_stages p (n_id n)) p
      | ScaleStage => narrate_stages c ev [n] p
      | ScaleStep => Ok p
      end.

Definition reference_level (ev : Event) : result (string * list string) :=
  match enum_parse (ev_type ev) with
  | Some TypeReferenceAdded =>
      a ← decodeStrict (S := ReferenceAdded) (ev_payload ev);
      Ok (ReferenceAdded_TrackerPushLevel a, [ReferenceAdded_Ref a])
  | Some TypeReferenceRemoved =>
      a ← decodeStrict (S := ReferenceRemoved) (ev_payload ev);
      Ok (ReferenceRemoved_TrackerPushLevel a, [ReferenceRemoved_Ref a])
  | Some TypeReferenceRebound =>
      a ← decodeStrict (S := ReferenceRebound) (ev_payload ev);
      Ok (ReferenceRebound_TrackerPushLevel a, [ReferenceRebound_From a; ReferenceRebound_To a])
  | _ => Ok ("", [])
  end.

Definition projectReferenceCandidates (c : Ctx) (ev : Event) (p : Proj) : result Proj :=
  lr ← reference_level ev;
  if level_off lr.1 then Ok p
  else ParseTrackerPushLevel lr.1 ;; queueMatterStateCandidates c ev (ev_subject ev) (Some lr.2) p.

(** The three ad-hoc proposal shapes: which fields each kind requires, and the
    payload it queues. *)
Definition adhoc_payload (a : TrackerAdhocProposed) : result (OutboxKind * json) :=
  match enum_parse (A := OutboxKind) (TrackerAdhocProposed_Kind a) with
  | Some OutboxCreate =>
      ensure (negb (isBlank (TrackerAdhocProposed_Title a))) (ERefuse "create must carry a title") ;;
      ensure (bool_decide (TrackerAdhocProposed_Ref a = "")) (ERefuse "create must not name a reference") ;;
      ensure (bool_decide (TrackerAdhocProposed_Body a = "")
              && bool_decide (TrackerAdhocProposed_Disposition a = ""))
        (ERefuse "create carries a body or a disposition") ;;
      Ok (OutboxCreate,
          JObj (jstr "kind" "create" ++ jstr "provenance" "adhoc"
                ++ jstr "title" (TrackerAdhocProposed_Title a)
                ++ jstr_omit "detail" (TrackerAdhocProposed_Detail a)))
  | Some OutboxComment =>
      ensure (negb (bool_decide (TrackerAdhocProposed_Ref a = "")))
        (ERefuse "comment must name the reference it comments on") ;;
      ensure (negb (isBlank (TrackerAdhocProposed_Body a))) (ERefuse "comment must carry a body") ;;
      ensure (bool_decide (TrackerAdhocProposed_Title a = "")
              && bool_decide (TrackerAdhocProposed_Detail a = "")
              && bool_decide (TrackerAdhocProposed_Disposition a = ""))
        (ERefuse "comment carries a title, a detail or a disposition") ;;
      Ok (OutboxComment, JObj (jstr "body" (TrackerAdhocProposed_Body a)))
  | Some OutboxStateKind =>
      ensure (negb (bool_decide (TrackerAdhocProposed_Ref a = "")))
        (ERefuse "state must name the reference it moves") ;;
      d ← from_option_err (ERefuse "not a provider-neutral disposition")
            (enum_parse (A := TrackerDisposition) (TrackerAdhocProposed_Disposition a));
      ensure (bool_decide (TrackerAdhocProposed_Title a = "")
              && bool_decide (TrackerAdhocProposed_Detail a = "")
              && bool_decide (TrackerAdhocProposed_Body a = ""))
        (ERefuse "state carries a title, a detail or a body") ;;
      Ok (OutboxStateKind, disposition_payload d)
  | None => Error (ERefuse "not create, comment or state")
  end.

Definition projectAdhocCandidate (c : Ctx) (ev : Event) (p : Proj) : result Proj :=
  a ← decodeStrict (S := TrackerAdhocProposed) (ev_payload ev);
  ensure (bool_decide (ev_subject ev = ev_repo ev)) (ERefuse "an ad-hoc proposal keys at its Repo") ;;
  kp ← adhoc_payload a;
  insertTrackerCandidate c ev kp.1 (ev_subject ev) (TrackerAdhocProposed_Ref a) kp.2 "" p.

(** ** Delivery and the outbox lifecycle *)

Definition outbox_guard (ev : Event) (g : OutboxRow → bool) (r : OutboxRow) : bool :=
  bool_decide (ob_repo r = ev_repo ev) && g r.

Definition outbox_is (k : OutboxKind) (st : OutboxState) (r : OutboxRow) : bool :=
  bool_decide (ob_kind r = k) && bool_decide (ob_state r = st).

Definition flush_state (c : Ctx) (ev : Event) (r : string) (p : Proj) : result Proj :=
  update1 c TOutbox (ev_subject ev)
    (outbox_guard ev (λ x, outbox_is OutboxStateKind OutboxApprovedState x
                           && bool_decide (ob_ref x = Some r)))
    (λ x, Ok (set_outbox OutboxFlushedState "" 1 (ev_id ev) x)) p.

Definition recordTrackerStatePush (c : Ctx) (ev : Event) (p : Proj) : result Proj :=
  a ← decodeStrict (S := TrackerStatePushed) (ev_payload ev);
  ensure (negb (bool_decide (TrackerStatePushed_Ref a = "")
                || bool_decide (TrackerStatePushed_Lease a = "")))
    (ERefuse "has an invalid reference, disposition, or lease") ;;
  d ← from_option_err (ERefuse "has an invalid reference, disposition, or lease")
        (enum_parse (A := TrackerDisposition) (TrackerStatePushed_Disposition a));
  p' ← flush_state c ev (TrackerStatePushed_Ref a) p;
  pb ← upsert c TPush (TrackerStatePushed_Ref a)
         (MkPushRow d (TrackerStatePushed_Lease a) (ev_subject ev) (ev_id ev) (ev_id ev))
         (λ old, bool_decide (pr_disposition old = TrackerActive) || bool_decide (pr_disposition old = d))
         (λ old, MkPushRow d (TrackerStatePushed_Lease a) (ev_subject ev) (pr_birth old) (ev_id ev)) p';
  ensure pb.2 ERows ;; Ok pb.1.

Definition recordTrackerStateObserved (c : Ctx) (ev : Event) (p : Proj) : result Proj :=
  a ← decodeStrict (S := TrackerStateObserved) (ev_payload ev);
  ensure (negb (bool_decide (TrackerStateObserved_Ref a = "")
                || bool_decide (TrackerStateObserved_Lease a = "")))
    (ERefuse "has an invalid reference, disposition, or lease") ;;
  from_option_err (ERefuse "has an invalid reference, disposition, or lease")
    (enum_parse (A := TrackerDisposition) (TrackerStateObserved_Disposition a)) ;;
  flush_state c ev (TrackerStateObserved_Ref a) p.

Definition pending_create (r : OutboxRow) : bool :=
  bool_decide (ob_kind r = OutboxCreate)
  && (bool_decide (ob_state r = OutboxQueued) || bool_decide (ob_state r = OutboxApprovedState)).

Definition recordTrackerItemCreated (c : Ctx) (ev : Event) (p : Proj) : result Proj :=
  a ← decodeStrict (S := TrackerItemCreated) (ev_payload ev);
  ensure (negb (bool_decide (TrackerItemCreated_Ref a = ""))) (ERefuse "requires a non-empty reference") ;;
  match outbox_entries p !! ev_subject ev with
  | None => Error ERows
  | Some r =>
      ensure (outbox_guard ev pending_create r) ERows ;;
      p' ← update1 c TOutbox (ev_subject ev) (outbox_guard ev pending_create)
             (λ x, Ok (set_outbox OutboxFlushedState "" 1 (ev_id ev) x)) p;
      match json_extract_str (ob_payload r) "backlog" with
      | None => Ok p'
      | Some b =>
          update1 c TBacklog b
            (λ x, bool_decide (bl_repo x = ev_repo ev)
                  && bool_decide (bl_state x = BacklogDelegatedState)
                  && bool_decide (bl_outbox x = Some (ev_subject ev)))
            (λ x, Ok (set_backlog_last (ev_id ev) x)) p'
      end
  end.

Definition approveOutbox (c : Ctx) (ev : Event) (p : Proj) : result Proj :=
  decodeStrict (S := OutboxApproved) (ev_payload ev) ;;
  update1 c TOutbox (ev_subject ev)
    (outbox_guard ev (λ r, bool_decide (ob_state r = OutboxQueued)
                           && bool_decide (ob_attempts r = 0%Z) && bool_decide (ob_reason r = "")))
    (λ r, Ok (set_outbox OutboxApprovedState "" 0 (ev_id ev) r)) p.

Definition declineOutbox (c : Ctx) (ev : Event) (p : Proj) : result Proj :=
  a ← decodeStrict (S := OutboxDeclined) (ev_payload ev);
  ensure (negb (isBlank (OutboxDeclined_Reason a))) (ERefuse "requires a reason") ;;
  update1 c TOutbox (ev_subject ev)
    (outbox_guard ev (λ r, bool_decide (ob_state r = OutboxQueued)
                           || bool_decide (ob_state r = OutboxApprovedState)
                           || bool_decide (ob_state r = OutboxWithheldState)))
    (λ r, Ok (set_outbox OutboxDeclinedState (OutboxDeclined_Reason a) 0 (ev_id ev) r)) p.

Definition validWithholdCause (cause : string) : bool :=
  bool_decide (cause ∈ ["malformed-candidate"; "local-regression"; "superseded"; "lease-mismatch";
    "permanent-refusal"; "malformed-provider-success"; "unknown-outcome"]).

Definition is_approved (r : OutboxRow) : bool := bool_decide (ob_state r = OutboxApprovedState).

Definition withholdOutbox (c : Ctx) (ev : Event) (p : Proj) : result Proj :=
  a ← decodeStrict (S := OutboxWithheld) (ev_payload ev);
  ensure (negb (isBlank (OutboxWithheld_Reason a))) (ERefuse "requires a reason") ;;
  ensure (bool_decide (OutboxWithheld_Cause a = "") || validWithholdCause (OutboxWithheld_Cause a))
    (ERefuse "has invalid cause") ;;
  update1 c TOutbox (ev_subject ev) (outbox_guard ev is_approved)
    (λ r, Ok (set_outbox OutboxWithheldState (OutboxWithheld_Reason a)
                (if OutboxWithheld_Attempted a then 1 else 0) (ev_id ev) r)) p.

Definition failOutbox (c : Ctx) (ev : Event) (p : Proj) : result Proj :=
  a ← decodeStrict (S := OutboxDeliveryFailed) (ev_payload ev);
  ensure (negb (isBlank (OutboxDeliveryFailed_Reason a))) (ERefuse "requires a reason") ;;
  update1 c TOutbox (ev_subject ev) (outbox_guard ev is_approved)
    (λ r, Ok (set_outbox OutboxQueued (OutboxDeliveryFailed_Reason a) 1 (ev_id ev) r)) p.

Definition retryOutbox (c : Ctx) (ev : Event) (p : Proj) : result Proj :=
  decodeStrict (S := OutboxRetried) (ev_payload ev) ;;
  update1 c TOutbox (ev_subject ev)
    (outbox_guard ev (λ r, bool_decide (ob_state r = OutboxWithheldState)
       || (bool_decide (ob_state r = OutboxQueued) && (0 <? ob_attempts r)%Z
           && negb (bool_decide (ob_reason r = "")))))
    (λ r, Ok (set_outbox OutboxApprovedState "" 0 (ev_id ev) r)) p.

Definition flushOutboxComment (c : Ctx) (ev : Event) (p : Proj) : result Proj :=
  decodeStrict (S := OutboxFlushed) (ev_payload ev) ;;
  update1 c TOutbox (ev_subject ev) (outbox_guard ev (outbox_is OutboxComment OutboxApprovedState))
    (λ r, Ok (set_outbox OutboxFlushedState "" 1 (ev_id ev) r)) p.

(** ** Tiers and the cursor *)

Definition insertRepo (c : Ctx) (ev : Event) (p : Proj) : result Proj :=
  a ← decode (S := RepoAttached) (ev_payload ev);
  ensure (bool_decide (ev_repo ev = ev_subject ev)) (ERefuse "must carry its own Repo") ;;
  sql_insert c TRepos (ev_subject ev)
    (MkRepoRow (nullable (RepoAttached_RemoteURL a)) (nullable (RepoAttached_IdentityRemote a))
       (nullable (RepoAttached_Label a)) (ev_id ev) (ev_id ev)) p.

Definition insertClone (c : Ctx) (ev : Event) (p : Proj) : result Proj :=
  a ← decode (S := CloneAttached) (ev_payload ev);
  sql_insert c TClones (ev_subject ev)
    (MkCloneRow (CloneAttached_Repo a) (CloneAttached_GitCommonDir a) (CloneAttached_Label a)
       (ev_id ev) (ev_id ev)) p.

Definition insertWorktree (c : Ctx) (ev : Event) (p : Proj) : result Proj :=
  a ← decode (S := WorktreeAttached) (ev_payload ev);
  sql_insert c TWorktrees (ev_subject ev)
    (MkWorktreeRow (WorktreeAttached_Clone a) (nullable (WorktreeAttached_Name a))
       (ev_id ev) (ev_id ev)) p.

Definition adoptRepoKey (c : Ctx) (ev : Event) (p : Proj) : result Proj :=
  a ← decode (S := RepoKeyAdopted) (ev_payload ev);
  ensure (negb (bool_decide (RepoKeyAdopted_RemoteURL a = "")))
    (ERefuse "must name the remote being adopted") ;;
  update1 c TRepos (ev_subject ev) (λ r, negb (is_some (rp_remote_url r)))
    (λ r, Ok (set_remote (RepoKeyAdopted_RemoteURL a)
                (nullable (RepoKeyAdopted_IdentityRemote a)) (ev_id ev) r)) p.

Definition relinkClone (c : Ctx) (ev : Event) (p : Proj) : result Proj :=
  a ← decode (S := CloneRelinked) (ev_payload ev);
  update1 c TClones (ev_subject ev) (λ _, true)
    (λ r, Ok (set_common_dir (CloneRelinked_GitCommonDir a) (ev_id ev) r)) p.

Definition labelClone (c : Ctx) (ev : Event) (p : Proj) : result Proj :=
  a ← decode (S := CloneLabeled) (ev_payload ev);
  update1 c TClones (ev_subject ev) (λ _, true)
    (λ r, Ok (set_label (CloneLabeled_Label a) (ev_id ev) r)) p.

Definition moveCursor (c : Ctx) (ev : Event) (p : Proj) : result Proj :=
  a ← decode (S := CursorMoved) (ev_payload ev);
  ensure (bool_decide (ev_subject ev = ev_worktree ev)) (ERefuse "must have the Worktree as its subject") ;;
  pb ← upsert c TCursors (ev_clone ev, ev_worktree ev)
         (MkCursorRow (nullable (CursorMoved_Node a)) (ev_id ev)) (λ _, true)
         (λ _, MkCursorRow (nullable (CursorMoved_Node a)) (ev_id ev)) p;
  Ok pb.1.

(** ** Batches *)

Definition validateLiveMatter (p : Proj) (matter : string) : result () :=
  match live_node p matter with
  | None => Error (ERefuse "names an unknown or tombstoned Matter")
  | Some r => ensure (bool_decide (nd_kind r = ScaleMatter)) (ERefuse "not a Matter")
  end.

Definition insertBatch (c : Ctx) (ev : Event) (p : Proj) : result Proj :=
  b ← decodeStrict (S := BatchCreated) (ev_payload ev);
  let name := BatchCreated_Name b in
  let matter := BatchCreated_Matter b in
  if bool_decide (name = "") && bool_decide (matter = "") then
    (* the legacy shape: folded closed, swept, at its own birth *)
    sql_insert c TBatches (ev_subject ev)
      (MkBatchRow None None BatchClosedState (Some BatchSwept) (Some (ev_occurred ev))
         (ev_id ev) (ev_id ev)) p
  else
    ensure (bool_decide (name = "") || bool_decide (matter = ""))
      (ERefuse "requires either a non-empty name or one Matter") ;;
    (if bool_decide (matter = "") then Ok () else validateLiveMatter p matter) ;;
    p' ← sql_insert c TBatches (ev_subject ev)
           (MkBatchRow (nullable name) (nullable matter) BatchLive None None (ev_id ev) (ev_id ev)) p;
    if bool_decide (matter = "") then Ok p'
    else sql_insert c TMembers (ev_subject ev, matter) (MkMemberRow None (ev_id ev)) p'.

Definition require_live_batch (p : Proj) (id : string) : result BatchRow :=
  b ← from_option_err (ERefuse "names an unknown Batch") (batches p !! id);
  ensure (bool_decide (bt_state b = BatchLive)) (ERefuse "names a closed Batch") ;;
  Ok b.

Definition joinBatch (c : Ctx) (ev : Event) (p : Proj) : result Proj :=
  m ← decodeStrict (S := BatchMembership) (ev_payload ev);
  b ← require_live_batch p (ev_subject ev);
  ensure match bt_matter b with
         | Some owner => bool_decide (owner = BatchMembership_Matter m) | None => true end
    (ERefuse "cannot add membership to an anonymous Batch") ;;
  validateLiveMatter p (BatchMembership_Matter m) ;;
  pb ← upsert c TMembers (ev_subject ev, BatchMembership_Matter m) (MkMemberRow None (ev_id ev))
         (λ _, true) (λ _, MkMemberRow None (ev_id ev)) p;
  Ok pb.1.

Definition leaveBatch (c : Ctx) (ev : Event) (p : Proj) : result Proj :=
  m ← decodeStrict (S := BatchMembership) (ev_payload ev);
  b ← require_live_batch p (ev_subject ev);
  ensure (negb (is_some (bt_matter b))) (ERefuse "cannot remove the membership of an anonymous Batch") ;;
  validateLiveMatter p (BatchMembership_Matter m) ;;
  update1 c TMembers (ev_subject ev, BatchMembership_Matter m) (λ r, negb (is_some (mb_left r)))
    (λ r, Ok (MkMemberRow (Some (ev_id ev)) (ev_id ev))) p.

Definition batch_is_live (r : BatchRow) : bool := bool_decide (bt_state r = BatchLive).

Definition dismissBatch (c : Ctx) (ev : Event) (p : Proj) : result Proj :=
  decodeStrict (S := BatchDismissedPayload) (ev_payload ev) ;;
  b ← from_option_err (ERefuse "names an unknown Batch") (batches p !! ev_subject ev);
  ensure (negb (is_some (bt_matter b))) (ERefuse "can dismiss only a named Batch") ;;
  ensure (batch_is_live b) (ERefuse "names a closed Batch") ;;
  update1 c TBatches (ev_subject ev) batch_is_live
    (λ r, Ok (close_batch BatchDismissed (ev_occurred ev) (ev_id ev) r)) p.

(** A dispatch of an open bracket of one of the Batch's runs. *)
Definition dispatch_of_batch (p : Proj) (batch : string) (r : DispatchRow) : bool :=
  bool_decide (dp_state r = StOpen)
  && match dp_run r ≫= (λ k, runs p !! k) with
     | Some run => bool_decide (rn_batch run = batch) | None => false end.

Definition sweepBatch (c : Ctx) (ev : Event) (p : Proj) : result Proj :=
  decodeStrict (S := BatchSweptPayload) (ev_payload ev) ;;
  b ← from_option_err (ERefuse "names an unknown Batch") (batches p !! ev_subject ev);
  ensure (is_some (bt_matter b)) (ERefuse "can sweep only an anonymous Batch") ;;
  ensure (batch_is_live b) (ERefuse "names a closed Batch") ;;
  let at_ := ev_occurred ev in
  p1 ← update_all c TRoles
         (λ _ r, bool_decide (ro_state r = StOpen)
                 && match dispatches p !! ro_dispatch r with
                    | Some d => dispatch_of_batch p (ev_subject ev) d | None => false end)
         (close_role RoleCloseReaped at_ (ev_id ev)) p;
  p2 ← update_all c TDispatches (λ _ r, dispatch_of_batch p1 (ev_subject ev) r)
         (close_dispatch CloseReaped at_ (ev_id ev)) p1;
  p3 ← update_all c TRuns
         (λ _ r, bool_decide (rn_state r = StOpen) && bool_decide (rn_batch r = ev_subject ev))
         (close_run RunReaped at_ (ev_id ev)) p2;
  update1 c TBatches (ev_subject ev) batch_is_live
    (λ r, Ok (close_batch BatchSwept at_ (ev_id ev) r)) p3.

(** ** Runs, dispatches, roles *)

Definition validateExecutionContext (p : Proj) (ev : Event) (clone : string) : result () :=
  match clones p !! clone, worktrees p !! ev_worktree ev with
  | Some cl, Some w =>
      ensure (bool_decide (ev_clone ev = clone) && bool_decide (wt_clone w = clone)
              && bool_decide (ev_repo ev = cl_repo cl))
        (ERefuse "tier dimensions disagree with Clone")
  | _, _ => Error (ERefuse "names an unknown Clone or Worktree")
  end.

(** Both callers require the Run to be open. *)
Definition validateRunContext (p : Proj) (ev : Event) (run : string) (requireOpen : bool) : result () :=
  r ← from_option_err (ERefuse "names an unknown Run") (runs p !! run);
  ensure (negb requireOpen || bool_decide (rn_state r = StOpen)) (ERefuse "names a closed Run") ;;
  validateExecutionContext p ev (rn_clone r).

Definition openDispatch (c : Ctx) (ev : Event) (p : Proj) : result Proj :=
  d ← decodeStrict (S := DispatchOpened) (ev_payload ev);
  let run := DispatchOpened_Run d in
  let matter := DispatchOpened_Matter d in
  ensure (bool_decide (bool_decide (run = "") = bool_decide (matter = "")))
    (ERefuse "requires both Run and Matter or neither") ;;
  (if bool_decide (run = "") then Ok ()
   else
     validateRunContext p ev run true ;;
     ensure (is_some (run_matters p !! (run, matter))) (ERefuse "Matter is outside the Run frozen set") ;;
     validateLiveMatter p matter) ;;
  on_unique (ERefuse "refusal.dispatch-contention") (sql_insert c TDispatches (ev_subject ev)
    (MkDispatchRow (ev_clone ev) (ev_worktree ev) (nullable run) (nullable matter) StOpen None
       (ev_occurred ev) None (ev_id ev) (ev_id ev)) p).

Definition dispatch_is_open (r : DispatchRow) : bool := bool_decide (dp_state r = StOpen).

Definition closeDispatch (c : Ctx) (ev : Event) (p : Proj) : result Proj :=
  d ← decode (S := DispatchClosed) (ev_payload ev);
  ensure (negb (bool_decide (DispatchClosed_Reason d = ""))) (ERefuse "must carry a reason") ;;
  r ← from_option_err ERows (dispatches p !! ev_subject ev);
  ensure (dispatch_is_open r) ERows ;;
  ensure (bool_decide (dp_clone r = ev_clone ev) && bool_decide (dp_worktree r = ev_worktree ev))
    (ERefuse "dimensions disagree with the Dispatch") ;;
  p' ← update_all c TRoles
         (λ _ r, bool_decide (ro_state r = StOpen) && bool_decide (ro_dispatch r = ev_subject ev))
         (close_role RoleCloseReaped (ev_occurred ev) (ev_id ev)) p;
  update1 c TDispatches (ev_subject ev) dispatch_is_open
    (λ r, reason ← check_enum (DispatchClosed_Reason d);
          Ok (close_dispatch reason (ev_occurred ev) (ev_id ev) r)) p'.

(** run-NN: at least two digits, no leading zero past two, not all zero. *)
Definition validRunLocator (locator : string) : bool :=
  is_prefix "run-" locator &&
  let digits := bytes_of (drop_str 4 locator) in
  (2 <=? length digits)%nat
  && negb ((2 <? length digits)%nat && bool_decide (head digits = Some 48%Z))
  && forallb (λ d, between 48 d 57)%Z digits
  && existsb (λ d, negb (d =? 48)%Z) digits.

Fixpoint frozen_set_ok (p : Proj) (seen matters : list string) : result () :=
  match matters with
  | [] => Ok ()
  | m :: matters =>
      ensure (negb (bool_decide (m ∈ seen))) (ERefuse "repeats Matter") ;;
      validateLiveMatter p m ;;
      frozen_set_ok p (m :: seen) matters
  end.

Fixpoint freeze_loop (c : Ctx) (run : string) (i : Z) (matters : list string) (p : Proj)
    : result Proj :=
  match matters with
  | [] => Ok p
  | m :: matters =>
      p' ← sql_insert c TRunMatters (run, m) i p;
      freeze_loop c run (i + 1)%Z matters p'
  end.

Definition startRun (c : Ctx) (ev : Event) (p : Proj) : result Proj :=
  r ← decodeStrict (S := RunStarted) (ev_payload ev);
  ensure (negb (bool_decide (RunStarted_Batch r = "") || bool_decide (RunStarted_Matters r = [])))
    (ERefuse "requires a Batch and non-empty frozen set") ;;
  validateExecutionContext p ev (ev_clone ev) ;;
  ensure (validRunLocator (RunStarted_Locator r)) (ERefuse "has malformed Run locator") ;;
  require_live_batch p (RunStarted_Batch r) ;;
  frozen_set_ok p [] (RunStarted_Matters r) ;;
  p' ← sql_insert c TRuns (ev_subject ev)
         (MkRunRow (ev_clone ev) (RunStarted_Batch r) (RunStarted_Locator r) StOpen None
            (ev_occurred ev) None (ev_id ev) (ev_id ev)) p;
  freeze_loop c (ev_subject ev) 0 (RunStarted_Matters r) p'.

Definition run_is_open (r : RunRow) : bool := bool_decide (rn_state r = StOpen).

Definition finishRun (c : Ctx) (ev : Event) (p : Proj) : result Proj :=
  decodeStrict (S := RunFinished) (ev_payload ev) ;;
  validateRunContext p ev (ev_subject ev) true ;;
  update1 c TRuns (ev_subject ev) run_is_open
    (λ r, Ok (close_run RunCompleted (ev_occurred ev) (ev_id ev) r)) p.

Definition standDownRun (c : Ctx) (ev : Event) (p : Proj) : result Proj :=
  s ← decodeStrict (S := RunStoodDown) (ev_payload ev);
  r ← from_option_err (ERefuse "names an unknown Run") (runs p !! ev_subject ev);
  ensure (run_is_open r) (ERefuse "names a closed Run") ;;
  ensure (negb (bool_decide (RunStoodDown_ActingClone s = "")
                || bool_decide (RunStoodDown_OwningClone s = ""))
          && bool_decide (RunStoodDown_OwningClone s = rn_clone r)
          && bool_decide (RunStoodDown_ActingClone s = ev_clone ev))
    (ERefuse "has invalid acting or owning Clone") ;;
  validateExecutionContext p ev (RunStoodDown_ActingClone s) ;;
  ensure (is_some (clones p !! RunStoodDown_OwningClone s)) (ERefuse "names an unknown owning Clone") ;;
  update1 c TRuns (ev_subject ev) run_is_open
    (λ r, Ok (close_run RunStoodDownReason (ev_occurred ev) (ev_id ev) r)) p.

(** run.resumed projects nothing; it is checked against the Run it names. *)
Definition resumeRun (ev : Event) (p : Proj) : result Proj :=
  decodeStrict (S := RunResumed) (ev_payload ev) ;;
  validateRunContext p ev (ev_subject ev) true ;;
  Ok p.

Definition validateRunSkipped (ev : Event) (p : Proj) : result Proj :=
  s ← decodeStrict (S := RunSkipped) (ev_payload ev);
  ensure (negb (bool_decide (RunSkipped_Run s = ""))
          && is_some (enum_parse (A := RunSkipReason) (RunSkipped_Reason s)))
    (ERefuse "has invalid Run or reason") ;;
  validateRunContext p ev (RunSkipped_Run s) true ;;
  ensure (is_some (run_matters p !! (RunSkipped_Run s, ev_subject ev)))
    (ERefuse "Matter is not in the Run frozen set") ;;
  r ← from_option_err ENoRows (live_node p (ev_subject ev));
  ensure (bool_decide (nd_kind r = ScaleMatter)) (ERefuse "subject is not a live Matter") ;;
  Ok p.

Definition spawnRole (c : Ctx) (ev : Event) (p : Proj) : result Proj :=
  s ← decodeStrict (S := RoleSpawned) (ev_payload ev);
  name ← from_option_err (ERefuse "not one of the six roles") (enum_parse (A := RoleName) (RoleSpawned_Name s));
  d ← from_option_err (ERefuse "names an unknown Dispatch") (dispatches p !! RoleSpawned_Dispatch s);
  ensure (dispatch_is_open d) (ERefuse "names a closed Dispatch") ;;
  ensure (bool_decide (dp_clone d = ev_clone ev) && bool_decide (dp_worktree d = ev_worktree ev))
    (ERefuse "dimensions disagree with Dispatch") ;;
  validateExecutionContext p ev (dp_clone d) ;;
  on_unique (ERefuse "refusal.role-contention") (sql_insert c TRoles (ev_subject ev)
    (MkRoleRow (dp_clone d) (RoleSpawned_Dispatch s) name StOpen None (ev_occurred ev) None
       (ev_id ev) (ev_id ev)) p).

Definition role_is_open (r : RoleRow) : bool := bool_decide (ro_state r = StOpen).

Definition closeRole (c : Ctx) (ev : Event) (p : Proj) : result Proj :=
  s ← decodeStrict (S := RoleClosed) (ev_payload ev);
  reason ← from_option_err (ERefuse "must carry reason completed or reaped")
             (enum_parse (A := RoleCloseReason) (RoleClosed_Reason s));
  r ← from_option_err ERows (roles p !! ev_subject ev);
  ensure (role_is_open r) ERows ;;
  d ← from_option_err ERows (dispatches p !! ro_dispatch r);
  ensure (bool_decide (ro_clone r = ev_clone ev) && bool_decide (dp_worktree d = ev_worktree ev))
    (ERefuse "dimensions disagree with the role's Dispatch") ;;
  update1 c TRoles (ev_subject ev) role_is_open
    (λ r, Ok (close_role reason (ev_occurred ev) (ev_id ev) r)) p.

(** ** The fold of one event *)
Definition applyEvent (c : Ctx) (ev : Event) (p : Proj) : result Proj :=
  match enum_parse (ev_type ev) with
  | None => Error (ERefuse "no projection rule for event type")
  | Some ty =>
      match ty with
      | TypeMatterCreated => insertNode c ev ScaleMatter p
      | TypeStageCreated => insertNode c ev ScaleStage p
      | TypeStepCreated | TypeStepInserted => insertNode c ev ScaleStep p
      | TypeMatterStarted | TypeStageStarted | TypeStepStarted
      | TypeMatterFinished | TypeStageFinished | TypeStepFinished
      | TypeMatterCanceled | TypeStageCanceled | TypeStepCanceled
      | TypeMatterPaused | TypeStagePaused | TypeStepPaused
      | TypeMatterResumed | TypeStageResumed | TypeStepResumed =>
          p' ← applyTransition c ev p; projectTransitionCandidates c ev p'
      | TypeContentCreated | TypeContentAppended => insertContent c ev p
      | TypeStepReordered => applyReorder c ev p
      | TypeStepReplaced => applyReplace c ev p
      | TypeStepRemoved => tombstoneNode c ev p
      | TypeDependencyAdded => insertEdge c ev p
      | TypeDependencyRemoved => tombstoneEdge c ev p
      | TypeGateClosed => p' ← closeGate c ev p; projectGateCandidates c ev p'
      | TypeGateDismissed => p' ← dismissGate c ev p; projectGateCandidates c ev p'
      | TypeGateDeclared => declareGateProjection c ev p
      | TypeGateExemptionRepaired => repairGateExemptionProjection c ev p
      | TypeConfigSet => setConfigProjection c ev p
      | TypeBacklogEntered => insertBacklogEntry c ev p
      | TypeBacklogPlanned => planBacklogEntry c ev p
      | TypeBacklogDeclined => declineBacklogEntry c ev p
      | TypeBacklogDelegated => delegateBacklogEntry c ev p
      | TypeReferenceBound => p' ← bindReference c ev p; projectLegacyMatterReference c ev p'
      | TypeReferenceAdded => p' ← addTrackerReference c ev p; projectReferenceCandidates c ev p'
      | TypeReferenceRemoved => p' ← removeTrackerReference c ev p; projectReferenceCandidates c ev p'
      | TypeReferenceRebound => p' ← reboundTrackerReference c ev p; projectReferenceCandidates c ev p'
      | TypeTrackerAdhocProposed => projectAdhocCandidate c ev p
      | TypeTrackerItemCreated => recordTrackerItemCreated c ev p
      | TypeTrackerStatePushed => recordTrackerStatePush c ev p
      | TypeTrackerStateObserved => recordTrackerStateObserved c ev p
      | TypeOutboxApproved => approveOutbox c ev p
      | TypeOutboxDeclined => declineOutbox c ev p
      | TypeOutboxWithheld => withholdOutbox c ev p
      | TypeOutboxDeliveryFailed => failOutbox c ev p
      | TypeOutboxRetried => retryOutbox c ev p
      | TypeOutboxFlushed => flushOutboxComment c ev p
      | TypeRepoAttached => insertRepo c ev p
      | TypeCloneAttached => insertClone c ev p
      | TypeWorktreeAttached => insertWorktree c ev p
      | TypeRepoKeyAdopted => adoptRepoKey c ev p
      | TypeCloneRelinked => relinkClone c ev p
      | TypeCloneLabeled => labelClone c ev p
      | TypeCursorMoved => moveCursor c ev p
      | TypeBatchCreated => insertBatch c ev p
      | TypeBatchJoined => joinBatch c ev p
      | TypeBatchLeft => leaveBatch c ev p
      | TypeBatchDismissed => dismissBatch c ev p
      | TypeBatchSwept => sweepBatch c ev p
      | TypeDispatchOpened => openDispatch c ev p
      | TypeDispatchClosed => closeDispatch c ev p
      | TypeRunStarted => startRun c ev p
      | TypeRunFinished => finishRun c ev p
      | TypeRunStoodDown => standDownRun c ev p
      | TypeRunResumed => resumeRun ev p
      | TypeRunSkipped => validateRunSkipped ev p
      | TypeRoleSpawned => spawnRole c ev p
      | TypeRoleClosed => closeRole c ev p
      | TypeRenderPerformed => Ok p
      end
  end.
