(* ===== verification/Store.v ===== *)
(** The write path (src/internal/store/store.go) and the rebuild
    (src/internal/store/project.go, Rebuild): identity minting above the floor,
    the stamp, the append with every constraint of the events table, the commit
    as one transaction, and the refold of the whole log.

    Time and entropy come from an oracle [World], read once per identity drawn.
    NewID loops until the clock passes the floor, so the functions that mint take
    a bound on the number of draws per identity and return [None] only when that
    bound is exceeded. *)
From S2P Require Import Prelude GoStd Ulid Taxonomy Json Payloads Tables View Gates Project.

Record World := MkWorld { w_clock : nat → Z; w_entropy : nat → list Z }.

(** What a store handle keeps outside the database: the id source, how often it
    was read, the floor, and the sidecar blobs. *)
Record Handle := MkHandle {
  h_ids : idSource; h_tick : nat; h_floor : string; h_blobs : gmap string string
}.

Record Store := MkStore { s_log : list Event; s_proj : Proj; s_handle : Handle }.

Definition draw (w : World) (h : Handle) : string * Handle :=
  let '(ids, id) := next (h_ids h) (w_clock w (h_tick h)) (w_entropy w (h_tick h)) in
  (id, MkHandle ids (S (h_tick h)) (h_floor h) (h_blobs h)).

(** Store.NewID: draw until the identity is above the floor. *)
Fixpoint NewID (w : World) (fuel : nat) (h : Handle) : option (string * Handle) :=
  match fuel with
  | O => None
  | S fuel =>
      let '(id, h') := draw w h in
      if String.ltb (h_floor h) id
      then Some (id, MkHandle (h_ids h') (h_tick h') id (h_blobs h'))
      else NewID w fuel h'
  end.

(** ** Actors *)
Definition has_prefix_more (pre a : string) : bool :=
  (String.length pre <? String.length a)%nat && is_prefix pre a.

Definition actor_valid (a : string) : bool :=
  bool_decide (a = ActorHuman) || has_prefix_more "role:" a || has_prefix_more "system:" a.

(** Actor.Role *)
Definition actor_role (a : string) : option string :=
  if has_prefix_more "role:" a then Some (drop_str 5 a) else None.

(** ActorFor: the acting identity the command line resolves. *)
Definition ActorFor (asRole : string) : string :=
  if bool_decide (asRole = "") then ActorHuman else RoleActor asRole.

Record Env := MkEnv { env_repo : string; env_clone : string; env_worktree : string }.

Record Request := MkRequest { rq_actor : string; rq_env : Env }.

(** A verb's decision; the payload is the tree json.Marshal renders, an empty
    object for a nil one. *)
Record Draft := MkDraft {
  d_type : string; d_subject : string; d_payload : json; d_env : option Env; d_cause : Z
}.

(** SELECT COUNT over open roles of that name, in the narrowest scope named. *)
Definition verifyRoleActor (p : Proj) (env : Env) (name : string) : result () :=
  let count := select_count TRoles p (λ _ r,
    match dispatches p !! ro_dispatch r with
    | None => false
    | Some d =>
        bool_decide (ro_state r = StOpen) && bool_decide (enum_str (ro_name r) = name)
        && (if negb (bool_decide (env_worktree env = "")) then bool_decide (dp_worktree d = env_worktree env)
            else if negb (bool_decide (env_clone env = "")) then bool_decide (ro_clone r = env_clone env)
            else true)
    end) in
  ensure (0 <? count)%nat (ERefuse "claims a role with no open spawn behind it").

(** Envelope dimensions the rule asks for, from the request or the draft. *)
Definition dimension (required : bool) (v : string) (msg : string) : result string :=
  if required then ensure (negb (bool_decide (v = ""))) (ERefuse msg) ;; Ok v else Ok "".

(** stamp: [None] only when minting exceeds its bound. *)
Definition stamp (w : World) (fuel : nat) (req : Request) (d : Draft) (h : Handle)
    : option (result Event * Handle) :=
  match requiredDimensions (d_type d) with
  | Error e => Some (Error e, h)
  | Ok rule =>
      if negb (bool_decide (String.length (d_subject d) = IDLen))
      then Some (Error (ERefuse "names a subject which is not an identity"), h)
      else
        '(id, h') ← NewID w fuel h;
        Some (at_ ← timeOfID id;
              (if bool_decide (d_type d = enum_str TypeGateDismissed)
               then decodeStrict (S := GateDismissed) (d_payload d) ;; Ok () else Ok ()) ;;
              let env := default (rq_env req) (d_env d) in
              repo ← dimension (et_repo rule) (env_repo env) "requires a repo dimension";
              clone ← dimension (et_clone rule) (env_clone env) "requires a clone dimension";
              wt ← dimension (et_worktree rule) (env_worktree env) "requires a worktree dimension";
              Ok (MkEvent id (d_type d) at_ (rq_actor req) "" "" repo clone wt
                    (d_subject d) (d_payload d)), h')
  end.

(** occurred_at GLOB: a four-digit year, written from milliseconds. *)
Definition timestamp_ok (ms : Z) : bool := (0 <=? ms)%Z && (ms <? 253402300800000)%Z.

Definition dim_shape (v : string) : bool := bool_decide (v = "") || IsIdentityShaped v.

Definition log_max (log : list Event) : string :=
  foldr (λ e m, if String.ltb m (ev_id e) then ev_id e else m) "" log.

(** A chain pointer names the event itself or one already in the log. *)
Definition pointer_ok (log : list Event) (id ptr : string) : bool :=
  (bool_decide (ptr = id) || is_some (find_event log ptr)) && negb (String.ltb id ptr).

(** INSERT INTO events: the CHECKs, the foreign keys and the three triggers. *)
Definition appendEvent (log : list Event) (ev : Event) : result (list Event) :=
  ensure (String.ltb (log_max log) (ev_id ev)) (EConstraint "events_monotonic") ;;
  rule ← requiredDimensions (ev_type ev);
  ensure (bool_decide (et_repo rule = negb (bool_decide (ev_repo ev = "")))
          && bool_decide (et_clone rule = negb (bool_decide (ev_clone ev = "")))
          && bool_decide (et_worktree rule = negb (bool_decide (ev_worktree ev = ""))))
    (EConstraint "events_dimensions") ;;
  ensure (IsIdentityShaped (ev_id ev) && IsIdentityShaped (ev_subject ev)
          && dim_shape (ev_repo ev) && dim_shape (ev_clone ev) && dim_shape (ev_worktree ev)
          && timestamp_ok (ev_occurred ev) && actor_valid (ev_actor ev)
          && json_is_object (ev_payload ev)) (EConstraint "events CHECK") ;;
  ensure (pointer_ok log (ev_id ev) (ev_causation ev) && pointer_ok log (ev_id ev) (ev_correlation ev))
    (EConstraint "events_cause_never_forward") ;;
  Ok (log ++ [ev]).

Definition with_chain (ev : Event) (causation correlation : string) : Event :=
  MkEvent (ev_id ev) (ev_type ev) (ev_occurred ev) (ev_actor ev) causation correlation
    (ev_repo ev) (ev_clone ev) (ev_worktree ev) (ev_subject ev) (ev_payload ev).

(** The chain pointers of draft [i], given the events already written. *)
Definition chain (events : list Event) (cause : Z) (ev : Event) : result Event :=
  match events with
  | [] => Ok (with_chain ev (ev_id ev) (ev_id ev))
  | origin :: _ =>
      ensure ((0 <=? cause)%Z && (cause <? Z.of_nat (length events))%Z)
        (ERefuse "names a cause which is not an earlier event in this command") ;;
      match events !! Z.to_nat cause with
      | Some e => Ok (with_chain ev (ev_id e) (ev_id origin))
      | None => Error (ERefuse "index out of range")
      end
  end.

(** Stamp, append and fold each draft in order; [events] accumulates. *)
Fixpoint write_drafts (w : World) (fuel : nat) (req : Request) (ds : list Draft)
    (events : list Event) (log : list Event) (p : Proj) (h : Handle)
    : option (result (list Event * list Event * Proj) * Handle) :=
  match ds with
  | [] => Some (Ok (events, log, p), h)
  | d :: ds =>
      '(rev, h') ← stamp w fuel req d h;
      match (ev0 ← rev;
             ev ← chain events (d_cause d) ev0;
             log' ← appendEvent log ev;
             p' ← applyEvent (MkCtx log' true) ev p;
             Ok (ev, log', p')) with
      | Error e => Some (Error e, h')
      | Ok (ev, log', p') => write_drafts w fuel req ds (events ++ [ev]) log' p' h'
      end
  end.

(** What a decide function is: it reads the store inside the transaction, may
    mint identities and spill blobs, and returns drafts or an error. *)
Definition Decide := list Event → Proj → Handle → option (result (list Draft) * Handle).

(** Commit: the database changes only if everything succeeds; the handle keeps
    what was minted either way. *)
Definition Commit (w : World) (fuel : nat) (req : Request) (decide : Decide) (s : Store)
    : option (result (list Event) * Store) :=
  let fail e h := Some (Error e, MkStore (s_log s) (s_proj s) h) in
  if negb (actor_valid (rq_actor req)) then fail (ERefuse "is not an actor") (s_handle s)
  else
    match (match actor_role (rq_actor req) with
           | Some name => verifyRoleActor (s_proj s) (rq_env req) name
           | None => Ok () end) with
    | Error e => fail e (s_handle s)
    | Ok _ =>
        '(rd, h1) ← decide (s_log s) (s_proj s) (s_handle s);
        match rd with
        | Error e => fail e h1
        | Ok [] => fail (ERefuse "the command produced no event") h1
        | Ok ds =>
            '(rw, h2) ← write_drafts w fuel req ds [] (s_log s) (s_proj s) h1;
            match rw with
            | Error e => fail e h2
            | Ok (events, log', p') => Some (Ok events, MkStore log' p' h2)
            end
        end
    end.

(** ** Rebuild *)
Definition v1ProjectionTables : list tbl :=
  [TRepos; TClones; TWorktrees; TNodes; TContent; TEdges; TGateState; TBacklog; TOutbox;
   TBatches; TMembers; TRuns; TDispatches; TCursors].

Definition projectionTables : list tbl :=
  [TExempt; TDecls; TConfig; TPush; TRefs; TRoles; TRunMatters] ++ v1ProjectionTables.

(** DELETE FROM each table. *)
Definition clear_tables (ts : list tbl) (p : Proj) : Proj := foldl (λ p t, tset t ∅ p) p ts.

(** SELECT ... FROM events ORDER BY id *)
Definition Events (log : list Event) : list Event :=
  order_by (λ a b, String.leb (ev_id a) (ev_id b)) log.

(** The deferred foreign keys, checked when the transaction commits. *)
Definition table_fk_ok (log : list Event) (p : Proj) (t : tbl) : bool :=
  forallb (λ kr, forallb (ref_ok log p) (row_refs t kr.1 kr.2)) (map_to_list (tget t p)).

Definition fk_ok (log : list Event) (p : Proj) : bool :=
  forallb (table_fk_ok log p) projectionTables.

Definition fold_events (c : Ctx) (evs : list Event) (p : Proj) : result Proj :=
  foldM (λ p ev, applyEvent c ev p) p evs.

Definition Rebuild (s : Store) : result Store :=
  let c := MkCtx (s_log s) false in
  p ← fold_events c (Events (s_log s)) (clear_tables projectionTables (s_proj s));
  ensure (fk_ok (s_log s) p) (EConstraint "FOREIGN KEY") ;;
  Ok (MkStore (s_log s) p (s_handle s)).

(** ** Opening *)

(** loadFloor: MAX(id), or the empty string for an empty log. *)
Definition loadFloor (log : list Event) : string := log_max log.

(** A new handle over an existing database: a fresh id source above the floor. *)
Definition reopen (s : Store) : Store :=
  MkStore (s_log s) (s_proj s)
    (MkHandle newIDSource (h_tick (s_handle s)) (loadFloor (s_log s)) (h_blobs (s_handle s))).

(** A store just created: no events, no rows. *)
Definition fresh_store : Store := MkStore [] empty_proj (MkHandle newIDSource 0 "" ∅).

(** verifyTaxonomy at the latest version: the slices it lists, against the rows
    of event_types. *)
Definition verified_slices : list EventType :=
  P1Taxonomy ++ V2Taxonomy ++ V3Taxonomy ++ V4Taxonomy ++ V5Taxonomy ++ V6Taxonomy
  ++ V11Taxonomy ++ V13Taxonomy ++ V14Taxonomy.

Definition verifyTaxonomy (known : list string) : result () :=
  ensure (forallb (λ t, bool_decide (enum_str (et_type t) ∈ known)) verified_slices)
    (ERefuse "the migration that seeds it is missing").
