(* ===== verification/Steps.v ===== *)
(** The fold as a transition system.

    [row_birth] says what a row looks like when an event bears it, [row_change]
    which moves an event may make on an existing row, table by table: the
    lifecycle of an outbox entry, of a backlog entry, of a bracket, what never
    changes on a node.  [steps] is the closure of the SQL statements under those
    two conditions, and [applyEvent_steps] shows that the fold of any event is
    such a sequence.  Every invariant of the projection is proved against
    [step] and inherited by the fold. *)
From stdpp Require Import relations.
From S2P Require Import Prelude GoStd Ulid Taxonomy Json Payloads Tables View Gates Project.
Local Open Scope Z_scope.

(** ** The legal births and moves *)

(** The row's last_event, where it has one, is the event being folded. *)
Definition at_event (e : string) (t : tbl) (r : Row t) : Prop :=
  match last_event t r with Some x => x = e | None => True end.

(** A node born below another joins that node's Matter, or takes the place of a
    sibling. *)
Definition node_place (p : Proj) (r : NodeRow) : Prop :=
  match nd_parent r with
  | None => True
  | Some pk =>
      (∃ pr, nodes p !! pk = Some pr ∧ nd_matter pr = nd_matter r)
      ∨ (∃ j s, nodes p !! j = Some s ∧ nd_parent s = Some pk ∧ nd_matter s = nd_matter r)
  end.

(** A node's identity is its event's subject, or the replacement the payload of
    a step.replaced names. *)
Definition node_key (ev : Event) (k : string) : Prop :=
  k = ev_subject ev
  ∨ (enum_parse (ev_type ev) = Some TypeStepReplaced
     ∧ ∃ b, decode (S := Replaced) (ev_payload ev) = Ok b ∧ k = Replaced_Replacement b).

(** The delegated entry's create candidate is in the outbox. *)
Definition delegation (p : Proj) (k o : string) : Prop :=
  ∃ x, outbox_entries p !! o = Some x ∧ ob_kind x = OutboxCreate ∧ ob_subject x = k.

(** Bytes kept in the store have the length and digest recorded beside them. *)
Definition content_sound (r : ContentRow) : Prop :=
  ∀ b, ct_bytes r = Some b →
    ct_byte_len r = Z.of_nat (String.length b) ∧ ct_sha256 r = sha256_hex b.

(** An exemption names a node of the Repo, at the scale its gate is declared for. *)
Definition exemption (p : Proj) (k : (string * string) * string) : Prop :=
  ∃ n s, nodes p !! k.2 = Some n ∧ nd_repo n = k.1.1 ∧ nd_kind n = s
         ∧ gate_declarations p !! k.1 = Some s.

(** A gate row is born by a closure, or by a dismissal of that gate at that
    scale. *)
Definition gate_event (ev : Event) (gate : string) (r : GateStateRow) : Prop :=
  enum_parse (ev_type ev) = Some TypeGateClosed
  ∨ (enum_parse (ev_type ev) = Some TypeGateDismissed
     ∧ ∃ d, decodeStrict (S := GateDismissed) (ev_payload ev) = Ok d
            ∧ GateDismissed_Gate d = gate ∧ GateDismissed_Scale d = enum_str (gs_scale r)).

(** An edge is born by dependency.added, between its subject and the blocker
    its payload names. *)
Definition edge_event (ev : Event) (r : EdgeRow) : Prop :=
  enum_parse (ev_type ev) = Some TypeDependencyAdded ∧ eg_blocked r = ev_subject ev
  ∧ ∃ d, decode (S := DependencyChange) (ev_payload ev) = Ok d
         ∧ eg_blocker r = DependencyChange_Blocker d.

(** A Run's frozen set holds Matters. *)
Definition matter_row (p : Proj) (k : string) : Prop :=
  ∃ n, nodes p !! k = Some n ∧ nd_kind n = ScaleMatter.

Definition row_birth (ev : Event) (p : Proj) (t : tbl) : Key t → Row t → Prop :=
  match t as t return Key t → Row t → Prop with
  | TNodes => λ k r, nd_lifecycle r = Planned ∧ nd_tombstone r = None ∧ nd_external_ref r = None
                     ∧ node_place p r ∧ node_key ev k
  | TContent => λ _ r, ct_tombstone r = None ∧ content_sound r
  | TEdges => λ _ r, eg_tombstone r = None ∧ edge_event ev r
  | TGateState => λ k r, (∃ n, nodes p !! k.1 = Some n ∧ gs_scale r = nd_kind n)
                         ∧ gate_event ev k.2 r
  | TBacklog => λ _ r, bl_state r = BacklogEnteredState ∧ bl_decline_reason r = ""
                       ∧ bl_outbox r = None
  | TOutbox => λ _ r, ob_state r = OutboxQueued ∧ ob_reason r = "" ∧ ob_attempts r = 0
  | TMembers => λ _ r, mb_left r = None
  | TRuns => λ _ r, rn_state r = StOpen
  | TDispatches => λ _ r, dp_state r = StOpen
  | TRoles => λ _ r, ro_state r = StOpen
      ∧ ∃ d, dispatches p !! ro_dispatch r = Some d ∧ dp_state d = StOpen ∧ dp_clone d = ro_clone r
  | TRefs => λ _ r, rf_removed r = None
  | TExempt => λ k _, exemption p k
  | TRunMatters => λ k _, matter_row p k.2
  | TRepos | TClones | TWorktrees | TBatches | TCursors | TPush | TConfig => λ _ _, True
  | TDecls => λ _ _, enum_parse (ev_type ev) = Some TypeGateDeclared
  end.

(** The fifteen lifecycle transitions. *)
Definition is_transition (t : EType) : bool :=
  match t with
  | TypeMatterStarted | TypeStageStarted | TypeStepStarted
  | TypeMatterFinished | TypeStageFinished | TypeStepFinished
  | TypeMatterCanceled | TypeStageCanceled | TypeStepCanceled
  | TypeMatterPaused | TypeStagePaused | TypeStepPaused
  | TypeMatterResumed | TypeStageResumed | TypeStepResumed => true
  | _ => false
  end.

(** Only a transition moves a node's lifecycle, its subject's, from and to what
    its payload says. *)
Definition life_move (ev : Event) (k : string) (o n : NodeRow) : Prop :=
  nd_lifecycle n = nd_lifecycle o
  ∨ ∃ ty t, k = ev_subject ev ∧ enum_parse (ev_type ev) = Some ty ∧ is_transition ty = true
      ∧ decode (S := Transition) (ev_payload ev) = Ok t
      ∧ Transition_From t = enum_str (nd_lifecycle o) ∧ Transition_To t = enum_str (nd_lifecycle n).

(** Only these two remove a node, their subject. *)
Definition removal (ev : Event) : Prop :=
  ∃ ty, enum_parse (ev_type ev) = Some ty ∧ (ty = TypeStepRemoved ∨ ty = TypeStepReplaced).

(** A node keeps its identity columns, its locator and its title; it moves
    between lifecycle states, is reordered, gains a reference or is removed, all
    while live; once removed it does not move at all. *)
Definition node_change (ev : Event) (k : string) (o n : NodeRow) : Prop :=
  nd_tombstone o = None
  ∧ nd_kind n = nd_kind o ∧ nd_repo n = nd_repo o ∧ nd_matter n = nd_matter o
  ∧ nd_parent n = nd_parent o ∧ nd_locator n = nd_locator o ∧ nd_title n = nd_title o
  ∧ (nd_tombstone n = None ∨ (nd_tombstone n = Some (nd_last n) ∧ nd_lifecycle n = nd_lifecycle o
                               ∧ removal ev ∧ k = ev_subject ev))
  ∧ life_move ev k o n.

Definition backlog_change (p : Proj) (k : string) (o n : BacklogRow) : Prop :=
  bl_repo n = bl_repo o ∧ bl_provenance n = bl_provenance o ∧ bl_title n = bl_title o
  ∧ bl_detail n = bl_detail o ∧ bl_origin_node n = bl_origin_node o
  ∧ ((bl_state o = BacklogEnteredState ∧ bl_state n ≠ BacklogEnteredState
      ∧ (bl_outbox n = bl_outbox o ∨ ∃ x, bl_outbox n = Some x ∧ delegation p k x))
     ∨ (bl_state o = BacklogDelegatedState ∧ bl_state n = BacklogDelegatedState
        ∧ bl_outbox n = bl_outbox o)).

(** The outbox lifecycle, one disjunct per rule. *)
Inductive outbox_move (kind : OutboxKind) : OutboxState → Z → string → OutboxState → Z → string → Prop :=
| move_approve : outbox_move kind OutboxQueued 0 "" OutboxApprovedState 0 ""
| move_retry_queued a reason : 0 < a → reason ≠ "" →
    outbox_move kind OutboxQueued a reason OutboxApprovedState a ""
| move_retry_withheld a reason : outbox_move kind OutboxWithheldState a reason OutboxApprovedState a ""
| move_decline st a reason reason' :
    st = OutboxQueued ∨ st = OutboxApprovedState ∨ st = OutboxWithheldState →
    isBlank reason' = false →
    outbox_move kind st a reason OutboxDeclinedState a reason'
| move_withhold a reason a' reason' : a' = a ∨ a' = a + 1 → isBlank reason' = false →
    outbox_move kind OutboxApprovedState a reason OutboxWithheldState a' reason'
| move_fail a reason reason' : isBlank reason' = false →
    outbox_move kind OutboxApprovedState a reason OutboxQueued (a + 1) reason'
| move_flush a reason : outbox_move kind OutboxApprovedState a reason OutboxFlushedState (a + 1) ""
| move_create a reason : kind = OutboxCreate →
    outbox_move kind OutboxQueued a reason OutboxFlushedState (a + 1) "".

Definition outbox_change (o n : OutboxRow) : Prop :=
  ob_repo n = ob_repo o ∧ ob_kind n = ob_kind o ∧ ob_subject n = ob_subject o
  ∧ ob_ref n = ob_ref o ∧ ob_idempotency_key n = ob_idempotency_key o
  ∧ ob_payload n = ob_payload o
  ∧ outbox_move (ob_kind o) (ob_state o) (ob_attempts o) (ob_reason o)
      (ob_state n) (ob_attempts n) (ob_reason n).

(** A bracket closes only once no open role is left in it. *)
Definition no_open_role (p : Proj) (d : string) : Prop :=
  ∀ k r, roles p !! k = Some r → ro_dispatch r = d → ro_state r = StClosed.

Definition row_change (ev : Event) (p : Proj) (t : tbl) : Key t → Row t → Row t → Prop :=
  match t as t return Key t → Row t → Row t → Prop with
  | TNodes => node_change ev
  | TEdges => λ _ o n, eg_tombstone o = None ∧ eg_tombstone n = Some (eg_last n)
                     ∧ eg_blocked n = eg_blocked o ∧ eg_blocker n = eg_blocker o
  | TBacklog => backlog_change p
  | TOutbox => λ _, outbox_change
  | TBatches => λ _ o n, bt_state o = BatchLive ∧ bt_state n = BatchClosedState
                       ∧ bt_name n = bt_name o ∧ bt_matter n = bt_matter o
  | TRuns => λ _ o n, rn_state o = StOpen ∧ rn_state n = StClosed ∧ rn_clone n = rn_clone o
                    ∧ rn_batch n = rn_batch o ∧ rn_locator n = rn_locator o
  | TDispatches => λ k o n, dp_state o = StOpen ∧ dp_state n = StClosed ∧ dp_clone n = dp_clone o
                    ∧ dp_worktree n = dp_worktree o ∧ dp_run n = dp_run o
                    ∧ dp_matter n = dp_matter o ∧ no_open_role p k
  | TRoles => λ _ o n, ro_state o = StOpen ∧ ro_state n = StClosed ∧ ro_clone n = ro_clone o
                     ∧ ro_dispatch n = ro_dispatch o ∧ ro_name n = ro_name o
  | TRepos => λ _ o n, rp_remote_url o = None ∧ is_Some (rp_remote_url n) ∧ rp_label n = rp_label o
  | TClones => λ _ o n, cl_repo n = cl_repo o
  | TPush => λ _ o n, pr_disposition o = TrackerActive ∨ pr_disposition n = pr_disposition o
  | TMembers | TCursors | TRefs | TConfig => λ _ _ _, True
  | TContent | TGateState | TWorktrees | TRunMatters | TExempt | TDecls => λ _ _ _, False
  end.

(** ** The transition system *)
Inductive step (c : Ctx) (ev : Event) (p : Proj) : Proj → Prop :=
| step_insert t k r p' :
    sql_insert c t k r p = Ok p' → at_event (ev_id ev) t r → row_birth ev p t k r → step c ev p p'
| step_set t k old new p' :
    tget t p !! k = Some old → sql_set c t k old new p = Ok p' →
    at_event (ev_id ev) t new → row_change ev p t k old new → step c ev p p'.

Definition steps (c : Ctx) (ev : Event) : Proj → Proj → Prop := rtc (step c ev).

Lemma steps_refl c e p : steps c e p p.
Proof. apply rtc_refl. Qed.

Lemma steps_trans c e p q r : steps c e p q → steps c e q r → steps c e p r.
Proof. apply transitivity. Qed.

Create HintDb wip_steps.
#[export] Hint Resolve steps_refl : wip_steps.

Lemma put_Ok c t k r p p' :
  put c t k r p = Ok p' ↔
    row_check t k r = true ∧ no_conflict t (tget t p) k r = true
    ∧ p' = tset t (<[k := r]> (tget t p)) p
    ∧ (negb (c_fk c) || forallb (ref_ok (c_log c) p') (row_refs t k r)) = true.
Proof.
  unfold put. split.
  - intros H. inv_ok. done.
  - intros (H1 & H2 & -> & H3). rewrite H1, H2, H3. done.
Qed.

Lemma sql_insert_Ok c t k r p p' :
  sql_insert c t k r p = Ok p' ↔
    insert_trigger p t r = true ∧ tget t p !! k = None ∧ put c t k r p = Ok p'.
Proof.
  unfold sql_insert. split.
  - intros H. inv_ok. split_and!; try done. inv_bool. by destruct (tget t p !! k).
  - intros (H1 & H2 & H3). by rewrite H1, H2.
Qed.

Lemma sql_set_Ok c t k o n p p' :
  sql_set c t k o n p = Ok p' ↔ update_trigger t o n = true ∧ put c t k n p = Ok p'.
Proof.
  unfold sql_set. split.
  - intros H. by inv_ok.
  - intros (H1 & H2). by rewrite H1.
Qed.

Lemma update1_Ok c t k guard f p p' :
  update1 c t k guard f p = Ok p' ↔
    ∃ r r', tget t p !! k = Some r ∧ guard r = true ∧ f r = Ok r' ∧ sql_set c t k r r' p = Ok p'.
Proof.
  unfold update1. split.
  - destruct (tget t p !! k) as [r|] eqn:E; [|done]. intros H. inv_ok. eauto 10.
  - intros (r & r' & -> & Hg & Hf & Hs). rewrite Hg. cbn. rewrite Hf. done.
Qed.

Lemma put_tget_eq c t k r p p' : put c t k r p = Ok p' → tget t p' = <[k := r]> (tget t p).
Proof. intros (_ & _ & -> & _)%put_Ok. apply tget_tset_eq. Qed.

Lemma put_tget_ne c t k r p p' t' : t ≠ t' → put c t k r p = Ok p' → tget t' p' = tget t' p.
Proof. intros Hne (_ & _ & -> & _)%put_Ok. by apply tget_tset_ne. Qed.

(** ** The statements are steps *)
Section statements.
Context (c : Ctx) (e : Event).

Lemma steps_insert t k r p p' :
  sql_insert c t k r p = Ok p' → at_event (ev_id e) t r → row_birth e p t k r → steps c e p p'.
Proof. intros. by eapply rtc_once, step_insert. Qed.

Lemma steps_update1 t k guard f p p' :
  update1 c t k guard f p = Ok p' →
  (∀ r r', tget t p !! k = Some r → guard r = true → f r = Ok r' →
     at_event (ev_id e) t r' ∧ row_change e p t k r r') →
  steps c e p p'.
Proof.
  intros (r & r' & Hk & Hg & Hf & Hs)%update1_Ok H. destruct (H r r' Hk Hg Hf).
  by eapply rtc_once, step_set.
Qed.

Lemma steps_upsert t k r guard f p p' b :
  upsert c t k r guard f p = Ok (p', b) →
  at_event (ev_id e) t r ∧ row_birth e p t k r →
  (∀ old, guard old = true → at_event (ev_id e) t (f old) ∧ row_change e p t k old (f old)) →
  steps c e p p'.
Proof.
  unfold upsert. intros H [Hr1 Hr2] Hf. destruct (tget t p !! k) as [old|] eqn:Ek.
  - destruct (guard old) eqn:Eg; inv_ok; [|apply steps_refl].
    simplify_eq. destruct (Hf old Eg). by eapply rtc_once, step_set.
  - inv_ok. simplify_eq. by eapply steps_insert.
Qed.

Lemma steps_foldM {B} (f : Proj → B → result Proj) l p p' :
  foldM f p l = Ok p' →
  (∀ q x q', x ∈ l → f q x = Ok q' → steps c e q q') →
  steps c e p p'.
Proof.
  intros H Hf. eapply (foldM_ind f (λ q, steps c e p q)); [|apply steps_refl|done].
  intros q x q' Hx Hq Hs. eapply steps_trans; [done|]. by eapply Hf.
Qed.

(** The rows a bulk update visits are those of the table it started from, and
    it leaves the other tables alone. *)
Lemma steps_update_rows t (f : Row t → Row t) l p p' :
  NoDup l.*1 → (∀ k r, (k, r) ∈ l → tget t p !! k = Some r) →
  foldM (λ p kr, sql_set c t kr.1 kr.2 (f kr.2) p) p l = Ok p' →
  (∀ q k r, (∀ t', t ≠ t' → tget t' q = tget t' p) → (k, r) ∈ l →
     at_event (ev_id e) t (f r) ∧ row_change e q t k r (f r)) →
  steps c e p p'.
Proof.
  revert p. induction l as [|[k r] l IH]; intros p Hnd Hl H Hf; cbn in H.
  { simplify_eq. apply steps_refl. }
  apply bind_Ok in H as (q & Hq & H). apply NoDup_cons in Hnd as [Hk Hnd]. cbn in Hk, Hq.
  destruct (Hf p k r) as [? ?]; [done|by left|].
  pose proof Hq as [_ Hput]%sql_set_Ok.
  eapply rtc_l; [eapply step_set; [apply Hl; by left|done..]|].
  apply (IH q); try done.
  - intros k' r' Hin. rewrite (put_tget_eq _ _ _ _ _ _ Hput).
    rewrite lookup_insert_ne; [apply Hl; by right|].
    intros ->. destruct Hk. apply list_elem_of_fmap. by exists (k', r').
  - intros q' k' r' Hq' Hin. apply (Hf q' k'); [|by right].
    intros t' Hne. rewrite (Hq' t' Hne). by apply (put_tget_ne _ _ _ _ _ _ _ Hne Hput).
Qed.

Lemma steps_update_all t guard f p p' :
  update_all c t guard f p = Ok p' →
  (∀ q k r, (∀ t', t ≠ t' → tget t' q = tget t' p) → tget t p !! k = Some r →
     guard k r = true → at_event (ev_id e) t (f r) ∧ row_change e q t k r (f r)) →
  steps c e p p'.
Proof.
  intros H Hf. eapply steps_update_rows; [| |exact H|].
  - apply (sublist_NoDup _ (map_to_list (tget t p)).*1); [apply NoDup_fst_map_to_list|apply fmap_sublist, sublist_filter].
  - intros k r [_ Hm]%list_elem_of_filter. by apply elem_of_map_to_list in Hm.
  - intros q k r Hq [Hg Hm]%list_elem_of_filter. apply elem_of_map_to_list in Hm. by apply (Hf q k r).
Qed.

(** What a bulk update leaves in the database. *)
Lemma update_rows_get t (f : Row t → Row t) l p p' :
  NoDup l.*1 →
  foldM (λ p kr, sql_set c t kr.1 kr.2 (f kr.2) p) p l = Ok p' →
  (∀ t', t ≠ t' → tget t' p' = tget t' p)
  ∧ ∀ k, tget t p' !! k = match (list_to_map l : gmap (Key t) (Row t)) !! k with
                          | Some r => Some (f r) | None => tget t p !! k end.
Proof.
  revert p. induction l as [|[k r] l IH]; intros p Hnd H; cbn in H; [by simplify_eq|].
  apply bind_Ok in H as (q & Hq & H). apply NoDup_cons in Hnd as [Hk Hnd]. cbn in Hk, Hq.
  apply sql_set_Ok in Hq as [_ Hput]. destruct (IH q Hnd H) as [IH1 IH2]. split.
  - intros t' Hne. rewrite (IH1 t' Hne). by apply (put_tget_ne _ _ _ _ _ _ _ Hne Hput).
  - intros k'. rewrite IH2, (put_tget_eq _ _ _ _ _ _ Hput). cbn.
    destruct (decide (k = k')) as [<-|Hne].
    + by rewrite !lookup_insert_eq, not_elem_of_list_to_map_1.
    + by rewrite !lookup_insert_ne.
Qed.

Lemma update_all_get t guard f p p' :
  update_all c t guard f p = Ok p' →
  (∀ t', t ≠ t' → tget t' p' = tget t' p)
  ∧ ∀ k, tget t p' !! k = (λ r, if guard k r then f r else r) <$> tget t p !! k.
Proof.
  intros H. assert (Hnd : NoDup (filter (λ kr, guard kr.1 kr.2 = true) (map_to_list (tget t p))).*1).
  { apply (sublist_NoDup _ (map_to_list (tget t p)).*1); [apply NoDup_fst_map_to_list|apply fmap_sublist, sublist_filter]. }
  destruct (update_rows_get _ _ _ _ _ Hnd H) as [H1 H2]. split; [done|]. intros k. rewrite H2.
  destruct (list_to_map _ !! k) as [r|] eqn:E.
  - apply elem_of_list_to_map in E; [|done]. apply list_elem_of_filter in E as [Hg Hm].
    cbn in Hg. apply elem_of_map_to_list in Hm. by rewrite Hm; cbn; rewrite Hg.
  - destruct (tget t p !! k) as [r|] eqn:Er; [|done]. cbn. destruct (guard k r) eqn:Eg; [|done].
    apply not_elem_of_list_to_map in E. destruct E. apply list_elem_of_fmap. exists (k, r).
    split; [done|]. apply list_elem_of_filter. split; [done|]. by apply elem_of_map_to_list.
Qed.
End statements.

Lemma on_unique_Ok err m p : on_unique err m = Ok p ↔ m = Ok p.
Proof.
  unfold on_unique. destruct m as [q|[]]; try done. by destruct (bool_decide _).
Qed.

Lemma is_some_true {A} (o : option A) : is_some o = true ↔ is_Some o.
Proof. by destruct o. Qed.

Lemma is_some_false {A} (o : option A) : is_some o = false ↔ o = None.
Proof. by destruct o. Qed.

Lemma node_live_true r : node_live r = true ↔ nd_tombstone r = None.
Proof. unfold node_live. by destruct (nd_tombstone r). Qed.

Lemma edge_live_true r : edge_live r = true ↔ eg_tombstone r = None.
Proof. unfold edge_live. by destruct (eg_tombstone r). Qed.

(** Normalises the guards a rule tested. *)
Ltac norm_guards :=
  repeat match goal with
  | H : node_live _ = true |- _ => apply node_live_true in H
  | H : edge_live _ = true |- _ => apply edge_live_true in H
  | H : is_some _ = true |- _ => apply is_some_true in H
  | H : is_some _ = false |- _ => apply is_some_false in H
  | H : on_unique _ _ = Ok _ |- _ => apply on_unique_Ok in H
  end.

Ltac inv_rule := inv_ok_match; norm_guards; simplify_eq.

Lemma life_move_same ev k o n : nd_lifecycle n = nd_lifecycle o → life_move ev k o n.
Proof. by left. Qed.
#[export] Hint Resolve life_move_same : core.

(** Side conditions of the statement lemmas: the row is the one the rule built. *)
Ltac row_side :=
  first [ done | solve [cbn; repeat split; eauto]
        | solve [intros; cbn in *; inv_rule; cbn in *; repeat split; cbn; eauto] ].

(** Follows the chain of [steps] hypotheses from the goal's first state. *)
Ltac walk_steps :=
  repeat match goal with
  | |- steps _ _ ?p ?p => apply steps_refl
  | H : steps ?c ?e ?p ?q |- steps ?c ?e ?p _ => apply (steps_trans c e p q _ H); clear H
  end.

(** Turns every executed statement into [steps] and chains them. *)
Ltac chain_steps c e :=
  repeat match goal with
  | H : sql_insert c ?t _ _ _ = Ok _ |- _ => apply (steps_insert c e t) in H; [|row_side..]
  | H : update1 c ?t _ _ _ _ = Ok _ |- _ => apply (steps_update1 c e t) in H; [|row_side]
  | H : update_all c ?t _ _ _ = Ok _ |- _ => apply (steps_update_all c e t) in H; [|row_side]
  | H : upsert c ?t _ _ _ _ _ = Ok ?pb |- _ =>
      destruct pb; apply (steps_upsert c e t) in H; [|row_side..]
  end; cbn [fst snd] in *; walk_steps.

Lemma live_node_Some p id r : live_node p id = Some r ↔ nodes p !! id = Some r ∧ nd_tombstone r = None.
Proof.
  unfold live_node, node_live. destruct (nodes p !! id) as [x|]; cbn; [|naive_solver].
  destruct (nd_tombstone x) eqn:E; cbn; naive_solver.
Qed.

Lemma nullable_Some s x : nullable s = Some x ↔ s = x ∧ s ≠ "".
Proof. unfold nullable. case_bool_decide; naive_solver. Qed.

Lemma matterOf_place p scale id parent m loc title l sk x b e tb repo :
  matterOf p scale id parent = Ok m →
  node_place p (MkNodeRow scale repo m (nullable parent) loc title l sk x b e tb).
Proof.
  unfold matterOf, node_place. cbn. destruct (nullable parent) as [pk|] eqn:E; [|done].
  apply nullable_Some in E as [<- Hne]. intros H. inv_rule; try done. left; eauto.
Qed.

Section rules.
Context (c : Ctx) (ev : Event).

Lemma insertNode_steps scale p p' : insertNode c ev scale p = Ok p' → steps c ev p p'.
Proof.
  unfold insertNode. intros. inv_ok. eapply steps_insert; [done..|].
  split_and!; [done..|by eapply matterOf_place|by left].
Qed.

Lemma tombstone_node_steps p p' :
  removal ev → tombstone_node c (ev_subject ev) ev p = Ok p' → steps c ev p p'.
Proof. unfold tombstone_node. intros. chain_steps c ev. Qed.

Lemma tombstone_edge_steps id p p' : tombstone_edge c id ev p = Ok p' → steps c ev p p'.
Proof. unfold tombstone_edge. intros. chain_steps c ev. Qed.

Lemma applyTransition_steps ty p p' :
  enum_parse (ev_type ev) = Some ty → is_transition ty = true →
  applyTransition c ev p = Ok p' → steps c ev p p'.
Proof.
  unfold applyTransition. intros Hty Htr H. apply bind_Ok in H as (t & Ht & H). inv_ok.
  eapply steps_update1; [exact H|]. intros r r' _ Hg Hr. cbv beta in Hg.
  apply andb_true_iff in Hg as [Hf Hl]. inv_bool. norm_guards. unfold check_enum in *. inv_ok.
  match goal with H : enum_parse _ = Some _ |- _ => apply (enum_parse_Some (A := Lifecycle)) in H end.
  split; [done|]. cbn. repeat split; [done|by left|]. right. exists ty, t. cbn. by rewrite <-Hf.
Qed.

Lemma reorder_loop_steps i order p p' : reorder_loop c ev i order p = Ok p' → steps c ev p p'.
Proof.
  revert i p. induction order as [|id order IH]; intros i p; cbn [reorder_loop].
  { intros. inv_ok. apply steps_refl. }
  intros (q & Hq & H)%bind_Ok. apply IH in H. chain_steps c ev.
Qed.

Lemma applyReorder_steps p p' : applyReorder c ev p = Ok p' → steps c ev p p'.
Proof. unfold applyReorder. intros. inv_rule. by eapply reorder_loop_steps. Qed.

Lemma applyReplace_steps p p' :
  enum_parse (ev_type ev) = Some TypeStepReplaced → applyReplace c ev p = Ok p' → steps c ev p p'.
Proof.
  unfold applyReplace. intros. inv_rule. eapply steps_trans.
  { eapply tombstone_node_steps; [|done]. eexists. eauto. }
  eapply steps_insert; [done..|]. split_and!; [done..| |by right; eauto]. unfold node_place. cbn.
  match goal with H : tombstone_node _ _ _ _ = Ok _ |- _ =>
    apply update1_Ok in H as (o & o' & Ho & _ & Hn & [_ Hp]%sql_set_Ok) end.
  injection Hn as <-.
  match goal with H : live_node _ _ = Some _ |- _ => apply live_node_Some in H as [Hl _] end.
  cbn in Ho. rewrite Hl in Ho. injection Ho as <-. destruct (nullable _) as [pk|] eqn:E; [|done].
  apply nullable_Some in E as [E Hne]. right. exists (ev_subject ev), (set_node_tombstone (ev_id ev) n).
  apply (put_tget_eq _ TNodes) in Hp. cbn in Hp. rewrite Hp, lookup_insert_eq.
  cbn. split_and!; try done. by destruct (nd_parent n); cbn in E; subst.
Qed.

Lemma tombstoneNode_steps p p' : removal ev → tombstoneNode c ev p = Ok p' → steps c ev p p'.
Proof. unfold tombstoneNode. intros. inv_rule. by eapply tombstone_node_steps. Qed.

Lemma bindReference_steps p p' : bindReference c ev p = Ok p' → steps c ev p p'.
Proof. unfold bindReference. intros. inv_rule. chain_steps c ev. Qed.

Lemma insertContent_steps p p' : insertContent c ev p = Ok p' → steps c ev p p'.
Proof.
  unfold insertContent. intros H. apply bind_Ok in H as (w & Hw & H).
  destruct (ContentWritten_Bytes w) as [b|] eqn:Eb; inv_ok; inv_bool.
  - eapply steps_insert; [done..|]. split; [done|]. intros b' [= <-]. cbn. done.
  - eapply steps_insert; [done..|]. split; [done|]. by intros b'.
Qed.

Lemma insertEdge_steps p p' :
  enum_parse (ev_type ev) = Some TypeDependencyAdded →
  insertEdge c ev p = Ok p' → steps c ev p p'.
Proof.
  unfold insertEdge. intros Ht H. inv_ok. eapply steps_insert; [done..|].
  split; [done|]. repeat split; [done|]. eauto.
Qed.

Lemma tombstoneEdge_steps p p' : tombstoneEdge c ev p = Ok p' → steps c ev p p'.
Proof. unfold tombstoneEdge. intros. inv_rule. by eapply tombstone_edge_steps. Qed.

Lemma closeGate_steps p p' :
  enum_parse (ev_type ev) = Some TypeGateClosed → closeGate c ev p = Ok p' → steps c ev p p'.
Proof.
  unfold closeGate. intros Ht H. inv_ok_match. eapply steps_insert; [done..|].
  split; [by eauto|by left].
Qed.

Lemma dismissGate_steps p p' :
  enum_parse (ev_type ev) = Some TypeGateDismissed → dismissGate c ev p = Ok p' → steps c ev p p'.
Proof.
  unfold dismissGate. intros Ht H. inv_ok_match. eapply steps_insert; [done..|].
  split; [by eauto|right]. split; [done|]. eexists. split_and!; [eassumption|done|].
  match goal with H : enum_parse (GateDismissed_Scale _) = Some _ |- _ => apply (enum_parse_Some (A := Scale)) in H; exact H end.
Qed.

Lemma exempt_birth gate scale node p u :
  requireExemptNode p ev node scale = Ok u →
  gate_declarations p !! (ev_repo ev, gate) = Some scale →
  exemption p (ev_repo ev, gate, node).
Proof. unfold requireExemptNode, exemption. intros H Hd. inv_rule. cbn. naive_solver. Qed.

Lemma exempt_loop_steps gate scale ns p p' :
  gate_declarations p !! (ev_repo ev, gate) = Some scale →
  exempt_loop c ev gate scale ns p = Ok p' → steps c ev p p'.
Proof.
  revert p. induction ns as [|n ns IH]; intros p Hd; cbn [exempt_loop].
  { intros. inv_ok. apply steps_refl. }
  intros (u & Hu & (q & Hq & H)%bind_Ok)%bind_Ok.
  eapply steps_trans; [eapply steps_insert; [exact Hq|done|by eapply exempt_birth]|].
  apply (IH q); [|done]. apply sql_insert_Ok in Hq as (_ & _ & Hq).
  pose proof (put_tget_ne _ TExempt _ _ _ _ TDecls ltac:(done) Hq) as Hdecls. cbn in Hdecls.
  by rewrite Hdecls.
Qed.

Lemma declareGate_steps p p' :
  enum_parse (ev_type ev) = Some TypeGateDeclared → declareGateProjection c ev p = Ok p' → steps c ev p p'.
Proof.
  unfold declareGateProjection. intros. inv_ok.
  match goal with H : sql_insert c TDecls _ _ _ = Ok _ |- _ => rename H into Hd end.
  eapply steps_trans; [by eapply steps_insert|]. eapply exempt_loop_steps; [|done].
  apply sql_insert_Ok in Hd as (_ & _ & Hd). apply put_tget_eq in Hd. cbn in Hd.
  by rewrite Hd, lookup_insert_eq.
Qed.

Lemma repairGateExemption_steps p p' :
  repairGateExemptionProjection c ev p = Ok p' → steps c ev p p'.
Proof.
  unfold repairGateExemptionProjection. intros. inv_rule.
  match goal with H : upsert _ _ _ _ _ _ _ = Ok ?x |- _ => destruct x; rename H into Hu end.
  eapply (steps_upsert c ev) in Hu; [done| |done]. split; [done|]. by eapply exempt_birth.
Qed.

Lemma setConfig_steps p p' : setConfigProjection c ev p = Ok p' → steps c ev p p'.
Proof. unfold setConfigProjection. intros. inv_rule. chain_steps c ev. Qed.

Lemma insertBacklogEntry_steps p p' : insertBacklogEntry c ev p = Ok p' → steps c ev p p'.
Proof. unfold insertBacklogEntry. intros. inv_rule. chain_steps c ev. Qed.

Lemma planBacklogEntry_steps p p' : planBacklogEntry c ev p = Ok p' → steps c ev p p'.
Proof. unfold planBacklogEntry, is_entered. intros. inv_rule. chain_steps c ev. Qed.

Lemma declineBacklogEntry_steps p p' : declineBacklogEntry c ev p = Ok p' → steps c ev p p'.
Proof. unfold declineBacklogEntry, is_entered. intros. inv_rule. chain_steps c ev. Qed.

Lemma delegateBacklogEntry_steps p p' : delegateBacklogEntry c ev p = Ok p' → steps c ev p p'.
Proof.
  unfold delegateBacklogEntry, is_entered. intros. inv_rule.
  match goal with H : sql_insert c TOutbox _ _ _ = Ok ?q |- _ =>
    pose proof H as (_ & _ & Ho%put_tget_eq)%sql_insert_Ok; cbn in Ho;
    apply (steps_insert c ev) in H; [|row_side..] end.
  match goal with H : update1 c TBacklog _ _ _ _ = Ok _ |- _ =>
    apply (steps_update1 c ev TBacklog) in H; [walk_steps|] end.
  intros o n _ Hg Hn. inv_rule. split; [done|]. repeat split. left. split_and!; [done..|].
  right. exists (BacklogDelegated_Outbox x). split; [done|]. unfold delegation.
  rewrite Ho, lookup_insert_eq. eauto.
Qed.

Lemma upsert_reference_steps r guard p p' b :
  upsert_reference c ev r guard p = Ok (p', b) → steps c ev p p'.
Proof.
  unfold upsert_reference. intros H. eapply (steps_upsert c ev) in H; [done|..]; row_side.
Qed.

Lemma retire_reference_steps r p p' : retire_reference c ev r p = Ok p' → steps c ev p p'.
Proof. unfold retire_reference. intros. chain_steps c ev. Qed.

Lemma addTrackerReference_steps p p' : addTrackerReference c ev p = Ok p' → steps c ev p p'.
Proof.
  unfold addTrackerReference. intros. inv_rule.
  match goal with H : _ = Ok ?x |- steps _ _ _ ?x.1 => destruct x end.
  by eapply upsert_reference_steps.
Qed.

Lemma removeTrackerReference_steps p p' :
  removeTrackerReference c ev p = Ok p' → steps c ev p p'.
Proof. unfold removeTrackerReference. intros. inv_rule. by eapply retire_reference_steps. Qed.

Lemma reboundTrackerReference_steps p p' :
  reboundTrackerReference c ev p = Ok p' → steps c ev p p'.
Proof.
  unfold reboundTrackerReference. intros. inv_rule.
  match goal with H : _ = Ok ?x |- steps _ _ _ ?x.1 => destruct x end.
  eapply steps_trans; [by eapply retire_reference_steps|by eapply upsert_reference_steps].
Qed.

Lemma projectLegacy_steps p p' :
  projectLegacyMatterReference c ev p = Ok p' → steps c ev p p'.
Proof.
  unfold projectLegacyMatterReference. intros. inv_rule; [apply steps_refl|].
  match goal with H : _ = Ok ?x |- steps _ _ _ ?x.1 => destruct x end.
  chain_steps c ev. eauto using steps_trans, upsert_reference_steps.
Qed.

Lemma insertTrackerCandidate_steps kind subject r payload d p p' :
  insertTrackerCandidate c ev kind subject r payload d p = Ok p' → steps c ev p p'.
Proof. unfold insertTrackerCandidate. intros. chain_steps c ev. Qed.

Lemma state_candidates_steps subject seen refs p p' :
  state_candidates c ev subject seen refs p = Ok p' → steps c ev p p'.
Proof.
  revert seen p. induction refs as [|r refs IH]; intros seen p; cbn [state_candidates].
  { intros. inv_ok. apply steps_refl. }
  case_bool_decide; [by apply IH|]. intros (agg & _ & Hk)%bind_Ok.
  destruct agg as [[d|]|]; [|by eapply IH..]. apply bind_Ok in Hk as (q & Hq & Hk).
  eapply steps_trans; [by eapply insertTrackerCandidate_steps|by eapply IH].
Qed.

Lemma queueMatterStateCandidates_steps subject refs p p' :
  queueMatterStateCandidates c ev subject refs p = Ok p' → steps c ev p p'.
Proof. apply state_candidates_steps. Qed.

Lemma queueStageComments_steps stage p p' :
  queueStageComments c ev stage p = Ok p' → steps c ev p p'.
Proof.
  unfold queueStageComments. intros Hq. case_match; [inv_ok; apply steps_refl|].
  eapply steps_foldM; [exact Hq|]. intros q r q' _ Hi. cbn beta in Hi.
  by eapply insertTrackerCandidate_steps.
Qed.

Lemma projectTransitionCandidates_steps p p' :
  projectTransitionCandidates c ev p = Ok p' → steps c ev p p'.
Proof.
  unfold projectTransitionCandidates. intros. inv_rule;
    eauto using steps_refl, queueMatterStateCandidates_steps, queueStageComments_steps.
Qed.

Lemma narrate_stages_steps stages p p' :
  narrate_stages c ev stages p = Ok p' → steps c ev p p'.
Proof.
  intros H. eapply steps_foldM; [exact H|]. intros q st q' _ Hq. cbn beta in Hq. inv_rule;
    eauto using steps_refl, queueStageComments_steps.
Qed.

Lemma projectGateCandidates_steps p p' :
  projectGateCandidates c ev p = Ok p' → steps c ev p p'.
Proof.
  unfold projectGateCandidates. intros. inv_rule;
    eauto using steps_refl, steps_trans, queueMatterStateCandidates_steps, narrate_stages_steps.
Qed.

Lemma projectReferenceCandidates_steps p p' :
  projectReferenceCandidates c ev p = Ok p' → steps c ev p p'.
Proof.
  unfold projectReferenceCandidates. intros. inv_rule;
    eauto using steps_refl, queueMatterStateCandidates_steps.
Qed.

Lemma projectAdhoc_steps p p' : projectAdhocCandidate c ev p = Ok p' → steps c ev p p'.
Proof.
  unfold projectAdhocCandidate. intros. inv_ok. eauto using insertTrackerCandidate_steps.
Qed.

(** ** Delivery and the outbox *)
Lemma flush_state_steps r p p' : flush_state c ev r p = Ok p' → steps c ev p p'.
Proof.
  unfold flush_state, outbox_guard, outbox_is. intros H.
  eapply (steps_update1 c ev) in H; [done|]. intros o n _ Hg Hn. inv_rule.
  split; [done|]. repeat split. cbn. match goal with H : ob_state _ = _ |- _ => rewrite H end.
  constructor.
Qed.

Lemma recordTrackerStatePush_steps p p' :
  recordTrackerStatePush c ev p = Ok p' → steps c ev p p'.
Proof.
  unfold recordTrackerStatePush. intros. inv_rule.
  match goal with H : upsert _ _ _ _ _ _ _ = Ok ?x |- _ => destruct x as [q' b]; rename H into Hu end.
  eapply (steps_upsert c ev TPush) in Hu; [|row_side|].
  - eapply steps_trans; [by eapply flush_state_steps|done].
  - intros old Hg. split; [done|]. cbn. apply orb_true_iff in Hg as [Hg|Hg]; inv_bool; auto.
Qed.

Lemma recordTrackerStateObserved_steps p p' :
  recordTrackerStateObserved c ev p = Ok p' → steps c ev p p'.
Proof. unfold recordTrackerStateObserved. intros. inv_rule. by eapply flush_state_steps. Qed.

Lemma outbox_update_steps (g : OutboxRow → bool) st reason inc p p' :
  update1 c TOutbox (ev_subject ev) (outbox_guard ev g)
    (λ r, Ok (set_outbox st reason inc (ev_id ev) r)) p = Ok p' →
  (∀ r, g r = true →
    outbox_move (ob_kind r) (ob_state r) (ob_attempts r) (ob_reason r)
      st (ob_attempts r + inc) reason) →
  steps c ev p p'.
Proof.
  intros H Hm. eapply (steps_update1 c ev) in H; [done|]. intros o n _ Hg Hn.
  unfold outbox_guard in Hg. inv_rule. split; [done|]. repeat split. cbn. by apply Hm.
Qed.

Ltac outbox_state :=
  repeat match goal with
  | H : ob_state _ = _ |- _ => rewrite H in *
  | H : ob_attempts _ = _ |- _ => rewrite H in *
  | H : ob_reason _ = _ |- _ => rewrite H in *
  end; rewrite ?Z.add_0_r.

Lemma recordTrackerItemCreated_steps p p' :
  recordTrackerItemCreated c ev p = Ok p' → steps c ev p p'.
Proof.
  unfold recordTrackerItemCreated. intros. inv_rule.
  all: match goal with H : update1 c TOutbox _ _ _ _ = Ok _ |- _ =>
    apply outbox_update_steps in H;
      [|intros r; unfold pending_create; intros [Hk [Hs|Hs]%orb_true_iff]%andb_true_iff;
        inv_bool; outbox_state; by constructor] end.
  all: chain_steps c ev.
Qed.

Lemma approveOutbox_steps p p' : approveOutbox c ev p = Ok p' → steps c ev p p'.
Proof.
  unfold approveOutbox. intros. inv_rule. eapply outbox_update_steps; [done|].
  intros r Hg; cbv beta in Hg. inv_rule. outbox_state. constructor.
Qed.

Lemma declineOutbox_steps p p' : declineOutbox c ev p = Ok p' → steps c ev p p'.
Proof.
  unfold declineOutbox. intros. inv_rule. eapply outbox_update_steps; [done|].
  intros r Hg; cbv beta in Hg. rewrite Z.add_0_r. constructor; [|done].
  apply orb_true_iff in Hg as [[Hg|Hg]%orb_true_iff|Hg]; inv_bool; auto.
Qed.

Lemma withholdOutbox_steps p p' : withholdOutbox c ev p = Ok p' → steps c ev p p'.
Proof.
  unfold withholdOutbox, is_approved. intros. inv_ok.
  eapply outbox_update_steps; [done|]. intros r Hg; cbv beta in Hg. inv_bool. outbox_state.
  constructor; [|done]. destruct (OutboxWithheld_Attempted _); [by right|left; lia].
Qed.

Lemma failOutbox_steps p p' : failOutbox c ev p = Ok p' → steps c ev p p'.
Proof.
  unfold failOutbox, is_approved. intros. inv_rule. eapply outbox_update_steps; [done|].
  intros r Hg; cbv beta in Hg. inv_bool. outbox_state. by constructor.
Qed.

Lemma retryOutbox_steps p p' : retryOutbox c ev p = Ok p' → steps c ev p p'.
Proof.
  unfold retryOutbox. intros. inv_rule. eapply outbox_update_steps; [done|].
  intros r Hg; cbv beta in Hg. apply orb_true_iff in Hg as [Hg|Hg]; inv_bool; outbox_state;
    [constructor|].
  constructor; [|done]. by apply Z.ltb_lt.
Qed.

Lemma flushOutboxComment_steps p p' : flushOutboxComment c ev p = Ok p' → steps c ev p p'.
Proof.
  unfold flushOutboxComment, outbox_is. intros. inv_rule. eapply outbox_update_steps; [done|].
  intros r Hg; cbv beta in Hg. inv_bool. outbox_state. constructor.
Qed.

(** ** Tiers, batches, brackets *)
Lemma insertRepo_steps p p' : insertRepo c ev p = Ok p' → steps c ev p p'.
Proof. unfold insertRepo. intros. inv_rule. chain_steps c ev. Qed.

Lemma insertClone_steps p p' : insertClone c ev p = Ok p' → steps c ev p p'.
Proof. unfold insertClone. intros. inv_rule. chain_steps c ev. Qed.

Lemma insertWorktree_steps p p' : insertWorktree c ev p = Ok p' → steps c ev p p'.
Proof. unfold insertWorktree. intros. inv_rule. chain_steps c ev. Qed.

Lemma adoptRepoKey_steps p p' : adoptRepoKey c ev p = Ok p' → steps c ev p p'.
Proof. unfold adoptRepoKey. intros. inv_rule. chain_steps c ev. Qed.

Lemma relinkClone_steps p p' : relinkClone c ev p = Ok p' → steps c ev p p'.
Proof. unfold relinkClone. intros. inv_rule. chain_steps c ev. Qed.

Lemma labelClone_steps p p' : labelClone c ev p = Ok p' → steps c ev p p'.
Proof. unfold labelClone. intros. inv_rule. chain_steps c ev. Qed.

Lemma moveCursor_steps p p' : moveCursor c ev p = Ok p' → steps c ev p p'.
Proof. unfold moveCursor. intros. inv_rule. chain_steps c ev. Qed.

Lemma insertBatch_steps p p' : insertBatch c ev p = Ok p' → steps c ev p p'.
Proof. unfold insertBatch. intros. inv_rule; chain_steps c ev. Qed.

Lemma joinBatch_steps p p' : joinBatch c ev p = Ok p' → steps c ev p p'.
Proof. unfold joinBatch. intros. inv_rule; chain_steps c ev. Qed.

Lemma leaveBatch_steps p p' : leaveBatch c ev p = Ok p' → steps c ev p p'.
Proof. unfold leaveBatch. intros. inv_rule; chain_steps c ev. Qed.

Lemma dismissBatch_steps p p' : dismissBatch c ev p = Ok p' → steps c ev p p'.
Proof. unfold dismissBatch, batch_is_live. intros. inv_rule; chain_steps c ev. Qed.

(** Reaping the open roles of a set of brackets leaves none open in them. *)
Lemma reap_roles (g : RoleRow → bool) at_ p q :
  update_all c TRoles (λ _ r, bool_decide (ro_state r = StOpen) && g r)
    (close_role RoleCloseReaped at_ (ev_id ev)) p = Ok q →
  steps c ev p q ∧ (∀ t, TRoles ≠ t → tget t q = tget t p)
  ∧ ∀ d, (∀ r, ro_dispatch r = d → g r = true) → no_open_role q d.
Proof.
  intros H. destruct (update_all_get _ _ _ _ _ _ H) as [H1 H2]. split_and!; [|done|].
  - eapply (steps_update_all c ev) in H; [done|row_side].
  - intros d Hd k r Hk Hr. specialize (H2 k). cbn in H2. rewrite Hk in H2.
    destruct (roles p !! k) as [o|]; cbn in H2; [|done]. injection H2 as ->.
    case_bool_decide as Ho; cbn in Hr |- *; [|by destruct (ro_state o)].
    destruct (g o) eqn:Eg; cbn in Hr |- *; [done|]. by rewrite (Hd o Hr) in Eg.
Qed.

Lemma dispatch_of_batch_ext p q batch d :
  (∀ t, TRoles ≠ t → tget t q = tget t p) → dispatch_of_batch q batch d = dispatch_of_batch p batch d.
Proof. intros H. pose proof (H TRuns ltac:(done)) as Hr. cbn in Hr. unfold dispatch_of_batch. by rewrite Hr. Qed.

Lemma sweepBatch_steps p p' : sweepBatch c ev p = Ok p' → steps c ev p p'.
Proof.
  unfold sweepBatch, batch_is_live. intros. inv_rule.
  match goal with H : update_all c TRoles _ _ _ = Ok _ |- _ =>
    apply reap_roles in H as (Hs & Hsame & Hreap) end.
  match goal with H : update_all c TDispatches _ _ _ = Ok _ |- _ =>
    apply (steps_update_all c ev) in H; [chain_steps c ev|] end.
  intros q k r Hq Hk Hg. pose proof Hg as [Ho _]%andb_true_iff. inv_bool.
  split; [done|]. cbn. split_and!; try done.
  pose proof (Hq TRoles ltac:(done)) as Hr. cbn in Hr. unfold no_open_role. rewrite Hr.
  apply (Hreap k). intros o ->. pose proof (Hsame TDispatches ltac:(done)) as Hd. cbn in Hd, Hk.
  rewrite <-Hd, Hk. by rewrite <-(dispatch_of_batch_ext _ _ _ _ Hsame).
Qed.

Lemma openDispatch_steps p p' : openDispatch c ev p = Ok p' → steps c ev p p'.
Proof. unfold openDispatch. intros. inv_rule; chain_steps c ev. Qed.

Lemma closeDispatch_steps p p' : closeDispatch c ev p = Ok p' → steps c ev p p'.
Proof.
  unfold closeDispatch, dispatch_is_open. intros. inv_rule.
  match goal with H : update_all c TRoles _ _ _ = Ok _ |- _ =>
    apply (reap_roles (λ r, bool_decide (ro_dispatch r = ev_subject ev))) in H as (Hs & _ & Hreap) end.
  match goal with H : update1 c TDispatches _ _ _ _ = Ok _ |- _ =>
    apply (steps_update1 c ev) in H; [chain_steps c ev|] end.
  intros o n _ Hg Hn. inv_rule. split; [done|]. cbn. split_and!; try done.
  apply Hreap. intros o' ->. by rewrite bool_decide_true.
Qed.

Lemma frozen_set_matters p seen ms u :
  frozen_set_ok p seen ms = Ok u → Forall (matter_row p) ms.
Proof.
  revert seen. induction ms as [|m ms IH]; intros seen; cbn [frozen_set_ok]; [constructor|].
  intros H. inv_rule. constructor; [|by eapply IH].
  match goal with H : validateLiveMatter p m = Ok _ |- _ => unfold validateLiveMatter in H end. inv_rule.
  match goal with H : live_node p m = Some _ |- _ => apply live_node_Some in H as [? _] end. by eexists.
Qed.

(** A statement on one table leaves the nodes alone. *)
Lemma insert_keeps_nodes t k r p p' :
  t ≠ TNodes → sql_insert c t k r p = Ok p' → nodes p' = nodes p.
Proof. intros Ht (_ & _ & H)%sql_insert_Ok. exact (put_tget_ne _ _ _ _ _ _ TNodes Ht H). Qed.

Lemma matter_rows_same p p' ms :
  nodes p' = nodes p → Forall (matter_row p) ms → Forall (matter_row p') ms.
Proof. intros E H. eapply Forall_impl; [exact H|]. intros k. unfold matter_row. by rewrite E. Qed.

Lemma freeze_loop_steps run i ms p p' :
  Forall (matter_row p) ms → freeze_loop c run i ms p = Ok p' → steps c ev p p'.
Proof.
  revert i p. induction ms as [|m ms IH]; intros i p Hms; cbn [freeze_loop].
  { intros. inv_ok. apply steps_refl. }
  intros (q & Hq & H)%bind_Ok. apply Forall_cons in Hms as [Hm Hms].
  pose proof (insert_keeps_nodes TRunMatters _ _ _ _ ltac:(done) Hq) as Hk.
  apply IH in H; [|by eapply matter_rows_same].
  apply (steps_insert c ev TRunMatters) in Hq; [|exact I|exact Hm]. walk_steps.
Qed.

Lemma startRun_steps p p' : startRun c ev p = Ok p' → steps c ev p p'.
Proof.
  unfold startRun. intros. inv_rule.
  match goal with H : frozen_set_ok p _ _ = Ok _ |- _ => apply frozen_set_matters in H end.
  match goal with H : sql_insert _ _ _ _ _ = Ok _ |- _ =>
    pose proof (insert_keeps_nodes TRuns _ _ _ _ ltac:(done) H) as Hk end.
  chain_steps c ev. eapply freeze_loop_steps; [|done]. by eapply matter_rows_same.
Qed.

Lemma finishRun_steps p p' : finishRun c ev p = Ok p' → steps c ev p p'.
Proof. unfold finishRun, run_is_open. intros. inv_rule; chain_steps c ev. Qed.

Lemma standDownRun_steps p p' : standDownRun c ev p = Ok p' → steps c ev p p'.
Proof. unfold standDownRun, run_is_open. intros. inv_rule; chain_steps c ev. Qed.

Lemma resumeRun_steps p p' : resumeRun ev p = Ok p' → steps c ev p p'.
Proof. unfold resumeRun. intros. inv_rule. apply steps_refl. Qed.

Lemma validateRunSkipped_steps p p' : validateRunSkipped ev p = Ok p' → steps c ev p p'.
Proof. unfold validateRunSkipped. intros. inv_rule. apply steps_refl. Qed.

Lemma spawnRole_steps p p' : spawnRole c ev p = Ok p' → steps c ev p p'.
Proof.
  unfold spawnRole, dispatch_is_open. intros. inv_rule. eapply steps_insert; [done..|].
  cbn. split; [done|]. eauto.
Qed.

Lemma closeRole_steps p p' : closeRole c ev p = Ok p' → steps c ev p p'.
Proof. unfold closeRole, role_is_open. intros. inv_rule; chain_steps c ev. Qed.
End rules.

#[export] Hint Resolve insertNode_steps
  applyTransition_steps
  applyReorder_steps
  applyReplace_steps
  tombstoneNode_steps
  bindReference_steps
  insertContent_steps
  insertEdge_steps
  tombstoneEdge_steps
  closeGate_steps
  dismissGate_steps
  declareGate_steps
  repairGateExemption_steps
  setConfig_steps
  insertBacklogEntry_steps
  planBacklogEntry_steps
  declineBacklogEntry_steps
  delegateBacklogEntry_steps
  addTrackerReference_steps
  removeTrackerReference_steps
  reboundTrackerReference_steps
  projectLegacy_steps
  projectTransitionCandidates_steps
  projectGateCandidates_steps
  projectReferenceCandidates_steps
  projectAdhoc_steps
  recordTrackerStatePush_steps
  recordTrackerStateObserved_steps
  recordTrackerItemCreated_steps
  approveOutbox_steps
  declineOutbox_steps
  withholdOutbox_steps
  failOutbox_steps
  retryOutbox_steps
  flushOutboxComment_steps
  insertRepo_steps
  insertClone_steps
  insertWorktree_steps
  adoptRepoKey_steps
  relinkClone_steps
  labelClone_steps
  moveCursor_steps
  insertBatch_steps
  joinBatch_steps
  leaveBatch_steps
  dismissBatch_steps
  sweepBatch_steps
  openDispatch_steps
  closeDispatch_steps
  startRun_steps
  finishRun_steps
  standDownRun_steps
  resumeRun_steps
  validateRunSkipped_steps
  spawnRole_steps
  closeRole_steps : wip_steps.

#[export] Hint Extern 1 (removal _) => eexists; split; [eassumption|auto] : wip_steps.

(** The fold of any event is a sequence of legal births and moves. *)
Lemma applyEvent_steps c ev p p' : applyEvent c ev p = Ok p' → steps c ev p p'.
Proof.
  unfold applyEvent. destruct (enum_parse (ev_type ev)) as [ty|] eqn:Hty; [|done].
  destruct ty; intros H;
    lazymatch type of H with
    | _ ≫= _ = _ => apply bind_Ok in H as (q & H1 & H2); apply (steps_trans _ _ _ q)
    | Ok _ = _ => injection H as ->
    | _ => idtac
    end; eauto 3 with wip_steps.
Qed.

Lemma fold_events_steps (P : Proj → Prop) c evs p p' :
  (∀ ev q q', ev ∈ evs → P q → steps c ev q q' → P q') →
  P p → foldM (λ p ev, applyEvent c ev p) p evs = Ok p' → P p'.
Proof.
  intros HP Hp H. eapply (foldM_ind (λ p ev, applyEvent c ev p) P); [|done|exact H].
  intros q ev q' Hev Hq Ha. by eapply HP; [| |apply applyEvent_steps].
Qed.
