(* ===== verification/Invariants.v ===== *)
(** Invariants every fold keeps, proved once against the transition system:
    CHECK constraints, UNIQUE indexes, referential integrity, rows that only
    advance, keys that never disappear, and the shape of the node tree. *)
From stdpp Require Import relations.
From S2P Require Import Prelude GoStd Ulid Taxonomy Json Payloads Tables View Gates Project Steps.

(** ** What one statement does to the rows *)

(** A property of every row survives a statement if the new row has it. *)
Lemma put_rows (P : ∀ t, Key t → Row t → Prop) c t k r p p' :
  put c t k r p = Ok p' → P t k r →
  (∀ t' k' r', tget t' p !! k' = Some r' → P t' k' r') →
  ∀ t' k' r', tget t' p' !! k' = Some r' → P t' k' r'.
Proof.
  intros Hput Hr Hp t' k' r'. destruct (decide (t = t')) as [<-|Hne].
  - rewrite (put_tget_eq _ _ _ _ _ _ Hput). intros [[<- <-]|[_ ?]]%lookup_insert_Some; auto.
  - rewrite (put_tget_ne _ _ _ _ _ _ _ Hne Hput). apply Hp.
Qed.

(** Rows are never deleted. *)
Lemma put_keeps c t k r p p' t' k' :
  put c t k r p = Ok p' → is_Some (tget t' p !! k') → is_Some (tget t' p' !! k').
Proof.
  intros Hput Hs. destruct (decide (t = t')) as [<-|Hne].
  - rewrite (put_tget_eq _ _ _ _ _ _ Hput). apply lookup_insert_is_Some.
    destruct (decide (k = k')); auto.
  - by rewrite (put_tget_ne _ _ _ _ _ _ _ Hne Hput).
Qed.

Lemma step_put c e p p' : step c e p p' → ∃ t k r, put c t k r p = Ok p' ∧ at_event (ev_id e) t r.
Proof.
  intros [t k r q H ??|t k o n q _ H ??].
  - apply sql_insert_Ok in H as (_ & _ & ?); eauto.
  - apply sql_set_Ok in H as (_ & ?); eauto.
Qed.

(** ** A property kept by every step is kept by the fold *)
Definition stable (c : Ctx) (e : Event) (I : Proj → Prop) : Prop :=
  ∀ p p', step c e p p' → I p → I p'.

Lemma steps_stable c e I p p' : stable c e I → steps c e p p' → I p → I p'.
Proof. intros HI. induction 1; eauto. Qed.

Lemma applyEvent_stable c ev I p p' :
  stable c ev I → applyEvent c ev p = Ok p' → I p → I p'.
Proof. intros HI H%applyEvent_steps. by eapply steps_stable. Qed.

(** ** Keys only grow *)
Definition keys_in (p p' : Proj) : Prop :=
  ∀ t k, is_Some (tget t p !! k) → is_Some (tget t p' !! k).

#[global] Instance keys_in_preorder : PreOrder keys_in.
Proof. split; [by intros p t k|intros p q r H1 H2 t k H; by apply H2, H1]. Qed.

Lemma step_keys c e p p' : step c e p p' → keys_in p p'.
Proof. intros (t & k & r & H & _)%step_put t' k'. by eapply put_keeps. Qed.

Lemma steps_keys c e p p' : steps c e p p' → keys_in p p'.
Proof. induction 1; [done|]. etrans; [by eapply step_keys|done]. Qed.

(** ** CHECK constraints *)
Definition checked (p : Proj) : Prop :=
  ∀ t k r, tget t p !! k = Some r → row_check t k r = true.

Lemma checked_stable c e : stable c e checked.
Proof.
  intros p p' (t & k & r & H & _)%step_put Hp. pose proof H as (Hc & _)%put_Ok.
  exact (put_rows (λ t k r, row_check t k r = true) _ _ _ _ _ _ H Hc Hp).
Qed.

Lemma checked_empty : checked empty_proj.
Proof. by intros []. Qed.

(** ** UNIQUE indexes *)
Definition unique (p : Proj) : Prop :=
  ∀ t k k' r r', tget t p !! k = Some r → tget t p !! k' = Some r' → k ≠ k' →
    conflict t k r k' r' = false.

Lemma opt_eqb_true a b : opt_eqb a b = true ↔ a ≠ None ∧ a = b.
Proof.
  destruct a, b; cbn; rewrite ?bool_decide_eq_true; naive_solver.
Qed.

Lemma conflict_sym t k r k' r' : conflict t k r k' r' = conflict t k' r' k r.
Proof.
  destruct t; cbn [conflict]; try done;
    apply eq_true_iff_eq;
    rewrite ?andb_true_iff, ?orb_true_iff, ?andb_true_iff, ?bool_decide_eq_true, ?opt_eqb_true,
      ?negb_true_iff; intuition congruence.
Qed.

Lemma no_conflict_true t m k r :
  no_conflict t m k r = true ↔
    ∀ k' r', m !! k' = Some r' → k' ≠ k → conflict t k r k' r' = false.
Proof.
  unfold no_conflict. rewrite forallb_forall. split.
  - intros H k' r' Hk Hne. specialize (H (k', r')).
    rewrite <-list_elem_of_In, elem_of_map_to_list in H. specialize (H Hk). cbn in H.
    rewrite bool_decide_false in H by done. by apply negb_true_iff in H.
  - intros H [k' r'] Hin. rewrite <-list_elem_of_In, elem_of_map_to_list in Hin. cbn.
    case_bool_decide; [done|]. by rewrite (H k' r').
Qed.

Lemma unique_stable c e : stable c e unique.
Proof.
  intros p p' (t & k & r & H & _)%step_put Hp t' k1 k2 r1 r2.
  pose proof H as (_ & Hc & _)%put_Ok. rewrite no_conflict_true in Hc.
  destruct (decide (t = t')) as [<-|Hne].
  - rewrite (put_tget_eq _ _ _ _ _ _ H).
    intros [[<- <-]|[? H1]]%lookup_insert_Some [[<- <-]|[? H2]]%lookup_insert_Some Hk; try done.
    + by apply Hc.
    + rewrite conflict_sym. by apply Hc.
    + by eapply Hp.
  - rewrite !(put_tget_ne _ _ _ _ _ _ _ Hne H). by apply Hp.
Qed.

Lemma unique_empty : unique empty_proj.
Proof. by intros []. Qed.

(** ** Referential integrity, when the statements check it *)
Definition refs_ok (log : list Event) (p : Proj) : Prop :=
  ∀ t k r, tget t p !! k = Some r → forallb (ref_ok log p) (row_refs t k r) = true.

Lemma ref_ok_mono log log' p p' x :
  (∀ id, is_Some (find_event log id) → is_Some (find_event log' id)) → keys_in p p' →
  ref_ok log p x = true → ref_ok log' p' x = true.
Proof. intros Hl Hk. destruct x as [t k|id]; cbn; rewrite !is_some_true; auto. Qed.

Lemma refs_mono log log' p p' l :
  (∀ id, is_Some (find_event log id) → is_Some (find_event log' id)) → keys_in p p' →
  forallb (ref_ok log p) l = true → forallb (ref_ok log' p') l = true.
Proof. intros Hl Hk. rewrite !forallb_forall. eauto using ref_ok_mono. Qed.

Lemma find_event_app log l id :
  find_event (log ++ l) id = match find_event log id with Some e => Some e | None => find_event l id end.
Proof.
  unfold find_event. induction log as [|e log IH]; [done|]. cbn. by destruct (bool_decide _).
Qed.

Lemma find_event_prefix log full id e :
  log `prefix_of` full → find_event log id = Some e → find_event full id = Some e.
Proof. intros [l ->] H. by rewrite find_event_app, H. Qed.

Lemma find_event_Some log id e : find_event log id = Some e → e ∈ log ∧ ev_id e = id.
Proof.
  unfold find_event. intros [Hin Hb]%find_some. apply list_elem_of_In in Hin. by inv_bool.
Qed.

Lemma refs_ok_grow log full p : log `prefix_of` full → refs_ok log p → refs_ok full p.
Proof.
  intros Hp H t k r Hk. eapply refs_mono; [|reflexivity|by apply H].
  intros id [e He]. exists e. by eapply find_event_prefix.
Qed.

Lemma refs_ok_stable log e : stable (MkCtx log true) e (refs_ok log).
Proof.
  intros p p' Hs Hp t' k' r' Hk'. pose proof (step_keys _ _ _ _ Hs) as Hkeys.
  apply step_put in Hs as (t & k & r & H & _). pose proof H as (_ & _ & _ & Hr)%put_Ok.
  cbn in Hr. destruct (decide (t = t')) as [<-|Hne].
  - rewrite (put_tget_eq _ _ _ _ _ _ H) in Hk'.
    apply lookup_insert_Some in Hk' as [[<- <-]|[_ Hk']]; [done|].
    eapply refs_mono; [done|exact Hkeys|by apply Hp].
  - rewrite (put_tget_ne _ _ _ _ _ _ _ Hne H) in Hk'.
    eapply refs_mono; [done|exact Hkeys|by apply Hp].
Qed.

Lemma refs_ok_empty log : refs_ok log empty_proj.
Proof. by intros []. Qed.

(** ** One table across a step: untouched, a birth, or a legal move *)
Inductive table_step (ev : Event) (t : tbl) (p p' : Proj) : Prop :=
| ts_same : tget t p' = tget t p → table_step ev t p p'
| ts_birth k r : tget t p !! k = None → tget t p' = <[k := r]> (tget t p) →
    (∀ t', t ≠ t' → tget t' p' = tget t' p) →
    insert_trigger p t r = true → row_check t k r = true → row_birth ev p t k r →
    at_event (ev_id ev) t r → table_step ev t p p'
| ts_move k o n : tget t p !! k = Some o → tget t p' = <[k := n]> (tget t p) →
    (∀ t', t ≠ t' → tget t' p' = tget t' p) →
    update_trigger t o n = true → row_check t k n = true → row_change ev p t k o n →
    at_event (ev_id ev) t n → table_step ev t p p'.

Lemma step_table c e p p' t : step c e p p' → table_step e t p p'.
Proof.
  intros [t0 k r q H Ha Hb|t0 k o n q Hk H Ha Hc].
  - apply sql_insert_Ok in H as (Ht & Hn & H). pose proof H as (Hchk & _)%put_Ok.
    destruct (decide (t0 = t)) as [<-|Hne].
    + eapply ts_birth; [done|by eapply put_tget_eq| |done..].
      intros t' ?. by eapply put_tget_ne.
    + apply ts_same. by eapply put_tget_ne.
  - apply sql_set_Ok in H as (Ht & H). pose proof H as (Hchk & _)%put_Ok.
    destruct (decide (t0 = t)) as [<-|Hne].
    + eapply ts_move; [done|by eapply put_tget_eq| |done..].
      intros t' ?. by eapply put_tget_ne.
    + apply ts_same. by eapply put_tget_ne.
Qed.

(** ** How one row evolves *)

(** A preorder on rows that contains every legal move of one key relates its row
    to what the fold makes of it. *)
Lemma steps_evolve_at (t : tbl) (R : Row t → Row t → Prop) `{!PreOrder R} c e p p' k o :
  (∀ q o n, row_change e q t k o n → update_trigger t o n = true → R o n) →
  steps c e p p' → tget t p !! k = Some o →
  ∃ n, tget t p' !! k = Some n ∧ R o n.
Proof.
  intros HR Hs. revert o. induction Hs as [p|p q r Hpq _ IH]; intros o Ho; [by exists o|].
  destruct (step_table _ _ _ _ t Hpq) as [He|k' r' Hn He _ _ _ _|k' o' n' Ho' He _ Hu _ Hc].
  - apply IH. by rewrite He.
  - apply IH. rewrite He. rewrite lookup_insert_ne; [done|congruence].
  - destruct (decide (k' = k)) as [->|Hne].
    + rewrite Ho in Ho'. injection Ho' as <-.
      destruct (IH n') as (n & Hn & HR'); [by rewrite He, lookup_insert_eq|].
      exists n. split; [done|]. etrans; [by eapply HR|done].
    + apply IH. rewrite He. by rewrite lookup_insert_ne.
Qed.

Lemma steps_evolve (t : tbl) (R : Row t → Row t → Prop) `{!PreOrder R} c e p p' k o :
  (∀ q k o n, row_change e q t k o n → update_trigger t o n = true → R o n) →
  steps c e p p' → tget t p !! k = Some o →
  ∃ n, tget t p' !! k = Some n ∧ R o n.
Proof. intros HR. apply (steps_evolve_at t R). intros q x y. apply HR. Qed.

Lemma fold_evolve (t : tbl) (R : Row t → Row t → Prop) `{!PreOrder R} c evs p p' k o :
  (∀ e q k o n, row_change e q t k o n → update_trigger t o n = true → R o n) →
  foldM (λ p ev, applyEvent c ev p) p evs = Ok p' → tget t p !! k = Some o →
  ∃ n, tget t p' !! k = Some n ∧ R o n.
Proof.
  intros HR H Ho. eapply (fold_events_steps (λ q, ∃ n, tget t q !! k = Some n ∧ R o n));
    [|by exists o|exact H].
  intros ev q q' _ (n & Hn & Hon) Hs.
  destruct (steps_evolve t R _ _ _ _ _ _ (HR ev) Hs Hn) as (n' & ? & ?). exists n'. split; [done|].
  by etrans.
Qed.

(** ** Gate rows and the events behind them *)

(** Every gate row's last event is in the log, and is a closure or a matching
    dismissal. *)
Definition gates_logged (log : list Event) (p : Proj) : Prop :=
  ∀ k s, gate_state p !! k = Some s →
    ∃ e, find_event log (gs_last s) = Some e ∧ gate_event e k.2 s.

Lemma gates_logged_stable log ev :
  find_event log (ev_id ev) = Some ev → stable (MkCtx log true) ev (gates_logged log).
Proof.
  intros Hev p p' Hs Hp k s Hk.
  destruct (step_table _ _ _ _ TGateState Hs) as [He|j r Hn He _ _ _ Hb Ha|j o n Ho He _ _ _ [] _];
    cbn in He; rewrite He in Hk; [by apply Hp|].
  apply lookup_insert_Some in Hk as [[<- <-]|[_ Hk]]; [|by apply Hp].
  exists ev. cbn in Ha. destruct Hb as [_ Hb]. rewrite Ha. done.
Qed.

Lemma gates_logged_grow log full p :
  log `prefix_of` full → gates_logged log p → gates_logged full p.
Proof.
  intros Hpre Hp k s Hk. destruct (Hp k s Hk) as (e & He & Hg). exists e.
  split; [by eapply find_event_prefix|done].
Qed.
