(* ===== verification/Shape.v ===== *)
(** The shape of the projection: the node tree, brackets and their roles,
    delegated backlog entries, gate rows and exemptions, and what each state of
    an outbox entry says about its attempts and its reason.  Every invariant is
    kept by a step of the fold. *)
From stdpp Require Import relations.
From S2P Require Import Prelude GoStd Ulid Taxonomy Json Payloads Tables View Gates Project Steps.
From S2P Require Import Invariants.
Local Open Scope Z_scope.

(** ** The node tree *)

(** Which scales may sit directly below which. *)
Definition below (child parent : Scale) : Prop :=
  match child with
  | ScaleMatter => False
  | ScaleStage => parent = ScaleMatter
  | ScaleStep => parent ≠ ScaleStep
  end.

Definition node_ok (p : Proj) (k : string) (r : NodeRow) : Prop :=
  match nd_parent r with
  | None => nd_kind r = ScaleMatter ∧ nd_matter r = k
  | Some pk => ∃ pr, nodes p !! pk = Some pr ∧ nd_matter pr = nd_matter r
                     ∧ below (nd_kind r) (nd_kind pr)
  end.

Definition tree_ok (p : Proj) : Prop := ∀ k r, nodes p !! k = Some r → node_ok p k r.

(** The columns of a node that never change. *)
Definition same_place (o n : NodeRow) : Prop :=
  nd_kind n = nd_kind o ∧ nd_repo n = nd_repo o ∧ nd_matter n = nd_matter o
  ∧ nd_parent n = nd_parent o ∧ nd_locator n = nd_locator o ∧ nd_title n = nd_title o
  ∧ nd_birth n = nd_birth o.

#[global] Instance same_place_preorder : PreOrder same_place.
Proof.
  split; [by intros r|]. intros a b c (?&?&?&?&?&?&?) (?&?&?&?&?&?&?).
  repeat split; congruence.
Qed.

Lemma node_change_place e q k o n :
  row_change e q TNodes k o n → update_trigger TNodes o n = true → same_place o n.
Proof.
  intros (_ & H1 & H2 & H3 & H4 & H5 & H6 & _) Hu. unfold update_trigger in Hu. inv_bool.
  cbn in *. repeat split; congruence.
Qed.

Lemma node_ok_mono p p' k r r' :
  (∀ j o, nodes p !! j = Some o → ∃ n, nodes p' !! j = Some n ∧ same_place o n) →
  same_place r r' → node_ok p k r → node_ok p' k r'.
Proof.
  intros Hp (Hk & _ & Hm & Hpar & _). unfold node_ok. rewrite Hk, Hm, Hpar.
  destruct (nd_parent r) as [pk|]; [|done]. intros (pr & Hpr & Hmat & Hb).
  destruct (Hp _ _ Hpr) as (n & Hn & Hk' & _ & Hm' & _). exists n. by rewrite Hk', Hm'.
Qed.

Lemma node_birth_ok ev p k r :
  tree_ok p → row_birth ev p TNodes k r → insert_trigger p TNodes r = true →
  row_check TNodes k r = true → node_ok p k r.
Proof.
  intros Ht (_ & _ & _ & Hpl & _) Hi Hc. unfold node_ok. cbn in Hc. inv_bool.
  unfold node_place in Hpl. unfold insert_trigger in Hi. apply andb_true_iff in Hi as [_ Hi].
  destruct (nd_parent r) as [pk|] eqn:Ep; cbn in *.
  - assert (∃ pr, nodes p !! pk = Some pr ∧ nd_matter pr = nd_matter r) as (pr & Hpr & Hm).
    { destruct Hpl as [?|(j & s & Hj & Hs & Hm)]; [done|].
      specialize (Ht j s Hj). unfold node_ok in Ht. rewrite Hs in Ht.
      destruct Ht as (pr & ? & ? & _). exists pr. split; congruence. }
    exists pr. split_and!; [done..|]. rewrite Hpr in Hi. destruct (nd_kind r); cbn in *; inv_bool; done.
  - rewrite H1 in H0. destruct (bool_decide (nd_kind r = ScaleMatter)) eqn:E; [|done].
    inv_bool. split; [done|]. symmetry in H0. by inv_bool.
Qed.

Lemma tree_ok_stable c e : stable c e tree_ok.
Proof.
  intros p p' Hs Hp.
  assert (Hev : ∀ j o, nodes p !! j = Some o → ∃ n, nodes p' !! j = Some n ∧ same_place o n).
  { intros j o. apply (steps_evolve TNodes same_place c e p p' j o (node_change_place e)).
    by apply rtc_once. }
  destruct (step_table _ _ _ _ TNodes Hs) as [He|k r Hn He _ Hi Hc Hb|k o n Ho He _ Hu _ Hc];
    cbn in He; intros j x Hj; rewrite He in Hj.
  - eapply node_ok_mono; [exact Hev|reflexivity|by apply Hp].
  - apply lookup_insert_Some in Hj as [[<- <-]|[_ Hj]].
    + eapply node_ok_mono; [exact Hev|reflexivity|]. by eapply node_birth_ok.
    + eapply node_ok_mono; [exact Hev|reflexivity|by apply Hp].
  - apply lookup_insert_Some in Hj as [[<- <-]|[_ Hj]].
    + eapply node_ok_mono; [exact Hev|by eapply node_change_place|by apply Hp].
    + eapply node_ok_mono; [exact Hev|reflexivity|by apply Hp].
Qed.

Lemma tree_ok_empty : tree_ok empty_proj.
Proof. by intros k r. Qed.

(** Every node's Matter is a Matter, two steps up at most. *)
Lemma tree_root p k r :
  tree_ok p → nodes p !! k = Some r →
  ∃ m, nodes p !! nd_matter r = Some m ∧ nd_kind m = ScaleMatter ∧ nd_matter m = nd_matter r
       ∧ nd_parent m = None.
Proof.
  intros Ht Hk.
  assert (Hroot : ∀ j x, nodes p !! j = Some x → nd_parent x = None →
    nodes p !! nd_matter x = Some x ∧ nd_kind x = ScaleMatter).
  { intros j x Hj Hx. pose proof (Ht j x Hj) as H. unfold node_ok in H. rewrite Hx in H.
    destruct H as [? ->]. done. }
  assert (Hstep : ∀ j x pk, nodes p !! j = Some x → nd_parent x = Some pk →
    ∃ pr, nodes p !! pk = Some pr ∧ nd_matter pr = nd_matter x ∧ below (nd_kind x) (nd_kind pr)).
  { intros j x pk Hj Hx. pose proof (Ht j x Hj) as H. unfold node_ok in H. by rewrite Hx in H. }
  destruct (nd_parent r) as [pk|] eqn:Ep; [|destruct (Hroot _ _ Hk Ep); eauto 10].
  destruct (Hstep _ _ _ Hk Ep) as (pr & Hpr & Hm & Hb). rewrite <-Hm.
  destruct (nd_parent pr) as [gk|] eqn:Eg; [|destruct (Hroot _ _ Hpr Eg); eauto 10].
  destruct (Hstep _ _ _ Hpr Eg) as (gr & Hgr & Hm' & Hb'). rewrite <-Hm'.
  destruct (nd_parent gr) as [zk|] eqn:Ez; [|destruct (Hroot _ _ Hgr Ez); eauto 10].
  destruct (Hstep _ _ _ Hgr Ez) as (zr & _ & _ & Hb'').
  destruct (nd_kind r), (nd_kind pr), (nd_kind gr); cbn in *; done.
Qed.

(** ** Brackets *)

(** An open role sits in an open bracket of the same Clone. *)
Definition roles_ok (p : Proj) : Prop :=
  ∀ k r, roles p !! k = Some r → ro_state r = StOpen →
    ∃ d, dispatches p !! ro_dispatch r = Some d ∧ dp_state d = StOpen ∧ dp_clone d = ro_clone r.

Lemma roles_ok_stable c e : stable c e roles_ok.
Proof.
  intros p p' Hs Hp k x Hk Hopen.
  destruct (step_table _ _ _ _ TRoles Hs) as [He|j r Hn He Hsame _ _ Hb|j o n Ho He Hsame _ _ Hc];
    cbn in He; rewrite He in Hk.
  - destruct (Hp k x Hk Hopen) as (d & Hd & Hdo & Hdc).
    destruct (step_table _ _ _ _ TDispatches Hs) as [Hd'|j r Hn Hd' _ _ _ _|j o n Ho Hd' _ _ _ Hc];
      cbn in Hd'; rewrite Hd'.
    + eauto.
    + exists d. split; [|done]. cbn in Hn. rewrite lookup_insert_ne; [done|congruence].
    + destruct (decide (j = ro_dispatch x)) as [->|Hne]; [|rewrite lookup_insert_ne by done; eauto].
      destruct Hc as (_ & _ & _ & _ & _ & _ & Hno). specialize (Hno k x Hk eq_refl). congruence.
  - pose proof (Hsame TDispatches ltac:(done)) as Hd. cbn in Hd. rewrite Hd.
    apply lookup_insert_Some in Hk as [[<- <-]|[_ Hk]]; [|by eauto]. by destruct Hb.
  - pose proof (Hsame TDispatches ltac:(done)) as Hd. cbn in Hd. rewrite Hd.
    apply lookup_insert_Some in Hk as [[<- <-]|[_ Hk]]; [|by eauto].
    destruct Hc as (_ & Hcl & _). congruence.
Qed.

(** ** Delegated backlog entries *)

Definition delegated_ok (p : Proj) : Prop :=
  ∀ k r o, backlog_entries p !! k = Some r → bl_outbox r = Some o → delegation p k o.

Definition same_item (o n : OutboxRow) : Prop :=
  ob_repo n = ob_repo o ∧ ob_kind n = ob_kind o ∧ ob_subject n = ob_subject o
  ∧ ob_ref n = ob_ref o ∧ ob_idempotency_key n = ob_idempotency_key o ∧ ob_payload n = ob_payload o.

#[global] Instance same_item_preorder : PreOrder same_item.
Proof.
  split; [by intros r|]. intros a b c (?&?&?&?&?&?) (?&?&?&?&?&?). repeat split; congruence.
Qed.

Lemma outbox_change_item e q k o n :
  row_change e q TOutbox k o n → update_trigger TOutbox o n = true → same_item o n.
Proof. intros (?&?&?&?&?&?&_) _. by repeat split. Qed.

Lemma delegation_mono c e p p' k o : step c e p p' → delegation p k o → delegation p' k o.
Proof.
  intros Hs (x & Hx & Hk & Hsub).
  destruct (steps_evolve TOutbox same_item c e p p'  o x (outbox_change_item e) (rtc_once _ _ Hs) Hx)
    as (n & Hn & (_ & Hkn & Hsn & _)). exists n. split; [done|]. by rewrite Hkn, Hsn.
Qed.

Lemma delegated_ok_stable c e : stable c e delegated_ok.
Proof.
  intros p p' Hs Hp k x ox Hk Hox. eapply delegation_mono; [exact Hs|].
  destruct (step_table _ _ _ _ TBacklog Hs) as [He|j r Hn He _ _ _ Hb|j o n Ho He _ _ _ Hc];
    cbn in He; rewrite He in Hk; [by eauto|..];
    (apply lookup_insert_Some in Hk as [[<- <-]|[_ Hk]]; [|by eauto]).
  - destruct Hb as (_ & _ & Hb). congruence.
  - destruct Hc as (_ & _ & _ & _ & _ & [(_ & _ & [Hb|(y & Hy & ?)])|(_ & _ & Hb)]).
    + eapply Hp; [exact Ho|congruence].
    + congruence.
    + eapply Hp; [exact Ho|congruence].
Qed.

(** ** Gate rows *)

(** A gate row closes at its node's scale; an exemption names a node of the
    Repo, at the scale the gate is declared for. *)
Definition gate_rows_ok (p : Proj) : Prop :=
  (∀ k r, gate_state p !! k = Some r → ∃ n, nodes p !! k.1 = Some n ∧ gs_scale r = nd_kind n)
  ∧ (∀ k u, gate_exemptions p !! k = Some u → exemption p k).

Lemma decls_kept c e p p' k s :
  step c e p p' → gate_declarations p !! k = Some s → gate_declarations p' !! k = Some s.
Proof.
  intros Hs Hk. destruct (steps_evolve TDecls eq c e p p' k s) as (? & ? & <-); try done.
  by apply rtc_once.
Qed.

Lemma node_kept c e p p' k n :
  step c e p p' → nodes p !! k = Some n → ∃ n', nodes p' !! k = Some n' ∧ same_place n n'.
Proof.
  intros Hs. apply (steps_evolve TNodes same_place c e p p' k n (node_change_place e)).
  by apply rtc_once.
Qed.

Lemma gate_rows_stable c e : stable c e gate_rows_ok.
Proof.
  intros p p' Hs [Hg Hx]. split.
  - assert (Hold : ∀ k n s, nodes p !! k = Some n → s = nd_kind n →
      ∃ n', nodes p' !! k = Some n' ∧ s = nd_kind n').
    { intros k n s Hn ->. destruct (node_kept _ _ _ _ _ _ Hs Hn) as (n' & ? & ? & _). eauto. }
    intros k r Hk.
    destruct (step_table _ _ _ _ TGateState Hs) as [He|j y Hn He _ _ _ Hb|j o n Ho He _ _ _ []];
      cbn in He; rewrite He in Hk; [destruct (Hg k r Hk) as (? & ? & ?); by eauto|].
    apply lookup_insert_Some in Hk as [[<- <-]|[_ Hk]].
    + destruct Hb as [(? & ? & ?) _]; by eauto.
    + destruct (Hg k r Hk) as (? & ? & ?); by eauto.
  - assert (Hold : ∀ k, exemption p k → exemption p' k).
    { intros k (n & s & Hn & Hr & <- & Hd).
      destruct (node_kept _ _ _ _ _ _ Hs Hn) as (n' & Hn' & Hkind & Hrepo & _).
      exists n', (nd_kind n). split_and!; [done|congruence..|by eapply decls_kept]. }
    intros k u Hk. apply Hold.
    destruct (step_table _ _ _ _ TExempt Hs) as [He|j y Hn He _ _ _ Hb|j o n Ho He _ _ _ []];
      cbn in He; rewrite He in Hk; [by eapply Hx|].
    apply lookup_insert_Some in Hk as [[<- <-]|[_ Hk]]; [done|by eapply Hx].
Qed.

(** ** The outbox *)

(** What an entry's state says about its attempts and its reason. *)
Definition outbox_ok (r : OutboxRow) : Prop :=
  0 ≤ ob_attempts r ∧
  match ob_state r with
  | OutboxQueued => (ob_attempts r = 0 ∧ ob_reason r = "")
                    ∨ (0 < ob_attempts r ∧ isBlank (ob_reason r) = false)
  | OutboxApprovedState => ob_reason r = ""
  | OutboxDeclinedState | OutboxWithheldState => isBlank (ob_reason r) = false
  | OutboxFlushedState => 0 < ob_attempts r ∧ ob_reason r = ""
  end.

Definition outbox_all_ok (p : Proj) : Prop :=
  ∀ k r, outbox_entries p !! k = Some r → outbox_ok r.

Lemma outbox_move_ok kind st a reason st' a' reason' r n :
  outbox_move kind st a reason st' a' reason' →
  ob_state r = st → ob_attempts r = a → ob_reason r = reason →
  ob_state n = st' → ob_attempts n = a' → ob_reason n = reason' →
  outbox_ok r → outbox_ok n.
Proof.
  unfold outbox_ok. intros Hm H1 H2 H3 H4 H5 H6. rewrite H1, H2, H3, H4, H5, H6.
  destruct Hm; intros [Ha Hs]; split; auto with lia; try lia; destruct_or?; try lia; auto with lia.
  all: split; [lia|done] || idtac.
Qed.

Lemma outbox_ok_stable c e : stable c e outbox_all_ok.
Proof.
  intros p p' Hs Hp k x Hk.
  destruct (step_table _ _ _ _ TOutbox Hs) as [He|j r Hn He _ _ _ Hb|j o n Ho He _ _ _ Hc];
    cbn in He; rewrite He in Hk; [by eapply Hp|..];
    (apply lookup_insert_Some in Hk as [[<- <-]|[_ Hk]]; [|by eapply Hp]).
  - destruct Hb as (H1 & H2 & H3). unfold outbox_ok. rewrite H1, H2, H3. split; [lia|by left].
  - destruct Hc as (_ & _ & _ & _ & _ & _ & Hm). eapply outbox_move_ok; [done..|by eapply Hp].
Qed.

(** ** Content *)
Definition content_ok (p : Proj) : Prop := ∀ k r, content p !! k = Some r → content_sound r.

Lemma content_ok_stable c e : stable c e content_ok.
Proof.
  intros p p' Hs Hp k x Hk.
  destruct (step_table _ _ _ _ TContent Hs) as [He|j r Hn He _ _ _ Hb _|j o n Ho He _ _ _ [] _];
    cbn in He; rewrite He in Hk; [by eapply Hp|].
  apply lookup_insert_Some in Hk as [[<- <-]|[_ Hk]]; [|by eapply Hp]. apply Hb.
Qed.

(** ** The frozen sets of Runs *)
Definition frozen_ok (p : Proj) : Prop := ∀ k i, run_matters p !! k = Some i → matter_row p k.2.

Lemma frozen_ok_stable c e : stable c e frozen_ok.
Proof.
  intros p p' Hs Hp k i Hk.
  assert (matter_row p k.2) as (n & Hn & Hm).
  { destruct (step_table _ _ _ _ TRunMatters Hs) as [He|j y Hn He _ _ _ Hb _|j o n Ho He _ _ _ [] _];
      cbn in He; rewrite He in Hk; [by eapply Hp|].
    apply lookup_insert_Some in Hk as [[<- <-]|[_ Hk]]; [done|by eapply Hp]. }
  destruct (node_kept _ _ _ _ _ _ Hs Hn) as (n' & Hn' & Hkind & _). exists n'. by rewrite Hkind.
Qed.

(** ** All of it *)
Record shape_ok (p : Proj) : Prop := MkShape {
  sh_checked : checked p;
  sh_unique : unique p;
  sh_tree : tree_ok p;
  sh_roles : roles_ok p;
  sh_delegated : delegated_ok p;
  sh_gates : gate_rows_ok p;
  sh_outbox : outbox_all_ok p;
  sh_content : content_ok p;
  sh_frozen : frozen_ok p;
}.

Lemma shape_stable c e : stable c e shape_ok.
Proof.
  intros p p' Hs []. split; [by eapply checked_stable|by eapply unique_stable
    |by eapply tree_ok_stable|by eapply roles_ok_stable|by eapply delegated_ok_stable
    |by eapply gate_rows_stable|by eapply outbox_ok_stable|by eapply content_ok_stable
    |by eapply frozen_ok_stable].
Qed.

Lemma shape_empty : shape_ok empty_proj.
Proof.
  split; [apply checked_empty|apply unique_empty|apply tree_ok_empty|by intros ??|by intros ???
    |split; by intros ??|by intros ??|by intros ??|by intros ??].
Qed.

Lemma applyEvent_shape c ev p p' : applyEvent c ev p = Ok p' → shape_ok p → shape_ok p'.
Proof. apply applyEvent_stable, shape_stable. Qed.
