(* ===== verification/Replay.v ===== *)
(** Folding an event again.  When an event was folded on the live path, against
    the log as it then stood and with foreign keys checked at once, the rebuild,
    which sees the whole log and defers foreign keys, folds it to the same
    projection: [applyEvent_replay]. *)
From stdpp Require Import relations.
From S2P Require Import Prelude GoStd Ulid Taxonomy Json Payloads Tables View Gates Project Steps.
From S2P Require Import Invariants.

#[local] Set Default Proof Using "Type*".

Section replay.
Context (log full : list Event) (Hpre : log `prefix_of` full).

Local Notation live := (MkCtx log true).
Local Notation again := (MkCtx full false).

(** ** Statements *)
Lemma put_replay t k r p : rle (put live t k r p) (put again t k r p).
Proof. intros p' (H1 & H2 & H3 & _)%put_Ok. by apply put_Ok. Qed.

Lemma sql_insert_replay t k r p : rle (sql_insert live t k r p) (sql_insert again t k r p).
Proof. intros p' (H1 & H2 & H3)%sql_insert_Ok. apply sql_insert_Ok. by apply put_replay in H3. Qed.

Lemma sql_set_replay t k o n p : rle (sql_set live t k o n p) (sql_set again t k o n p).
Proof. intros p' (H1 & H2)%sql_set_Ok. apply sql_set_Ok. by apply put_replay in H2. Qed.

Lemma update1_replay t k g f p : rle (update1 live t k g f p) (update1 again t k g f p).
Proof.
  intros p' (r & r' & H1 & H2 & H3 & H4)%update1_Ok. apply update1_Ok.
  exists r, r'. apply sql_set_replay in H4. done.
Qed.

Lemma update_all_replay t g f p : rle (update_all live t g f p) (update_all again t g f p).
Proof. apply rle_foldM. intros q kr _. apply sql_set_replay. Qed.

Lemma upsert_replay t k r g f p : rle (upsert live t k r g f p) (upsert again t k r g f p).
Proof.
  unfold upsert. destruct (tget t p !! k) as [o|].
  - destruct (g o); [|reflexivity]. apply rle_bind; [apply sql_set_replay|reflexivity].
  - apply rle_bind; [apply sql_insert_replay|reflexivity].
Qed.

Lemma on_unique_rle e (m n : result Proj) : rle m n → rle (on_unique e m) (on_unique e n).
Proof. intros H p Hp%on_unique_Ok. apply on_unique_Ok. by apply H. Qed.

(** ** The log as the joins see it *)
Lemma gate_event_replay p k s :
  refs_ok log p → gate_state p !! k = Some s →
  find_event log (gs_last s) = find_event full (gs_last s).
Proof.
  intros Hr Hk. specialize (Hr TGateState k s Hk). cbn in Hr. inv_bool.
  apply is_some_true in H0 as [e He]. by rewrite He, (find_event_prefix _ _ _ _ Hpre He).
Qed.

Lemma closed_gates_replay l :
  (∀ k s, (k, s) ∈ l → find_event log (gs_last s) = find_event full (gs_last s)) →
  closed_gates log l = closed_gates full l.
Proof.
  induction l as [|[k s] l IH]; intros H; [done|]. cbn. rewrite <-(H k s) by (by left).
  rewrite IH; [done|]. intros k' s' ?. apply (H k'). by right.
Qed.

Lemma closedGateMetadata_replay p n :
  refs_ok log p → closedGateMetadata log p n = closedGateMetadata full p n.
Proof.
  intros Hr. unfold closedGateMetadata. f_equal. apply closed_gates_replay.
  intros k s [_ Hk%elem_of_map_to_list]%list_elem_of_filter. by eapply gate_event_replay.
Qed.

Lemma walk_replay fuel p decls target n :
  refs_ok log p →
  walk_requirements fuel log p decls target n = walk_requirements fuel full p decls target n.
Proof.
  intros Hr. revert n. induction fuel as [|fuel IH]; intros n; [done|]. cbn.
  unfold node_requirements. rewrite closedGateMetadata_replay by done.
  destruct (closedGateMetadata full p (n_id n)); [|done]. cbn. case_bool_decide; [done|].
  destruct (view_Node p (n_parent n)); [|done]. cbn. by rewrite IH.
Qed.

Lemma completion_replay p n o :
  refs_ok log p → NodeCompletionWithOverlay log p n o = NodeCompletionWithOverlay full p n o.
Proof.
  intros Hr. unfold NodeCompletionWithOverlay, EffectiveGateRequirements. by rewrite walk_replay.
Qed.

Lemma view_completion_replay p n :
  refs_ok log p → rle (view_NodeCompletion log p n) (view_NodeCompletion full p n).
Proof. intros Hr. unfold view_NodeCompletion. rewrite completion_replay by done. reflexivity. Qed.

Lemma aggregate_loop_replay p l n :
  refs_ok log p → aggregate_loop log p l n = aggregate_loop full p l n.
Proof.
  intros Hr. revert n. induction l as [|m l IH]; intros n; [done|]. cbn [aggregate_loop].
  case_bool_decide; [done|]. unfold view_NodeCompletion. rewrite completion_replay by done.
  destruct (NodeCompletionWithOverlay full p m no_overlay) as [c|]; [|done]. cbn.
  by rewrite !IH.
Qed.

Lemma aggregate_replay p r :
  refs_ok log p → TrackerAggregate log p r = TrackerAggregate full p r.
Proof.
  intros Hr. unfold TrackerAggregate. destruct (bound_matters p r) as [|m ms]; [done|].
  by rewrite aggregate_loop_replay.
Qed.

(** ** Rules *)
Context (ev : Event).

Lemma refs_after e p q : refs_ok log p → steps live e p q → refs_ok log q.
Proof. intros Hp Hs. eapply steps_stable; [apply refs_ok_stable|done..]. Qed.

Create HintDb wip_replay.
#[local] Hint Resolve put_replay sql_insert_replay sql_set_replay update1_replay update_all_replay
  upsert_replay on_unique_rle view_completion_replay : wip_replay.

Ltac rle_rule :=
  repeat match goal with
  | |- rle ?x ?x => reflexivity
  | |- rle (_ ≫= _) (_ ≫= _) => apply rle_bind; [|intros ? ?]
  | |- rle (match ?x with _ => _ end) (match ?x with _ => _ end) => destruct x eqn:?
  | |- rle (on_unique _ _) (on_unique _ _) => apply on_unique_rle
  | |- rle (let _ := _ in _) _ => cbv zeta
  | |- rle _ _ => solve [eauto 2 with wip_replay]
  end.

Lemma reorder_replay i order p : rle (reorder_loop live ev i order p) (reorder_loop again ev i order p).
Proof.
  revert i p. induction order as [|id order IH]; intros i p; cbn [reorder_loop]; [reflexivity|].
  apply rle_bind; [apply update1_replay|intros q _; apply IH].
Qed.

Lemma exempt_replay gate scale ns p :
  rle (exempt_loop live ev gate scale ns p) (exempt_loop again ev gate scale ns p).
Proof.
  revert p. induction ns as [|n ns IH]; intros p; cbn [exempt_loop]; [reflexivity|].
  apply rle_bind; [reflexivity|intros _ _]. apply rle_bind; [apply sql_insert_replay|intros q _; apply IH].
Qed.

Lemma freeze_replay run i ms p : rle (freeze_loop live run i ms p) (freeze_loop again run i ms p).
Proof.
  revert i p. induction ms as [|m ms IH]; intros i p; cbn [freeze_loop]; [reflexivity|].
  apply rle_bind; [apply sql_insert_replay|intros q _; apply IH].
Qed.

Lemma candidate_replay kind subject r payload d p :
  rle (insertTrackerCandidate live ev kind subject r payload d p)
      (insertTrackerCandidate again ev kind subject r payload d p).
Proof. apply sql_insert_replay. Qed.

Lemma state_candidates_replay subject seen refs p :
  refs_ok log p →
  rle (state_candidates live ev subject seen refs p) (state_candidates again ev subject seen refs p).
Proof.
  revert seen p. induction refs as [|r refs IH]; intros seen p Hr; cbn [state_candidates]; [reflexivity|].
  case_bool_decide; [by apply IH|]. cbn [c_log]. rewrite aggregate_replay by done.
  apply rle_bind; [reflexivity|]. intros [[d|]|] _; [|by apply IH..].
  apply rle_bind; [apply candidate_replay|]. intros q Hq. apply IH.
  eapply refs_after; [done|]. by eapply (insertTrackerCandidate_steps live ev).
Qed.

Lemma stage_comments_replay stage p :
  rle (queueStageComments live ev stage p) (queueStageComments again ev stage p).
Proof.
  unfold queueStageComments. destruct (_ <? _)%nat; [reflexivity|]. apply rle_foldM.
  intros q r _. apply candidate_replay.
Qed.

Lemma narrate_replay stages p :
  refs_ok log p → rle (narrate_stages live ev stages p) (narrate_stages again ev stages p).
Proof.
  unfold narrate_stages. revert p. induction stages as [|st stages IH]; intros p Hr.
  { cbn [foldM]. reflexivity. }
  cbn [foldM c_log]. apply rle_bind.
  - rle_rule. apply stage_comments_replay.
  - intros q Hq. apply IH. eapply refs_after; [done|].
    apply (narrate_stages_steps live ev [st]). unfold narrate_stages. cbn [foldM c_log].
    rewrite Hq. done.
Qed.
Ltac rule r := unfold r; cbn [c_log]; rle_rule.

Lemma transition_candidates_replay p :
  refs_ok log p → rle (projectTransitionCandidates live ev p) (projectTransitionCandidates again ev p).
Proof.
  intros Hr. unfold projectTransitionCandidates. cbn [c_log]. rle_rule;
    try (by apply state_candidates_replay); apply stage_comments_replay.
Qed.

Lemma gate_candidates_replay p :
  refs_ok log p → rle (projectGateCandidates live ev p) (projectGateCandidates again ev p).
Proof.
  intros Hr. unfold projectGateCandidates. cbn [c_log].
  apply rle_bind; [reflexivity|intros level _]. destruct (level_off level); [reflexivity|].
  apply rle_bind; [reflexivity|intros _ _]. apply rle_bind; [reflexivity|intros n _].
  apply rle_bind.
  - rle_rule. by apply state_candidates_replay.
  - intros q Hq. assert (Hr' : refs_ok log q).
    { eapply refs_after; [done|]. revert Hq. case_bool_decide; intros Hq; inv_ok_match;
        eauto using steps_refl, queueMatterStateCandidates_steps. }
    rle_rule; by apply narrate_replay.
Qed.

Lemma reference_candidates_replay p :
  refs_ok log p → rle (projectReferenceCandidates live ev p) (projectReferenceCandidates again ev p).
Proof.
  intros Hr. unfold projectReferenceCandidates. rle_rule. by apply state_candidates_replay.
Qed.

Lemma dismissGate_replay p : refs_ok log p → rle (dismissGate live ev p) (dismissGate again ev p).
Proof.
  intros Hr. unfold dismissGate. cbn [c_log].
  rle_rule.
  match goal with |- rle (match ?g ≫= _ with _ => _ end) _ => destruct g eqn:Es end;
    cbn [mbind option_bind].
  - rewrite (gate_event_replay _ _ _ Hr Es). rle_rule.
  - rle_rule.
Qed.

(** The rules that read the projection only through the statements. *)
Ltac plain := cbv beta delta [insertNode applyTransition applyReplace tombstoneNode tombstone_node
  bindReference insertContent insertEdge tombstoneEdge tombstone_edge closeGate
  repairGateExemptionProjection setConfigProjection insertBacklogEntry planBacklogEntry
  declineBacklogEntry delegateBacklogEntry addTrackerReference removeTrackerReference
  reboundTrackerReference upsert_reference retire_reference projectLegacyMatterReference
  projectAdhocCandidate insertTrackerCandidate flush_state recordTrackerStatePush
  recordTrackerStateObserved recordTrackerItemCreated approveOutbox declineOutbox withholdOutbox
  failOutbox retryOutbox flushOutboxComment insertRepo insertClone insertWorktree adoptRepoKey
  relinkClone labelClone moveCursor insertBatch joinBatch leaveBatch dismissBatch sweepBatch
  openDispatch closeDispatch finishRun standDownRun spawnRole closeRole]; cbv zeta; rle_rule.

Lemma applyReorder_replay p : rle (applyReorder live ev p) (applyReorder again ev p).
Proof. unfold applyReorder. rle_rule. apply reorder_replay. Qed.

Lemma declareGate_replay p : rle (declareGateProjection live ev p) (declareGateProjection again ev p).
Proof. unfold declareGateProjection. rle_rule. apply exempt_replay. Qed.

Lemma startRun_replay p : rle (startRun live ev p) (startRun again ev p).
Proof. unfold startRun. rle_rule. apply freeze_replay. Qed.

#[local] Hint Resolve applyReorder_replay declareGate_replay startRun_replay dismissGate_replay
  transition_candidates_replay gate_candidates_replay reference_candidates_replay : wip_replay.
#[local] Hint Resolve refs_after : wip_replay.

(** What was folded once folds again, to the same projection. *)
Lemma applyEvent_replay p : refs_ok log p → rle (applyEvent live ev p) (applyEvent again ev p).
Proof.
  intros Hr. unfold applyEvent. destruct (enum_parse (ev_type ev)) as [ty|] eqn:Hty; [|reflexivity].
  destruct ty;
    lazymatch goal with
    | |- rle (_ ≫= _) (_ ≫= _) => apply rle_bind; [|intros q Hq]
    | |- _ => idtac
    end.
  all: try solve [eauto 2 with wip_replay].
  all: try solve [plain].
  all: match goal with H : _ = Ok ?q |- rle (_ ?q) _ => assert (refs_ok log q);
    [eapply refs_after; [exact Hr|]; eauto 2 with wip_steps|] end.
  all: eauto 2 with wip_replay.
  all: plain.
Qed.
End replay.
