(* ===== verification/Mint.v ===== *)
(** Minting (store.go, NewID; ulid.go): what a handle and its clock guarantee.
    [handle_ok] relates the id source to the floor; it holds of a fresh handle
    and of a reopened one and every mint keeps it.  A mint is above the floor and
    below nothing it has issued, and the loop returns as soon as the clock has
    passed the floor's millisecond. *)
From S2P Require Import Prelude GoStd Ulid Taxonomy Json Payloads Tables View Gates Project Store.
Local Open Scope Z_scope.

(** What the machine gives: a clock in the range of a ULID's timestamp and ten
    bytes of entropy per draw. *)
Definition world_ok (w : World) : Prop :=
  ∀ n, 0 <= w_clock w n < 2 ^ 48 ∧ entropy_wf (w_entropy w n).

(** An identity some 16 bytes encode. *)
Definition minted (id : string) : Prop :=
  ∃ raw, Forall is_byte raw ∧ length raw = 16%nat ∧ id = encodeCrockford raw.

(** The 128-bit value behind the floor; an empty floor is below every identity. *)
Definition floor_value (floor : string) (v : Z) : Prop :=
  (floor = "" ∧ v = -1)
  ∨ ∃ raw, Forall is_byte raw ∧ length raw = 16%nat ∧ floor = encodeCrockford raw ∧ v = be raw.

Record handle_ok (h : Handle) : Prop := MkHandleOk {
  ho_source : source_wf (h_ids h);
  ho_ms : lastMS (h_ids h) < 2 ^ 48;
  ho_floor : ∃ v, floor_value (h_floor h) v ∧ (0 <= v → source_value (h_ids h) <= v)
                  ∧ (v < 0 → lastMS (h_ids h) = 0);
}.

Lemma floor_value_lt floor v raw :
  floor_value floor v → Forall is_byte raw → length raw = 16%nat →
  floor <s encodeCrockford raw ↔ v < be raw.
Proof.
  intros [[-> ->]|(r & Hr & Hl & -> & ->)] H1 H2; [|by apply encodeCrockford_lt].
  pose proof (be_bound raw H1). rewrite encodeCrockford_render by done. cbn. split; [lia|done].
Qed.

Lemma fresh_handle_ok : handle_ok (s_handle fresh_store).
Proof.
  split; [apply newIDSource_wf|done|]. exists (-1). split_and!; [by left|done|done].
Qed.

(** The source's millisecond half, read back from its value. *)
Lemma source_time s : source_wf s → lastMS s < 2 ^ 48 → source_value s / 2 ^ 80 = lastMS s.
Proof.
  intros (Hm & Hb & Hl) Hlt. unfold source_value. rewrite (Z.mod_small (lastMS s)) by lia.
  pose proof (be_bound _ Hb) as B. rewrite Hl in B. change (8 * Z.of_nat 10) with 80 in B.
  rewrite Z.div_add_l, Z.div_small by lia. lia.
Qed.

Lemma floor_value_fun floor v v' : floor_value floor v → floor_value floor v' → v = v'.
Proof.
  intros H H'. destruct H' as [[-> ->]|(r & Hr & Hl & -> & ->)].
  - destruct H as [[_ ->]|(r' & Hr' & Hl' & He & ->)]; [done|].
    by rewrite encodeCrockford_render in He.
  - destruct (Z.lt_trichotomy v (be r)) as [Hlt|[?|Hlt]]; [|done|].
    + apply (floor_value_lt _ _ _ H Hr Hl) in Hlt. by apply slt_irrefl in Hlt.
    + destruct H as [[He ->]|(r' & Hr' & Hl' & He & ->)]; [pose proof (be_bound r Hr); lia|].
      assert (encodeCrockford r <s encodeCrockford r') as Hs by (by apply encodeCrockford_lt).
      rewrite He in Hs. by apply slt_irrefl in Hs.
Qed.

Section mint.
Context (w : World) (Hw : world_ok w).

(** One draw: the source stays well formed and its identity is minted. *)
Lemma draw_ok h id h' :
  draw w h = (id, h') → source_wf (h_ids h) → lastMS (h_ids h) < 2 ^ 48 →
  source_wf (h_ids h') ∧ lastMS (h_ids h') < 2 ^ 48
  ∧ id = encodeCrockford (source_raw (h_ids h')) ∧ h_floor h' = h_floor h
  ∧ h_tick h' = S (h_tick h) ∧ h_blobs h' = h_blobs h.
Proof using Hw.
  unfold draw. destruct (Hw (h_tick h)) as [Hc He]. intros H Hs Hm.
  destruct (next (h_ids h) (w_clock w (h_tick h)) (w_entropy w (h_tick h))) as [ids i] eqn:E.
  injection H as <- <-. cbn.
  pose proof (next_wf (h_ids h) (w_clock w (h_tick h)) _ Hs He) as Hwf.
  pose proof (next_id (h_ids h) (w_clock w (h_tick h)) (w_entropy w (h_tick h))) as Hid.
  rewrite E in Hwf, Hid. cbn in Hwf, Hid. split_and!; try done.
  unfold next in E. injection E as <- _. rewrite (Z.mod_small (w_clock w (h_tick h))) by lia.
  destruct (lastMS (h_ids h) <? w_clock w (h_tick h)); cbn [lastMS]; lia.
Qed.

(** A draw whose clock is past the source and past the floor clears the floor. *)
Lemma draw_clears h id h' v :
  draw w h = (id, h') → source_wf (h_ids h) → floor_value (h_floor h) v →
  lastMS (h_ids h) < w_clock w (h_tick h) → v / 2 ^ 80 < w_clock w (h_tick h) →
  h_floor h <s id.
Proof using Hw.
  unfold draw. destruct (Hw (h_tick h)) as [Hc [He Hel]]. intros H Hs Hv Hm Hf.
  pose proof (next_wf (h_ids h) (w_clock w (h_tick h)) (w_entropy w (h_tick h)) Hs (conj He Hel)) as Hwf.
  pose proof (next_id (h_ids h) (w_clock w (h_tick h)) (w_entropy w (h_tick h))) as Hid.
  pose proof (next_value (h_ids h) (w_clock w (h_tick h)) (w_entropy w (h_tick h)) Hs (conj He Hel)) as Hval.
  destruct (next _ _ _) as [ids i]. injection H as <- <-. cbn [fst snd] in *. subst i.
  destruct (source_raw_wf _ Hwf). apply (floor_value_lt _ _ _ Hv); [done..|].
  rewrite source_raw_be, Hval by done. pose proof (be_bound _ He) as B. rewrite Hel in B.
  change (8 * Z.of_nat 10) with 80 in B. rewrite (Z.mod_small (w_clock w (h_tick h))) by lia.
  rewrite (proj2 (Z.ltb_lt _ _)) by lia. rewrite Z.mod_small by lia.
  pose proof (Z.div_mod v (2 ^ 80) ltac:(lia)). pose proof (Z.mod_pos_bound v (2 ^ 80)). nia.
Qed.

Lemma NewID_ok fuel h id h' :
  NewID w fuel h = Some (id, h') → handle_ok h →
  handle_ok h' ∧ minted id ∧ h_floor h <s id ∧ h_floor h' = id ∧ h_blobs h' = h_blobs h.
Proof using Hw.
  intros H [Hs Hm (v & Hv & _)]. revert h H Hs Hm Hv. induction fuel as [|fuel IH]; [done|].
  intros h H Hs Hm Hv. cbn [NewID] in H. destruct (draw w h) as [i h1] eqn:E.
  destruct (draw_ok _ _ _ E Hs Hm) as (Hs1 & Hm1 & -> & Hf1 & _ & Hb1).
  destruct (source_raw_wf _ Hs1) as [Hby Hlen].
  destruct (String.ltb (h_floor h) _) eqn:El.
  - injection H as <- <-. cbn. split_and!; try done; [|by eexists].
    split; cbn; [done..|]. exists (be (source_raw (h_ids h1))).
    pose proof (be_bound _ Hby). split_and!; [right; eauto 10| |lia].
    intros _. by rewrite source_raw_be.
  - rewrite <-Hf1 in Hv. destruct (IH h1 H Hs1 Hm1 Hv) as (? & ? & ? & ? & ?).
    split_and!; congruence || done.
Qed.

(** Termination: once the clock, within the draws allowed, passes the
    millisecond of the floor, NewID has returned. *)
Lemma NewID_returns fuel h v k :
  handle_ok h → floor_value (h_floor h) v →
  (k < fuel)%nat → v / 2 ^ 80 < w_clock w (h_tick h + k) →
  is_Some (NewID w fuel h).
Proof using Hw.
  intros [Hs Hm (v' & Hv' & Hsv & _)] Hv Hk Hc. rewrite (floor_value_fun _ _ _ Hv' Hv) in Hsv. clear v' Hv'.
  revert h k Hs Hm Hv Hk Hc Hsv.
  induction fuel as [|fuel IH]; intros h k Hs Hm Hv Hk Hc Hsv; [lia|].
  cbn [NewID]. destruct (draw w h) as [i h1] eqn:E.
  destruct (draw_ok _ _ _ E Hs Hm) as (Hs1 & Hm1 & -> & Hf1 & Ht1 & _).
  destruct (source_raw_wf _ Hs1) as [Hby Hlen].
  destruct (String.ltb (h_floor h) (encodeCrockford (source_raw (h_ids h1)))) eqn:El; [by eexists|].
  assert (Hle : be (source_raw (h_ids h1)) <= v).
  { destruct (Z.le_gt_cases (be (source_raw (h_ids h1))) v) as [?|Hgt]; [done|].
    assert (h_floor h <s encodeCrockford (source_raw (h_ids h1))) as Hlt
      by (apply (floor_value_lt _ _ _ Hv); [done..|lia]).
    unfold slt in Hlt. congruence. }
  rewrite source_raw_be in Hle by done.
  destruct k as [|k].
  - rewrite Nat.add_0_r in Hc. exfalso.
    assert (h_floor h <s encodeCrockford (source_raw (h_ids h1))) as Hlt;
      [|unfold slt in Hlt; congruence].
    eapply draw_clears; [exact E|done|exact Hv| |done].
    destruct (Z.le_gt_cases 0 v) as [Hv0|Hv0].
    + rewrite <-(source_time (h_ids h)) by done. eapply Z.le_lt_trans; [|exact Hc].
      apply Z.div_le_mono; [lia|auto].
    + destruct Hv as [[_ ->]|(r & Hr & _ & _ & ->)]; [|pose proof (be_bound r Hr); lia].
      pose proof (be_bound _ Hby). rewrite source_raw_be in * by done. lia.
  - apply (IH h1 k); try done; try lia; [by rewrite Hf1|].
    rewrite Ht1. by replace (S (h_tick h) + k)%nat with (h_tick h + S k)%nat by lia.
Qed.

(** ** When one draw is enough *)

(** The clock about to be read is past the floor's millisecond. *)
Definition current (h : Handle) : Prop :=
  ∃ v, floor_value (h_floor h) v ∧ v / 2 ^ 80 < w_clock w (h_tick h).

(** The clock moves between the next [n] readings. *)
Definition ticking (t n : nat) : Prop :=
  ∀ i, (i < n)%nat → w_clock w (t + i) < w_clock w (S (t + i)).

Lemma NewID_first fuel h :
  handle_ok h → current h → w_clock w (h_tick h) < w_clock w (S (h_tick h)) →
  ∃ id h', NewID w (S fuel) h = Some (id, h') ∧ handle_ok h' ∧ current h'
           ∧ h_tick h' = S (h_tick h).
Proof using Hw.
  intros Hh (v & Hv & Hc) Hnext.
  destruct (NewID_returns 1 h v 0 Hh Hv) as [[id h'] H1]; [lia|by rewrite Nat.add_0_r|].
  pose proof H1 as H2. cbn [NewID] in H1 |- *. destruct (draw w h) as [i h1] eqn:E.
  destruct Hh as [Hs Hm Hfl]. destruct (draw_ok _ _ _ E Hs Hm) as (Hs1 & Hm1 & Hi & Hf1 & Ht1 & _).
  destruct (String.ltb (h_floor h) i) eqn:El; [|done]. injection H1 as <- <-.
  exists i, (MkHandle (h_ids h1) (h_tick h1) i (h_blobs h1)).
  split_and!; [done| | |done].
  - by destruct (NewID_ok _ _ _ _ H2 (MkHandleOk _ Hs Hm Hfl)).
  - destruct (source_raw_wf _ Hs1). exists (be (source_raw (h_ids h1))). cbn [h_floor h_tick].
    split; [right; exists (source_raw (h_ids h1)); done|]. rewrite source_raw_be, source_time, Ht1 by done.
    eapply Z.le_lt_trans; [|exact Hnext]. clear -E Hw Hc Hv Hs Hm Hfl.
    destruct (Hw (h_tick h)) as [Hck _]. unfold draw in E.
    destruct (next _ _ _) as [ids j] eqn:En. injection E as _ <-. cbn [h_ids].
    unfold next in En. injection En as <- _. rewrite (Z.mod_small (w_clock w (h_tick h))) by lia.
    destruct (Z.ltb_spec (lastMS (h_ids h)) (w_clock w (h_tick h))); cbn [lastMS]; [lia|].
    destruct Hfl as (v' & Hv' & Hsv & Hz). rewrite (floor_value_fun _ _ _ Hv' Hv) in Hsv, Hz.
    destruct Hv as [[_ ->]|(r & Hr & _ & _ & ->)].
    + rewrite Hz by done. lia.
    + rewrite <-(source_time (h_ids h)) by done. etrans; [|apply Z.lt_le_incl, Hc].
      apply Z.div_le_mono; [lia|]. apply Hsv. pose proof (be_bound r Hr). lia.
Qed.
End mint.

(** ** Identities are ASCII *)
Lemma crockford_ascii c : (crockfordValue c <? 0)%Z = false → (0 <= byte_of c < 128)%Z.
Proof. destruct c as [[] [] [] [] [] [] [] []]; vm_compute; intros H; by try done. Qed.

Lemma all_crockford_ascii s : all_crockford s = true → Forall (λ b, 0 <= b < 128)%Z (bytes_of s).
Proof.
  induction s as [|c s IH]; cbn; [constructor|]. intros [Hc Hs]%andb_true_iff.
  apply negb_true_iff in Hc. constructor; [by apply crockford_ascii|by apply IH].
Qed.

Lemma identity_utf8 id : IsIdentityShaped id = true → utf8_coerce id = id.
Proof. intros [_ Hc]%andb_true_iff. by apply utf8_coerce_ascii, all_crockford_ascii. Qed.
