(* ===== verification/Reach.v ===== *)
(** Reachable stores.  [legal_log] is a log built by appends alone, [db_ok] what
    a log and a projection must satisfy together, and [reach] the stores a run of
    Commit, Rebuild and reopen can produce.  The main facts: every append and
    fold keeps [db_ok], a reachable store satisfies it, and refolding the log of
    such a store gives its projection back. *)
From stdpp Require Import relations.
From S2P Require Import Prelude GoStd Ulid Taxonomy Json Payloads Tables View Gates Project Store.
From S2P Require Import Steps Invariants Shape Replay Mint.

(** ** Logs *)
Inductive legal_log : list Event → Prop :=
| legal_nil : legal_log []
| legal_snoc log ev log' : legal_log log → appendEvent log ev = Ok log' → legal_log log'.

Definition ids (log : list Event) : list string := ev_id <$> log.

Lemma log_max_cons x log :
  log_max (x :: log) = if String.ltb (log_max log) (ev_id x) then ev_id x else log_max log.
Proof. done. Qed.

Lemma log_max_bound log e : e ∈ log → ¬ log_max log <s ev_id e.
Proof.
  induction log as [|x log IH]; [by intros ?%elem_of_nil|]. rewrite log_max_cons.
  intros [->|He]%elem_of_cons; destruct (String.ltb (log_max log) (ev_id x)) eqn:E.
  - apply slt_irrefl.
  - unfold slt. congruence.
  - intros Hx. apply (IH He). by eapply slt_trans.
  - by apply IH.
Qed.

Lemma log_max_lt log x e : log_max log <s x → e ∈ log → ev_id e <s x.
Proof.
  intros Hx He. destruct (slt_total (ev_id e) (log_max log)) as [?|[->|H]]; [|done|].
  - by eapply slt_trans.
  - by destruct (log_max_bound _ _ He).
Qed.

Lemma appendEvent_Ok log ev log' :
  appendEvent log ev = Ok log' → log' = log ++ [ev] ∧ log_max log <s ev_id ev.
Proof.
  unfold appendEvent. intros H. inv_ok. split; [reflexivity|]. assumption.
Qed.

(** What the CHECKs and triggers of the events table leave true of an event,
    given the log before it. *)
Record event_ok (before : list Event) (ev : Event) : Prop := MkEventOk {
  eo_above : ∀ e, e ∈ before → ev_id e <s ev_id ev;
  eo_shape : IsIdentityShaped (ev_id ev) = true ∧ IsIdentityShaped (ev_subject ev) = true;
  eo_actor : actor_valid (ev_actor ev) = true;
  eo_dimensions : ∃ rule, requiredDimensions (ev_type ev) = Ok rule
    ∧ (ev_repo ev = "" ↔ et_repo rule = false) ∧ (ev_clone ev = "" ↔ et_clone rule = false)
    ∧ (ev_worktree ev = "" ↔ et_worktree rule = false);
  eo_cause : ev_causation ev = ev_id ev ∨ ∃ e, e ∈ before ∧ ev_id e = ev_causation ev;
  eo_correlation : ev_correlation ev = ev_id ev ∨ ∃ e, e ∈ before ∧ ev_id e = ev_correlation ev;
}.

Lemma pointer_in log id ptr :
  pointer_ok log id ptr = true → ptr = id ∨ ∃ e, e ∈ log ∧ ev_id e = ptr.
Proof.
  unfold pointer_ok. intros [[H|H]%orb_true_iff _]%andb_true_iff; [inv_bool; by left|right].
  apply is_some_true in H as [e [Hin Hid]%find_event_Some]. eauto.
Qed.

Lemma dim_absent (b : bool) (v : string) :
  bool_decide (b = negb (bool_decide (v = ""))) = true → v = "" ↔ b = false.
Proof. intros ->%bool_decide_eq_true. case_bool_decide; naive_solver. Qed.

Lemma appendEvent_event_ok log ev log' : appendEvent log ev = Ok log' → event_ok log ev.
Proof.
  intros H. pose proof H as [_ Hmax]%appendEvent_Ok. unfold appendEvent in H. inv_ok.
  repeat match goal with H : (_ && _) = true |- _ => apply andb_true_iff in H as [? ?] end.
  split; [intros e He; by eapply log_max_lt|split; assumption|assumption| |..].
  - eexists. split; [eassumption|]. split_and!; by apply dim_absent.
  - by apply pointer_in.
  - by apply pointer_in.
Qed.

Lemma appended_subject log ev : appendEvent log ev = Ok (log ++ [ev]) → IsIdentityShaped (ev_subject ev) = true.
Proof. intros H%appendEvent_event_ok. apply H. Qed.

#[local] Opaque appendEvent applyEvent NewID timeOfID.

Lemma legal_events log : legal_log log → ∀ l1 ev l2, log = l1 ++ ev :: l2 → event_ok l1 ev.
Proof.
  induction 1 as [|log ev log' _ IH H]; intros l1 x l2 E; [by destruct l1|].
  pose proof (appendEvent_event_ok _ _ _ H) as Hok. apply appendEvent_Ok in H as [-> _].
  destruct l2 as [|y l2 _] using rev_ind.
  - apply app_inj_tail in E as [<- <-]. exact Hok.
  - rewrite app_comm_cons, app_assoc in E. apply app_inj_tail in E as [-> _]. by eapply IH.
Qed.

Lemma legal_sorted log : legal_log log → StronglySorted slt (ids log).
Proof.
  induction 1 as [|log ev log' _ IH H]; [constructor|].
  apply appendEvent_Ok in H as [-> Hlt]. unfold ids in *. rewrite fmap_app. cbn.
  assert (Hall : ∀ e, e ∈ log → ev_id e <s ev_id ev) by eauto using log_max_lt.
  clear Hlt. induction log as [|x log IHl]; cbn in *; [by repeat constructor|].
  apply StronglySorted_inv in IH as [IH1 IH2]. constructor.
  - apply IHl; [done|]. intros e He. apply Hall. by right.
  - apply Forall_app. split; [done|]. constructor; [|done]. apply Hall. by left.
Qed.

(** The event just appended is the one its identity finds. *)
Lemma find_event_snoc log ev : log_max log <s ev_id ev → find_event (log ++ [ev]) (ev_id ev) = Some ev.
Proof.
  intros Hlt. rewrite find_event_app. destruct (find_event log (ev_id ev)) as [e|] eqn:E.
  - apply find_event_Some in E as [Hin Hid]. destruct (log_max_bound log e Hin). by rewrite Hid.
  - unfold find_event. cbn. by rewrite bool_decide_true.
Qed.

(** SELECT ... ORDER BY id returns a legal log as it is. *)
Lemma ord_insert_head x l :
  Forall (λ y, ev_id x <s ev_id y) l →
  ord_insert (λ a b, String.leb (ev_id a) (ev_id b)) x l = x :: l.
Proof.
  intros H. destruct H as [|y l Hy _]; [done|]. cbn.
  apply slt_le in Hy as [Hle _]. apply Is_true_true in Hle. by rewrite Hle.
Qed.

Lemma Events_sorted log : StronglySorted slt (ids log) → Events log = log.
Proof.
  unfold Events. induction log as [|x log IH]; [done|]. cbn. intros [H1 H2]%StronglySorted_inv.
  rewrite IH by done. apply ord_insert_head. by apply (Forall_fmap ev_id) in H2.
Qed.

Lemma Events_legal log : legal_log log → Events log = log.
Proof. intros H. by apply Events_sorted, legal_sorted. Qed.

Lemma clear_all p : clear_tables projectionTables p = empty_proj.
Proof. done. Qed.

(** ** The database *)
Record db_ok (log : list Event) (p : Proj) : Prop := MkDb {
  db_log : legal_log log;
  db_refs : refs_ok log p;
  db_shape : shape_ok p;
  db_gates : gates_logged log p;
  db_replay : ∀ full, log `prefix_of` full → fold_events (MkCtx full false) log empty_proj = Ok p;
}.

Lemma db_ok_fresh : db_ok [] empty_proj.
Proof. split; [constructor|apply refs_ok_empty|apply shape_empty|by intros ??|done]. Qed.

Lemma db_ok_append log ev log' p p' :
  db_ok log p → appendEvent log ev = Ok log' → applyEvent (MkCtx log' true) ev p = Ok p' →
  db_ok log' p'.
Proof.
  intros [Hl Hr Hs Hg Hf] Ha Hp. pose proof Ha as [-> Hlt]%appendEvent_Ok.
  assert (Hr' : refs_ok (log ++ [ev]) p) by (eapply refs_ok_grow; [by apply prefix_app_r|done]).
  split.
  - by econstructor.
  - by eapply applyEvent_stable; [apply refs_ok_stable| |].
  - by eapply applyEvent_shape.
  - eapply applyEvent_stable; [apply gates_logged_stable|exact Hp|].
    + by apply find_event_snoc.
    + eapply gates_logged_grow; [by apply prefix_app_r|done].
  - intros full Hpre. unfold fold_events. rewrite foldM_app.
    pose proof (Hf full) as Hf'. unfold fold_events in Hf'. rewrite Hf'.
    + cbn. rewrite (applyEvent_replay _ _ Hpre _ _ Hr' _ Hp). done.
    + etrans; [by apply prefix_app_r|done].
Qed.

Lemma db_fk_ok log p : refs_ok log p → fk_ok log p = true.
Proof.
  intros Hr. unfold fk_ok. apply forallb_forall. intros t _. apply forallb_forall.
  intros [k r] Hin%list_elem_of_In%elem_of_map_to_list. by apply Hr.
Qed.

Lemma Rebuild_db s : db_ok (s_log s) (s_proj s) → Rebuild s = Ok s.
Proof.
  intros [Hl Hr _ _ Hf]. unfold Rebuild. rewrite Events_legal, clear_all by done.
  cbv zeta. rewrite (Hf _ (reflexivity _)). unfold mbind, result_bind. rewrite db_fk_ok by done.
  by destruct s.
Qed.

(** ** One draft *)

(** What the stamp makes of a draft: everything but the identity and the chain
    pointers is determined by the draft and the request. *)
Definition dim (required : bool) (v : string) : string := if required then v else "".

Definition stamped (req : Request) (d : Draft) (ev : Event) : Prop :=
  ∃ rule, requiredDimensions (d_type d) = Ok rule
  ∧ let env := default (rq_env req) (d_env d) in
    ev_type ev = d_type d ∧ ev_subject ev = d_subject d ∧ ev_payload ev = d_payload d
    ∧ ev_actor ev = rq_actor req ∧ timeOfID (ev_id ev) = Ok (ev_occurred ev)
    ∧ ev_repo ev = dim (et_repo rule) (env_repo env)
    ∧ ev_clone ev = dim (et_clone rule) (env_clone env)
    ∧ ev_worktree ev = dim (et_worktree rule) (env_worktree env).

(** The chain pointers of a command's events: the first is its own origin, each
    later one points at an earlier event of the same command. *)
Definition chained (events : list Event) : Prop :=
  ∀ i ev, events !! i = Some ev →
    ∃ origin cause, events !! 0%nat = Some origin ∧ ev_correlation ev = ev_id origin
      ∧ ev_causation ev = ev_id cause
      ∧ (i = 0%nat ∧ cause = ev ∨ ∃ j, (j < i)%nat ∧ events !! j = Some cause).

Lemma dimension_Ok b v msg x : dimension b v msg = Ok x → x = dim b v.
Proof. unfold dimension, dim. destruct b; intros H; inv_ok; done. Qed.

Lemma stamp_Ok w fuel req d h ev h' :
  stamp w fuel req d h = Some (Ok ev, h') →
  stamped req d ev ∧ NewID w fuel h = Some (ev_id ev, h').
Proof.
  unfold stamp. intros H. case_match_hyp H; [|discriminate]. case_match_hyp H; [discriminate|].
  apply bind_Some in H as ([id h1] & Hid & H). injection H as H <-. inv_ok.
  cbn [ev_id]. split; [|exact Hid].
  repeat match goal with H : dimension _ _ _ = Ok _ |- _ => apply dimension_Ok in H end.
  eexists. split; [eassumption|]. cbn. split_and!; try reflexivity || assumption.
Qed.

Lemma chain_Ok events cause ev ev' :
  chain events cause ev = Ok ev' →
  ev' = with_chain ev (ev_causation ev') (ev_correlation ev')
  ∧ (chained events → chained (events ++ [ev'])).
Proof.
  unfold chain. destruct events as [|origin rest].
  - intros [= <-]. split; [done|]. intros _ [|i] x [= <-].
    exists (with_chain ev (ev_id ev) (ev_id ev)), (with_chain ev (ev_id ev) (ev_id ev)).
    split_and!; [done..|by left].
  - intros H. inv_ok. case_match_hyp H; [|discriminate]. injection H as <-. cbn [ev_causation ev_correlation with_chain].
    split; [done|]. intros Hc i y Hi. apply lookup_app_Some in Hi as [Hi|[Hlen Hi]].
    + destruct (Hc i y Hi) as (o & cz & Ho & H1 & H2 & H3). exists o, cz.
      split_and!; [by apply lookup_app_l_Some|done..|]. destruct H3 as [?|(j & ? & ?)]; [by left|right].
      exists j. split; [done|]. by apply lookup_app_l_Some.
    + apply list_lookup_singleton_Some in Hi as [Hi <-]. exists origin, e. cbn.
      split_and!; [done..|]. right. exists (Z.to_nat cause).
      split; [apply lookup_lt_Some in Heqo; lia|]. by apply (lookup_app_l_Some (origin :: rest)).
Qed.

(** ** The write loop *)

(** Everything a written command leaves behind. *)
Record written (req : Request) (ds : list Draft) (events log : list Event)
    (events' log' new : list Event) : Prop := MkWritten {
  wr_events : events' = events ++ new;
  wr_log : log' = log ++ new;
  wr_stamped : Forall2 (stamped req) ds new;
  wr_chained : chained events → chained events';
}.

Lemma write_drafts_Ok w fuel req ds events log p h events' log' p' h' :
  write_drafts w fuel req ds events log p h = Some (Ok (events', log', p'), h') →
  db_ok log p →
  db_ok log' p' ∧ ∃ new, written req ds events log events' log' new.
Proof.
  revert events log p h. induction ds as [|d ds IH]; intros events log p h; cbn [write_drafts].
  { intros [= -> -> -> ->] Hdb. split; [done|]. exists []. split; by rewrite ?app_nil_r. }
  intros H Hdb. apply bind_Some in H as ([re h1] & H1 & H).
  match type of H with match ?x with _ => _ end = _ => destruct x as [[[ev log1] p1]|err] eqn:E end;
    [|discriminate H].
  inv_ok. subst. apply stamp_Ok in H1 as [Hst _].
  match goal with H : chain _ _ _ = Ok _ |- _ => apply chain_Ok in H as [Hev Hch] end.
  match goal with H : appendEvent _ _ = Ok _ |- _ => rename H into Ha end.
  match goal with H : applyEvent _ _ _ = Ok _ |- _ => rename H into Hf end.
  pose proof Ha as [Hlog _]%appendEvent_Ok.
  destruct (IH _ _ _ _ H) as [Hdb' (new & [-> -> Hf2 Hch'])]; [by eapply db_ok_append|].
  split; [done|]. exists (ev :: new). split.
  - by rewrite <-app_assoc.
  - by rewrite Hlog, <-app_assoc.
  - constructor; [|exact Hf2]. rewrite Hev. exact Hst.
  - auto.
Qed.

(** Minting during the loop keeps the handle, whether or not the command is
    refused, and an event's identity is above what the handle had issued. *)
Definition grows (a b : string) : Prop := a = b ∨ a <s b.

#[global] Instance grows_preorder : PreOrder grows.
Proof. split; [by left|]. intros a b c [->|H] [->|H']; [by left|by right..|right; by eapply slt_trans]. Qed.

Lemma stamp_handle w fuel req d h r h' :
  world_ok w → stamp w fuel req d h = Some (r, h') → handle_ok h →
  handle_ok h' ∧ grows (h_floor h) (h_floor h')
  ∧ ∀ ev, r = Ok ev → minted (ev_id ev) ∧ h_floor h <s ev_id ev ∧ h_floor h' = ev_id ev.
Proof.
  intros Hw H Hh. destruct r as [ev|e].
  - apply stamp_Ok in H as [_ Hid]. destruct (NewID_ok w Hw _ _ _ _ Hid Hh) as (? & ? & ? & ? & _).
    split_and!; [done|right; congruence|]. by intros ? [= <-].
  - revert H. unfold stamp. case_match; [|intros [= _ <-]; split_and!; [done|by left|done]].
    case_match; [intros [= _ <-]; split_and!; [done|by left|done]|].
    intros ([id h1] & Hid & [= _ <-])%bind_Some.
    destruct (NewID_ok w Hw _ _ _ _ Hid Hh) as (? & ? & ? & ? & _).
    split_and!; [done|right; congruence|done].
Qed.

Definition log_minted (log : list Event) (floor : string) : Prop :=
  Forall (λ e, minted (ev_id e) ∧ grows (ev_id e) floor) log.

Lemma log_minted_grow log f f' : grows f f' → log_minted log f → log_minted log f'.
Proof.
  intros Hg H. eapply Forall_impl; [exact H|]. intros e [? ?]. split; [done|by etrans].
Qed.

Lemma write_drafts_handle w fuel req ds events log p h r h' :
  world_ok w → write_drafts w fuel req ds events log p h = Some (r, h') → handle_ok h →
  handle_ok h' ∧ grows (h_floor h) (h_floor h')
  ∧ ∀ events' log' p', r = Ok (events', log', p') →
      log_minted log (h_floor h) → log_minted log' (h_floor h').
Proof.
  intros Hw. revert events log p h. induction ds as [|d ds IH]; intros events log p h;
    cbn [write_drafts].
  { intros [= <- <-] Hh. split_and!; [done|by left|by intros ??? [= _ <- _]]. }
  intros H Hh. apply bind_Some in H as ([re h1] & H1 & H).
  destruct (stamp_handle _ _ _ _ _ _ _ Hw H1 Hh) as (Hh1 & Hg1 & Hid).
  match type of H with match ?x with _ => _ end = _ => destruct x as [[[ev log1] p1]|err] eqn:E end;
    [|injection H as <- <-; split_and!; [done|done|discriminate]].
  inv_ok. subst.
  match goal with H : chain _ _ _ = Ok _ |- _ => apply chain_Ok in H as [Hev _] end.
  match goal with H : appendEvent _ _ = Ok _ |- _ => apply appendEvent_Ok in H as [-> _] end.
  destruct (IH _ _ _ _ H Hh1) as (? & ? & Hl). split_and!; [done|by etrans|].
  intros events' log' p' Hr Hm. apply (Hl _ _ _ Hr). apply Forall_app. split.
  - by eapply log_minted_grow.
  - constructor; [|done]. rewrite Hev. cbn [ev_id with_chain].
    destruct (Hid _ eq_refl) as (? & ? & ->). split; [done|by left].
Qed.

(** ** The loop returns while the clock moves *)
Lemma stamp_returns w fuel req d h :
  world_ok w → handle_ok h → current w h → (w_clock w (h_tick h) < w_clock w (S (h_tick h)))%Z →
  ∃ r h', stamp w (S fuel) req d h = Some (r, h') ∧ (∀ ev, r = Ok ev → handle_ok h' ∧ current w h'
     ∧ h_tick h' = S (h_tick h)).
Proof.
  intros Hw Hh Hc Ht. destruct (NewID_first w Hw fuel h Hh Hc Ht) as (id & h' & Hid & Hok).
  unfold stamp. destruct (requiredDimensions _); [|by do 2 eexists].
  destruct (negb _); [by do 2 eexists|].
  rewrite Hid. do 2 eexists. split; [reflexivity|]. intros _ _. exact Hok.
Qed.

Lemma write_drafts_returns w fuel req ds events log p h :
  world_ok w → handle_ok h → current w h → ticking w (h_tick h) (length ds) →
  is_Some (write_drafts w (S fuel) req ds events log p h).
Proof.
  intros Hw. revert events log p h. induction ds as [|d ds IH]; intros events log p h Hh Hc Ht;
    cbn [write_drafts]; [by eexists|].
  destruct (stamp_returns w fuel req d h Hw Hh Hc) as (r & h1 & -> & Hr).
  { pose proof (Ht 0%nat) as H0. rewrite Nat.add_0_r in H0. apply H0. cbn. lia. }
  cbn [mbind option_bind]. destruct r as [ev|e]; [|by eexists].
  destruct (Hr ev eq_refl) as (Hh1 & Hc1 & Hk1).
  match goal with |- is_Some (match ?x with _ => _ end) => destruct x as [[[ev' log'] p']|e] end;
    [|by eexists].
  apply IH; [done..|]. intros i Hi. rewrite Hk1. specialize (Ht (S i)). cbn in Ht.
  rewrite Nat.add_succ_r in Ht. apply Ht. lia.
Qed.

(** ** Commit *)

(** How a commit ends: an error that leaves the database alone, or the drafts
    its decision returned, all written. *)
Lemma Commit_cases w fuel req decide s r s' :
  Commit w fuel req decide s = Some (r, s') →
  (∃ e, r = Error e ∧ s_log s' = s_log s ∧ s_proj s' = s_proj s)
  ∨ (∃ ds h1 events, decide (s_log s) (s_proj s) (s_handle s) = Some (Ok ds, h1) ∧ ds ≠ []
      ∧ r = Ok events
      ∧ write_drafts w fuel req ds [] (s_log s) (s_proj s) h1
        = Some (Ok (events, s_log s', s_proj s'), s_handle s')).
Proof.
  unfold Commit. cbv zeta. intros H. case_match_hyp H; [injection H as <- <-; left; eauto|].
  match type of H with match ?x with Ok _ => _ | Error _ => _ end = _ => destruct x as [[]|e] end;
    [|injection H as <- <-; left; eauto].
  apply bind_Some in H as ([rd h1] & Hd & H).
  destruct rd as [[|d ds]|e]; [injection H as <- <-; left; by eauto| |injection H as <- <-; left; by eauto].
  apply bind_Some in H as ([rw h2] & Hw & H). destruct rw as [[[evs log'] p']|e]; injection H as <- <-.
  - right. exists (d :: ds), h1, evs. split_and!; [exact Hd|discriminate|reflexivity|exact Hw].
  - left. eauto.
Qed.

(** ** Handles and decisions *)

(** What a decision may do to the handle: mint identities and spill blobs. *)
Inductive handle_step (w : World) (h : Handle) : Handle → Prop :=
| hs_mint fuel id h' : NewID w fuel h = Some (id, h') → handle_step w h h'
| hs_blob ref data : handle_step w h
    (MkHandle (h_ids h) (h_tick h) (h_floor h) (<[ref := data]> (h_blobs h))).

Definition decides (w : World) (decide : Decide) : Prop :=
  ∀ log p h r h', decide log p h = Some (r, h') → rtc (handle_step w) h h'.

Lemma handle_steps_ok w h h' :
  world_ok w → rtc (handle_step w) h h' → handle_ok h → handle_ok h' ∧ grows (h_floor h) (h_floor h').
Proof.
  intros Hw. induction 1 as [h|h h1 h2 Hs _ IH]; intros Hh; [split; [done|by left]|].
  assert (handle_ok h1 ∧ grows (h_floor h) (h_floor h1)) as [H1 Hg].
  { destruct Hs as [fuel id h1 Hid|ref data].
    - destruct (NewID_ok w Hw _ _ _ _ Hid Hh) as (? & _ & ? & Hf & _). split; [done|right; congruence].
    - destruct Hh as [? ? ?]. split; [by split|by left]. }
  destruct (IH H1). split; [done|by etrans].
Qed.

(** ** Reachable stores *)
Inductive store_step (w : World) (s : Store) : Store → Prop :=
| step_commit fuel req decide r s' :
    decides w decide → Commit w fuel req decide s = Some (r, s') → store_step w s s'
| step_rebuild s' : Rebuild s = Ok s' → store_step w s s'
| step_reopen : store_step w s (reopen s).

(** What can become of a store. *)
Definition future (w : World) : Store → Store → Prop := rtc (store_step w).

Definition reach (w : World) (s : Store) : Prop := future w fresh_store s.

Lemma reach_future w s s' : reach w s → future w s s' → reach w s'.
Proof. unfold reach, future. intros H1 H2. by trans s. Qed.

Record store_ok (s : Store) : Prop := MkStoreOk {
  st_db : db_ok (s_log s) (s_proj s);
  st_handle : handle_ok (s_handle s);
  st_minted : log_minted (s_log s) (h_floor (s_handle s));
}.

#[local] Opaque write_drafts stamp.

Lemma Commit_handle w fuel req decide s r s' :
  world_ok w → decides w decide → Commit w fuel req decide s = Some (r, s') →
  handle_ok (s_handle s) → log_minted (s_log s) (h_floor (s_handle s)) →
  handle_ok (s_handle s') ∧ log_minted (s_log s') (h_floor (s_handle s')).
Proof.
  intros Hw Hd H Hh Hm. unfold Commit in H. cbv zeta in H. case_match_hyp H; [by injection H as <- <-|].
  match type of H with match ?x with Ok _ => _ | Error _ => _ end = _ => destruct x as [[]|e] end;
    [|by injection H as <- <-].
  apply bind_Some in H as ([rd h1] & Hdec & H).
  destruct (handle_steps_ok w _ _ Hw (Hd _ _ _ _ _ Hdec) Hh) as [Hh1 Hg1].
  pose proof (log_minted_grow _ _ _ Hg1 Hm) as Hm1.
  destruct rd as [[|d ds]|e]; [by injection H as <- <-| |by injection H as <- <-].
  apply bind_Some in H as ([rw h2] & Hwr & H).
  destruct (write_drafts_handle _ _ _ _ _ _ _ _ _ _ Hw Hwr Hh1) as (Hh2 & Hg2 & Hl).
  destruct rw as [[[evs log'] p']|e]; injection H as <- <-; cbn; (split; [done|]).
  - by eapply Hl.
  - by eapply log_minted_grow.
Qed.

Lemma log_max_cases log : log_max log = "" ∨ ∃ e, e ∈ log ∧ ev_id e = log_max log.
Proof.
  induction log as [|x log IH]; [by left|]. rewrite log_max_cons. destruct (String.ltb _ _).
  - right. exists x. split; [by left|done].
  - destruct IH as [?|(e & ? & ?)]; [by left|]. right. exists e. split; [by right|done].
Qed.

Lemma reopen_ok s : store_ok s → store_ok (reopen s).
Proof.
  intros [Hdb _ Hm]. split; cbn [reopen s_log s_proj s_handle h_floor]; [done| |].
  - split; cbn; [apply newIDSource_wf|done|]. unfold loadFloor.
    destruct (log_max_cases (s_log s)) as [->|(e & He & <-)].
    + exists (-1)%Z. split_and!; [by left|done|done].
    + unfold log_minted in Hm. rewrite Forall_forall in Hm.
      destruct (Hm e He) as [(raw & Hb & Hl & ->) _]. pose proof (be_bound raw Hb).
      exists (be raw). split_and!; [right; eauto 10| |done]. intros _.
      change (source_value newIDSource) with 0%Z. lia.
  - apply Forall_forall. intros e He. unfold log_minted in Hm. rewrite Forall_forall in Hm.
    split; [by apply Hm|]. unfold loadFloor.
    destruct (slt_total (ev_id e) (log_max (s_log s))) as [?|[?|?]]; [by right|by left|].
    by destruct (log_max_bound _ _ He).
Qed.

Lemma Commit_db w fuel req decide s r s' :
  Commit w fuel req decide s = Some (r, s') → db_ok (s_log s) (s_proj s) → db_ok (s_log s') (s_proj s').
Proof.
  intros [(e & _ & -> & ->)|(ds & h1 & evs & _ & _ & _ & Hw)]%Commit_cases Hdb; [done|].
  by destruct (write_drafts_Ok _ _ _ _ _ _ _ _ _ _ _ _ Hw Hdb).
Qed.

Lemma store_step_ok w s s' : world_ok w → store_step w s s' → store_ok s → store_ok s'.
Proof.
  intros Hw [fuel req decide r s1 Hd Hc|s1 Hr|] Hok.
  - destruct Hok as [Hdb Hh Hm].
    destruct (Commit_handle _ _ _ _ _ _ _ Hw Hd Hc Hh Hm). split; [by eapply Commit_db|done..].
  - rewrite Rebuild_db in Hr by apply Hok. by injection Hr as <-.
  - by apply reopen_ok.
Qed.

Lemma future_ok w s s' : world_ok w → future w s s' → store_ok s → store_ok s'.
Proof. intros Hw. induction 1; eauto using store_step_ok. Qed.

Lemma fresh_ok : store_ok fresh_store.
Proof. split; [apply db_ok_fresh|apply fresh_handle_ok|constructor]. Qed.

Lemma reach_ok w s : world_ok w → reach w s → store_ok s.
Proof. intros Hw Hs. exact (future_ok w fresh_store s Hw Hs fresh_ok). Qed.

(** ** How rows and the log evolve *)
Lemma future_log w s s' : world_ok w → future w s s' → store_ok s → s_log s `prefix_of` s_log s'.
Proof.
  intros Hw. induction 1 as [s|s s1 s2 Hs _ IH]; intros Hok; [done|].
  etrans; [|apply IH; by eapply store_step_ok]. destruct Hs as [fuel req decide r s1 _ Hc|s1 Hr|].
  - apply Commit_cases in Hc as [(e & _ & -> & _)|(ds & h1 & evs & _ & _ & _ & Hwr)]; [done|].
    destruct (write_drafts_Ok _ _ _ _ _ _ _ _ _ _ _ _ Hwr) as [_ (new & [_ -> _ _])]; [apply Hok|].
    by apply prefix_app_r.
  - rewrite Rebuild_db in Hr by apply Hok. by injection Hr as <-.
  - done.
Qed.

Section evolve.
Context (t : tbl) (R : Row t → Row t → Prop) `{!PreOrder R}.
Context (HR : ∀ e q k o n, row_change e q t k o n → update_trigger t o n = true → R o n).

Lemma write_drafts_evolve w fuel req ds events log p h events' log' p' h' k o :
  write_drafts w fuel req ds events log p h = Some (Ok (events', log', p'), h') →
  tget t p !! k = Some o → ∃ n, tget t p' !! k = Some n ∧ R o n.
Proof using All.
  Transparent write_drafts.
  revert events log p h o. induction ds as [|d ds IH]; intros events log p h o; cbn [write_drafts].
  { intros [= -> -> -> ->] Ho. by exists o. }
  intros H Ho. apply bind_Some in H as ([re h1] & _ & H).
  match type of H with match ?x with _ => _ end = _ => destruct x as [[[ev log1] p1]|err] eqn:E end;
    [|discriminate H].
  inv_ok. subst. match goal with H : applyEvent _ _ _ = Ok _ |- _ => apply applyEvent_steps in H as Hs end.
  destruct (steps_evolve t R _ _ _ _ _ _ (HR _) Hs Ho) as (n & Hn & Hon).
  destruct (IH _ _ _ _ _ H Hn) as (n' & ? & ?). exists n'. split; [done|]. by etrans.
Qed.

(** Every row a store holds is in every future of that store, related to what
    it was by any preorder that contains the legal moves of its table. *)
Lemma future_evolve w s s' k o :
  world_ok w → store_ok s → future w s s' → tget t (s_proj s) !! k = Some o →
  ∃ n, tget t (s_proj s') !! k = Some n ∧ R o n.
Proof using All.
  intros Hw Hok Hf. revert o. induction Hf as [s|s s1 s2 Hs _ IH]; intros o Ho; [by exists o|].
  assert (∃ n, tget t (s_proj s1) !! k = Some n ∧ R o n) as (n & Hn & Hon).
  { destruct Hs as [fuel req decide r s1 _ Hc|s1 Hr|]; [| |by exists o].
    - apply Commit_cases in Hc as [(e & _ & _ & ->)|(ds & h1 & evs & _ & _ & _ & Hwr)]; [by exists o|].
      by eapply write_drafts_evolve.
    - rewrite Rebuild_db in Hr by apply Hok. injection Hr as <-. by exists o. }
  destruct (IH (store_step_ok _ _ _ Hw Hs Hok) n Hn) as (n' & ? & ?). exists n'. split; [done|]. by etrans.
Qed.
End evolve.

(** A row no legal move may start from is frozen. *)
Lemma future_frozen t (final : Row t → Prop) w s s' k r :
  (∀ e q j o n, row_change e q t j o n → ¬ final o) →
  world_ok w → store_ok s → future w s s' → tget t (s_proj s) !! k = Some r → final r →
  tget t (s_proj s') !! k = Some r.
Proof.
  intros Hno Hw Hok Hf Hk Hr. pose (R := λ o n : Row t, final o → n = o).
  assert (PreOrder R).
  { split; [by intros x|]. intros a b c H1 H2 Ha. pose proof (H1 Ha). subst b. by apply H2. }
  destruct (future_evolve t R) with (w := w) (s := s) (s' := s') (k := k) (o := r)
    as (n & Hn & HR); try done.
  - intros e q j o n Hc _ Ho. by destruct (Hno e q j o n Hc).
  - by rewrite (HR Hr) in Hn.
Qed.

(** ** A commit returns *)
Lemma Commit_returns w fuel req decide s rd h1 :
  world_ok w → decide (s_log s) (s_proj s) (s_handle s) = Some (rd, h1) →
  handle_ok h1 → current w h1 → (∀ ds, rd = Ok ds → ticking w (h_tick h1) (length ds)) →
  is_Some (Commit w (S fuel) req decide s).
Proof.
  intros Hw Hd Hh Hc Ht. unfold Commit. cbv zeta. destruct (negb _); [by eexists|].
  match goal with |- is_Some (match ?x with Ok _ => _ | Error _ => _ end) => destruct x end; [|by eexists].
  rewrite Hd. cbn [mbind option_bind]. destruct rd as [[|d ds]|e]; [by eexists| |by eexists].
  destruct (write_drafts_returns w fuel req (d :: ds) [] (s_log s) (s_proj s) h1) as [[rw h2] ->];
    [done..|by apply Ht|]. cbn [mbind option_bind].
  destruct rw as [[[? ?] ?]|]; by eexists.
Qed.
