(* ===== verification/Cycle.v ===== *)
(** The static cycle check (src/internal/store/cycle.go): the graph of edges in
    force, the stack search behind WouldCycle, and the enumeration of loops the
    audit reports.  [reaches] decides the transitive closure, an edge admitted by
    WouldCycle keeps the graph acyclic, and Cycles reports exactly the simple
    loops, each once, each rotated to its smallest node. *)
From stdpp Require Import relations.
From S2P Require Import Prelude GoStd Ulid Taxonomy Json Payloads Tables View Gates Project Steps.
From S2P Require Import Invariants.

(** waitsFor: what each node is waiting for, in edge-identity order. *)
Notation waitsFor := (gmap string (list string)).

Definition succs (g : waitsFor) (x : string) : list string := default [] (g !! x).

(** graph[blocked] = append(graph[blocked], blocker) *)
Definition add_edge (g : waitsFor) (e : Edge) : waitsFor :=
  <[e_blocked e := succs g (e_blocked e) ++ [e_blocker e]]> g.

Definition liveEdgeGraph (p : Proj) : waitsFor := foldl add_edge ∅ (LiveEdges p).

(** ** The search *)

(** The inner loop: [None] when the target is met, otherwise the new seen set
    and stack (top first). *)
Fixpoint visit (to : string) (nexts : list string) (seen : gset string) (stack : list string)
    : option (gset string * list string) :=
  match nexts with
  | [] => Some (seen, stack)
  | next :: nexts =>
      if bool_decide (next = to) then None
      else if bool_decide (next ∈ seen) then visit to nexts seen stack
      else visit to nexts ({[next]} ∪ seen) (next :: stack)
  end.

Fixpoint search (fuel : nat) (g : waitsFor) (to : string) (seen : gset string)
    (stack : list string) : option bool :=
  match fuel with
  | O => None
  | S fuel =>
      match stack with
      | [] => Some false
      | cur :: stack =>
          match visit to (succs g cur) seen stack with
          | None => Some true
          | Some (seen', stack') => search fuel g to seen' stack'
          end
      end
  end.

(** Everything a search from [from] can push. *)
Definition universe (g : waitsFor) (from : string) : gset string :=
  {[from]} ∪ list_to_set (concat (snd <$> map_to_list g)).

(** Each node is pushed at most once, so one pop per node is enough. *)
Definition reaches (g : waitsFor) (from to : string) : bool :=
  default false (search (S (size (universe g from))) g to {[from]} [from]).

Definition WouldCycle (p : Proj) (blocked blocker : string) : bool :=
  bool_decide (blocked = blocker) || reaches (liveEdgeGraph p) blocker blocked.

(** ** The audit *)

Definition sort_strings (l : list string) : list string := order_by String.leb l.

(** walk: [path] also says which nodes are on the path. *)
Fixpoint walk (fuel : nat) (g : waitsFor) (start node : string) (path : list string)
    : list (list string) :=
  match fuel with
  | O => []
  | S fuel =>
      sort_strings (succs g node) ≫= λ target,
        if bool_decide (target = start) then [path]
        else if String.ltb target start || bool_decide (target ∈ path) then []
        else walk fuel g start target (path ++ [target])
  end.

Definition starts (g : waitsFor) : list string := sort_strings (fst <$> map_to_list g).

(** A path visits a node at most once, so its length bounds the recursion. *)
Definition cycles_of (g : waitsFor) : list (list string) :=
  starts g ≫= λ start, walk (S (size (universe g start))) g start start [start].

Definition Cycles (p : Proj) : list (list string) := cycles_of (liveEdgeGraph p).

(** ** The graph as a relation *)
Definition waits (g : waitsFor) (x y : string) : Prop := y ∈ succs g x.

Lemma succs_add_edge g e x y :
  y ∈ succs (add_edge g e) x ↔ y ∈ succs g x ∨ (x = e_blocked e ∧ y = e_blocker e).
Proof.
  unfold add_edge, succs. destruct (decide (e_blocked e = x)) as [<-|Hne].
  - rewrite lookup_insert_eq. cbn. rewrite elem_of_app, list_elem_of_singleton. naive_solver.
  - rewrite lookup_insert_ne by done. naive_solver.
Qed.

Lemma waits_foldl es g x y :
  waits (foldl add_edge g es) x y ↔
    waits g x y ∨ ∃ e, e ∈ es ∧ x = e_blocked e ∧ y = e_blocker e.
Proof.
  revert g. induction es as [|e es IH]; intros g; cbn; [set_solver|].
  rewrite IH. unfold waits. rewrite succs_add_edge. set_solver.
Qed.

(** x waits for y exactly when an edge in force says so. *)
Lemma waits_live p x y :
  waits (liveEdgeGraph p) x y ↔
    ∃ k r, edges p !! k = Some r ∧ in_force p r = true ∧ eg_blocked r = x ∧ eg_blocker r = y.
Proof.
  unfold liveEdgeGraph. rewrite waits_foldl. unfold LiveEdges, edgeList.
  setoid_rewrite list_elem_of_fmap. split.
  - intros [H|(e & ([k r] & -> & Hk) & -> & ->)]; [by apply elem_of_nil in H|].
    apply (elem_of_select TEdges) in Hk as [Hk Hg]. inv_bool. naive_solver.
  - intros (k & r & Hk & Hf & <- & <-). right. exists (MkEdge k (eg_blocked r) (eg_blocker r)).
    split; [|done]. exists (k, r). split; [done|]. apply (elem_of_select TEdges). by rewrite Hf.
Qed.

Definition acyclic {A} (R : relation A) : Prop := ∀ x, ¬ tc R x x.

Lemma tc_rtc_r_inv {A} (R : relation A) x y : tc R x y → ∃ z, rtc R x z ∧ R z y.
Proof.
  induction 1 as [x y H|x z y H _ (u & Hu & ?)]; [by exists x; split|].
  exists u. split; [by eapply rtc_l|done].
Qed.

(** ** The search decides the closure *)
Section search.
Context (g : waitsFor) (from to : string).

Lemma visit_None nexts seen stack :
  visit to nexts seen stack = None ↔ to ∈ nexts.
Proof.
  revert seen stack. induction nexts as [|n nexts IH]; intros seen stack; cbn; [set_solver|].
  case_bool_decide; [set_solver|]. case_bool_decide; rewrite IH; set_solver.
Qed.

Lemma visit_Some nexts seen stack seen' stack' :
  visit to nexts seen stack = Some (seen', stack') →
  seen' = seen ∪ list_to_set nexts
  ∧ (∀ x, x ∈ stack' ↔ x ∈ stack ∨ (x ∈ nexts ∧ x ∉ seen))
  ∧ (length stack' + size seen = length stack + size seen')%nat
  ∧ ((∀ x, x ∈ stack → x ∈ seen) → NoDup stack → NoDup stack').
Proof.
  revert seen stack. induction nexts as [|n nexts IH]; intros seen stack; cbn.
  { intros [= <- <-]. split_and!; [set_solver|set_solver|lia|done]. }
  case_bool_decide; [done|]. case_bool_decide as Hn; intros H'; destruct (IH _ _ H') as (-> & Hs & Hl & Hd).
  - split_and!; [clear -Hn; set_solver| |done|done].
    intros x. rewrite Hs. clear -Hn. set_solver.
  - split_and!; [clear; set_solver| | |].
    + intros x. rewrite Hs. rewrite !elem_of_cons, elem_of_union, elem_of_singleton.
      clear -Hn. destruct (decide (x = n)) as [->|]; tauto.
    + cbn in Hl. rewrite size_union, size_singleton in Hl by set_solver. lia.
    + intros Hsub Hnd. apply Hd; [set_solver|]. constructor; [|done]. intros ?%Hsub. done.
Qed.

(** What has been seen, and closed under edges off the stack. *)
Definition search_inv (seen : gset string) (stack : list string) : Prop :=
  from ∈ seen ∧ (∀ x, x ∈ stack → x ∈ seen)
  ∧ (∀ x, x ∈ seen → rtc (waits g) from x)
  ∧ (∀ x y, x ∈ seen → x ∉ stack → waits g x y → y ∈ seen ∧ y ≠ to)
  ∧ seen ⊆ universe g from.

Lemma universe_succ x y : waits g x y → y ∈ universe g from.
Proof.
  unfold waits, succs, universe. intros Hy. apply elem_of_union_r, elem_of_list_to_set.
  destruct (g !! x) as [l|] eqn:E; [|by apply elem_of_nil in Hy]. cbn in Hy.
  apply list_elem_of_In, in_concat. exists l. rewrite <-!list_elem_of_In. split; [|done].
  apply list_elem_of_fmap. exists (x, l). split; [done|]. by apply elem_of_map_to_list.
Qed.

Lemma search_spec fuel seen stack :
  search_inv seen stack → NoDup stack →
  (size (universe g from) - size seen + length stack < fuel)%nat →
  ∃ b, search fuel g to seen stack = Some b ∧ (b = true ↔ tc (waits g) from to).
Proof.
  revert seen stack. induction fuel as [|fuel IH]; intros seen stack Hinv Hnd Hf; [lia|].
  destruct Hinv as (H1 & H2 & H3 & H4 & H5). cbn [search]. destruct stack as [|cur stack].
  - exists false. split; [done|]. split; [done|]. intros Ht. exfalso.
    assert (∀ z, rtc (waits g) from z → z ∈ seen) as Hcl.
    { apply rtc_ind_r; [done|]. intros z z' _ Hzz IHz.
      apply (H4 z z'); [done|by intros ?%elem_of_nil|done]. }
    apply tc_rtc_r_inv in Ht as (z & Hz & Hzt).
    apply (H4 z to); [by apply Hcl|by intros ?%elem_of_nil|done|done].
  - destruct (visit to (succs g cur) seen stack) as [[seen' stack']|] eqn:E.
    + pose proof E as Hno. destruct (visit_Some _ _ _ _ _ E) as (-> & Hs & Hl & Hd).
      assert (to ∉ succs g cur) as Hto.
      { intros Hin. apply (visit_None _ seen stack) in Hin. congruence. }
      apply NoDup_cons in Hnd as [Hcur Hnd]. apply IH.
      * split_and!; [set_solver|set_solver| | |].
        -- intros x [Hx|Hx%elem_of_list_to_set]%elem_of_union; [by apply H3|].
           eapply rtc_r; [apply H3, H2; by left|done].
        -- intros x y Hx Hxs Hxy. destruct (decide (x = cur)) as [->|Hne].
           ++ split; [apply elem_of_union_r, elem_of_list_to_set, Hxy|]. by intros ->.
           ++ apply elem_of_union in Hx as [Hx|Hx%elem_of_list_to_set].
              ** destruct (H4 x y Hx) as [? ?]; [|done|set_solver]. set_solver.
              ** destruct (decide (x ∈ seen)) as [Hx'|Hx']; [|set_solver].
                 destruct (H4 x y Hx') as [? ?]; [|done|set_solver]. set_solver.
        -- apply union_subseteq. split; [done|]. intros y Hy%elem_of_list_to_set.
           by eapply universe_succ.
      * apply Hd; [|done]. intros x Hx. apply H2. by right.
      * assert (size (seen ∪ list_to_set (succs g cur)) ≤ size (universe g from)).
        { apply subseteq_size, union_subseteq. split; [done|]. intros y Hy%elem_of_list_to_set.
          by eapply universe_succ. }
        assert (size seen ≤ size (seen ∪ list_to_set (succs g cur))) by (apply subseteq_size; set_solver).
        cbn in Hf. lia.
    + apply visit_None in E. exists true. split; [done|]. split; [|done]. intros _.
      eapply tc_rtc_l; [apply H3, H2; by left|]. by apply tc_once.
Qed.
End search.

Lemma search_start g from to : search_inv g from to {[from]} [from].
Proof.
  split_and!; [set_solver|set_solver| | |].
  - intros x ->%elem_of_singleton. apply rtc_refl.
  - intros x y ->%elem_of_singleton []. by left.
  - unfold universe. set_solver.
Qed.

Lemma reaches_iff g from to : reaches g from to = true ↔ tc (waits g) from to.
Proof.
  unfold reaches. destruct (search_spec g from to (S (size (universe g from))) {[from]} [from])
    as (b & -> & Hb); [apply search_start|apply NoDup_singleton| |done].
  assert (1 ≤ size (universe g from))%nat.
  { rewrite <-(size_singleton (C := gset string) from). apply subseteq_size.
    unfold universe. set_solver. }
  rewrite size_singleton. cbn. lia.
Qed.

Lemma WouldCycle_false p a b :
  WouldCycle p a b = false ↔ a ≠ b ∧ ¬ tc (waits (liveEdgeGraph p)) b a.
Proof.
  unfold WouldCycle. rewrite orb_false_iff, bool_decide_eq_false, <-not_true_iff_false, reaches_iff.
  done.
Qed.

(** ** Adding one edge *)
Definition plus_edge {A} (R : relation A) (a b : A) : relation A :=
  λ x y, R x y ∨ (x = a ∧ y = b).

Lemma tc_plus_edge {A} (R : relation A) a b x y :
  tc (plus_edge R a b) x y → tc R x y ∨ (rtc R x a ∧ rtc R b y).
Proof.
  induction 1 as [x y [H|[-> ->]]|x z y [H|[-> ->]] _ IH].
  - left. by apply tc_once.
  - right. split; apply rtc_refl.
  - destruct IH as [?|[? ?]]; [left; by eapply tc_l|right; split; [by eapply rtc_l|done]].
  - right. destruct IH as [?|[_ ?]]; (split; [apply rtc_refl|]); [by apply tc_rtc|done].
Qed.

Lemma acyclic_plus_edge {A} (R : relation A) a b :
  acyclic R → a ≠ b → ¬ tc R b a → acyclic (plus_edge R a b).
Proof.
  intros HR Hab Hba x [H|[H1 H2]]%tc_plus_edge; [by eapply HR|].
  assert (rtc R b a) as [?|?]%rtc_tc by (by trans x); [by subst|done].
Qed.

Lemma acyclic_mono {A} (R S : relation A) : (∀ x y, R x y → S x y) → acyclic S → acyclic R.
Proof. intros H HS x Hx. apply (HS x). by eapply tc_congruence with (f := id). Qed.

(** ** The graph across a step *)

(** A node that lives after a step and existed before it lived before it. *)
Lemma live_node_back c ev p q k :
  step c ev p q → is_Some (nodes p !! k) → is_some (live_node q k) = true →
  is_some (live_node p k) = true.
Proof.
  intros Hs [o Ho] Hl. apply is_some_true in Hl as [n [Hn Hnt]%live_node_Some].
  apply is_some_true. exists o. apply live_node_Some. split; [done|].
  destruct (step_table _ _ _ _ TNodes Hs) as [He|j r Hj He _ _ _ _|j x y Hx He _ _ _ Hc];
    cbn in He; rewrite He in Hn.
  - congruence.
  - apply lookup_insert_Some in Hn as [[<- _]|[_ Hn]]; [cbn in Hj|]; congruence.
  - apply lookup_insert_Some in Hn as [[<- <-]|[_ Hn]]; [|congruence].
    cbn in Hx. rewrite Ho in Hx. injection Hx as <-. by destruct Hc as [? _].
Qed.

(** The edge a dependency.added bears. *)
Definition borne_edge (ev : Event) (x y : string) : Prop :=
  enum_parse (ev_type ev) = Some TypeDependencyAdded ∧ x = ev_subject ev
  ∧ ∃ d, decode (S := DependencyChange) (ev_payload ev) = Ok d ∧ y = DependencyChange_Blocker d.

Lemma step_waits log ev p q x y :
  step (MkCtx log true) ev p q → refs_ok log p →
  waits (liveEdgeGraph q) x y → waits (liveEdgeGraph p) x y ∨ borne_edge ev x y.
Proof.
  intros Hs Hr (k & r & Hk & Hf & Hx & Hy)%waits_live.
  assert (Hback : edges p !! k = Some r → waits (liveEdgeGraph p) x y).
  { intros Hk'. apply waits_live. exists k, r. split_and!; [done| |done..].
    unfold in_force in *. inv_bool. pose proof (Hr TEdges k r Hk') as Href. cbn in Href. inv_bool.
    repeat match goal with H : is_some (nodes p !! _) = true |- _ => apply is_some_true in H end.
    rewrite !andb_true_iff. split_and!; [done|by eapply live_node_back..]. }
  destruct (step_table _ _ _ _ TEdges Hs) as [He|j r' Hj He _ _ _ Hb|j o n Ho He _ _ _ Hc];
    cbn in He; rewrite He in Hk.
  - left. by apply Hback.
  - apply lookup_insert_Some in Hk as [[<- <-]|[_ Hk]]; [|left; by apply Hback].
    right. destruct Hb as (_ & Ht & Hbl & d & Hd & Hbr). split_and!; [done|congruence|].
    exists d. split; [done|congruence].
  - apply lookup_insert_Some in Hk as [[<- <-]|[_ Hk]]; [|left; by apply Hback].
    exfalso. destruct Hc as (_ & Ht & _). unfold in_force, edge_live in Hf. by rewrite Ht in Hf.
Qed.

(** Edges in force after the fold of an event were in force before it, unless
    the event is the dependency.added that bears them. *)
Lemma steps_waits log ev p p' x y :
  steps (MkCtx log true) ev p p' → refs_ok log p →
  waits (liveEdgeGraph p') x y → waits (liveEdgeGraph p) x y ∨ borne_edge ev x y.
Proof.
  induction 1 as [p|p q p' Hs Hss IH]; [by left|]. intros Hr Hxy.
  destruct IH as [Hq|?]; [by eapply refs_ok_stable|done| |by right].
  by eapply step_waits.
Qed.

(** The fold keeps the graph acyclic, given the check the verb makes. *)
Lemma applyEvent_acyclic log ev p p' :
  refs_ok log p → applyEvent (MkCtx log true) ev p = Ok p' →
  (∀ x y, borne_edge ev x y → WouldCycle p x y = false) →
  acyclic (waits (liveEdgeGraph p)) → acyclic (waits (liveEdgeGraph p')).
Proof.
  intros Hr Ha%applyEvent_steps Hb Hac.
  destruct (decide (enum_parse (ev_type ev) = Some TypeDependencyAdded)) as [Ht|Ht];
    [destruct (decode (S := DependencyChange) (ev_payload ev)) as [d|] eqn:Hd|].
  - assert (borne_edge ev (ev_subject ev) (DependencyChange_Blocker d)) as [Hab Hba]%Hb%WouldCycle_false
      by (split_and!; eauto).
    eapply acyclic_mono; [|by apply (acyclic_plus_edge _ _ _ Hac Hab Hba)].
    intros x y Hxy. destruct (steps_waits _ _ _ _ _ _ Ha Hr Hxy) as [?|(_ & -> & d' & Hd' & ->)]; [by left|].
    right. split; congruence.
  - eapply acyclic_mono; [|exact Hac]. intros x y Hxy.
    destruct (steps_waits _ _ _ _ _ _ Ha Hr Hxy) as [?|(_ & _ & d' & Hd' & _)]; [done|congruence].
  - eapply acyclic_mono; [|exact Hac]. intros x y Hxy.
    by destruct (steps_waits _ _ _ _ _ _ Ha Hr Hxy) as [?|(? & _)].
Qed.

(** ** The audit reports exactly the loops *)

(** x, then the nodes of l, each waiting for the next. *)
Fixpoint linked (g : waitsFor) (x : string) (l : list string) : Prop :=
  match l with [] => True | y :: l => waits g x y ∧ linked g y l end.

Fixpoint last_of (x : string) (l : list string) : string :=
  match l with [] => x | y :: l => last_of y l end.

(** A simple loop, written from its smallest node. *)
Definition is_loop (g : waitsFor) (c : list string) : Prop :=
  ∃ x ext, c = x :: ext ∧ linked g x ext ∧ waits g (last_of x ext) x
           ∧ Forall (slt x) ext ∧ NoDup ext.

Section walk.
Context (g : waitsFor).

(** The ways on from the end of a path back to [start]. *)
Definition way_back (start node : string) (path ext : list string) : Prop :=
  linked g node ext ∧ waits g (last_of node ext) start
  ∧ Forall (λ y, start <s y ∧ y ∉ path) ext ∧ NoDup ext.

Lemma elem_of_walk fuel start node path c :
  start ∈ path →
  c ∈ walk fuel g start node path ↔
    ∃ ext, c = path ++ ext ∧ way_back start node path ext ∧ (length ext < fuel)%nat.
Proof.
  revert node path. induction fuel as [|fuel IH]; intros node path Hst; cbn [walk].
  { split; [by intros ?%elem_of_nil|]. intros (? & _ & _ & ?). lia. }
  rewrite list_elem_of_bind. unfold sort_strings. setoid_rewrite elem_of_order_by. split.
  - intros (y & Hc & Hy). case_bool_decide as Hys.
    { apply list_elem_of_singleton in Hc as ->. subst y. exists [].
      rewrite app_nil_r. split; [done|]. split; [|cbn; lia].
      split_and!; [done|done|constructor|constructor]. }
    destruct (String.ltb y start) eqn:Hlt; cbn [orb] in Hc; [by apply elem_of_nil in Hc|].
    case_bool_decide as Hp; [by apply elem_of_nil in Hc|].
    apply IH in Hc as (ext & -> & (H1 & H2 & H3 & H4) & H5); [|set_solver].
    exists (y :: ext). rewrite <-app_assoc. split; [done|]. split; [|cbn; lia].
    assert (start <s y) by (destruct (slt_total start y) as [?|[?|Hz]]; [done|congruence|unfold slt in Hz; congruence]).
    split_and!; cbn [linked last_of]; [done|done| |].
    + constructor; [done|]. eapply Forall_impl; [exact H3|]. cbn. set_solver.
    + constructor; [|done]. intros Hin. rewrite Forall_forall in H3. destruct (H3 y Hin). set_solver.
  - intros (ext & -> & (H1 & H2 & H3 & H4) & H5). destruct ext as [|y ext].
    { exists start. rewrite bool_decide_true by done. rewrite app_nil_r. by split; [left|]. }
    cbn in H1, H2, H5. destruct H1 as [Hy H1]. apply Forall_cons in H3 as [[Hlt Hp] H3].
    apply NoDup_cons in H4 as [Hn H4]. exists y. split; [|done].
    rewrite bool_decide_false by (intros ->; by apply slt_irrefl in Hlt).
    rewrite (bool_decide_false (y ∈ path)) by done.
    destruct (String.ltb y start) eqn:E; [by apply slt_asym in Hlt|]. cbn [orb].
    apply IH; [set_solver|]. exists ext. rewrite <-app_assoc. split; [done|]. split; [|lia].
    split_and!; [done..| |done]. rewrite Forall_forall in H3 |- *. intros z Hz. destruct (H3 z Hz).
    split; [done|]. rewrite elem_of_app, list_elem_of_singleton. by intros [?| ->].
Qed.

Lemma linked_universe from x l y : linked g x l → y ∈ l → y ∈ universe g from.
Proof.
  revert x. induction l as [|z l IH]; intros x; [by intros _ ?%elem_of_nil|].
  intros [Hz Hl] [->|Hy]%elem_of_cons; [by eapply universe_succ|by eapply IH].
Qed.

Lemma elem_of_cycles c : c ∈ cycles_of g ↔ is_loop g c.
Proof.
  unfold cycles_of, starts. rewrite list_elem_of_bind. unfold sort_strings.
  setoid_rewrite elem_of_order_by. split.
  - intros (x & Hc & _). apply elem_of_walk in Hc as (ext & -> & (H1 & H2 & H3 & H4) & _); [|set_solver].
    exists x, ext. split_and!; [done..| |done]. eapply Forall_impl; [exact H3|]. by intros ? [? _].
  - intros (x & ext & -> & H1 & H2 & H3 & H4). exists x. split.
    + apply elem_of_walk; [set_solver|]. exists ext. split; [done|]. split.
      * split_and!; [done..| |done]. eapply Forall_impl; [exact H3|]. intros y Hy. split; [done|].
        intros ->%list_elem_of_singleton. by apply slt_irrefl in Hy.
      * apply Nat.lt_succ_r. rewrite <-(size_list_to_set (C := gset string) ext) by done.
        apply subseteq_size. intros y Hy%elem_of_list_to_set. by eapply linked_universe.
    + assert (is_Some (g !! x)) as [l Hl].
      { assert (∃ y, waits g x y) as [y Hy] by (destruct ext as [|y ext]; [by eauto|destruct H1; eauto]).
        unfold waits, succs in Hy. destruct (g !! x); [done|by apply elem_of_nil in Hy]. }
      apply list_elem_of_fmap. exists (x, l). split; [done|]. by apply elem_of_map_to_list.
Qed.

(** Each loop is reported once, if no edge is doubled. *)
Lemma walk_NoDup fuel start node path :
  (∀ x, NoDup (succs g x)) → start ∈ path → NoDup (walk fuel g start node path).
Proof.
  intros Hnd. revert node path. induction fuel as [|fuel IH]; intros node path Hst; cbn [walk]; [constructor|].
  assert (Hel : ∀ y c, c ∈ (if bool_decide (y = start) then [path]
      else if String.ltb y start || bool_decide (y ∈ path) then []
      else walk fuel g start y (path ++ [y])) →
      (y = start ∧ c = path) ∨ (y ≠ start ∧ ∃ ext, c = path ++ y :: ext)).
  { intros y c. case_bool_decide; [intros ->%list_elem_of_singleton; by left|].
    destruct (_ || _); [by intros ?%elem_of_nil|]. intros (ext & -> & _)%elem_of_walk; [|set_solver].
    right. split; [done|]. exists ext. by rewrite <-app_assoc. }
  apply NoDup_bind.
  - intros y z c _ _ [[-> ->]|(Hy & e1 & ->)]%Hel [[-> Hc]|(Hz & e2 & Hc)]%Hel.
    + done.
    + exfalso. apply (f_equal length) in Hc. rewrite length_app in Hc. cbn in Hc. lia.
    + exfalso. apply (f_equal length) in Hc. rewrite length_app in Hc. cbn in Hc. lia.
    + apply app_inv_head in Hc. by injection Hc.
  - intros y _. case_bool_decide; [apply NoDup_singleton|]. destruct (_ || _); [constructor|].
    apply IH. set_solver.
  - unfold sort_strings. rewrite order_by_perm. apply Hnd.
Qed.

Lemma cycles_NoDup : (∀ x, NoDup (succs g x)) → NoDup (cycles_of g).
Proof.
  intros Hnd. unfold cycles_of, starts. apply NoDup_bind.
  - intros x y c _ _ Hx Hy. apply elem_of_walk in Hx as (e1 & -> & _); [|set_solver].
    apply elem_of_walk in Hy as (e2 & H & _); [|set_solver]. by injection H.
  - intros x _. apply walk_NoDup; [done|set_solver].
  - unfold sort_strings. rewrite order_by_perm. apply NoDup_fst_map_to_list.
Qed.
End walk.

(** ** No loop reported means no cycle *)
Section extract.
Context (g : waitsFor).

Lemma linked_app x a y b :
  linked g x (a ++ y :: b) ↔ linked g x a ∧ waits g (last_of x a) y ∧ linked g y b.
Proof. revert x. induction a as [|z a IH]; intros x; cbn; [tauto|]. rewrite IH. tauto. Qed.

Lemma last_of_app x a y b : last_of x (a ++ y :: b) = last_of y b.
Proof. revert x. induction a as [|z a IH]; intros x; cbn; [done|apply IH]. Qed.

Lemma linked_rtc x l : linked g x l → rtc (waits g) x (last_of x l).
Proof.
  revert x. induction l as [|y l IH]; intros x; cbn; [by intros _; apply rtc_refl|].
  intros [Hy Hl]. eapply rtc_l; [done|by apply IH].
Qed.

Lemma tc_linked x y : tc (waits g) x y → ∃ l, linked g x l ∧ waits g (last_of x l) y.
Proof.
  induction 1 as [x y H|x z y H _ (l & Hl & Hy)]; [by exists []|]. by exists (z :: l).
Qed.

Lemma min_string (x : string) l : ∃ m, m ∈ x :: l ∧ ∀ y, y ∈ x :: l → y = m ∨ m <s y.
Proof.
  revert x. induction l as [|z l IH]; intros x; [exists x; set_solver|].
  destruct (IH z) as (m & Hm & Hmin). destruct (slt_total x m) as [Hlt|[->|Hlt]].
  - exists x. split; [by left|]. intros y [->|Hy]%elem_of_cons; [by left|right].
    destruct (Hmin y Hy) as [->|?]; [done|by eapply slt_trans].
  - exists m. split; [by left|]. intros y [->|Hy]%elem_of_cons; [by left|by apply Hmin].
  - exists m. split; [by right|]. intros y [->|Hy]%elem_of_cons; [by right|by apply Hmin].
Qed.

(** A closed walk that repeats no node, rotated to its smallest node. *)
Lemma rotate_loop x l :
  linked g x l → waits g (last_of x l) x → NoDup (x :: l) → ∃ c, is_loop g c.
Proof.
  intros Hl Hx Hnd. destruct (min_string x l) as (m & Hm & Hmin).
  assert (Hgt : ∀ a b, x :: l = a ++ m :: b → Forall (slt m) (b ++ a) ∧ NoDup (b ++ a)).
  { intros a b E. rewrite E in Hnd, Hmin. pose proof Hnd as Hp.
    rewrite Permutation_app_comm in Hp. cbn in Hp. apply NoDup_cons in Hp as [Hn Hp].
    split; [|done]. apply Forall_forall. intros y Hy. destruct (Hmin y) as [->|?]; [set_solver|done|done]. }
  apply list_elem_of_split in Hm as (a & b & E). destruct (Hgt a b E) as [Hf Hd].
  destruct a as [|x' a]; cbn in E; injection E as -> ->.
  - exists (m :: b), m, b. rewrite app_nil_r in Hf, Hd. done.
  - apply linked_app in Hl as (Ha & Hm' & Hb). rewrite last_of_app in Hx.
    exists (m :: b ++ x' :: a), m, (b ++ x' :: a). rewrite linked_app, last_of_app. done.
Qed.

Lemma extract_loop n x l :
  (length l < n)%nat → linked g x l → waits g (last_of x l) x → ∃ c, is_loop g c.
Proof.
  revert x l. induction n as [|n IH]; intros x l Hn Hl Hx; [lia|].
  destruct (decide (NoDup (x :: l))) as [Hnd|Hnd]; [by eapply rotate_loop|].
  assert (∃ a y b c, x :: l = a ++ y :: b ++ y :: c) as (a & y & b & c & E).
  { clear -Hnd. revert Hnd. generalize (x :: l). clear x l. intros l.
    induction l as [|z l IH]; intros Hnd; [destruct Hnd; constructor|].
    destruct (decide (z ∈ l)) as [Hz|Hz].
    - apply list_elem_of_split in Hz as (b & c & ->). by exists [], z, b, c.
    - destruct IH as (a & y & b & c & ->); [|by exists (z :: a), y, b, c].
      intros H. apply Hnd. by constructor. }
  assert (linked g y (b ++ y :: c)) as Hy.
  { destruct a as [|x' a]; cbn in E; injection E as -> ->; [done|]. by apply linked_app in Hl as (_ & _ & ?). }
  apply linked_app in Hy as (Hb & Hby & _). apply (IH y b); [|done..].
  apply (f_equal length) in E. rewrite !length_app in E. cbn in E. rewrite length_app in E. cbn in E. lia.
Qed.

Lemma loop_cyclic c : is_loop g c → ¬ acyclic (waits g).
Proof.
  intros (x & ext & -> & Hl & Hx & _) Hac. apply (Hac x).
  eapply tc_rtc_l; [by apply linked_rtc|]. by apply tc_once.
Qed.

Lemma cycles_nil_iff : cycles_of g = [] ↔ acyclic (waits g).
Proof.
  split.
  - intros H x (l & Hl & Hx)%tc_linked. destruct (extract_loop (S (length l)) x l) as (c & Hc); [lia|done..|].
    apply elem_of_cycles in Hc. rewrite H in Hc. by apply elem_of_nil in Hc.
  - intros Hac. apply elem_of_nil_inv. intros c Hc%elem_of_cycles. by eapply loop_cyclic.
Qed.
End extract.

(** ** The store's UNIQUE index keeps the graph free of doubled edges *)
Lemma succs_foldl es g x :
  succs (foldl add_edge g es) x = succs g x ++ (e_blocker <$> filter (λ e, e_blocked e = x) es).
Proof.
  revert g. induction es as [|e es IH]; intros g; cbn [foldl]; [by rewrite filter_nil, app_nil_r|].
  rewrite IH, filter_cons. unfold add_edge at 1, succs at 1.
  destruct (decide (e_blocked e = x)) as [<-|Hne].
  - rewrite lookup_insert_eq. cbn. by rewrite <-app_assoc.
  - by rewrite lookup_insert_ne.
Qed.

Lemma live_succs_NoDup p x : unique p → NoDup (succs (liveEdgeGraph p) x).
Proof.
  intros Hu. unfold liveEdgeGraph. rewrite succs_foldl. cbn [succs default]. rewrite app_nil_l.
  unfold LiveEdges, edgeList. set (sel := select TEdges p _ _).
  assert (Hsel : ∀ k r, (k, r) ∈ sel → edges p !! k = Some r ∧ edge_live r = true).
  { intros k r Hin. apply (elem_of_select TEdges) in Hin as [Hk Hg]. unfold in_force in Hg. by inv_bool. }
  assert (Hnd : NoDup sel) by apply select_NoDup. revert Hsel Hnd. generalize sel. clear sel. intros sel.
  induction sel as [|[k r] sel IH]; intros Hsel Hnd; [constructor|].
  apply NoDup_cons in Hnd as [Hk Hnd]. rewrite fmap_cons, filter_cons. cbn [e_blocked fst snd].
  assert (NoDup (e_blocker <$> filter (λ e, e_blocked e = x)
    ((λ kr : Key TEdges * Row TEdges, MkEdge kr.1 (eg_blocked kr.2) (eg_blocker kr.2)) <$> sel))) as IH'.
  { apply IH; [|done]. intros k' r' ?. apply Hsel. by right. }
  case_decide as Hx; [|done]. rewrite fmap_cons. constructor; [|done].
  intros (e & He & (Hex & ([k' r'] & -> & Hin)%list_elem_of_fmap)%list_elem_of_filter)%list_elem_of_fmap.
  cbn in He, Hex. destruct (Hsel k r) as [H1 L1]; [by left|].
  destruct (Hsel k' r') as [H2 L2]; [by right|]. destruct (decide (k = k')) as [<-|Hne].
  - rewrite H1 in H2. injection H2 as <-. done.
  - pose proof (Hu TEdges k k' r r' H1 H2 Hne) as Hc. cbn in Hc. rewrite L1, L2 in Hc. cbn in Hc.
    rewrite !bool_decide_true in Hc by congruence. done.
Qed.
