(* ===== verification/Completion.v ===== *)
(** What the gate evaluator answers (src/internal/store/gates.go): the walk to
    the root needs three nodes, completion is the conjunction the doc comments
    state, the overlay predicts the write it stands for, closed-gate metadata
    never fails on a store the fold built, and the archive of Go agrees with the
    archived_matters view of SQL. *)
From stdpp Require Import relations.
From S2P Require Import Prelude GoStd Ulid Taxonomy Json Payloads Tables View Gates Project Store.
From S2P Require Import Steps Invariants Shape Mint Reach.

(** ** The walk *)
Definition scale_rank (s : Scale) : nat :=
  match s with ScaleMatter => 1 | ScaleStage => 2 | ScaleStep => 3 end.

Lemma view_Node_Ok p id n :
  view_Node p id = Ok n ↔ ∃ r, nodes p !! id = Some r ∧ nd_tombstone r = None ∧ n = scanNode id r.
Proof.
  unfold view_Node. destruct (live_node p id) as [r|] eqn:E.
  - apply live_node_Some in E. naive_solver.
  - split; [done|]. intros (r & H1 & H2 & _). by rewrite (proj2 (live_node_Some p id r)) in E.
Qed.

(** The parent of a live node is one scale up or two. *)
Lemma parent_rank p id n n' :
  tree_ok p → view_Node p id = Ok n → n_parent n ≠ "" → view_Node p (n_parent n) = Ok n' →
  (scale_rank (n_kind n') < scale_rank (n_kind n))%nat.
Proof.
  intros Ht (r & Hr & _ & ->)%view_Node_Ok Hne (r' & Hr' & _ & ->)%view_Node_Ok. cbn in *.
  specialize (Ht id r Hr). unfold node_ok in Ht. destruct (nd_parent r) as [pk|]; [|done].
  cbn in Hr'. destruct Ht as (pr & Hpr & _ & Hb). rewrite Hr' in Hpr. injection Hpr as ->.
  destruct (nd_kind r), (nd_kind pr); cbn in *; (done || lia).
Qed.

(** More fuel than the depth of the tree changes nothing, so the bounded walk
    is the loop of the source. *)
Lemma walk_fuel_enough log p decls target id n fuel fuel' :
  tree_ok p → view_Node p id = Ok n →
  (scale_rank (n_kind n) ≤ fuel)%nat → (fuel ≤ fuel')%nat →
  walk_requirements fuel' log p decls target n = walk_requirements fuel log p decls target n.
Proof.
  intros Ht. revert id n fuel'. induction fuel as [|fuel IH]; intros id n fuel' Hn Hk Hf.
  { destruct (n_kind n); cbn in Hk; lia. }
  destruct fuel' as [|fuel']; [lia|]. cbn [walk_requirements].
  destruct (node_requirements log p decls target n); [|done]. cbn [mbind result_bind].
  case_bool_decide as Hp; [done|].
  destruct (view_Node p (n_parent n)) as [n'|] eqn:En; [|done]. cbn [mbind result_bind].
  pose proof (parent_rank _ _ _ _ Ht Hn Hp En). by rewrite (IH (n_parent n) n' fuel') by (done || lia).
Qed.

(** ** Completion *)
Definition own_req (r : GateRequirement) : bool := bool_decide (gr_relationship r = GateOwn).

Lemma completion_fold o done own sealed pending reqs :
  foldl (completion_step o done) (own, sealed, pending) reqs =
    (own && forallb (λ r, negb (own_req r) || satisfied o r) reqs,
     sealed && forallb (satisfied o) reqs,
     pending ++ if done then filter (λ r, satisfied o r = false) reqs else []).
Proof.
  revert own sealed pending. induction reqs as [|r reqs IH]; intros own sealed pending; cbn [foldl].
  { cbn. rewrite !andb_true_r. destruct done; by rewrite app_nil_r. }
  cbn [forallb completion_step]. rewrite filter_cons. unfold completion_step.
  change (bool_decide (gr_relationship r = GateOwn)) with (own_req r).
  destruct (satisfied o r) eqn:Es; cbn [negb].
  - rewrite !andb_false_r, orb_true_r, !andb_true_l. apply IH.
  - rewrite !andb_true_r, orb_false_r, IH. f_equal; [f_equal|].
    + destruct (own_req r), own; done.
    + destruct sealed; done.
    + destruct done; [|done]. rewrite decide_True by done. by rewrite <-app_assoc.
Qed.

(** The evaluator's answer in closed form. *)
Lemma completion_Ok log p n o c :
  NodeCompletionWithOverlay log p n o = Ok c →
  EffectiveGateRequirements log p n = Ok (Requirements c) ∧
  let done := bool_decide (n_lifecycle n = Done) || bool_decide (FinishingNode o = n_id n) in
  LocallyComplete c = done && forallb (λ r, negb (own_req r) || satisfied o r) (Requirements c)
  ∧ Sealed c = done && forallb (satisfied o) (Requirements c)
  ∧ Pending c = if done then filter (λ r, satisfied o r = false) (Requirements c) else [].
Proof.
  unfold NodeCompletionWithOverlay. intros (reqs & -> & H)%bind_Ok. cbv zeta in *.
  rewrite completion_fold in H. injection H as <-. cbn [Requirements LocallyComplete Sealed Pending].
  split; [done|]. set (done := bool_decide _ || _). split_and!; [done| |done].
  destruct done; cbn; [|done].
  destruct (forallb (λ r, negb (own_req r) || satisfied o r) reqs) eqn:E; [done|]. symmetry.
  apply not_true_iff_false. intros Hf. apply not_true_iff_false in E. apply E.
  rewrite forallb_forall in Hf |- *. intros x Hx. rewrite (Hf x Hx). by rewrite orb_true_r.
Qed.

(** ** Closed-gate metadata *)
Lemma gate_metadata_total e k s : gate_event e k s → is_ok (gate_metadata k s e) = true.
Proof.
  unfold gate_metadata. intros [->|(-> & d & -> & Hg & Hs)]; [done|]. cbn.
  rewrite !bool_decide_true by done. done.
Qed.

Lemma gate_metadata_state e k s m : gate_metadata k s e = Ok m → state_satisfied (cg_state m) = true.
Proof. unfold gate_metadata. intros H. inv_ok_match; done. Qed.

(** What the joined query knows of one gate row. *)
Definition row_metadata (log : list Event) (gate : string) (s : GateStateRow) : option closedGateMeta :=
  match find_event log (gs_last s) with
  | None => None
  | Some e => match gate_metadata gate s e with Ok m => Some m | Error _ => None end
  end.

Lemma closed_gates_total log rows :
  (∀ k s, (k, s) ∈ rows → ∃ e, find_event log (gs_last s) = Some e ∧ gate_event e k.2 s) →
  closed_gates log rows =
    Ok (omap (λ kr : (string * string) * GateStateRow,
      m ← row_metadata log kr.1.2 kr.2; Some (kr.1.2, m)) rows).
Proof.
  induction rows as [|[k s] rows IH]; intros H; [done|]. cbn [closed_gates omap list_omap].
  destruct (H k s) as (e & He & Hg); [by left|]. unfold row_metadata. cbn [fst snd]. rewrite He.
  pose proof (gate_metadata_total _ _ _ Hg) as Hm. destruct (gate_metadata k.2 s e) as [m|]; [|done].
  cbn [mbind result_bind option_bind]. rewrite IH; [done|]. intros k' s' ?. apply H. by right.
Qed.

(** The metadata map, gate by gate. *)
Lemma closedGateMetadata_lookup log p node :
  gates_logged log p →
  ∃ m, closedGateMetadata log p node = Ok m
    ∧ ∀ gate, m !! gate = gate_state p !! (node, gate) ≫= row_metadata log gate.
Proof.
  intros Hg. unfold closedGateMetadata. set (rows := filter _ _).
  assert (Hrows : ∀ k s, (k, s) ∈ rows ↔ k.1 = node ∧ gate_state p !! k = Some s).
  { intros k s. unfold rows. rewrite list_elem_of_filter, elem_of_map_to_list. done. }
  rewrite closed_gates_total by (intros k s [_ Hk]%Hrows; by apply Hg).
  eexists. split; [reflexivity|]. intros gate. set (l := omap _ rows).
  assert (Hl : ∀ g m, (g, m) ∈ l ↔ gate_state p !! (node, g) ≫= row_metadata log g = Some m).
  { intros g m. unfold l. rewrite list_elem_of_omap. split.
    - intros ([[n' g'] s] & [Hn Hk]%Hrows & H). cbn in *. subst n'.
      apply bind_Some in H as (m' & Hm & [= <- <-]). rewrite Hk. done.
    - intros (s & Hs & Hm)%bind_Some. exists ((node, g), s). split; [by apply Hrows|].
      cbn. by rewrite Hm. }
  assert (Hnd : ∀ g m m', (g, m) ∈ l → (g, m') ∈ l → m = m').
  { intros g m m' H1%Hl H2%Hl. congruence. }
  destruct (list_to_map l !! gate) as [m|] eqn:E.
  - apply elem_of_list_to_map_2, Hl in E. by rewrite E.
  - destruct (_ ≫= _) as [m|] eqn:E'; [|done]. apply Hl in E'.
    apply not_elem_of_list_to_map_2 in E. destruct E. apply list_elem_of_fmap. by exists (gate, m).
Qed.

(** The overlay's hypothetical closure. *)
Definition closing (o : CompletionOverlay) (id gate : string) : bool :=
  negb (bool_decide (ClosingNode o = "")) && negb (bool_decide (ClosingGate o = ""))
  && bool_decide (id = ClosingNode o) && bool_decide (gate = ClosingGate o).

(** A gate is satisfied on a node exactly when it has a row there, or an
    exemption, or the overlay closes it. *)
Lemma requirement_satisfied log p o m target n d :
  gates_logged log p →
  (∀ gate, m !! gate = gate_state p !! (n_id n, gate) ≫= row_metadata log gate) →
  satisfied o (requirement p m target n d) =
    is_some (gate_state p !! (n_id n, gd_gate d))
    || is_some (gate_exemptions p !! (n_repo target, gd_gate d, n_id n))
    || closing o (n_id n) (gd_gate d).
Proof.
  intros Hg Hm. unfold requirement, satisfied, closing. rewrite Hm.
  destruct (gate_state p !! (n_id n, gd_gate d)) as [s|] eqn:Es; cbn [mbind option_bind].
  - destruct (Hg _ _ Es) as (e & He & Hge). unfold row_metadata. rewrite He.
    pose proof (gate_metadata_total _ _ _ Hge) as Ht. cbn in Ht.
    destruct (gate_metadata (gd_gate d) s e) as [x|] eqn:Ex; [|done].
    pose proof (gate_metadata_state _ _ _ _ Ex) as Hst. case_bool_decide; cbn [gr_state]; by rewrite Hst.
  - cbn [gr_state gr_subject gr_gate]. unfold gateExemptOnNode. destruct (is_some (gate_exemptions p !! _)); done.
Qed.

(** ** The archive *)

(** A Matter's effective requirements are its own. *)
Lemma matter_requirements log p id r :
  gates_logged log p → tree_ok p → nodes p !! id = Some r → nd_kind r = ScaleMatter →
  nd_tombstone r = None →
  ∃ m, (∀ gate, m !! gate = gate_state p !! (id, gate) ≫= row_metadata log gate)
  ∧ EffectiveGateRequirements log p (scanNode id r) =
      Ok (requirement p m (scanNode id r) (scanNode id r)
        <$> filter (λ d, gd_scale d = ScaleMatter) (GateDeclarations p (nd_repo r))).
Proof.
  intros Hg Ht Hr Hk Htb. destruct (closedGateMetadata_lookup log p id Hg) as (m & Hm & Hl).
  exists m. split; [done|]. unfold EffectiveGateRequirements, tree_depth.
  cbn [walk_requirements n_parent scanNode]. unfold node_requirements. cbn [n_id n_kind n_repo scanNode].
  rewrite Hm, Hk. cbn [mbind result_bind].
  assert (nd_parent r = None) as ->; [|done].
  specialize (Ht id r Hr). unfold node_ok in Ht. destruct (nd_parent r); [|done].
  destruct Ht as (pr & _ & _ & Hb). by rewrite Hk in Hb.
Qed.

(** Sealed Matters are the rows of the SQL view. *)
Lemma matter_sealed log p id r :
  gates_logged log p → shape_ok p → nodes p !! id = Some r → nd_kind r = ScaleMatter →
  nd_tombstone r = None →
  ∃ c, view_NodeCompletion log p (scanNode id r) = Ok c ∧ Sealed c = archived_row p id r.
Proof.
  intros Hg Hsh Hr Hk Htb. pose proof (sh_tree p Hsh) as Ht.
  destruct (matter_requirements log p id r) as (m & Hm & He); [done..|].
  unfold view_NodeCompletion. destruct (NodeCompletionWithOverlay log p (scanNode id r) no_overlay) as [c|e] eqn:Ec.
  2:{ unfold NodeCompletionWithOverlay in Ec. rewrite He in Ec. cbn [mbind result_bind] in Ec.
      cbv zeta in Ec. by rewrite completion_fold in Ec. }
  exists c. split; [done|]. destruct (completion_Ok _ _ _ _ _ Ec) as (Hreq & _ & Hs & _).
  rewrite He in Hreq. injection Hreq as Hreq. rewrite Hs, <-Hreq. cbn [n_lifecycle n_id scanNode FinishingNode no_overlay].
  assert (id ≠ "") as Hid.
  { intros ->. by pose proof (sh_checked p Hsh TNodes "" r Hr). }
  rewrite (bool_decide_false ("" = id)) by done. rewrite orb_false_r.
  unfold archived_row. rewrite Hk, (bool_decide_true (ScaleMatter = ScaleMatter)) by done.
  rewrite (proj2 (node_live_true r) Htb), andb_true_r, andb_true_l.
  f_equal. clear He Hreq Hs Ec. induction (GateDeclarations p (nd_repo r)) as [|d ds IH]; [done|]. rewrite filter_cons. cbn [forallb].
  destruct (decide (gd_scale d = ScaleMatter)) as [Hd|Hd].
  - rewrite bool_decide_true by done. cbn [fmap list_fmap forallb negb orb].
    rewrite (requirement_satisfied log) by done. cbn [n_id n_repo scanNode].
    rewrite (orb_false_r (_ || _)). by rewrite IH.
  - rewrite bool_decide_false by done. cbn [negb orb andb]. exact IH.
Qed.

Lemma keep_sealed_spec log p matters :
  gates_logged log p → shape_ok p →
  (∀ n, n ∈ matters → ∃ id r, n = scanNode id r ∧ nodes p !! id = Some r
     ∧ nd_kind r = ScaleMatter ∧ nd_tombstone r = None) →
  ∃ out, keep_sealed log p matters = Ok out
    ∧ ∀ n, n ∈ out ↔ n ∈ matters ∧ ∃ id r, n = scanNode id r ∧ nodes p !! id = Some r
                                          ∧ archived_row p id r = true.
Proof.
  intros Hg Hsh. induction matters as [|n matters IH]; intros H.
  { exists []. split; [done|]. intros n. set_solver. }
  destruct (H n) as (id & r & -> & Hr & Hk & Htb); [by left|].
  destruct (matter_sealed log p id r) as (c & Hc & Hs); [done..|].
  destruct IH as (out & Hout & Hiff); [intros; apply H; by right|].
  cbn [keep_sealed]. rewrite Hc, Hout. cbn [mbind result_bind]. eexists. split; [reflexivity|].
  intros n. rewrite elem_of_cons. destruct (Sealed c) eqn:E.
  - rewrite elem_of_cons, Hiff. split; [|naive_solver]. intros [->|?]; [|naive_solver].
    split; [by left|]. exists id, r. by rewrite <-Hs.
  - rewrite Hiff. split; [naive_solver|]. intros [[->|?] (id' & r' & Hn & Hr' & Ha)]; [|naive_solver].
    exfalso. assert (id = id') as <- by (by apply (f_equal n_id) in Hn).
    rewrite Hr in Hr'. injection Hr' as <-. congruence.
Qed.

(** ** The overlay predicts the write *)

Definition same_node (n n' : Node) : Prop :=
  n_id n' = n_id n ∧ n_kind n' = n_kind n ∧ n_repo n' = n_repo n ∧ n_parent n' = n_parent n.

(** Two requirements that agree once the overlay has been applied. *)
Definition req_agrees (o : CompletionOverlay) (r r' : GateRequirement) : Prop :=
  own_req r' = own_req r ∧ satisfied no_overlay r' = satisfied o r.

Section predict.
Context (log log' : list Event) (p p' : Proj) (o : CompletionOverlay).
Context (Hdecls : gate_declarations p' = gate_declarations p).
Context (Hexempt : gate_exemptions p' = gate_exemptions p).
Context (Hnodes : ∀ id n, view_Node p id = Ok n → ∃ n', view_Node p' id = Ok n' ∧ same_node n n').
Context (Hrows : ∀ id gate, is_some (gate_state p' !! (id, gate))
                            = is_some (gate_state p !! (id, gate)) || closing o id gate).
Context (Hlog : gates_logged log p) (Hlog' : gates_logged log' p').

Lemma node_requirements_agree decls target target' n n' :
  same_node target target' → same_node n n' →
  ∃ l l', node_requirements log p decls target n = Ok l
    ∧ node_requirements log' p' decls target' n' = Ok l' ∧ Forall2 (req_agrees o) l l'.
Proof using Hexempt Hrows Hlog Hlog'.
  intros (Hti & _ & Htr & _) (Hi & Hk & _ & _). unfold node_requirements. rewrite Hi, Hk.
  destruct (closedGateMetadata_lookup log p (n_id n) Hlog) as (m & -> & Hm).
  destruct (closedGateMetadata_lookup log' p' (n_id n) Hlog') as (m' & -> & Hm').
  cbn [mbind result_bind]. do 2 eexists. split_and!; [done..|].
  apply Forall2_fmap, Forall_Forall2_diag, Forall_forall. intros d _. split.
  - assert (∀ q mm t x, own_req (requirement q mm t x d) = bool_decide (n_id x = n_id t)) as Hown.
    { intros q mm t x. unfold requirement, own_req. destruct (mm !! gd_gate d) as [y|];
        [destruct (bool_decide (cg_state y = GateRequirementDismissed))|];
        cbn [gr_relationship]; destruct (bool_decide (n_id x = n_id t)); done. }
    by rewrite !Hown, Hi, Hti.
  - rewrite <-Hi in Hm'. rewrite (requirement_satisfied log p o m target n d) by done.
    rewrite (requirement_satisfied log' p' no_overlay m' target' n' d) by done. rewrite Hi, Htr, Hrows, Hexempt.
    rewrite (orb_false_r (_ || _ || _)). rewrite <-!orb_assoc. f_equal. apply orb_comm.
Qed.

Lemma walk_agrees fuel decls target target' n n' l :
  same_node target target' → same_node n n' →
  walk_requirements fuel log p decls target n = Ok l →
  ∃ l', walk_requirements fuel log' p' decls target' n' = Ok l' ∧ Forall2 (req_agrees o) l l'.
Proof using Hexempt Hrows Hlog Hlog' Hnodes.
  intros Ht. revert n n' l. induction fuel as [|fuel IH]; intros n n' l Hn; [done|]. cbn [walk_requirements].
  destruct (node_requirements_agree decls target target' n n' Ht Hn) as (h & h' & -> & -> & Hh).
  cbn [mbind result_bind]. destruct Hn as (_ & _ & _ & Hp). rewrite Hp.
  case_bool_decide; [intros [= <-]; by eauto|].
  intros (m & Hm & (rest & Hrest & [= <-])%bind_Ok)%bind_Ok.
  destruct (Hnodes _ _ Hm) as (m' & -> & Hmm). cbn [mbind result_bind].
  destruct (IH _ _ _ Hmm Hrest) as (rest' & -> & Hr). cbn [mbind result_bind].
  eexists. split; [done|]. by apply Forall2_app.
Qed.

(** The overlaid answer before the write is the plain answer after it. *)
Lemma overlay_predicts n n' c :
  same_node n n' →
  (bool_decide (n_lifecycle n = Done) || bool_decide (FinishingNode o = n_id n)
   = bool_decide (n_lifecycle n' = Done)) →
  n_id n ≠ "" →
  NodeCompletionWithOverlay log p n o = Ok c →
  ∃ c', view_NodeCompletion log' p' n' = Ok c'
    ∧ Sealed c' = Sealed c ∧ LocallyComplete c' = LocallyComplete c.
Proof using All.
  intros Hn Hdone Hid Hc. destruct (completion_Ok _ _ _ _ _ Hc) as (Hreq & Hl & Hs & _).
  unfold EffectiveGateRequirements in Hreq.
  destruct (walk_agrees _ _ _ _ _ _ _ Hn Hn Hreq) as (l' & Hl' & Hagree).
  assert (EffectiveGateRequirements log' p' n' = Ok l') as He'.
  { assert (GateDeclarations p' (n_repo n) = GateDeclarations p (n_repo n)) as Hd
      by (unfold GateDeclarations, select; cbn [tget]; by rewrite Hdecls).
    unfold EffectiveGateRequirements. destruct Hn as (_ & _ & -> & _). by rewrite Hd. }
  destruct (view_NodeCompletion log' p' n') as [c'|] eqn:Ec'.
  2:{ unfold view_NodeCompletion, NodeCompletionWithOverlay in Ec'. rewrite He' in Ec'.
      cbn [mbind result_bind] in Ec'. cbv zeta in Ec'. by rewrite completion_fold in Ec'. }
  exists c'. split; [done|]. destruct (completion_Ok _ _ _ _ _ Ec') as (Hreq' & Hl2 & Hs2 & _).
  rewrite He' in Hreq'. injection Hreq' as Hreq'. rewrite Hl, Hs, Hl2, Hs2, <-Hreq'.
  destruct Hn as (Hi & _). cbn [FinishingNode no_overlay]. rewrite Hi, (bool_decide_false ("" = n_id n)), orb_false_r by congruence.
  rewrite Hdone. clear -Hagree. induction Hagree as [|r r' l l' [H1 H2] _ [IH1 IH2]]; [done|].
  cbn [forallb]. rewrite H1, H2. destruct (bool_decide _); cbn [andb] in *; by rewrite ?IH1, ?IH2.
Qed.
End predict.

(** ** Candidates touch the outbox only *)
Definition outbox_only (p p' : Proj) : Prop := ∀ t, TOutbox ≠ t → tget t p' = tget t p.

#[global] Instance outbox_only_preorder : PreOrder outbox_only.
Proof. split; [by intros p t|]. intros p q r H1 H2 t Ht. rewrite H2 by done. by apply H1. Qed.

Section candidates.
Context (c : Ctx) (ev : Event).

Lemma candidate_frame kind subject r payload d p p' :
  insertTrackerCandidate c ev kind subject r payload d p = Ok p' → outbox_only p p'.
Proof.
  unfold insertTrackerCandidate. intros (_ & _ & H)%sql_insert_Ok t Ht.
  by apply (put_tget_ne _ _ _ _ _ _ _ Ht H).
Qed.

Lemma state_candidates_frame subject seen refs p p' :
  state_candidates c ev subject seen refs p = Ok p' → outbox_only p p'.
Proof.
  revert seen p. induction refs as [|r refs IH]; intros seen p; cbn [state_candidates].
  { by intros [= <-]. }
  case_bool_decide; [by apply IH|]. intros (agg & _ & Hk)%bind_Ok.
  destruct agg as [[d|]|]; [|by eapply IH..]. apply bind_Ok in Hk as (q & Hq & Hk).
  etrans; [by eapply candidate_frame|by eapply IH].
Qed.

Lemma stage_comments_frame stage p p' : queueStageComments c ev stage p = Ok p' → outbox_only p p'.
Proof.
  unfold queueStageComments. intros Hq. case_match; [by injection Hq as <-|].
  eapply (foldM_ind _ (λ q, outbox_only p q)); [|reflexivity|exact Hq].
  intros q r q' _ H1 H2. cbv beta in H2. etrans; [done|by eapply candidate_frame].
Qed.

Lemma narrate_frame stages p p' : narrate_stages c ev stages p = Ok p' → outbox_only p p'.
Proof.
  intros Hq. eapply (foldM_ind _ (λ q, outbox_only p q)); [|reflexivity|exact Hq].
  intros q st q' _ H1 H2. cbv beta in H2. etrans; [done|].
  inv_ok_match; [by eapply stage_comments_frame|reflexivity].
Qed.

Lemma gate_candidates_frame p p' : projectGateCandidates c ev p = Ok p' → outbox_only p p'.
Proof.
  unfold projectGateCandidates. intros H. inv_ok_match; try reflexivity;
    eauto using narrate_frame, state_candidates_frame.
  all: etrans; eauto using narrate_frame, state_candidates_frame.
Qed.

Lemma transition_candidates_frame p p' :
  projectTransitionCandidates c ev p = Ok p' → outbox_only p p'.
Proof.
  unfold projectTransitionCandidates. intros H. inv_ok_match; try reflexivity;
    eauto using stage_comments_frame, state_candidates_frame.
Qed.
End candidates.

(** ** The two writes the overlay stands for *)

Lemma outbox_only_node p q id : outbox_only p q → view_Node q id = view_Node p id.
Proof.
  intros H. pose proof (H TNodes ltac:(done)) as Hn. cbn in Hn. unfold view_Node, live_node. by rewrite Hn.
Qed.

(** gate.closed: closing gate [g] on its subject. *)
Lemma close_predicted log ev log' p p' n c g :
  db_ok log p → appendEvent log ev = Ok log' → applyEvent (MkCtx log' true) ev p = Ok p' →
  enum_parse (ev_type ev) = Some TypeGateClosed →
  decode (S := GateClosed) (ev_payload ev) = Ok g →
  view_Node p (n_id n) = Ok n →
  NodeCompletionWithOverlay log p n (MkOverlay "" (ev_subject ev) (GateClosed_Gate g)) = Ok c →
  ∃ c', view_Node p' (n_id n) = Ok n ∧ view_NodeCompletion log' p' n = Ok c'
    ∧ Sealed c' = Sealed c ∧ LocallyComplete c' = LocallyComplete c.
Proof.
  intros Hdb Ha Hp Hty Hg Hn Hc. pose proof (db_ok_append _ _ _ _ _ Hdb Ha Hp) as Hdb'. clear Ha.
  unfold applyEvent in Hp. rewrite Hty in Hp. apply bind_Ok in Hp as (q & Hq & Hcand).
  apply gate_candidates_frame in Hcand. unfold closeGate in Hq.
  apply bind_Ok in Hq as (g' & Hg' & Hq). rewrite Hg in Hg'. injection Hg' as <-. inv_ok_match.
  match goal with H : sql_insert _ _ _ _ _ = Ok _ |- _ => apply sql_insert_Ok in H as (_ & Hfresh & Hput) end.
  assert (Hsame : ∀ t, TOutbox ≠ t → TGateState ≠ t → tget t p' = tget t p).
  { intros t Hto Htg. rewrite (Hcand t Hto). by apply (put_tget_ne _ _ _ _ _ _ _ Htg Hput). }
  assert (Hgs : gate_state p' = <[(ev_subject ev, GateClosed_Gate g) :=
    MkGateStateRow (nd_kind n0) (ev_occurred ev) (ev_id ev)]> (gate_state p)).
  { pose proof (Hcand TGateState ltac:(done)) as Hc1. apply put_tget_eq in Hput. cbn in Hc1, Hput. congruence. }
  assert (Hnode : ∀ id, view_Node p' id = view_Node p id).
  { intros id. pose proof (Hsame TNodes ltac:(done) ltac:(done)) as Hc1. cbn in Hc1.
    unfold view_Node, live_node. by rewrite Hc1. }
  assert (Hsub : ev_subject ev ≠ "").
  { intros Hs. match goal with H : nodes p !! ev_subject ev = Some _ |- _ =>
      rewrite Hs in H; by pose proof (sh_checked p (db_shape _ _ Hdb) TNodes "" _ H) end. }
  destruct (overlay_predicts log log' p p' (MkOverlay "" (ev_subject ev) (GateClosed_Gate g)))
    with (n := n) (n' := n) (c := c) as (c' & ? & ? & ?); try done.
  - apply (Hsame TDecls); done.
  - apply (Hsame TExempt); done.
  - intros id m Hm. exists m. rewrite Hnode. done.
  - intros id gate. rewrite Hgs. unfold closing. cbn [ClosingNode ClosingGate].
    rewrite !(bool_decide_false (_ = "")) by done. cbn [negb andb].
    destruct (decide ((ev_subject ev, GateClosed_Gate g) = (id, gate))) as [[= <- <-]|Hne].
    + rewrite lookup_insert_eq, !bool_decide_true by done. by rewrite orb_true_r.
    + rewrite lookup_insert_ne by done. rewrite <-bool_decide_and, bool_decide_false by naive_solver.
      by rewrite orb_false_r.
  - apply (db_gates _ _ Hdb).
  - apply (db_gates _ _ Hdb').
  - cbn [FinishingNode]. rewrite (bool_decide_false ("" = n_id n)); [by rewrite orb_false_r|].
    apply view_Node_Ok in Hn as (r & Hr & _ & _). intros Hs. rewrite <-Hs in Hr.
    by pose proof (sh_checked p (db_shape _ _ Hdb) TNodes "" r Hr).
  - apply view_Node_Ok in Hn as (r & Hr & _ & _). intros Hs. rewrite Hs in Hr.
    by pose proof (sh_checked p (db_shape _ _ Hdb) TNodes "" r Hr).
  - exists c'. rewrite Hnode. done.
Qed.
