(* ===== verification/Content.v ===== *)
(** Content (src/internal/store/content.go, blobs.go): preparing a write, with
    the spill above the threshold, reading a segment back, the whole content of a
    node, and the reaping of blobs no row references. *)
From stdpp Require Import relations.
From S2P Require Import Prelude GoStd Ulid Taxonomy Json Payloads Tables View Gates Project Store.

Definition SpillThreshold : Z := Z.shiftl 1 20.

(** writeBlob: the file named [ref] in the sidecar directory. *)
Definition writeBlob (ref data : string) (h : Handle) : Handle :=
  MkHandle (h_ids h) (h_tick h) (h_floor h) (<[ref := data]> (h_blobs h)).

(** Tx.ContentDraft: an unknown kind is refused before anything is minted. *)
Definition ContentDraft (w : World) (fuel : nat) (subject kind data : string) (h : Handle)
    : option (result Draft * Handle) :=
  match enum_parse (A := ContentKind) kind with
  | None => Some (Error (ERefuse "is not a content kind"), h)
  | Some k =>
      '(id, h') ← NewID w fuel h;
      let len := Z.of_nat (String.length data) in
      let type := enum_str (if AppendOnlyKind k then TypeContentAppended else TypeContentCreated) in
      if (SpillThreshold <? len)%Z
      then Some (Ok (MkDraft type subject
                  (pl_enc (MkContentWritten kind id None id len (sha256_hex data))) None 0),
                 writeBlob id data h')
      else Some (Ok (MkDraft type subject
                  (pl_enc (MkContentWritten kind id (Some data) "" len (sha256_hex data))) None 0), h')
  end.

(** Store.SegmentBytes *)
Definition SegmentBytes (p : Proj) (blobs : gmap string string) (id : string) : result string :=
  r ← from_option_err (ERefuse "no content") (content p !! id);
  data ← match ct_blob_ref r with
         | Some ref => from_option_err (ERefuse "the store cannot read it back") (blobs !! ref)
         | None => Ok (coalesce (ct_bytes r))
         end;
  ensure (bool_decide (Z.of_nat (String.length data) = ct_byte_len r))
    (ERefuse "the store recorded another length") ;;
  ensure (bool_decide (sha256_hex data = ct_sha256 r)) (ERefuse "the store recorded another digest") ;;
  Ok data.

Record ContentSegment := MkContentSegment {
  sg_id : string; sg_node : string; sg_kind : ContentKind; sg_byte_len : Z; sg_sha256 : string;
  sg_occurred_at : Z; sg_spilled : bool
}.

(** View.ContentSegments: live segments of one kind joined with their birth
    events, ordered by identity. *)
Definition ContentSegments (log : list Event) (p : Proj) (node : string) (kind : ContentKind)
    : list ContentSegment :=
  omap (λ kr : string * ContentRow,
    e ← find_event log (ct_birth kr.2);
    Some (MkContentSegment kr.1 (ct_node kr.2) (ct_kind kr.2) (ct_byte_len kr.2) (ct_sha256 kr.2)
            (ev_occurred e) (is_some (ct_blob_ref kr.2))))
    (select TContent p (λ _ r, bool_decide (ct_node r = node) && bool_decide (ct_kind r = kind)
                               && content_live r) (λ a b, String.leb a.1 b.1)).

(** Store.Content: the segments' bytes, concatenated. *)
Fixpoint concat_segments (p : Proj) (blobs : gmap string string) (segs : list ContentSegment)
    : result string :=
  match segs with
  | [] => Ok ""
  | seg :: segs =>
      data ← SegmentBytes p blobs (sg_id seg);
      rest ← concat_segments p blobs segs;
      Ok (String.append data rest)
  end.

Definition Content (log : list Event) (p : Proj) (blobs : gmap string string) (node : string)
    (kind : ContentKind) : result string :=
  concat_segments p blobs (ContentSegments log p node kind).

(** Store.ReapOrphanBlobs: a file survives if a live row references it or it is
    newer than the cutoff; [mtime] are the files' modification times. *)
Definition live_blob (p : Proj) (ref : string) : bool :=
  (0 <? select_count TContent p (λ _ r, bool_decide (ct_blob_ref r = Some ref) && content_live r))%nat.

Definition ReapOrphanBlobs (p : Proj) (mtime : string → Z) (cutoff : Z) (blobs : gmap string string)
    : gmap string string * list string :=
  let kept := filter (λ kv, live_blob p kv.1 || (cutoff <? mtime kv.1)%Z = true) blobs in
  (kept, filter (λ ref, live_blob p ref || (cutoff <? mtime ref)%Z = false)
           (order_by String.leb (map_to_list blobs).*1)).
