(* ===== verification/Command.v ===== *)
(** Commands over the store.  [tx] is what runs inside Store.Commit's decide
    function (store.go, Tx): it reads the store as of the transaction, mints
    identities, spills blobs and fails with a Go error.  [cmd] is a whole verb: it
    reads through the Store's own View, commits, and reads back.  Both are small
    state-and-error monads; [None] is the minting bound of [NewID].

    [SoundTx] and [SoundCmd] are what a verb promises to the theorems about
    reachable stores: a command moves the store only through Commit. *)
From stdpp Require Import relations.
From S2P Require Import Prelude GoStd Ulid Taxonomy Json Payloads Tables View Gates Project Store.
From S2P Require Import Steps Invariants Shape Replay Mint Reach Content.

(** ** Inside a transaction *)
Definition tx (A : Type) : Type := list Event → Proj → Handle → option (result A * Handle).

#[global] Instance tx_ret : MRet tx := λ A a log p h, Some (Ok a, h).
#[global] Instance tx_bind : MBind tx := λ A B k m log p h,
  match m log p h with
  | Some (Ok a, h') => k a log p h'
  | Some (Error e, h') => Some (Error e, h')
  | None => None
  end.

Definition tread {A} (f : list Event → Proj → result A) : tx A := λ log p h, Some (f log p, h).
Definition tlift {A} (r : result A) : tx A := λ _ _ h, Some (r, h).
Definition tfail {A} (e : Err) : tx A := tlift (Error e).
Definition tcheck (b : bool) (e : Err) : tx () := tlift (ensure b e).

(** Tx.NewID *)
Definition tmint (w : World) (fuel : nat) : tx string := λ _ _ h,
  match NewID w fuel h with Some (id, h') => Some (Ok id, h') | None => None end.

(** Tx.ContentDraft *)
Definition tcontent (w : World) (fuel : nat) (subject kind data : string) : tx Draft :=
  λ _ _ h, ContentDraft w fuel subject kind data h.

(** ** A whole verb *)
Definition cmd (A : Type) : Type := Store → option (result A * Store).

#[global] Instance cmd_ret : MRet cmd := λ A a s, Some (Ok a, s).
#[global] Instance cmd_bind : MBind cmd := λ A B k c s,
  match c s with
  | Some (Ok a, s') => k a s'
  | Some (Error e, s') => Some (Error e, s')
  | None => None
  end.

Definition cread {A} (f : list Event → Proj → result A) : cmd A :=
  λ s, Some (f (s_log s) (s_proj s), s).
Definition clift {A} (r : result A) : cmd A := λ s, Some (r, s).
Definition cfail {A} (e : Err) : cmd A := clift (Error e).
Definition ccheck (b : bool) (e : Err) : cmd () := clift (ensure b e).

(** Commit with a decide function that also assigns variables of the enclosing
    verb (an identity it minted, whether the write seals): their values are what
    that one call of the function computed. *)
Definition forget {X} (d : tx (list Draft * X)) : Decide := λ log p h,
  match d log p h with
  | Some (Ok (ds, _), h') => Some (Ok ds, h')
  | Some (Error e, h') => Some (Error e, h')
  | None => None
  end.

Definition captured {X} (d : tx (list Draft * X)) (s : Store) : option X :=
  match d (s_log s) (s_proj s) (s_handle s) with Some (Ok (_, x), _) => Some x | _ => None end.

Definition commit {X} (w : World) (fuel : nat) (req : Request) (d : tx (list Draft * X))
    : cmd (list Event * X) := λ s,
  match Commit w fuel req (forget d) s with
  | Some (Ok events, s') =>
      match captured d s with Some x => Some (Ok (events, x), s') | None => None end
  | Some (Error e, s') => Some (Error e, s')
  | None => None
  end.

(** A draft with the request's dimensions, caused by the command's first event. *)
Definition draft {S} `{Payload S} (t : EType) (subject : string) (payload : S) : Draft :=
  MkDraft (enum_str t) subject (pl_enc payload) None 0.

Definition with_cause (d : Draft) (cause : Z) : Draft :=
  MkDraft (d_type d) (d_subject d) (d_payload d) (d_env d) cause.

(** Request{Actor: actor, Env: Env{Repo: repo}} *)
Definition repo_request (actor repo : string) : Request := MkRequest actor (MkEnv repo "" "").

(** ** Soundness *)
Section sound.
Context (w : World).

Class SoundTx {A} (m : tx A) : Prop :=
  sound_tx : ∀ log p h r h', m log p h = Some (r, h') → rtc (handle_step w) h h'.

Class SoundCmd {A} (c : cmd A) : Prop :=
  sound_cmd : ∀ s r s', c s = Some (r, s') → future w s s'.

#[global] Instance tx_ret_sound {A} (a : A) : SoundTx (mret a : tx A).
Proof. intros log p h r h' [= _ <-]. apply rtc_refl. Qed.

#[global] Instance tx_lift_sound {A} (x : result A) : SoundTx (tlift x).
Proof. intros log p h r h' [= _ <-]. apply rtc_refl. Qed.

#[global] Instance tx_fail_sound {A} e : SoundTx (tfail e : tx A).
Proof. apply tx_lift_sound. Qed.

#[global] Instance tx_check_sound b e : SoundTx (tcheck b e).
Proof. apply tx_lift_sound. Qed.

#[global] Instance tx_read_sound {A} (f : list Event → Proj → result A) : SoundTx (tread f).
Proof. intros log p h r h' [= _ <-]. apply rtc_refl. Qed.

#[global] Instance tx_bind_sound {A B} (m : tx A) (k : A → tx B) :
  SoundTx m → (∀ a, SoundTx (k a)) → SoundTx (m ≫= k).
Proof.
  intros Hm Hk log p h r h' H. unfold mbind, tx_bind in H.
  destruct (m log p h) as [[[a|e] h1]|] eqn:E; [|injection H as _ <-; by eapply Hm|discriminate].
  etrans; [by eapply Hm|by eapply Hk].
Qed.

#[global] Instance tx_mint_sound fuel : SoundTx (tmint w fuel).
Proof.
  intros log p h r h' H. unfold tmint in H. destruct (NewID w fuel h) as [[id h1]|] eqn:E; [|discriminate].
  injection H as _ <-. apply rtc_once. by econstructor.
Qed.

#[global] Instance tx_content_sound fuel subject kind data : SoundTx (tcontent w fuel subject kind data).
Proof.
  intros log p h r h' H. unfold tcontent, ContentDraft in H.
  destruct (enum_parse kind); [|injection H as _ <-; apply rtc_refl].
  destruct (NewID w fuel h) as [[id h1]|] eqn:E; [|discriminate]. cbn in H.
  assert (handle_step w h h1) by (by econstructor).
  destruct (_ <? _)%Z; injection H as _ <-; [|by apply rtc_once].
  eapply rtc_l; [done|]. apply rtc_once, hs_blob.
Qed.

#[global] Instance cmd_ret_sound {A} (a : A) : SoundCmd (mret a : cmd A).
Proof. intros s r s' [= _ <-]. apply rtc_refl. Qed.

#[global] Instance cmd_lift_sound {A} (x : result A) : SoundCmd (clift x).
Proof. intros s r s' [= _ <-]. apply rtc_refl. Qed.

#[global] Instance cmd_fail_sound {A} e : SoundCmd (cfail e : cmd A).
Proof. apply cmd_lift_sound. Qed.

#[global] Instance cmd_check_sound b e : SoundCmd (ccheck b e).
Proof. apply cmd_lift_sound. Qed.

#[global] Instance cmd_read_sound {A} (f : list Event → Proj → result A) : SoundCmd (cread f).
Proof. intros s r s' [= _ <-]. apply rtc_refl. Qed.

#[global] Instance cmd_bind_sound {A B} (c : cmd A) (k : A → cmd B) :
  SoundCmd c → (∀ a, SoundCmd (k a)) → SoundCmd (c ≫= k).
Proof.
  intros Hc Hk s r s' H. unfold mbind, cmd_bind in H.
  destruct (c s) as [[[a|e] s1]|] eqn:E; [|injection H as _ <-; by eapply Hc|discriminate].
  etrans; [by eapply Hc|by eapply Hk].
Qed.

Lemma forget_decides {X} (d : tx (list Draft * X)) : SoundTx d → decides w (forget d).
Proof.
  intros Hd log p h r h' H. unfold forget in H.
  destruct (d log p h) as [[[[ds x]|e] h1]|] eqn:E; [..|discriminate]; injection H as _ <-; by eapply Hd.
Qed.

#[global] Instance commit_sound {X} fuel req (d : tx (list Draft * X)) :
  SoundTx d → SoundCmd (commit w fuel req d).
Proof.
  intros Hd s r s' H. unfold commit in H.
  destruct (Commit w fuel req (forget d) s) as [[r0 s1]|] eqn:E; [|discriminate].
  assert (s1 = s') as ->.
  { destruct r0 as [evs|e]; [destruct (captured d s)|]; by simplify_eq. }
  apply rtc_once. eapply step_commit; [exact (forget_decides d Hd)|exact E].
Qed.
End sound.

(** A verb is sound by its shape: the instances cover the primitives, and the
    cases of its matches are taken one at a time. *)
Ltac solve_sound :=
  repeat first
    [ apply tx_bind_sound; [|intros ?]
    | apply cmd_bind_sound; [|intros ?]
    | apply commit_sound
    | match goal with
      | |- SoundTx _ (match ?x with _ => _ end) => destruct x
      | |- SoundCmd _ (match ?x with _ => _ end) => destruct x
      end
    | apply _ ].

(** ** What a commit did *)
Section commit_facts.
Context {X : Type} (w : World) (fuel : nat) (req : Request) (d : tx (list Draft * X)).

(** A commit that succeeded ran its decide function once, in the store it found. *)
Lemma commit_Ok s evs x s' :
  commit w fuel req d s = Some (Ok (evs, x), s') →
  ∃ ds h, d (s_log s) (s_proj s) (s_handle s) = Some (Ok (ds, x), h)
    ∧ Commit w fuel req (forget d) s = Some (Ok evs, s').
Proof.
  unfold commit, captured. intros H.
  destruct (Commit w fuel req (forget d) s) as [[[evs'|e] s1]|] eqn:E; [|discriminate..].
  destruct (d (s_log s) (s_proj s) (s_handle s)) as [[[[ds x']|e] h]|] eqn:Ed; [|discriminate..].
  injection H as <- <- <-. eauto.
Qed.

(** A commit that failed left the database alone. *)
Lemma commit_Error s e s' :
  commit w fuel req d s = Some (Error e, s') → s_log s' = s_log s ∧ s_proj s' = s_proj s.
Proof.
  unfold commit. destruct (Commit w fuel req (forget d) s) as [[[evs'|e'] s1]|] eqn:E; [|..].
  - by destruct (captured d s).
  - intros [= <- <-]. apply Commit_cases in E as [(? & _ & -> & ->)|(? & ? & ? & _ & _ & ? & _)]; [done|].
    discriminate.
  - done.
Qed.
End commit_facts.
