(* ===== verification/Resolve.v ===== *)
(** Addressing (src/internal/writesurface/writesurface.go, resolve.go, the
    resolver of batch.go): titles become locators, and a locator or an identity
    becomes a node, a Matter, a finding's subject or a Batch. *)
From S2P Require Import Prelude GoStd Ulid Taxonomy Json Payloads Tables View Gates Project Store.

(** ** slugify *)

(** One rune of strings.ToLower(title), as far as slugify can tell runes apart:
    an ASCII letter or digit, or something else.  Of the runes outside ASCII only
    U+0130 and U+212A have a lower case inside it. *)
Definition slug_rune (bs : list Z) : option Z :=
  match bs with
  | [b] =>
      if between 97 b 122 || between 48 b 57 then Some b
      else if between 65 b 90 then Some (b + 32)%Z
      else None
  | [b0; b1] => if bool_decide (b0 = 0xC4%Z) && bool_decide (b1 = 0xB0%Z) then Some 105%Z else None
  | [b0; b1; b2] =>
      if bool_decide (b0 = 0xE2%Z) && bool_decide (b1 = 0x84%Z) && bool_decide (b2 = 0xAA%Z)
      then Some 107%Z else None
  | _ => None
  end.

(** The runes of a string: a byte that starts no sequence is one rune. *)
Fixpoint runes (fuel : nat) (bs : list Z) : list (list Z) :=
  match fuel with
  | O => []
  | S fuel =>
      match bs with
      | [] => []
      | b :: rest =>
          match rune_len bs with
          | O => [0xEF; 0xBF; 0xBD]%Z :: runes fuel rest
          | n => take n bs :: runes fuel (drop n bs)
          end
      end
  end.

Definition hyphen : Z := 45.

(** The loop of slugify: [prevDash] is set at the start and after a hyphen. *)
Fixpoint slug_loop (rs : list (list Z)) (prevDash : bool) : list Z :=
  match rs with
  | [] => []
  | r :: rs =>
      match slug_rune r with
      | Some b => b :: slug_loop rs false
      | None => if prevDash then slug_loop rs true else hyphen :: slug_loop rs true
      end
  end.

(** strings.TrimSuffix(s, "-") *)
Definition trim_hyphen (bs : list Z) : list Z :=
  match last bs with
  | Some b => if bool_decide (b = hyphen) then take (length bs - 1) bs else bs
  | None => bs
  end.

Definition slugify (title : string) : string :=
  string_of (trim_hyphen (slug_loop (runes (S (String.length title)) (bytes_of title)) true)).

Example slugify_title : slugify "  Fix: the Parser -- (again) " = "fix-the-parser-again".
Proof. reflexivity. Qed.

Example slugify_kelvin : slugify (string_of [0xE2; 0x84; 0xAA; 0xC3; 0xA9; 0x7A]%Z) = "k-z".
Proof. reflexivity. Qed.

(** ** Locators *)

(** strings.Split(s, "/") *)
Fixpoint split_slash (s : string) : list string :=
  match s with
  | EmptyString => [""]
  | String c s' =>
      if (byte_of c =? 47)%Z then "" :: split_slash s'
      else match split_slash s' with
           | seg :: rest => String c seg :: rest
           | [] => [String c ""]
           end
  end.

Example split_path : split_slash "m/st/step-04" = ["m"; "st"; "step-04"].
Proof. reflexivity. Qed.

(** An error of [m] replaced by the verb's own. *)
Definition recode {A} (e : Err) (m : result A) : result A :=
  match m with Ok a => Ok a | Error _ => Error e end.

Lemma recode_Ok {A} e (m : result A) a : recode e m = Ok a ↔ m = Ok a.
Proof. by destruct m. Qed.

Definition unknown_locator : Err := EWip "validation.unknown-locator".

Definition ResolveNode (p : Proj) (repo locator : string) : result Node :=
  if IsIdentityShaped locator then recode unknown_locator (view_Node p locator)
  else
    let segs := split_slash locator in
    matter ← recode unknown_locator (MatterByLocator p repo (hd "" segs));
    if bool_decide (length segs = 1%nat) then Ok matter
    else recode unknown_locator (NodeByLocator p (n_id matter) (List.last segs "")).

Record FindingSubject := MkFindingSubject { fs_id : string; fs_backlog : bool }.

Definition ResolveFindingSubject (p : Proj) (repo locator : string) : result FindingSubject :=
  if IsIdentityShaped locator then
    match view_Node p locator with
    | Ok n => Ok (MkFindingSubject (n_id n) false)
    | Error _ =>
        match BacklogEntry p repo locator with
        | Some _ => Ok (MkFindingSubject locator true)
        | None => Error unknown_locator
        end
    end
  else n ← ResolveNode p repo locator; Ok (MkFindingSubject (n_id n) false).

Definition ResolveMatter (p : Proj) (repo locator : string) : result Node :=
  n ← ResolveNode p repo locator;
  ensure (bool_decide (n_kind n = ScaleMatter)) (EWip "validation.not-a-matter") ;; Ok n.

Definition ResolveBatch (p : Proj) (locator : string) : result (string * BatchRow) :=
  if IsIdentityShaped locator then
    b ← recode (EWip "validation.unknown-batch") (view_Batch p locator); Ok (locator, b)
  else recode (EWip "validation.unknown-batch") (BatchByName p locator).
