(* ===== verification/Config.v ===== *)
(** Project configuration as commands (src/internal/store/config.go at schema
    version 13 and later): the effective tracker settings, config.set, the
    declaration of a gate with its snapshot of already sealed nodes, and the repair
    of an exemption.  The gate-order check the declare verb calls
    (src/internal/guards/gateorder.go) and the verb itself
    (src/internal/writesurface/gate.go, DeclareGate) are here too. *)
From S2P Require Import Prelude GoStd Ulid Taxonomy Json Payloads Tables View Gates Project Store.
From S2P Require Import Command.

(** ** Effective settings *)
Definition TrackerPushLevelKey : string := "tracker.push-level".
Definition TrackerBackendKey : string := "tracker.backend".
Definition TrackerBacklogPushKey : string := "tracker.backlog-push".
Definition TrackerBacklogPushManual : string := "manual".
Definition TrackerBacklogPushAuto : string := "auto".

Definition EffectiveTrackerPushLevel (p : Proj) (repo : string) : result string :=
  match view_Config p repo TrackerPushLevelKey with
  | Some value => ParseTrackerPushLevel value
  | None =>
      match view_Config p repo TrackerBackendKey with
      | Some backend => if bool_decide (backend = "") then Ok TrackerPushOff else Ok TrackerPushBoundary
      | None => Ok TrackerPushOff
      end
  end.

Definition ParseTrackerBacklogPush (value : string) : result string :=
  ensure (bool_decide (value = TrackerBacklogPushManual) || bool_decide (value = TrackerBacklogPushAuto))
    (ERefuse "is not a tracker backlog-push mode") ;; Ok value.

Definition EffectiveTrackerBacklogPush (p : Proj) (repo : string) : result string :=
  match view_Config p repo TrackerBacklogPushKey with
  | Some value => ParseTrackerBacklogPush value
  | None => Ok TrackerBacklogPushManual
  end.

(** ** The snapshot *)

(** Ids of the nodes of a list whose completion is sealed. *)
Fixpoint sealed_ids (log : list Event) (p : Proj) (ns : list Node) : result (list string) :=
  match ns with
  | [] => Ok []
  | n :: ns =>
      c ← view_NodeCompletion log p n;
      rest ← sealed_ids log p ns;
      Ok (if Sealed c then n_id n :: rest else rest)
  end.

Definition by_id (a b : string * NodeRow) : bool := String.leb a.1 b.1.

Definition done_at_scale (p : Proj) (repo : string) (scale : Scale) : list Node :=
  nodeList p (λ r, bool_decide (nd_repo r = repo) && bool_decide (nd_kind r = scale)
    && bool_decide (nd_lifecycle r = Done)) by_id.

Definition sealedNodesAtScale (log : list Event) (p : Proj) (repo : string) (scale : Scale)
    : result (list string) :=
  sealed_ids log p (done_at_scale p repo scale).

(** ** Gate order *)
Definition gateOrder (gate : string) : option nat :=
  if bool_decide (gate = "verified") then Some 0%nat
  else if bool_decide (gate = "reviewed-local") then Some 1%nat
  else if bool_decide (gate = "reviewed") then Some 2%nat
  else if bool_decide (gate = "ci-green") then Some 3%nat
  else None.

Definition scaleRank (s : Scale) : nat :=
  match s with ScaleStep => 0 | ScaleStage => 1 | ScaleMatter => 2 end.

Record Violation := MkViolation { Earlier : GateDeclaration; Later : GateDeclaration }.

(** The body of the double loop, for two declarations at different indices. *)
Definition violates (a b : GateDeclaration) : bool :=
  match gateOrder (gd_gate a), gateOrder (gd_gate b) with
  | Some ai, Some bi => (ai <? bi)%nat && (scaleRank (gd_scale b) <? scaleRank (gd_scale a))%nat
  | _, _ => false
  end.

Fixpoint later_violations (a : GateDeclaration) (i : nat) (j : nat) (ds : list GateDeclaration)
    : list Violation :=
  match ds with
  | [] => []
  | b :: ds =>
      let rest := later_violations a i (S j) ds in
      if negb (i =? j)%nat && violates a b then MkViolation a b :: rest else rest
  end.

Fixpoint violations_from (i : nat) (as_ ds : list GateDeclaration) : list Violation :=
  match as_ with
  | [] => []
  | a :: as_ => later_violations a i 0 ds ++ violations_from (S i) as_ ds
  end.

Definition Violations (declared : list GateDeclaration) : list Violation :=
  violations_from 0 declared declared.

Definition WouldViolate (declared : list GateDeclaration) (gate : string) (scale : Scale)
    : option GateDeclaration :=
  let merged := filter (λ d, gd_gate d ≠ gate) declared ++ [MkGateDeclaration "" gate scale] in
  (fix pick (vs : list Violation) : option GateDeclaration :=
    match vs with
    | [] => None
    | v :: vs =>
        if bool_decide (gd_gate (Earlier v) = gate) then Some (Later v)
        else if bool_decide (gd_gate (Later v) = gate) then Some (Earlier v)
        else pick vs
    end) (Violations merged).

(** ** The commands *)
Section commands.
Context (w : World) (fuel : nat).

Definition SetConfig (repo key value : string) : cmd () :=
  commit w fuel (repo_request ActorHuman repo)
    (mret ([draft TypeConfigSet repo (MkConfigSet key value)], tt)) ;; mret tt.

Definition SetTrackerPushLevel (repo value : string) : cmd string :=
  level ← clift (ParseTrackerPushLevel value);
  SetConfig repo TrackerPushLevelKey level ;; mret level.

Definition SetTrackerBacklogPush (repo value : string) : cmd string :=
  mode ← clift (ParseTrackerBacklogPush value);
  SetConfig repo TrackerBacklogPushKey mode ;; mret mode.

Definition store_DeclareGate (repo gate scale : string) : cmd () :=
  sc ← clift (from_option_err (ERefuse "is not a scale a gate can bind to") (enum_parse (A := Scale) scale));
  ccheck (negb (bool_decide (gate = ""))) (ERefuse "a gate declaration needs a gate name") ;;
  declared ← cread (λ _ p, Ok (GateDeclarations p repo));
  match find (λ d, bool_decide (gd_gate d = gate)) declared with
  | Some d =>
      if bool_decide (gd_scale d = sc) then mret tt
      else cfail (ERefuse "already binds to another scale")
  | None =>
      commit w fuel (repo_request ActorHuman repo)
        (exempt ← tread (λ log p, sealedNodesAtScale log p repo sc);
         mret ([draft TypeGateDeclared repo (MkGateDeclared gate scale exempt)], tt)) ;; mret tt
  end.

Definition store_RepairGateExemption (repo gate node : string) : cmd () :=
  commit w fuel (repo_request ActorHuman repo)
    (mret ([draft TypeGateExemptionRepaired node (MkGateExemptionRepaired gate)], tt)) ;; mret tt.

(** writesurface.DeclareGate *)
Definition DeclareGate (repo gate scale : string) : cmd () :=
  sc ← clift (from_option_err (EWip "validation.invalid-scale") (enum_parse (A := Scale) scale));
  ccheck (negb (bool_decide (gate = ""))) (EWip "validation.missing-gate-name") ;;
  declared ← cread (λ _ p, Ok (GateDeclarations p repo));
  ccheck (forallb (λ d, negb (bool_decide (gd_gate d = gate) && negb (bool_decide (gd_scale d = sc)))) declared)
    (EWip "refusal.gate-scale-change") ;;
  ccheck (negb (is_some (WouldViolate declared gate sc))) (EWip "refusal.gate-order-violation") ;;
  store_DeclareGate repo gate scale.
End commands.
