(* ===== verification/NodeVerbs.v ===== *)
(** The verbs on nodes (src/internal/writesurface: birth.go, amendment.go,
    lifecycle.go, seal.go, depend.go, content.go, bind.go).  Each is the whole
    function: the reads and refusals before the commit, the decide function, and the
    read-back that produces its result. *)
From S2P Require Import Prelude GoStd Ulid Taxonomy Json Payloads Tables View Gates Project Store.
From S2P Require Import Cycle Content Command Resolve Config.

(** View.Node, as a read of a command. *)
Definition node_of (id : string) (_ : list Event) (p : Proj) : result Node := view_Node p id.

Definition resolve (repo locator : string) (_ : list Event) (p : Proj) : result Node :=
  ResolveNode p repo locator.

Section verbs.
Context (w : World) (fuel : nat).

(** ** Birth *)
Definition CreateMatter (actor repo title locator : string) : cmd Node :=
  loc ← (if bool_decide (locator = "") then
           let l := slugify title in
           ccheck (negb (bool_decide (l = ""))) (EWip "validation.invalid-title") ;; mret l
         else
           ccheck (bool_decide (slugify locator = locator)) (EWip "validation.invalid-locator") ;;
           mret locator);
  taken ← cread (λ _ p, Ok (is_ok (MatterByLocator p repo loc)));
  ccheck (negb taken) (EWip "validation.locator-collision") ;;
  done ← commit w fuel (repo_request actor repo)
    (id ← tmint w fuel;
     mret ([draft TypeMatterCreated id (MkNodeBirth title loc "" 0)], id));
  cread (node_of done.2).

Definition CreateStage (actor repo parentLocator title : string) : cmd Node :=
  parent ← cread (resolve repo parentLocator);
  ccheck (bool_decide (n_kind parent = ScaleMatter)) (EWip "validation.not-a-matter") ;;
  let loc := slugify title in
  ccheck (negb (bool_decide (loc = ""))) (EWip "validation.invalid-title") ;;
  taken ← cread (λ _ p, Ok (is_ok (NodeByLocator p (n_id parent) loc)));
  ccheck (negb taken) (EWip "validation.locator-collision") ;;
  sortKey ← cread (λ _ p, Ok (NextSortKey p (n_id parent)));
  done ← commit w fuel (repo_request actor repo)
    (id ← tmint w fuel;
     mret ([draft TypeStageCreated id (MkNodeBirth title loc (n_id parent) sortKey)], id));
  cread (node_of done.2).

Definition CreateStep (actor repo parentLocator title : string) : cmd Node :=
  parent ← cread (resolve repo parentLocator);
  ccheck (negb (bool_decide (n_kind parent = ScaleStep))) (EWip "validation.invalid-parent") ;;
  loc ← cread (λ _ p, Ok (NextStepLocator p (n_matter parent)));
  sortKey ← cread (λ _ p, Ok (NextSortKey p (n_id parent)));
  done ← commit w fuel (repo_request actor repo)
    (id ← tmint w fuel;
     mret ([draft TypeStepCreated id (MkNodeBirth title loc (n_id parent) sortKey)], id));
  cread (node_of done.2).

(** ** Amendment *)
Definition liveSteps (p : Proj) (parent : string) : list Node :=
  filter (λ n, n_kind n = ScaleStep) (Children p parent).

Fixpoint index_of_node (id : string) (i : nat) (ns : list Node) : option nat :=
  match ns with
  | [] => None
  | n :: ns => if bool_decide (n_id n = id) then Some i else index_of_node id (S i) ns
  end.

Definition siblingIndex (p : Proj) (repo : string) (siblings : list Node) (locator : string)
    : result nat :=
  n ← ResolveNode p repo locator;
  from_option_err (EWip "validation.not-a-sibling") (index_of_node (n_id n) 0 siblings).

(** Where --after and --before put the new Step among its siblings. *)
Definition insert_position (p : Proj) (repo : string) (siblings : list Node) (after before : string)
    : result nat :=
  if negb (bool_decide (after = "")) then i ← siblingIndex p repo siblings after; Ok (S i)
  else if negb (bool_decide (before = "")) then siblingIndex p repo siblings before
  else Ok (length siblings).

(** The key for a position, or [None] when the gap is exhausted. *)
Definition insert_key (p : Proj) (parent : string) (siblings : list Node) (position : nat) : option Z :=
  if bool_decide (length siblings = 0%nat) || (position =? length siblings)%nat
  then Some (NextSortKey p parent)
  else
    match position with
    | O => match siblings with n :: _ => SortKeyBetween 0 (n_sort_key n) | [] => None end
    | S before =>
        match siblings !! before, siblings !! position with
        | Some a, Some b => SortKeyBetween (n_sort_key a) (n_sort_key b)
        | _, _ => None
        end
    end.

Definition InsertStep (actor repo parentLocator title after before : string) : cmd Node :=
  ccheck (bool_decide (after = "") || bool_decide (before = "")) (EWip "validation.conflicting-flags") ;;
  parent ← cread (resolve repo parentLocator);
  ccheck (negb (bool_decide (n_kind parent = ScaleStep))) (EWip "validation.invalid-parent") ;;
  siblings ← cread (λ _ p, Ok (liveSteps p (n_id parent)));
  position ← cread (λ _ p, insert_position p repo siblings after before);
  loc ← cread (λ _ p, Ok (NextStepLocator p (n_matter parent)));
  newKey ← cread (λ _ p, Ok (insert_key p (n_id parent) siblings position));
  done ← commit w fuel (repo_request actor repo)
    (id ← tmint w fuel;
     mret (match newKey with
           | Some key => [draft TypeStepInserted id (MkNodeBirth title loc (n_id parent) key)]
           | None =>
               [draft TypeStepReordered (n_id parent) (MkReordered (n_id <$> siblings));
                draft TypeStepInserted id (MkNodeBirth title loc (n_id parent)
                  (wrap64 (wrap64 (Z.of_nat position * 1000) + 500)))]
           end, id));
  cread (node_of done.2).

Fixpoint resolve_order (p : Proj) (repo : string) (live : list string) (order : list string)
    : result (list string) :=
  match order with
  | [] => Ok []
  | locator :: order =>
      n ← ResolveNode p repo locator;
      ensure (bool_decide (n_id n ∈ live)) (EWip "validation.not-a-sibling") ;;
      rest ← resolve_order p repo live order;
      Ok (n_id n :: rest)
  end.

Definition ReorderStep (actor repo parentLocator : string) (order : list string) : cmd Node :=
  parent ← cread (resolve repo parentLocator);
  siblings ← cread (λ _ p, Ok (liveSteps p (n_id parent)));
  ccheck (bool_decide (length order = length siblings)) (EWip "validation.incomplete-order") ;;
  resolved ← cread (λ _ p, resolve_order p repo (n_id <$> siblings) order);
  commit w fuel (repo_request actor repo)
    (mret ([draft TypeStepReordered (n_id parent) (MkReordered resolved)], tt)) ;;
  cread (node_of (n_id parent)).

Definition ReplaceStep (actor repo stepLocator title : string) : cmd Node :=
  n ← cread (resolve repo stepLocator);
  ccheck (bool_decide (n_kind n = ScaleStep)) (EWip "validation.not-a-step") ;;
  loc ← cread (λ _ p, Ok (NextStepLocator p (n_matter n)));
  done ← commit w fuel (repo_request actor repo)
    (id ← tmint w fuel;
     mret ([draft TypeStepReplaced (n_id n) (MkReplaced id title loc)], id));
  cread (node_of done.2).

Definition RemoveStep (actor repo stepLocator reason : string) : cmd () :=
  n ← cread (resolve repo stepLocator);
  ccheck (bool_decide (n_kind n = ScaleStep)) (EWip "validation.not-a-step") ;;
  commit w fuel (repo_request actor repo)
    (mret ([draft TypeStepRemoved (n_id n) (MkRemoved reason)], tt)) ;; mret tt.

(** ** Lifecycle *)
Inductive Action := Started | Finished | CanceledAction | PausedAction | Resumed.

(** lifecycleEvents[action][scale] *)
Definition lifecycleEvents (a : Action) (s : Scale) : EType :=
  match a, s with
  | Started, ScaleMatter => TypeMatterStarted
  | Started, ScaleStage => TypeStageStarted
  | Started, ScaleStep => TypeStepStarted
  | Finished, ScaleMatter => TypeMatterFinished
  | Finished, ScaleStage => TypeStageFinished
  | Finished, ScaleStep => TypeStepFinished
  | CanceledAction, ScaleMatter => TypeMatterCanceled
  | CanceledAction, ScaleStage => TypeStageCanceled
  | CanceledAction, ScaleStep => TypeStepCanceled
  | PausedAction, ScaleMatter => TypeMatterPaused
  | PausedAction, ScaleStage => TypeStagePaused
  | PausedAction, ScaleStep => TypeStepPaused
  | Resumed, ScaleMatter => TypeMatterResumed
  | Resumed, ScaleStage => TypeStageResumed
  | Resumed, ScaleStep => TypeStepResumed
  end.

(** The chain of parents, nearest first; the tree has three levels, so two
    parents are enough. *)
Fixpoint ancestors_up (depth : nat) (p : Proj) (cur : Node) : result (list Node) :=
  if bool_decide (n_parent cur = "") then Ok []
  else
    match depth with
    | O => Error EFuel
    | S depth =>
        parent ← view_Node p (n_parent cur);
        rest ← ancestors_up depth p parent;
        Ok (parent :: rest)
    end.

Definition ancestorsRootFirst (p : Proj) (n : Node) : result (list Node) :=
  chain ← ancestors_up tree_depth p n; Ok (reverse chain).

Definition invalid_transition : Err := EWip "refusal.invalid-transition".

(** The loop of Start's decide function over the chain; [drafts] accumulates. *)
Fixpoint start_loop (p : Proj) (level target : string) (chain : list Node) (drafts : list Draft)
    : result (list Draft) :=
  match chain with
  | [] => Ok drafts
  | node :: chain =>
      let isTarget := bool_decide (n_id node = target) in
      fresh ← view_Node p (n_id node);
      if bool_decide (n_lifecycle fresh = Planned) then
        let d := draft (lifecycleEvents Started (n_kind fresh)) (n_id fresh)
          (MkTransition (enum_str Planned) (enum_str InProgress) (negb isTarget) level "") in
        let cause := if (0 <? length drafts)%nat then (Z.of_nat (length drafts) - 1)%Z else 0%Z in
        start_loop p level target chain (drafts ++ [with_cause d cause])
      else if isTarget then Error invalid_transition
      else start_loop p level target chain drafts
  end.

Definition ErrNoEvent : Err := ERefuse "the command produced no event".

Definition Start (actor repo locator : string) : cmd (list Event) :=
  target ← cread (resolve repo locator);
  ancestors ← cread (λ _ p, ancestorsRootFirst p target);
  done ← commit w fuel (repo_request actor repo)
    (level ← tread (λ _ p, EffectiveTrackerPushLevel p repo);
     drafts ← tread (λ _ p, start_loop p level (n_id target) (ancestors ++ [target]) []);
     tcheck (negb (bool_decide (length drafts = 0%nat))) ErrNoEvent ;;
     mret (drafts, tt));
  mret done.1.

(** The result of a write that can seal a Matter. *)
Record SealTransition := MkSealTransition { st_node : Node; BecameSealed : bool }.

Definition sealSweepDraft (p : Proj) (matterID : string) : option Draft :=
  match AnonymousBatchForMatter p matterID with
  | Some (id, b) =>
      if bool_decide (bt_state b = BatchLive)
      then Some (draft TypeBatchSwept id MkBatchSweptPayload) else None
  | None => None
  end.

(** The tail of the decide functions that can seal: when the overlay says the
    Matter becomes sealed, its live anonymous Batch is swept by the same command. *)
Definition seal_drafts (log : list Event) (p : Proj) (fresh : Node) (o : CompletionOverlay) (d : Draft)
    : result (list Draft * bool) :=
  before ← view_NodeCompletion log p fresh;
  willBe ← NodeCompletionWithOverlay log p fresh o;
  let becameSealed := negb (Sealed before) && Sealed willBe in
  if becameSealed then
    Ok (match sealSweepDraft p (n_id fresh) with Some sweep => [d; sweep] | None => [d] end, true)
  else Ok ([d], false).

Definition action_is_finish (a : Action) : bool := match a with Finished => true | _ => false end.

Definition simpleTransitionEnvResult (actor : string) (env : Env) (locator : string) (action : Action)
    (from to : Lifecycle) (reason : string) : cmd SealTransition :=
  let repo := env_repo env in
  n ← cread (resolve repo locator);
  ccheck (bool_decide (n_lifecycle n = from)) invalid_transition ;;
  done ← commit w fuel (MkRequest actor env)
    (level ← tread (λ _ p, EffectiveTrackerPushLevel p repo);
     fresh ← tread (node_of (n_id n));
     tcheck (bool_decide (n_lifecycle fresh = from)) invalid_transition ;;
     let d := draft (lifecycleEvents action (n_kind fresh)) (n_id fresh)
       (MkTransition (enum_str from) (enum_str to) false level reason) in
     if action_is_finish action && bool_decide (n_kind fresh = ScaleMatter)
     then tread (λ log p, seal_drafts log p fresh (MkOverlay (n_id fresh) "" "") d)
     else mret ([d], false));
  fresh ← cread (node_of (n_id n));
  mret (MkSealTransition fresh done.2).

Definition simpleTransition (actor repo locator : string) (action : Action) (from to : Lifecycle)
    (reason : string) : cmd Node :=
  r ← simpleTransitionEnvResult actor (MkEnv repo "" "") locator action from to reason; mret (st_node r).

Definition Finish (actor repo locator : string) : cmd Node :=
  simpleTransition actor repo locator Finished InProgress Done "".

Definition FinishWithEnvResult (actor : string) (env : Env) (locator : string) : cmd SealTransition :=
  simpleTransitionEnvResult actor env locator Finished InProgress Done "".

Definition Cancel (actor repo locator reason : string) : cmd Node :=
  simpleTransition actor repo locator CanceledAction InProgress Canceled reason.

Definition Pause (actor repo locator : string) : cmd Node :=
  simpleTransition actor repo locator PausedAction InProgress Paused "".

Definition Resume (actor repo locator : string) : cmd Node :=
  simpleTransition actor repo locator Resumed Paused InProgress "".

(** ** Dependencies *)
Definition DependAdd (actor repo blockedLocator blockerLocator : string) : cmd Edge :=
  blocked ← cread (resolve repo blockedLocator);
  blocker ← cread (resolve repo blockerLocator);
  cycle ← cread (λ _ p, Ok (WouldCycle p (n_id blocked) (n_id blocker)));
  ccheck (negb cycle) (EWip "refusal.blocked-by-cycle") ;;
  done ← commit w fuel (repo_request actor repo)
    (edgeID ← tmint w fuel;
     mret ([draft TypeDependencyAdded (n_id blocked) (MkDependencyChange edgeID (n_id blocker))], edgeID));
  mret (MkEdge done.2 (n_id blocked) (n_id blocker)).

Definition DependRemove (actor repo blockedLocator blockerLocator : string) : cmd () :=
  blocked ← cread (resolve repo blockedLocator);
  blocker ← cread (resolve repo blockerLocator);
  found ← cread (λ _ p, Ok (EdgeBetween p (n_id blocked) (n_id blocker)));
  edge ← clift (from_option_err (EWip "validation.no-such-edge") found);
  commit w fuel (repo_request actor repo)
    (mret ([draft TypeDependencyRemoved (n_id blocked)
       (MkDependencyChange (e_id edge) (n_id blocker))], tt)) ;; mret tt.

(** ** Content *)
Definition WriteOnce (actor repo locator kind data : string) : cmd Node :=
  n ← cread (resolve repo locator);
  existing ← cread (λ log p, Ok (match enum_parse (A := ContentKind) kind with
                                  | Some k => ContentSegments log p (n_id n) k | None => [] end));
  ccheck (bool_decide (length existing = 0%nat)) (EWip "validation.content-already-written") ;;
  commit w fuel (repo_request actor repo)
    (d ← tcontent w fuel (n_id n) kind data; mret ([d], tt)) ;;
  mret n.

Definition AppendFinding (actor repo locator data : string) : cmd FindingSubject :=
  sub ← cread (λ _ p, ResolveFindingSubject p repo locator);
  commit w fuel (repo_request actor repo)
    (d ← tcontent w fuel (fs_id sub) (enum_str KindFindings) data; mret ([d], tt)) ;;
  mret sub.

(** ** Tracker references *)
Definition reference_verb (actor repo locator : string) (d : string → string → Draft) : cmd Node :=
  n ← cread (λ _ p, ResolveMatter p repo locator);
  commit w fuel (repo_request actor repo)
    (level ← tread (λ _ p, EffectiveTrackerPushLevel p repo); mret ([d (n_id n) level], tt)) ;;
  cread (node_of (n_id n)).

Definition Bind (actor repo locator ref : string) : cmd Node :=
  reference_verb actor repo locator
    (λ id level, draft TypeReferenceAdded id (MkReferenceAdded ref level)).

Definition Unbind (actor repo locator ref : string) : cmd Node :=
  reference_verb actor repo locator
    (λ id level, draft TypeReferenceRemoved id (MkReferenceRemoved ref level)).

Definition Rebind (actor repo locator from to : string) : cmd Node :=
  reference_verb actor repo locator
    (λ id level, draft TypeReferenceRebound id (MkReferenceRebound from to level)).
End verbs.
