(* ===== verification/WorkVerbs.v ===== *)
(** The other verbs of the write surface (src/internal/writesurface: gate.go,
    backlog.go, outbox.go, tracker.go, batch.go, role.go, run.go). *)
From S2P Require Import Prelude GoStd Ulid Taxonomy Json Payloads Tables View Gates Project Store.
From S2P Require Import Command Resolve Config NodeVerbs.

(** The first declaration of a gate in a list, and the scale it binds to. *)
Definition bound_scale (gate : string) (ds : list GateDeclaration) : option Scale :=
  gd_scale <$> find (λ d, bool_decide (gd_gate d = gate)) ds.

(** D14: an outer-loop role is active when the Repo declares a gate it owns. *)
Definition roleActive (name : RoleName) (declared : list GateDeclaration) : bool :=
  existsb (λ d, match GateOwner (gd_gate d) with Some o => bool_decide (o = name) | None => false end)
    declared.

Record RoleActivation := MkRoleActivation {
  ra_role : RoleName; ra_owns : list string; ra_declared : list string; ra_active : bool; ra_inert : bool
}.

Definition role_activation (declared : list GateDeclaration) (name : RoleName) : RoleActivation :=
  let inert := bool_decide (name = RoleWarden) in
  let ds := gd_gate <$> filter (λ d, GateOwner (gd_gate d) = Some name) declared in
  MkRoleActivation name (OwnedGates name) ds (negb (bool_decide (length ds = 0%nat)) && negb inert) inert.

Definition Activation (declared : list GateDeclaration) : list RoleActivation :=
  role_activation declared <$> [RoleVerifier; RoleWarden].

Section verbs.
Context (w : World) (fuel : nat).

(** ** Gates *)
Definition RepairGateExemption (repo gate locator : string) : cmd Node :=
  n ← cread (resolve repo locator);
  ccheck (bool_decide (n_repo n = repo)) unknown_locator ;;
  declared ← cread (λ _ p, Ok (GateDeclarations p repo));
  bound ← clift (from_option_err (EWip "validation.gate-not-declared") (bound_scale gate declared));
  ccheck (bool_decide (n_kind n = bound)) (EWip "refusal.gate-repair-scale") ;;
  ccheck (bool_decide (n_lifecycle n = Done)) (EWip "refusal.gate-repair-lifecycle") ;;
  exempt ← cread (λ _ p, Ok (GateExempt p repo (n_id n) gate));
  if exempt : bool then mret n
  else
    satisfied ← cread (λ _ p, Ok (GateSatisfied p repo (n_id n) gate));
    ccheck (negb satisfied) (EWip "refusal.gate-already-satisfied") ;;
    requirements ← cread (λ log p, EffectiveGateRequirements log p n);
    ccheck (forallb (λ r, (bool_decide (n_id (gr_subject r) = n_id n) && bool_decide (gr_gate r = gate))
                          || negb (bool_decide (gr_state r = GateRequirementOpen))) requirements)
      (EWip "refusal.gate-repair-prerequisite") ;;
    store_RepairGateExemption w fuel repo gate (n_id n) ;;
    mret n.

(** What both gate writes re-check inside the transaction: the node as it is now
    and the scale its gate is bound to. *)
Definition fresh_bound (p : Proj) (repo gate : string) (fresh : Node) : result () :=
  bound ← from_option_err (EWip "validation.gate-not-declared") (bound_scale gate (GateDeclarations p repo));
  ensure (bool_decide (n_kind fresh = bound)) (EWip "refusal.gate-scale").

(** The drafts of a gate write: a Matter's may seal it. *)
Definition gate_drafts (fresh : Node) (gate : string) (d : Draft) : tx (list Draft * bool) :=
  if bool_decide (n_kind fresh = ScaleMatter)
  then tread (λ log p, seal_drafts log p fresh (MkOverlay "" (n_id fresh) gate) d)
  else mret ([d], false).

Definition dismissGateEnv (actor : string) (env : Env) (gate locator reason : string) : cmd SealTransition :=
  let repo := env_repo env in
  ccheck (negb (isBlank reason)) (EWip "validation.missing-reason") ;;
  n ← cread (resolve repo locator);
  ccheck (bool_decide (n_repo n = repo)) unknown_locator ;;
  cread (λ _ p, fresh_bound p repo gate n) ;;
  ccheck (bool_decide (n_lifecycle n = Done)) (EWip "refusal.gate-dismissal-lifecycle") ;;
  satisfied ← cread (λ _ p, Ok (GateSatisfied p repo (n_id n) gate));
  ccheck (negb satisfied) (EWip "refusal.gate-already-satisfied") ;;
  ccheck (dismissalActorAllowed actor gate) (EWip "refusal.gate-owner") ;;
  done ← commit w fuel (MkRequest actor env)
    (level ← tread (λ _ p, EffectiveTrackerPushLevel p repo);
     fresh ← tread (node_of (n_id n));
     tcheck (bool_decide (n_repo fresh = repo)) unknown_locator ;;
     tcheck (bool_decide (n_lifecycle fresh = Done)) (EWip "refusal.gate-dismissal-lifecycle") ;;
     tread (λ _ p, fresh_bound p repo gate fresh) ;;
     satisfied ← tread (λ _ p, Ok (GateSatisfied p repo (n_id fresh) gate));
     tcheck (negb satisfied) (EWip "refusal.gate-already-satisfied") ;;
     gate_drafts fresh gate (draft TypeGateDismissed (n_id fresh)
       (MkGateDismissed gate (enum_str (n_kind fresh)) reason level)));
  fresh ← cread (node_of (n_id n));
  mret (MkSealTransition fresh done.2).

(** A role-owned gate closes under its owning role, any other under the human. *)
Definition close_actor_ok (actor gate : string) : bool :=
  match GateOwner gate with
  | Some owner => bool_decide (actor = role_actor owner)
  | None => bool_decide (actor = ActorHuman)
  end.

Definition closeGateEnv (actor : string) (env : Env) (gate locator : string) : cmd SealTransition :=
  let repo := env_repo env in
  n ← cread (resolve repo locator);
  cread (λ _ p, fresh_bound p repo gate n) ;;
  satisfied ← cread (λ _ p, Ok (GateSatisfied p repo (n_id n) gate));
  ccheck (negb satisfied) (EWip "refusal.gate-already-satisfied") ;;
  ccheck (close_actor_ok actor gate) (EWip "refusal.gate-owner") ;;
  done ← commit w fuel (MkRequest actor env)
    (level ← tread (λ _ p, EffectiveTrackerPushLevel p repo);
     fresh ← tread (node_of (n_id n));
     tread (λ _ p, fresh_bound p repo gate fresh) ;;
     gate_drafts fresh gate (draft TypeGateClosed (n_id fresh)
       (MkGateClosed gate (enum_str (n_kind fresh)) level)));
  fresh ← cread (node_of (n_id n));
  mret (MkSealTransition fresh done.2).

Definition CloseGate (actor repo gate locator : string) : cmd Node :=
  r ← closeGateEnv actor (MkEnv repo "" "") gate locator; mret (st_node r).

Definition DismissGate (actor repo gate locator reason : string) : cmd Node :=
  r ← dismissGateEnv actor (MkEnv repo "" "") gate locator reason; mret (st_node r).

(** ** Backlog *)
Definition autoDelegateOnAdd (p : Proj) (repo : string) : result bool :=
  mode ← EffectiveTrackerBacklogPush p repo;
  if negb (bool_decide (mode = TrackerBacklogPushAuto)) then Ok false
  else Ok (negb (bool_decide (coalesce (view_Config p repo TrackerBackendKey) = ""))).

Definition requireEnteredBacklogEntry (p : Proj) (repo entryID : string) : result () :=
  match find (λ kr, bool_decide (kr.1 = entryID)) (Backlog p repo) with
  | Some (_, r) =>
      ensure (bool_decide (bl_state r = BacklogEnteredState)) (EWip "validation.backlog-not-entered")
  | None => Error (EWip "validation.unknown-backlog-entry")
  end.

Definition backlogEntryByID (repo id : string) (_ : list Event) (p : Proj) : result BacklogRow :=
  from_option_err (ERefuse "no backlog entry") (BacklogEntry p repo id).

Definition BacklogAdd (actor repo provenance title detail originLocator : string) : cmd BacklogRow :=
  prov ← clift (from_option_err (EWip "validation.invalid-provenance")
           (enum_parse (A := Provenance) provenance));
  ccheck (negb (bool_decide (title = ""))) (EWip "validation.missing-title") ;;
  originNode ← (if bool_decide (originLocator = "") then
                  ccheck (negb (bool_decide (prov = ProvenanceDeferred))) (EWip "validation.missing-origin") ;;
                  mret ""
                else n ← cread (resolve repo originLocator); mret (n_id n));
  done ← commit w fuel (repo_request actor repo)
    (id ← tmint w fuel;
     let entered := draft TypeBacklogEntered id (MkBacklogEntered provenance title detail originNode) in
     push ← tread (λ _ p, autoDelegateOnAdd p repo);
     if push : bool then
       outbox ← tmint w fuel;
       mret ([entered; draft TypeBacklogDelegated id (MkBacklogDelegated outbox (String.append "backlog:" id))], id)
     else mret ([entered], id));
  cread (backlogEntryByID repo done.2).

(** The shape of the three exits: the entry is entered inside the transaction. *)
Definition backlog_exit (actor repo entryID : string) (d : tx Draft) : cmd BacklogRow :=
  commit w fuel (repo_request actor repo)
    (tread (λ _ p, requireEnteredBacklogEntry p repo entryID) ;; x ← d; mret ([x], tt)) ;;
  cread (backlogEntryByID repo entryID).

Definition BacklogPlan (actor repo entryID matterLocator : string) : cmd BacklogRow :=
  matter ← cread (λ _ p, ResolveMatter p repo matterLocator);
  backlog_exit actor repo entryID
    (mret (draft TypeBacklogPlanned entryID (MkBacklogPlanned (n_id matter)))).

Definition BacklogDecline (actor repo entryID reason : string) : cmd BacklogRow :=
  ccheck (negb (bool_decide (reason = ""))) (EWip "validation.missing-reason") ;;
  backlog_exit actor repo entryID
    (mret (draft TypeBacklogDeclined entryID (MkBacklogDeclined reason))).

Definition BacklogDelegate (actor repo entryID : string) : cmd BacklogRow :=
  backlog_exit actor repo entryID
    (outbox ← tmint w fuel;
     mret (draft TypeBacklogDelegated entryID
       (MkBacklogDelegated outbox (String.append "backlog:" entryID)))).

Definition ConfirmBacklogDelegation (actor repo outbox ref : string) : cmd () :=
  ccheck (negb (bool_decide (ref = ""))) (EWip "validation.missing-reference") ;;
  entry ← cread (λ _ p, view_OutboxEntry p repo outbox);
  ccheck (bool_decide (oe_kind entry = OutboxCreate) && bool_decide (oe_state entry = OutboxApprovedState))
    (EWip "refusal.outbox-not-approved") ;;
  commit w fuel (repo_request actor repo)
    (mret ([draft TypeTrackerItemCreated outbox (MkTrackerItemCreated ref)], tt)) ;; mret tt.

(** ** Outbox *)
Definition mutateOutbox (actor repo id : string) (d : Draft) : cmd OutboxEntry :=
  ccheck (IsIdentityShaped id) (EWip "validation.invalid-outbox-identity") ;;
  commit w fuel (repo_request actor repo) (mret ([d], tt)) ;;
  cread (λ _ p, view_OutboxEntry p repo id).

Definition OutboxApprove (actor repo id : string) : cmd OutboxEntry :=
  mutateOutbox actor repo id (draft TypeOutboxApproved id MkOutboxApproved).

Definition OutboxDecline (actor repo id reason : string) : cmd OutboxEntry :=
  ccheck (negb (isBlank reason)) (EWip "validation.missing-reason") ;;
  mutateOutbox actor repo id (draft TypeOutboxDeclined id (MkOutboxDeclined reason)).

Definition OutboxRetry (actor repo id : string) : cmd OutboxEntry :=
  mutateOutbox actor repo id (draft TypeOutboxRetried id MkOutboxRetried).

Definition WithholdOutbox (actor repo id reason : string) (attempted : bool) (cause : string) : cmd () :=
  ccheck (negb (isBlank reason)) (EWip "validation.missing-reason") ;;
  ccheck (negb (bool_decide (cause = ""))) (EWip "validation.missing-withhold-cause") ;;
  mutateOutbox actor repo id (draft TypeOutboxWithheld id (MkOutboxWithheld reason attempted cause)) ;;
  mret tt.

Definition FailOutbox (actor repo id reason : string) : cmd () :=
  ccheck (negb (isBlank reason)) (EWip "validation.missing-reason") ;;
  mutateOutbox actor repo id (draft TypeOutboxDeliveryFailed id (MkOutboxDeliveryFailed reason)) ;;
  mret tt.

Definition FlushOutboxComment (actor repo id : string) : cmd () :=
  mutateOutbox actor repo id (draft TypeOutboxFlushed id MkOutboxFlushed) ;; mret tt.

Definition PushTrackerState (actor repo id ref disposition lease : string) : cmd () :=
  ccheck (negb (bool_decide (ref = "") || bool_decide (lease = ""))) (EWip "validation.invalid-tracker-result") ;;
  commit w fuel (repo_request actor repo)
    (mret ([draft TypeTrackerStatePushed id (MkTrackerStatePushed ref disposition lease)], tt)) ;; mret tt.

Definition ObserveTrackerState (actor repo id ref disposition lease : string) : cmd () :=
  ccheck (negb (bool_decide (ref = "") || bool_decide (lease = ""))) (EWip "validation.invalid-tracker-result") ;;
  commit w fuel (repo_request actor repo)
    (mret ([draft TypeTrackerStateObserved id (MkTrackerStateObserved ref disposition lease)], tt)) ;; mret tt.

(** ** Tracker proposals *)
Definition proposeTracker (actor repo : string) (a : TrackerAdhocProposed) : cmd OutboxEntry :=
  done ← commit w fuel (repo_request actor repo)
    (mret ([draft TypeTrackerAdhocProposed repo a], tt));
  match done.1 with
  | e :: _ => cread (λ _ p, OutboxEntryByBirth p repo (ev_id e))
  | [] => cfail (ERefuse "index out of range")
  end.

Definition ProposeTrackerCreate (actor repo title detail : string) : cmd OutboxEntry :=
  let title := TrimSpace title in
  ccheck (negb (bool_decide (title = ""))) (EWip "validation.missing-title") ;;
  proposeTracker actor repo (MkTrackerAdhocProposed "create" title detail "" "" "").

Definition ProposeTrackerComment (actor repo ref body : string) : cmd OutboxEntry :=
  ccheck (negb (bool_decide (ref = ""))) (EWip "validation.missing-reference") ;;
  let body := TrimSpace body in
  ccheck (negb (bool_decide (body = ""))) (EWip "validation.missing-body") ;;
  proposeTracker actor repo (MkTrackerAdhocProposed "comment" "" "" ref body "").

Definition ProposeTrackerState (actor repo ref disposition : string) : cmd OutboxEntry :=
  ccheck (negb (bool_decide (ref = ""))) (EWip "validation.missing-reference") ;;
  ccheck (is_some (enum_parse (A := TrackerDisposition) disposition)) (EWip "validation.invalid-disposition") ;;
  proposeTracker actor repo (MkTrackerAdhocProposed "state" "" "" ref "" disposition).

(** ** Batches *)
Definition batch_of (id : string) (_ : list Event) (p : Proj) : result BatchRow := view_Batch p id.

Definition CreateBatch (actor : string) (env : Env) (name : string) : cmd BatchRow :=
  ccheck (negb (isBlank name)) (EWip "validation.empty-batch-name") ;;
  done ← commit w fuel (MkRequest actor env)
    (exists_ ← tread (λ _ p, Ok (BatchNameExists p name));
     tcheck (negb exists_) (EWip "refusal.batch-name-collision") ;;
     id ← tmint w fuel;
     mret ([draft TypeBatchCreated id (MkBatchCreated name "")], id));
  cread (batch_of done.2).

Definition CreateAnonymousBatch (actor : string) (env : Env) (matter : string) : cmd BatchRow :=
  done ← commit w fuel (MkRequest actor env)
    (n ← tread (λ _ p, recode (EWip "validation.not-a-matter") (view_Node p matter));
     tcheck (bool_decide (n_kind n = ScaleMatter)) (EWip "validation.not-a-matter") ;;
     existing ← tread (λ _ p, Ok (AnonymousBatchForMatter p matter));
     tcheck (negb (is_some existing)) (EWip "refusal.anonymous-batch-exists") ;;
     id ← tmint w fuel;
     mret ([draft TypeBatchCreated id (MkBatchCreated "" matter)], id));
  cread (batch_of done.2).

(** The checks both membership verbs make of the Batch inside the transaction. *)
Definition named_live_batch (p : Proj) (id : string) : result () :=
  fresh ← view_Batch p id;
  ensure (bool_decide (bt_state fresh = BatchLive)) (EWip "refusal.batch-closed") ;;
  ensure (bool_decide (coalesce (bt_matter fresh) = "")) (EWip "refusal.anonymous-batch-membership").

Definition JoinBatch (actor : string) (env : Env) (batchLocator matterLocator : string)
    : cmd (BatchRow * string) :=
  batch ← cread (λ _ p, ResolveBatch p batchLocator);
  matter ← cread (λ _ p, ResolveMatter p (env_repo env) matterLocator);
  commit w fuel (MkRequest actor env)
    (tread (λ _ p, named_live_batch p batch.1) ;;
     mret ([draft TypeBatchJoined batch.1 (MkBatchMembership (n_id matter))], tt)) ;;
  result ← cread (batch_of batch.1);
  mret (result, n_id matter).

Definition LeaveBatch (actor : string) (env : Env) (batchLocator matterLocator : string)
    : cmd (BatchRow * string) :=
  batch ← cread (λ _ p, ResolveBatch p batchLocator);
  matter ← cread (λ _ p, ResolveMatter p (env_repo env) matterLocator);
  commit w fuel (MkRequest actor env)
    (tread (λ _ p, named_live_batch p batch.1) ;;
     member ← tread (λ _ p, Ok (BatchMember p batch.1 (n_id matter)));
     tcheck member (EWip "refusal.batch-not-member") ;;
     mret ([draft TypeBatchLeft batch.1 (MkBatchMembership (n_id matter))], tt)) ;;
  result ← cread (batch_of batch.1);
  mret (result, n_id matter).

Definition DismissBatch (actor : string) (env : Env) (locator : string) : cmd BatchRow :=
  batch ← cread (λ _ p, ResolveBatch p locator);
  ccheck (bool_decide (coalesce (bt_matter batch.2) = "")) (EWip "refusal.anonymous-batch-dismissal") ;;
  commit w fuel (MkRequest actor env)
    (fresh ← tread (batch_of batch.1);
     tcheck (bool_decide (bt_state fresh = BatchLive)) (EWip "refusal.batch-closed") ;;
     tcheck (bool_decide (coalesce (bt_matter fresh) = "")) (EWip "refusal.anonymous-batch-dismissal") ;;
     mret ([draft TypeBatchDismissed batch.1 MkBatchDismissedPayload], tt)) ;;
  cread (batch_of batch.1).

(** ** Roles *)
Definition SpawnRole (actor : string) (env : Env) (name : string) : cmd RoleRow :=
  role ← clift (from_option_err (EWip "validation.unknown-role") (enum_parse (A := RoleName) name));
  (if OuterLoop role then
     declared ← cread (λ _ p, Ok (GateDeclarations p (env_repo env)));
     ccheck (roleActive role declared) (EWip "refusal.role-dormant") ;;
     ccheck (negb (bool_decide (role = RoleWarden))) (EWip "refusal.role-inert")
   else mret tt) ;;
  found ← cread (λ _ p, Ok (OpenDispatch p (env_worktree env)));
  dispatch ← clift (from_option_err (EWip "validation.no-open-dispatch") found);
  done ← commit w fuel (MkRequest actor env)
    (open ← tread (λ _ p, Ok (OpenRole p dispatch.1 role));
     tcheck (negb (is_some open)) (EWip "refusal.role-contention") ;;
     id ← tmint w fuel;
     mret ([draft TypeRoleSpawned id (MkRoleSpawned dispatch.1 name)], id));
  cread (λ _ p, view_Role p done.2).

Definition CloseRole (env : Env) (name : string) : cmd RoleRow :=
  role ← clift (from_option_err (EWip "validation.unknown-role") (enum_parse (A := RoleName) name));
  found ← cread (λ _ p, Ok (OpenDispatch p (env_worktree env)));
  dispatch ← clift (from_option_err (EWip "validation.no-open-dispatch") found);
  open ← cread (λ _ p, Ok (OpenRole p dispatch.1 role));
  ccheck (is_some open) (EWip "validation.no-open-role") ;;
  done ← commit w fuel (MkRequest (RoleActor name) env)
    (open ← tread (λ _ p, Ok (OpenRole p dispatch.1 role));
     r ← tlift (from_option_err (EWip "validation.no-open-role") open);
     mret ([draft TypeRoleClosed r.1 (MkRoleClosed (enum_str RoleCloseCompleted))], r.1));
  cread (λ _ p, view_Role p done.2).

(** ** Runs *)

(** One dispatch.closed per open Dispatch of the Run, in its own dimensions. *)
Fixpoint reap_drafts (p : Proj) (ds : list (string * DispatchRow)) : result (list Draft) :=
  match ds with
  | [] => Ok []
  | (id, d) :: ds =>
      clone ← view_Clone p (dp_clone d);
      rest ← reap_drafts p ds;
      Ok (MkDraft (enum_str TypeDispatchClosed) id (pl_enc (MkDispatchClosed (enum_str CloseReaped)))
            (Some (MkEnv (cl_repo clone) (dp_clone d) (dp_worktree d))) 0 :: rest)
  end.

(** [acquire] is the advisory lock of runlock: it succeeds when no live process
    holds the Run's lock, and is released when the verb returns. *)
Definition StandDownRun (acquire : string → result ()) (actor : string) (env : Env) (runID : string)
    : cmd (RunRow * list Event) :=
  ccheck (IsIdentityShaped runID) (EWip "validation.invalid-run-identity") ;;
  r ← cread (λ _ p, recode (EWip "validation.unknown-run") (view_Run p runID));
  ccheck (bool_decide (rn_state r = StOpen)) (EWip "refusal.run-closed") ;;
  clift (acquire runID) ;;
  done ← commit w fuel (MkRequest actor env)
    (fresh ← tread (λ _ p, recode (EWip "validation.unknown-run") (view_Run p runID));
     tcheck (bool_decide (rn_state fresh = StOpen)) (EWip "refusal.run-closed") ;;
     reaps ← tread (λ _ p, reap_drafts p (OpenDispatchesForRun p runID));
     mret (draft TypeRunStoodDown runID (MkRunStoodDown (env_clone env) (rn_clone fresh)) :: reaps, tt));
  closed ← cread (λ _ p, view_Run p runID);
  mret (closed, done.1).
End verbs.
