(* ===== verification/ReadSurface.v ===== *)
(** The read surface (src/internal/readsurface): the frontier of unblocked work,
    the collapsed listings, when a node was sealed, how a node is addressed, and
    the cursor with the two commands that move it. *)
From S2P Require Import Prelude GoStd Ulid Taxonomy Json Payloads Tables View Gates Project Store.
From S2P Require Import Command Resolve NodeVerbs.

(** ** frontier.go *)

(** LocallyComplete and Sealed: the two answers of the evaluator. *)
Definition read_LocallyComplete (log : list Event) (p : Proj) (n : Node) : result bool :=
  completion ← view_NodeCompletion log p n; Ok (LocallyComplete completion).

Definition read_Sealed (log : list Event) (p : Proj) (n : Node) : result bool :=
  completion ← view_NodeCompletion log p n; Ok (Sealed completion).

Record Blocked := MkBlocked { bk_node : Node; bk_blockers : list Node }.

(** The blockers at the other end of some edges: those that are locally complete
    and those that are not. *)
Fixpoint split_blockers (log : list Event) (p : Proj) (edges : list Edge)
    : result (list Node * list Node) :=
  match edges with
  | [] => Ok ([], [])
  | e :: edges =>
      blocker ← view_Node p (e_blocker e);
      ok ← read_LocallyComplete log p blocker;
      rest ← split_blockers log p edges;
      Ok (if ok : bool then (blocker :: rest.1, rest.2) else (rest.1, blocker :: rest.2))
  end.

Fixpoint frontier_loop (log : list Event) (p : Proj) (planned : list Node)
    : result (list Node * list Blocked) :=
  match planned with
  | [] => Ok ([], [])
  | n :: planned =>
      blockers ← split_blockers log p (BlockedBy p (n_id n));
      rest ← frontier_loop log p planned;
      Ok (match blockers.2 with
          | [] => (n :: rest.1, rest.2)
          | unmet => (rest.1, MkBlocked n unmet :: rest.2)
          end)
  end.

Definition Frontier (log : list Event) (p : Proj) : result (list Node * list Blocked) :=
  frontier_loop log p (view_Planned p).

(** The walk from a node to its root, stopped at the first marked ancestor. *)
Fixpoint marked_above (depth : nat) (p : Proj) (mark : string → bool) (cur : Node) : result bool :=
  if bool_decide (n_parent cur = "") then Ok false
  else
    match depth with
    | O => Error EFuel
    | S depth =>
        parent ← view_Node p (n_parent cur);
        if mark (n_id parent) then Ok true else marked_above depth p mark parent
    end.

Fixpoint collapse_ready (p : Proj) (mark : string → bool) (ready : list Node) : result (list Node) :=
  match ready with
  | [] => Ok []
  | n :: ready =>
      drop ← marked_above tree_depth p mark n;
      rest ← collapse_ready p mark ready;
      Ok (if drop : bool then rest else n :: rest)
  end.

Definition CollapseReady (p : Proj) (ready : list Node) : result (list Node) :=
  collapse_ready p (λ id, bool_decide (id ∈ n_id <$> ready)) ready.

Record Finished := MkFinished {
  fin_node : Node; fin_local : bool; fin_sealed : bool; fin_pending : list GateRequirement
}.

Fixpoint finished_loop (log : list Event) (p : Proj) (done : list Node) : result (list Finished) :=
  match done with
  | [] => Ok []
  | n :: done =>
      c ← view_NodeCompletion log p n;
      rest ← finished_loop log p done;
      Ok (MkFinished n (LocallyComplete c) (Sealed c) (Pending c) :: rest)
  end.

Definition FinishedNodes (log : list Event) (p : Proj) : result (list Finished) :=
  finished_loop log p (view_Done p).

(** sealedByID: the flag of the last entry with that identity. *)
Definition sealedByID (finished : list Finished) : gmap string bool :=
  foldl (λ m f, <[n_id (fin_node f) := fin_sealed f]> m) ∅ finished.

Fixpoint collapse_finished (p : Proj) (mark : string → bool) (exempt : gset string)
    (finished : list Finished) : result (list Finished) :=
  match finished with
  | [] => Ok []
  | f :: finished =>
      drop ← (if fin_sealed f && negb (bool_decide (n_id (fin_node f) ∈ exempt))
              then marked_above tree_depth p mark (fin_node f) else Ok false);
      rest ← collapse_finished p mark exempt finished;
      Ok (if drop : bool then rest else f :: rest)
  end.

Definition CollapseFinished (p : Proj) (finished : list Finished) (exempt : gset string)
    : result (list Finished) :=
  collapse_finished p (λ id, default false (sealedByID finished !! id)) exempt finished.

(** When a requirement was satisfied, as SealedAt reads it. *)
Definition satisfiedAt (r : GateRequirement) : option Z :=
  match gr_state r with
  | GateRequirementClosed => gr_closed_at r
  | GateRequirementDismissed => gr_dismissed_at r
  | _ => None
  end.

Definition later_of (at_ : option Z) (r : GateRequirement) : option Z :=
  match satisfiedAt r with
  | None => at_
  | Some t =>
      match at_ with
      | Some a => if (a <? t)%Z then Some t else at_
      | None => Some t
      end
  end.

(** The scale-correct finished event. *)
Definition finishedType (k : Scale) : EType :=
  match k with
  | ScaleMatter => TypeMatterFinished | ScaleStage => TypeStageFinished | ScaleStep => TypeStepFinished
  end.

Definition SealedAt (log : list Event) (p : Proj) (n : Node) : result (option Z) :=
  requirements ← EffectiveGateRequirements log p n;
  Ok (foldl later_of (LastEventAt log (n_id n) [enum_str (finishedType (n_kind n))]) requirements).

(** ** locator.go *)
Record StagePosition := MkStagePosition { sp_locator : string; sp_index : nat; sp_total : nat }.

(** The separator before a Step, a middle dot between spaces. *)
Definition step_sep : string := string_of [32; 0xC2; 0xB7; 32]%Z.

Definition Address (p : Proj) (n : Node) : result (string * option StagePosition) :=
  match n_kind n with
  | ScaleMatter => Ok (n_locator n, None)
  | kind =>
      matter ← view_Node p (n_matter n);
      if bool_decide (kind = ScaleStage) then Ok (n_locator matter +:+ "/" +:+ n_locator n, None)
      else if bool_decide (n_parent n = n_id matter) then
        Ok (n_locator matter +:+ step_sep +:+ n_locator n, None)
      else
        stage ← view_Node p (n_parent n);
        let siblings := Children p (n_id stage) in
        let index := match index_of_node (n_id n) 0 siblings with Some i => S i | None => O end in
        Ok (n_locator matter +:+ "/" +:+ n_locator stage +:+ step_sep +:+ n_locator n,
            Some (MkStagePosition (n_locator stage) index (length siblings)))
  end.

Definition resolveLocator (p : Proj) (repo locator : string) : result Node :=
  if IsIdentityShaped locator then recode unknown_locator (view_Node p locator)
  else
    let segs := split_slash locator in
    matter ← recode unknown_locator (MatterByLocator p repo (hd "" segs));
    if bool_decide (length segs = 1%nat) then Ok matter
    else recode unknown_locator (NodeByLocator p (n_id matter) (List.last segs "")).

(** ** cursor.go, and the writes of next.go *)

(** Current: the Repo, Clone and Worktree a command runs from.  Which ones those
    are is asked of git, so they are an argument here. *)
Record Current := MkCurrent { cur_repo : string; cur_clone : string; cur_worktree : string }.

Definition current_env (c : Current) : Env := MkEnv (cur_repo c) (cur_clone c) (cur_worktree c).

Definition read_Cursor (p : Proj) (c : Current) : option string :=
  view_Cursor p (cur_clone c) (cur_worktree c).

Definition setCursor (w : World) (fuel : nat) (actor : string) (cur : Current) (locator : string) : cmd Node :=
  target ← cread (λ _ p, resolveLocator p (cur_repo cur) locator);
  commit w fuel (MkRequest actor (current_env cur))
    (previous ← tread (λ _ p, Ok (default "" (read_Cursor p cur)));
     mret ([draft TypeCursorMoved (cur_worktree cur) (MkCursorMoved (n_id target) previous)], tt)) ;;
  mret target.

Definition clearCursor (w : World) (fuel : nat) (actor : string) (cur : Current) : cmd string :=
  node ← cread (λ _ p, Ok (read_Cursor p cur));
  match node with
  | None => mret ""
  | Some node =>
      commit w fuel (MkRequest actor (current_env cur))
        (mret ([draft TypeCursorMoved (cur_worktree cur) (MkCursorMoved "" node)], tt)) ;;
      mret node
  end.
