(* ===== verification/Effects.v ===== *)
(** What a command did.  [folded] relates the drafts of a successful commit to
    the events appended and the projection after each; [Writes] says of a whole verb
    that it changes the database only by such commits, of drafts with a given
    property.  Below, inversion lemmas for both monads. *)
From stdpp Require Import relations.
From S2P Require Import Prelude GoStd Ulid Taxonomy Json Payloads Tables View Gates Project Store.
From S2P Require Import Steps Invariants Shape Replay Mint Reach Cycle Content Command.

#[local] Opaque applyEvent appendEvent stamp.

(** ** Commits *)

(** The chain pointers of an event written after [events]. *)
Definition caused (events : list Event) (d : Draft) (ev : Event) : Prop :=
  match events with
  | [] => ev_causation ev = ev_id ev ∧ ev_correlation ev = ev_id ev
  | origin :: _ =>
      ∃ e, events !! Z.to_nat (d_cause d) = Some e
           ∧ ev_causation ev = ev_id e ∧ ev_correlation ev = ev_id origin
  end.

Inductive folded (req : Request)
    : list Draft → list Event → list Event → Proj → list Event → list Event → Proj → Prop :=
| folded_nil events log p : folded req [] events log p [] log p
| folded_cons d ds events log p ev new p1 log' p' :
    stamped req d ev → caused events d ev → appendEvent log ev = Ok (log ++ [ev]) →
    applyEvent (MkCtx (log ++ [ev]) true) ev p = Ok p1 →
    folded req ds (events ++ [ev]) (log ++ [ev]) p1 new log' p' →
    folded req (d :: ds) events log p (ev :: new) log' p'.

Lemma chain_caused events d ev ev' : chain events (d_cause d) ev = Ok ev' → caused events d ev'.
Proof.
  unfold chain, caused. destruct events as [|origin rest]; [by intros [= <-]|].
  intros H. inv_ok. destruct ((origin :: rest) !! Z.to_nat (d_cause d)) as [e|] eqn:E; [|discriminate].
  injection H as <-. cbn. eauto.
Qed.

Lemma write_drafts_folded w fuel req ds events log p h events' log' p' h' :
  write_drafts w fuel req ds events log p h = Some (Ok (events', log', p'), h') →
  ∃ new, events' = events ++ new ∧ folded req ds events log p new log' p'.
Proof.
  revert events log p h. induction ds as [|d ds IH]; intros events log p h; cbn [write_drafts].
  { intros [= -> -> -> _]. exists []. rewrite app_nil_r. split; [done|constructor]. }
  intros H. apply bind_Some in H as ([re h1] & H1 & H).
  match type of H with match ?x with _ => _ end = _ => destruct x as [[[ev log1] p1]|err] eqn:E end;
    [|discriminate H].
  inv_ok. subst. apply stamp_Ok in H1 as [Hst _].
  match goal with H : chain _ _ _ = Ok _ |- _ => pose proof (chain_caused _ _ _ _ H) as Hc; apply chain_Ok in H as [Hev _] end.
  match goal with H : appendEvent _ _ = Ok _ |- _ => rename H into Ha; pose proof Ha as [Hlog _]%appendEvent_Ok end.
  subst log1. destruct (IH _ _ _ _ H) as (new & -> & Hf). exists (ev :: new).
  split; [by rewrite <-app_assoc|]. econstructor; [|exact Hc|exact Ha|eassumption|exact Hf].
  rewrite Hev. exact Hst.
Qed.

Lemma folded_log req ds events log p new log' p' :
  folded req ds events log p new log' p' → log' = log ++ new ∧ length new = length ds.
Proof.
  induction 1 as [|d ds events log p ev new p1 log' p' _ _ _ _ _ [-> IH]]; [by rewrite app_nil_r|].
  split; [by rewrite <-app_assoc|cbn; lia].
Qed.

(** A property of the database that every append and fold keeps. *)
Lemma folded_ind_db (I : list Event → Proj → Prop) (Q : Draft → Prop) req ds events log p new log' p' :
  (∀ d ev log p p', Q d → stamped req d ev → I log p → appendEvent log ev = Ok (log ++ [ev]) →
     applyEvent (MkCtx (log ++ [ev]) true) ev p = Ok p' → I (log ++ [ev]) p') →
  Forall Q ds → folded req ds events log p new log' p' → I log p → I log' p'.
Proof.
  intros HI HQ H. induction H as [|d ds events log p ev new p1 log' p' Hst _ Ha Hf _ IH]; [done|].
  apply Forall_cons in HQ as [Hd HQ]. intros Hp. apply IH; [done|]. by eapply HI.
Qed.

Lemma folded_db req ds events log p new log' p' :
  folded req ds events log p new log' p' → db_ok log p → db_ok log' p'.
Proof.
  intros H. eapply (folded_ind_db db_ok (λ _, True)); [|by apply Forall_true|exact H].
  intros d ev l q q' _ _ Hdb Ha Hf. by eapply db_ok_append.
Qed.

(** How one row evolves over a commit, when each event moves it along [R]. *)
Lemma folded_evolve (t : tbl) (R : Row t → Row t → Prop) `{!PreOrder R} (Q : Draft → Prop)
    req ds events log p new log' p' k o :
  (∀ d ev q k o n, Q d → stamped req d ev → row_change ev q t k o n → update_trigger t o n = true → R o n) →
  Forall Q ds → folded req ds events log p new log' p' → tget t p !! k = Some o →
  ∃ n, tget t p' !! k = Some n ∧ R o n.
Proof.
  intros HR HQ H Ho.
  eapply (folded_ind_db (λ _ q, ∃ n, tget t q !! k = Some n ∧ R o n) Q); [|exact HQ|exact H|by exists o].
  intros d ev l q q' Hd Hst (n & Hn & Hon) _ Hf. apply applyEvent_steps in Hf.
  destruct (steps_evolve t R _ _ _ _ _ _ (λ q k o n, HR d ev q k o n Hd Hst) Hf Hn) as (n' & ? & ?).
  exists n'. split; [done|by etrans].
Qed.

(** ** Verbs *)
Definition same_db (s s' : Store) : Prop := s_log s' = s_log s ∧ s_proj s' = s_proj s.

Definition wrote (P : Draft → Prop) (s s' : Store) : Prop :=
  same_db s s' ∨ ∃ req ds new, Forall P ds
    ∧ folded req ds [] (s_log s) (s_proj s) new (s_log s') (s_proj s').

Section writes.
Context (P : Draft → Prop).

Class Drafts {X} (m : tx (list Draft * X)) : Prop :=
  drafts_ok : ∀ log p h ds x h', m log p h = Some (Ok (ds, x), h') → Forall P ds.

Class Writes {A} (c : cmd A) : Prop :=
  writes_ok : ∀ s r s', c s = Some (r, s') → rtc (wrote P) s s'.

#[global] Instance drafts_ret {X} ds (x : X) : TCForall P ds → Drafts (mret (ds, x)).
Proof. intros H log p h ds' x' h' [= <- _ _]. by apply TCForall_Forall. Qed.

#[global] Instance drafts_bind {A X} (m : tx A) (k : A → tx (list Draft * X)) :
  (∀ a, Drafts (k a)) → Drafts (m ≫= k) | 20.
Proof.
  intros Hk log p h ds x h' H. unfold mbind, tx_bind in H.
  destruct (m log p h) as [[[a|e] h1]|]; [|discriminate..]. by eapply Hk.
Qed.

(** With what is known of the value bound. *)
Lemma drafts_bind_post {A X} (Q : A → Prop) (m : tx A) (k : A → tx (list Draft * X)) :
  (∀ log p h a h', m log p h = Some (Ok a, h') → Q a) → (∀ a, Q a → Drafts (k a)) → Drafts (m ≫= k).
Proof.
  intros Hm Hk log p h ds x h' H. unfold mbind, tx_bind in H.
  destruct (m log p h) as [[[a|e] h1]|] eqn:E; [|discriminate..]. by eapply Hk; [eapply Hm|].
Qed.

#[global] Instance drafts_ret_bind {A X} (a : A) (k : A → tx (list Draft * X)) :
  Drafts (k a) → Drafts ((mret a : tx A) ≫= k).
Proof. done. Qed.

#[global] Instance drafts_assoc {A B X} (m : tx A) (f : A → tx B) (k : B → tx (list Draft * X)) :
  Drafts (m ≫= λ a, f a ≫= k) → Drafts ((m ≫= f) ≫= k).
Proof.
  intros Hd log p h ds x h' H. apply (Hd log p h ds x h'). revert H. unfold mbind, tx_bind.
  by destruct (m log p h) as [[[a|e] h1]|].
Qed.

Lemma drafts_read {X} (f : list Event → Proj → result (list Draft * X)) :
  (∀ log p ds x, f log p = Ok (ds, x) → Forall P ds) → Drafts (tread f).
Proof. intros Hf log p h ds x h' [= H _]. by eapply Hf. Qed.

#[global] Instance writes_ret {A} (a : A) : Writes (mret a : cmd A).
Proof. intros s r s' [= _ <-]. apply rtc_refl. Qed.

#[global] Instance writes_lift {A} (x : result A) : Writes (clift x).
Proof. intros s r s' [= _ <-]. apply rtc_refl. Qed.

#[global] Instance writes_fail {A} e : Writes (cfail e : cmd A).
Proof. apply writes_lift. Qed.

#[global] Instance writes_check b e : Writes (ccheck b e).
Proof. apply writes_lift. Qed.

#[global] Instance writes_read {A} (f : list Event → Proj → result A) : Writes (cread f).
Proof. intros s r s' [= _ <-]. apply rtc_refl. Qed.

#[global] Instance writes_bind {A B} (c : cmd A) (k : A → cmd B) :
  Writes c → (∀ a, Writes (k a)) → Writes (c ≫= k).
Proof.
  intros Hc Hk s r s' H. unfold mbind, cmd_bind in H.
  destruct (c s) as [[[a|e] s1]|] eqn:E; [|injection H as _ <-; by eapply Hc|discriminate].
  etrans; [by eapply Hc|by eapply Hk].
Qed.

Lemma commit_folded {X} w fuel req (d : tx (list Draft * X)) s evs x s' :
  commit w fuel req d s = Some (Ok (evs, x), s') →
  ∃ ds h, d (s_log s) (s_proj s) (s_handle s) = Some (Ok (ds, x), h) ∧ ds ≠ []
    ∧ folded req ds [] (s_log s) (s_proj s) evs (s_log s') (s_proj s').
Proof.
  intros (ds & h & Hd & H)%commit_Ok. exists ds, h. split; [exact Hd|].
  apply Commit_cases in H as [(e & He & _)|(ds' & h1 & events & Hd' & Hne & [= <-] & Hw)]; [discriminate|].
  unfold forget in Hd'. rewrite Hd in Hd'. injection Hd' as <- <-. split; [exact Hne|].
  apply write_drafts_folded in Hw as (new & -> & Hf). exact Hf.
Qed.

#[global] Instance writes_commit {X} w fuel req (d : tx (list Draft * X)) :
  Drafts d → Writes (commit w fuel req d).
Proof.
  intros Hd s [[evs x]|e] s' H; apply rtc_once.
  - apply commit_folded in H as (ds & h & Hds & _ & Hf). right. exists req, ds, evs. split; [by eapply Hd|exact Hf].
  - left. exact (commit_Error _ _ _ _ _ _ _ H).
Qed.
End writes.

Lemma writes_mono {A} (P Q : Draft → Prop) (c : cmd A) :
  (∀ d, P d → Q d) → Writes P c → Writes Q c.
Proof.
  intros HPQ Hc s r s' H. eapply rtc_subrel; [|by eapply Hc].
  intros x y [?|(req & ds & new & HP & Hf)]; [by left|right]. exists req, ds, new.
  split; [by eapply Forall_impl|done].
Qed.

(** A verb writes what its decisions say, by its shape. *)
Ltac solve_writes tac :=
  repeat first
    [ progress tac
    | apply writes_bind; [|intros ?]
    | apply writes_commit
    | simple apply drafts_assoc
    | simple apply drafts_ret_bind
    | simple apply drafts_bind; intros ?
    | simple apply drafts_ret
    | simple apply drafts_read; intros ? ? ? ? ?
    | match goal with
      | |- Writes _ (match ?x with _ => _ end) => destruct x
      | |- Drafts _ (match ?x with _ => _ end) => destruct x
      | |- TCForall _ (match ?x with _ => _ end) => destruct x
      | |- TCForall _ (_ :: _) => constructor
      | |- TCForall _ [] => constructor
      end
    | apply _ ].

(** ** Inversion of commands that succeeded *)
Section inversion.
Context {A B : Type}.

Lemma cmd_bind_Ok (c : cmd A) (k : A → cmd B) s b s' :
  (c ≫= k) s = Some (Ok b, s') → ∃ a s1, c s = Some (Ok a, s1) ∧ k a s1 = Some (Ok b, s').
Proof.
  unfold mbind, cmd_bind. destruct (c s) as [[[a|e] s1]|]; [|discriminate..]. eauto.
Qed.

Lemma cmd_bind_Error (c : cmd A) (k : A → cmd B) s e s' :
  (c ≫= k) s = Some (Error e, s') →
  c s = Some (Error e, s') ∨ ∃ a s1, c s = Some (Ok a, s1) ∧ k a s1 = Some (Error e, s').
Proof.
  unfold mbind, cmd_bind. destruct (c s) as [[[a|e'] s1]|]; [right; eauto| |discriminate].
  intros [= <- <-]. by left.
Qed.

Lemma cread_inv (f : list Event → Proj → result A) s r s' :
  cread f s = Some (r, s') → f (s_log s) (s_proj s) = r ∧ s' = s.
Proof. by intros [= <- <-]. Qed.

Lemma clift_inv (x : result A) s r s' : clift x s = Some (r, s') → x = r ∧ s' = s.
Proof. by intros [= <- <-]. Qed.

Lemma cret_inv (a : A) s r s' : (mret a : cmd A) s = Some (r, s') → r = Ok a ∧ s' = s.
Proof. by intros [= <- <-]. Qed.

Lemma tx_bind_Ok (m : tx A) (k : A → tx B) log p h b h' :
  (m ≫= k) log p h = Some (Ok b, h') →
  ∃ a h1, m log p h = Some (Ok a, h1) ∧ k a log p h1 = Some (Ok b, h').
Proof.
  unfold mbind, tx_bind. destruct (m log p h) as [[[a|e] h1]|]; [|discriminate..]. eauto.
Qed.

Lemma tread_inv (f : list Event → Proj → result A) log p h r h' :
  tread f log p h = Some (r, h') → f log p = r ∧ h' = h.
Proof. by intros [= <- <-]. Qed.

Lemma tlift_inv (x : result A) log p h r h' : tlift x log p h = Some (r, h') → x = r ∧ h' = h.
Proof. by intros [= <- <-]. Qed.

Lemma tret_inv (a : A) log p h r h' : (mret a : tx A) log p h = Some (r, h') → r = Ok a ∧ h' = h.
Proof. by intros [= <- <-]. Qed.
End inversion.

Lemma ccheck_inv b e s r s' : ccheck b e s = Some (Ok r, s') → b = true ∧ s' = s.
Proof. intros [H ->]%clift_inv. split; [by eapply ensure_Ok|done]. Qed.

Lemma tcheck_inv b e log p h r h' : tcheck b e log p h = Some (Ok r, h') → b = true ∧ h' = h.
Proof. intros H. apply (tlift_inv _ log p) in H as [H ->]. split; [by eapply ensure_Ok|done]. Qed.

Lemma tmint_inv w fuel log p h id h' :
  tmint w fuel log p h = Some (Ok id, h') → NewID w fuel h = Some (id, h').
Proof. unfold tmint. destruct (NewID w fuel h) as [[id' h1]|]; [|discriminate]. by intros [= -> ->]. Qed.

(** Decomposes a verb, or a decision, that returned Ok. *)
Ltac inv_cmd :=
  repeat match goal with
  | H : (_ ≫= _) ?s = Some (Ok _, _) |- _ =>
      let a := fresh "a" in let s1 := fresh "s" in let H1 := fresh "H" in
      apply cmd_bind_Ok in H as (a & s1 & H1 & H)
  | H : cread _ _ = Some (_, _) |- _ => apply cread_inv in H as [H ->]
  | H : ccheck _ _ _ = Some (Ok _, _) |- _ => apply ccheck_inv in H as [H ->]
  | H : clift _ _ = Some (_, _) |- _ => apply clift_inv in H as [H ->]
  | H : (mret _) _ = Some (_, _) |- _ => apply cret_inv in H as [H ?]; simplify_eq
  end.

Ltac inv_tx :=
  repeat match goal with
  | H : (_ ≫= _) _ _ _ = Some (Ok _, _) |- _ =>
      let a := fresh "a" in let h1 := fresh "h" in let H1 := fresh "H" in
      apply tx_bind_Ok in H as (a & h1 & H1 & H)
  | H : tread _ _ _ _ = Some (_, _) |- _ => apply tread_inv in H as [H ->]
  | H : tcheck _ _ _ _ _ = Some (Ok _, _) |- _ => apply tcheck_inv in H as [H ->]
  | H : tlift _ _ _ _ = Some (_, _) |- _ => apply tlift_inv in H as [H ->]
  | H : tmint _ _ _ _ _ = Some (Ok _, _) |- _ => apply tmint_inv in H
  | H : (mret _) _ _ _ = Some (_, _) |- _ => apply tret_inv in H as [H ?]; simplify_eq
  end.
