(* ===== verification/Outcome.v ===== *)
(** The outcome of a verb.  A verb is all or nothing when every error it answers
    leaves the database as it found it; since it reads back what it wrote, that
    needs the read-backs to succeed.  The lemmas here say what one committed draft
    leaves in the tables, for every row a verb reads back. *)
From stdpp Require Import relations.
From S2P Require Import Prelude GoStd Ulid Taxonomy Json Payloads Tables View Gates Project Store.
From S2P Require Import Steps Invariants Shape Replay Mint Reach Completion Cycle Content Command.
From S2P Require Import Resolve Config NodeVerbs WorkVerbs Effects.

(** ** All or nothing *)
Section outcome.
Context {A B : Type} (s : Store).

(** An error leaves the log and the projection alone. *)
Definition atomic_at (c : cmd A) : Prop := ∀ e s', c s = Some (Error e, s') → same_db s s'.

(** It does not answer with an error. *)
Definition answers (c : cmd A) : Prop := ∀ e s', c s ≠ Some (Error e, s').
End outcome.

Section outcome_rules.
Context {A B X : Type} (s : Store).

Lemma same_db_refl : same_db s s.
Proof. done. Qed.

Lemma atomic_read (f : list Event → Proj → result A) (k : A → cmd B) :
  (∀ a, f (s_log s) (s_proj s) = Ok a → atomic_at s (k a)) → atomic_at s (cread f ≫= k).
Proof.
  intros Hk e s' [[H ->]%cread_inv|(a & s1 & [H ->]%cread_inv & H')]%cmd_bind_Error; [done|].
  by eapply Hk.
Qed.

Lemma atomic_lift (x : result A) (k : A → cmd B) :
  (∀ a, x = Ok a → atomic_at s (k a)) → atomic_at s (clift x ≫= k).
Proof.
  intros Hk e s' [[H ->]%clift_inv|(a & s1 & [H ->]%clift_inv & H')]%cmd_bind_Error; [done|].
  by eapply Hk.
Qed.

Lemma atomic_check b e (k : cmd B) : (b = true → atomic_at s k) → atomic_at s (ccheck b e ;; k).
Proof.
  intros Hk e' s' [[_ ->]%clift_inv|(a & s1 & [H ->]%ccheck_inv & H')]%cmd_bind_Error; [done|].
  by apply Hk in H'.
Qed.

Lemma atomic_ret (a : A) : atomic_at s (mret a).
Proof. by intros e s' [? _]%cret_inv. Qed.

Lemma atomic_fail e : atomic_at (A := A) s (cfail e).
Proof. by intros e' s' [_ ->]%clift_inv. Qed.

Lemma atomic_then (c : cmd A) (k : A → cmd B) :
  atomic_at s c → (∀ a s', answers s' (k a)) → atomic_at s (c ≫= k).
Proof.
  intros Hc Hk e s' [H|(a & s1 & _ & H)]%cmd_bind_Error; [by eapply Hc|]. by apply Hk in H.
Qed.

Lemma atomic_bind_ret (a : A) (k : A → cmd B) : atomic_at s (k a) → atomic_at s ((mret a : cmd A) ≫= k).
Proof. done. Qed.

Lemma atomic_assoc (c : cmd X) (f : X → cmd A) (k : A → cmd B) :
  atomic_at s (c ≫= λ x, f x ≫= k) → atomic_at s ((c ≫= f) ≫= k).
Proof.
  intros H e s' Hc. apply (H e s'). revert Hc. unfold mbind, cmd_bind. by destruct (c s) as [[[]]|].
Qed.

Lemma answers_ret (a : A) : answers s (mret a).
Proof. by intros e s' [? _]%cret_inv. Qed.

Lemma answers_bind_ret (a : A) (k : A → cmd B) : answers s (k a) → answers s ((mret a : cmd A) ≫= k).
Proof. done. Qed.

Lemma answers_read (f : list Event → Proj → result A) :
  (∃ a, f (s_log s) (s_proj s) = Ok a) → answers s (cread f).
Proof. intros [a Ha] e s' [H _]%cread_inv. congruence. Qed.

Lemma answers_bind_read (f : list Event → Proj → result A) (k : A → cmd B) :
  (∃ a, f (s_log s) (s_proj s) = Ok a) → (∀ a, answers s (k a)) → answers s (cread f ≫= k).
Proof.
  intros [a Ha] Hk e s' [[H _]%cread_inv|(b & s1 & [_ ->]%cread_inv & H')]%cmd_bind_Error; [congruence|].
  by eapply Hk.
Qed.

(** A commit, followed by what reads it back. *)
Lemma atomic_commit w fuel req (d : tx (list Draft * X)) (k : list Event * X → cmd B) :
  (∀ ds x h evs s', d (s_log s) (s_proj s) (s_handle s) = Some (Ok (ds, x), h) →
     folded req ds [] (s_log s) (s_proj s) evs (s_log s') (s_proj s') → answers s' (k (evs, x))) →
  atomic_at s (commit w fuel req d ≫= k).
Proof.
  intros Hk e s' [H|([evs x] & s1 & H & H')]%cmd_bind_Error; [exact (commit_Error _ _ _ _ _ _ _ H)|].
  apply commit_folded in H as (ds & h & Hd & _ & Hf). by apply (Hk ds x h evs s1 Hd Hf) in H'.
Qed.
End outcome_rules.

#[local] Opaque applyEvent appendEvent stamp Commit.

(** ** What a commit keeps *)
Lemma folded_keys req ds events log p new log' p' :
  folded req ds events log p new log' p' → keys_in p p'.
Proof.
  intros H. eapply (folded_ind_db (λ _ q, keys_in p q) (λ _, True)); [|by apply Forall_true|exact H|done].
  intros d ev l q q' _ _ Hq _ Hf. etrans; [exact Hq|]. by eapply steps_keys, applyEvent_steps.
Qed.

(** A draft that removes no node. *)
Definition keeps_nodes (d : Draft) : Prop :=
  d_type d ≠ enum_str TypeStepRemoved ∧ d_type d ≠ enum_str TypeStepReplaced.

Lemma keeps_nodes_removal req d ev : keeps_nodes d → stamped req d ev → ¬ removal ev.
Proof.
  intros [H1 H2] (rule & _ & Ht & _) (ty & Hp & Hr). rewrite Ht in Hp.
  apply (enum_parse_Some (A := EType)) in Hp. destruct Hr as [-> | ->]; congruence.
Qed.

Definition stays_live (o n : NodeRow) : Prop := nd_tombstone o = None → nd_tombstone n = None.

#[local] Instance stays_live_preorder : PreOrder stays_live.
Proof. split; [by intros r ?|intros a b c H1 H2 ?; by apply H2, H1]. Qed.

Lemma folded_live req ds events log p new log' p' id n :
  Forall keeps_nodes ds → folded req ds events log p new log' p' → view_Node p id = Ok n →
  ∃ n', view_Node p' id = Ok n'.
Proof.
  intros HQ Hf (r & Hr & Hl & _)%view_Node_Ok.
  edestruct (folded_evolve TNodes stays_live keeps_nodes) as (r' & Hr' & Hl');
    [|exact HQ|exact Hf|exact Hr|].
  - intros d ev q k o n' Hd Hst (_ & _ & _ & _ & _ & _ & _ & [Ht|(_ & _ & Hrem & _)] & _) _ _; [done|].
    by destruct (keeps_nodes_removal _ _ _ Hd Hst).
  - exists (scanNode id r'). apply view_Node_Ok. eauto.
Qed.

Lemma folded_one req d log p evs log' p' :
  folded req [d] [] log p evs log' p' →
  ∃ ev, evs = [ev] ∧ log' = log ++ [ev] ∧ stamped req d ev ∧ appendEvent log ev = Ok (log ++ [ev])
    ∧ applyEvent (MkCtx (log ++ [ev]) true) ev p = Ok p'.
Proof.
  intros H. inversion H as [|? ? ? ? ? ev ? p1 ? ? Hst _ Ha Hf Hr]; subst.
  inversion Hr; subst. by exists ev.
Qed.

Lemma folded_two req d1 d2 log p evs log' p' :
  folded req [d1; d2] [] log p evs log' p' →
  ∃ e1 e2 q, evs = [e1; e2] ∧ stamped req d1 e1 ∧ stamped req d2 e2
    ∧ applyEvent (MkCtx (log ++ [e1]) true) e1 p = Ok q
    ∧ applyEvent (MkCtx ((log ++ [e1]) ++ [e2]) true) e2 q = Ok p'.
Proof.
  intros H. inversion H as [|? ? ? ? ? e1 ? q ? ? Hst1 _ _ Hf1 Hr]; subst.
  inversion Hr as [|? ? ? ? ? e2 ? q' ? ? Hst2 _ _ Hf2 Hr']; subst. inversion Hr'; subst.
  by exists e1, e2, q.
Qed.

(** What the stamp leaves of a draft that takes the request's dimensions. *)
Lemma stamped_draft {S} `{Payload S} req t subject (x : S) ev :
  stamped req (draft t subject x) ev →
  enum_parse (ev_type ev) = Some t ∧ ev_subject ev = subject ∧ ev_payload ev = pl_enc x
  ∧ ev_actor ev = rq_actor req.
Proof.
  intros (rule & _ & Ht & Hs & Hp & Ha & _). rewrite Ht. cbn [draft d_type d_subject d_payload] in *.
  by rewrite (enum_parse_str t).
Qed.

(** ** What one event leaves *)
#[local] Transparent applyEvent.

Ltac as_rule H Hty := unfold applyEvent in H; rewrite Hty in H; cbv iota in H.

Lemma sql_insert_get c t k r p p' : sql_insert c t k r p = Ok p' → tget t p' !! k = Some r.
Proof. intros (_ & _ & H)%sql_insert_Ok. rewrite (put_tget_eq _ _ _ _ _ _ H). apply lookup_insert_eq. Qed.

Definition birth_scale (t : EType) : option Scale :=
  match t with
  | TypeMatterCreated => Some ScaleMatter
  | TypeStageCreated => Some ScaleStage
  | TypeStepCreated | TypeStepInserted => Some ScaleStep
  | _ => None
  end.

Lemma node_born c ev t scale p p' :
  enum_parse (ev_type ev) = Some t → birth_scale t = Some scale → applyEvent c ev p = Ok p' →
  ∃ b m, decode (S := NodeBirth) (ev_payload ev) = Ok b
    ∧ matterOf p scale (ev_subject ev) (NodeBirth_Parent b) = Ok m
    ∧ view_Node p' (ev_subject ev)
      = Ok (scanNode (ev_subject ev)
          (MkNodeRow scale (ev_repo ev) m (nullable (NodeBirth_Parent b)) (NodeBirth_Locator b)
             (NodeBirth_Title b) Planned (NodeBirth_SortKey b) None (ev_id ev) (ev_id ev) None)).
Proof.
  intros Hty Hb H. as_rule H Hty.
  assert (insertNode c ev scale p = Ok p') as Hi by (destruct t; try discriminate Hb; by injection Hb as <-).
  unfold insertNode in Hi. inv_ok. exists x, x0. split_and!; [done..|].
  apply view_Node_Ok. eexists. split; [exact (sql_insert_get _ TNodes _ _ _ _ Hi)|done].
Qed.

Lemma batch_born c ev p p' :
  enum_parse (ev_type ev) = Some TypeBatchCreated → applyEvent c ev p = Ok p' →
  is_Some (batches p' !! ev_subject ev).
Proof.
  intros Hty H. as_rule H Hty. unfold insertBatch in H. inv_ok. cbv zeta in H.
  case_match_hyp H; [eexists; exact (sql_insert_get _ TBatches _ _ _ _ H)|]. inv_ok.
  match goal with H : sql_insert _ TBatches _ _ _ = Ok ?q |- _ => rename H into Hb end.
  apply (sql_insert_get _ TBatches) in Hb. cbn [tget] in Hb. case_match_hyp H; inv_ok; [eauto|].
  apply sql_insert_Ok in H as (_ & _ & H).
  pose proof (put_tget_ne _ TMembers _ _ _ _ TBatches ltac:(done) H) as E. cbn [tget] in E.
  rewrite E. eauto.
Qed.

Lemma role_born c ev p p' :
  enum_parse (ev_type ev) = Some TypeRoleSpawned → applyEvent c ev p = Ok p' →
  is_Some (roles p' !! ev_subject ev).
Proof.
  intros Hty H. as_rule H Hty. unfold spawnRole in H. inv_ok. apply on_unique_Ok in H.
  eexists. exact (sql_insert_get _ TRoles _ _ _ _ H).
Qed.

Lemma backlog_born c ev p p' :
  enum_parse (ev_type ev) = Some TypeBacklogEntered → applyEvent c ev p = Ok p' →
  ∃ r, backlog_entries p' !! ev_subject ev = Some r ∧ bl_repo r = ev_repo ev.
Proof.
  intros Hty H. as_rule H Hty. unfold insertBacklogEntry in H. inv_ok.
  eexists. split; [exact (sql_insert_get _ TBacklog _ _ _ _ H)|done].
Qed.

(** ** Payloads with strings that need not be UTF-8 *)

(** Evaluates a decoder on an encoding. *)
Ltac eval_decode :=
  unfold decode, jstr_omit, jbool_omit; json_cbn;
  repeat match goal with
  | |- context [bool_decide (?x = "")] => destruct (bool_decide (x = "")) eqn:?; inv_bool; subst; json_cbn
  end;
  repeat (match goal with
  | |- context [bool_decide (fold_key ?a = fold_key ?b)] =>
      let r := eval vm_compute in (bool_decide (fold_key a = fold_key b)) in
      change (bool_decide (fold_key a = fold_key b)) with r
  end; json_cbn).

Lemma decode_transition from to cascade level reason :
  ∃ t, decode (pl_enc (MkTransition from to cascade level reason)) = Ok t
       ∧ Transition_From t = utf8_coerce from ∧ Transition_To t = utf8_coerce to
       ∧ Transition_Cascade t = cascade.
Proof. destruct cascade; unfold pl_enc, Transition_payload; eval_decode; eexists; split_and!; reflexivity. Qed.

Lemma decode_replaced id title loc :
  decode (pl_enc (MkReplaced id title loc)) = Ok (MkReplaced (utf8_coerce id) (utf8_coerce title) (utf8_coerce loc)).
Proof. unfold pl_enc, Replaced_payload; eval_decode. reflexivity. Qed.

Lemma decode_node_birth title loc parent key :
  int64_ok key = true →
  decode (pl_enc (MkNodeBirth title loc parent key))
  = Ok (MkNodeBirth (utf8_coerce title) (utf8_coerce loc) (utf8_coerce parent) key).
Proof.
  intros Hk. unfold pl_enc, NodeBirth_payload; eval_decode; rewrite ?Hk; reflexivity.
Qed.

(** A minted identity is ASCII, so the encoding keeps it. *)
Lemma minted_utf8 id : minted id → utf8_coerce id = id.
Proof. intros (raw & Hb & Hl & ->). by apply identity_utf8, encodeCrockford_shaped. Qed.

Lemma replacement_born c ev p p' id title loc :
  enum_parse (ev_type ev) = Some TypeStepReplaced → ev_payload ev = pl_enc (MkReplaced id title loc) →
  minted id → applyEvent c ev p = Ok p' → ∃ n, view_Node p' id = Ok n.
Proof.
  intros Hty Hpl Hm H. as_rule H Hty. unfold applyReplace in H.
  rewrite Hpl, decode_replaced, (minted_utf8 id Hm) in H. inv_ok_match.
  apply (sql_insert_get _ TNodes) in H. eexists. apply view_Node_Ok. eexists. by split.
Qed.

(** ** Outbox rows read back *)

(** The lifecycle events of an outbox entry. *)
Definition outbox_touch (t : EType) : bool :=
  match t with
  | TypeOutboxApproved | TypeOutboxDeclined | TypeOutboxWithheld | TypeOutboxDeliveryFailed
  | TypeOutboxRetried | TypeOutboxFlushed => true
  | _ => false
  end.

Lemma outbox_update_get c ev g f p p' :
  (∀ o n, f o = Ok n → ob_repo n = ob_repo o) →
  update1 c TOutbox (ev_subject ev) (outbox_guard ev g) f p = Ok p' →
  ∃ r, outbox_entries p' !! ev_subject ev = Some r ∧ ob_repo r = ev_repo ev.
Proof.
  intros Hf (o & n & _ & Hg & Hn & [_ H]%sql_set_Ok)%update1_Ok.
  apply (put_tget_eq _ TOutbox) in H. cbn [tget] in H. rewrite H, lookup_insert_eq.
  exists n. split; [done|]. unfold outbox_guard in Hg. inv_bool. rewrite (Hf _ _ Hn). done.
Qed.

Lemma outbox_touched c ev t p p' :
  enum_parse (ev_type ev) = Some t → outbox_touch t = true → applyEvent c ev p = Ok p' →
  ∃ r, outbox_entries p' !! ev_subject ev = Some r ∧ ob_repo r = ev_repo ev.
Proof.
  intros Hty Ht H. as_rule H Hty.
  destruct t; try discriminate Ht; clear Ht;
    unfold approveOutbox, declineOutbox, withholdOutbox, failOutbox, retryOutbox, flushOutboxComment in H;
    inv_ok; (eapply outbox_update_get; [|exact H]); by intros o n [= <-].
Qed.

(** An ad-hoc proposal leaves exactly one entry born by its event. *)
Lemma singleton_list {A} (l : list A) x : NoDup l → (∀ y, y ∈ l ↔ y = x) → l = [x].
Proof.
  intros Hnd Hl. destruct l as [|a l]; [exfalso; by apply (not_elem_of_nil x), Hl|].
  assert (a = x) as -> by (apply Hl; left). f_equal. destruct l as [|b l]; [done|].
  assert (b = x) as -> by (apply Hl; right; left). apply NoDup_cons in Hnd as [[] _]. left.
Qed.

Lemma adhoc_born log ev p p' :
  refs_ok log p → log_max log <s ev_id ev → enum_parse (ev_type ev) = Some TypeTrackerAdhocProposed →
  applyEvent (MkCtx (log ++ [ev]) true) ev p = Ok p' →
  ∃ o, OutboxEntryByBirth p' (ev_repo ev) (ev_id ev) = Ok o.
Proof.
  intros Hr Hmax Hty H. as_rule H Hty. unfold projectAdhocCandidate, insertTrackerCandidate in H. inv_ok.
  cbv zeta in H. apply sql_insert_Ok in H as (_ & _ & H). apply (put_tget_eq _ TOutbox) in H. cbn [tget] in H.
  unfold OutboxEntryByBirth.
  match type of H with _ = <[?k := ?r]> _ =>
    rewrite (singleton_list (select TOutbox p' _ _) (k, r)); [eexists; reflexivity|apply select_NoDup|] end.
  intros [k r]. rewrite (elem_of_select TOutbox). cbn [tget]. rewrite H, lookup_insert_Some.
  split.
  - intros [[[<- <-]|[_ Hk]] Hg]; [reflexivity|]. inv_bool. exfalso.
    specialize (Hr TOutbox k r Hk). cbn in Hr. inv_bool.
    match goal with H : is_some (find_event log (ob_birth r)) = true |- _ =>
      apply is_some_true in H as [e [He Hid]%find_event_Some] end.
    pose proof (log_max_lt _ _ _ Hmax He) as Hlt. rewrite Hid in Hlt.
    match goal with H : ob_birth r = _ |- _ => rewrite H in Hlt end. by apply slt_irrefl in Hlt.
  - intros [= -> ->]. split; [by left|]. cbn. by rewrite !bool_decide_eq_true_2.
Qed.

(** ** The dimensions of a draft *)
Definition repo_typed (t : EType) : bool :=
  match requiredDimensions (enum_str t) with Ok rule => et_repo rule | Error _ => false end.

Lemma stamped_repo {S} `{Payload S} req t subject (x : S) ev :
  stamped req (draft t subject x) ev → repo_typed t = true → ev_repo ev = env_repo (rq_env req).
Proof.
  intros (rule & Hr & _ & _ & _ & _ & _ & Hrepo & _) Ht. unfold repo_typed in Ht.
  cbn [draft d_type d_env] in *. rewrite Hr in Ht. by rewrite Hrepo, Ht.
Qed.
