(* ===== verification/Verbs.v ===== *)
(** The write surface as one type: every exported verb of
    src/internal/writesurface and of store/config.go, and the two moves of the cursor
    (readsurface/next.go), with their arguments, and
    [run_verb] to run it.  Every verb is sound, and writes only drafts that
    [verb_draft] allows. *)
From stdpp Require Import relations.
From S2P Require Import Prelude GoStd Ulid Taxonomy Json Payloads Tables View Gates Project Store.
From S2P Require Import Steps Invariants Shape Replay Mint Reach Cycle Content Command.
From S2P Require Import Resolve Config NodeVerbs WorkVerbs ReadSurface Effects.

Inductive Verb :=
| VCreateMatter (actor repo title locator : string)
| VCreateStage (actor repo parent title : string)
| VCreateStep (actor repo parent title : string)
| VInsertStep (actor repo parent title after before : string)
| VReorderStep (actor repo parent : string) (order : list string)
| VReplaceStep (actor repo step title : string)
| VRemoveStep (actor repo step reason : string)
| VStart (actor repo locator : string)
| VFinish (actor : string) (env : Env) (locator : string)
| VCancel (actor repo locator reason : string)
| VPause (actor repo locator : string)
| VResume (actor repo locator : string)
| VDependAdd (actor repo blocked blocker : string)
| VDependRemove (actor repo blocked blocker : string)
| VWriteOnce (actor repo locator kind data : string)
| VAppendFinding (actor repo locator data : string)
| VBind (actor repo locator ref : string)
| VUnbind (actor repo locator ref : string)
| VRebind (actor repo locator from to : string)
| VDeclareGate (repo gate scale : string)
| VRepairGateExemption (repo gate locator : string)
| VCloseGate (actor : string) (env : Env) (gate locator : string)
| VDismissGate (actor : string) (env : Env) (gate locator reason : string)
| VSetConfig (repo key value : string)
| VSetTrackerPushLevel (repo value : string)
| VSetTrackerBacklogPush (repo value : string)
| VBacklogAdd (actor repo provenance title detail origin : string)
| VBacklogPlan (actor repo entry matter : string)
| VBacklogDecline (actor repo entry reason : string)
| VBacklogDelegate (actor repo entry : string)
| VConfirmBacklogDelegation (actor repo outbox ref : string)
| VOutboxApprove (actor repo id : string)
| VOutboxDecline (actor repo id reason : string)
| VOutboxRetry (actor repo id : string)
| VWithholdOutbox (actor repo id reason : string) (attempted : bool) (cause : string)
| VFailOutbox (actor repo id reason : string)
| VFlushOutboxComment (actor repo id : string)
| VPushTrackerState (actor repo id ref disposition lease : string)
| VObserveTrackerState (actor repo id ref disposition lease : string)
| VProposeTrackerCreate (actor repo title detail : string)
| VProposeTrackerComment (actor repo ref body : string)
| VProposeTrackerState (actor repo ref disposition : string)
| VCreateBatch (actor : string) (env : Env) (name : string)
| VCreateAnonymousBatch (actor : string) (env : Env) (matter : string)
| VJoinBatch (actor : string) (env : Env) (batch matter : string)
| VLeaveBatch (actor : string) (env : Env) (batch matter : string)
| VDismissBatch (actor : string) (env : Env) (batch : string)
| VSpawnRole (actor : string) (env : Env) (name : string)
| VCloseRole (env : Env) (name : string)
| VStandDownRun (acquire : string → result ()) (actor : string) (env : Env) (run : string)
| VSetCursor (actor : string) (cur : Current) (locator : string)
| VClearCursor (actor : string) (cur : Current).

Definition run_verb (w : World) (fuel : nat) (v : Verb) : cmd () :=
  match v with
  | VCreateMatter a r t l => CreateMatter w fuel a r t l ;; mret tt
  | VCreateStage a r p t => CreateStage w fuel a r p t ;; mret tt
  | VCreateStep a r p t => CreateStep w fuel a r p t ;; mret tt
  | VInsertStep a r p t af be => InsertStep w fuel a r p t af be ;; mret tt
  | VReorderStep a r p o => ReorderStep w fuel a r p o ;; mret tt
  | VReplaceStep a r l t => ReplaceStep w fuel a r l t ;; mret tt
  | VRemoveStep a r l x => RemoveStep w fuel a r l x
  | VStart a r l => Start w fuel a r l ;; mret tt
  | VFinish a e l => FinishWithEnvResult w fuel a e l ;; mret tt
  | VCancel a r l x => Cancel w fuel a r l x ;; mret tt
  | VPause a r l => Pause w fuel a r l ;; mret tt
  | VResume a r l => Resume w fuel a r l ;; mret tt
  | VDependAdd a r x y => DependAdd w fuel a r x y ;; mret tt
  | VDependRemove a r x y => DependRemove w fuel a r x y
  | VWriteOnce a r l k d => WriteOnce w fuel a r l k d ;; mret tt
  | VAppendFinding a r l d => AppendFinding w fuel a r l d ;; mret tt
  | VBind a r l x => Bind w fuel a r l x ;; mret tt
  | VUnbind a r l x => Unbind w fuel a r l x ;; mret tt
  | VRebind a r l x y => Rebind w fuel a r l x y ;; mret tt
  | VDeclareGate r g sc => DeclareGate w fuel r g sc
  | VRepairGateExemption r g l => RepairGateExemption w fuel r g l ;; mret tt
  | VCloseGate a e g l => closeGateEnv w fuel a e g l ;; mret tt
  | VDismissGate a e g l x => dismissGateEnv w fuel a e g l x ;; mret tt
  | VSetConfig r k v => SetConfig w fuel r k v
  | VSetTrackerPushLevel r v => SetTrackerPushLevel w fuel r v ;; mret tt
  | VSetTrackerBacklogPush r v => SetTrackerBacklogPush w fuel r v ;; mret tt
  | VBacklogAdd a r p t d o => BacklogAdd w fuel a r p t d o ;; mret tt
  | VBacklogPlan a r e m => BacklogPlan w fuel a r e m ;; mret tt
  | VBacklogDecline a r e x => BacklogDecline w fuel a r e x ;; mret tt
  | VBacklogDelegate a r e => BacklogDelegate w fuel a r e ;; mret tt
  | VConfirmBacklogDelegation a r o x => ConfirmBacklogDelegation w fuel a r o x
  | VOutboxApprove a r i => OutboxApprove w fuel a r i ;; mret tt
  | VOutboxDecline a r i x => OutboxDecline w fuel a r i x ;; mret tt
  | VOutboxRetry a r i => OutboxRetry w fuel a r i ;; mret tt
  | VWithholdOutbox a r i x b c => WithholdOutbox w fuel a r i x b c
  | VFailOutbox a r i x => FailOutbox w fuel a r i x
  | VFlushOutboxComment a r i => FlushOutboxComment w fuel a r i
  | VPushTrackerState a r i x d l => PushTrackerState w fuel a r i x d l
  | VObserveTrackerState a r i x d l => ObserveTrackerState w fuel a r i x d l
  | VProposeTrackerCreate a r t d => ProposeTrackerCreate w fuel a r t d ;; mret tt
  | VProposeTrackerComment a r x b => ProposeTrackerComment w fuel a r x b ;; mret tt
  | VProposeTrackerState a r x d => ProposeTrackerState w fuel a r x d ;; mret tt
  | VCreateBatch a e n => CreateBatch w fuel a e n ;; mret tt
  | VCreateAnonymousBatch a e m => CreateAnonymousBatch w fuel a e m ;; mret tt
  | VJoinBatch a e b m => JoinBatch w fuel a e b m ;; mret tt
  | VLeaveBatch a e b m => LeaveBatch w fuel a e b m ;; mret tt
  | VDismissBatch a e b => DismissBatch w fuel a e b ;; mret tt
  | VSpawnRole a e n => SpawnRole w fuel a e n ;; mret tt
  | VCloseRole e n => CloseRole w fuel e n ;; mret tt
  | VStandDownRun q a e r => StandDownRun w fuel q a e r ;; mret tt
  | VSetCursor a c l => setCursor w fuel a c l ;; mret tt
  | VClearCursor a c => clearCursor w fuel a c ;; mret tt
  end.

(** Lets the proofs below see through the verbs and the helpers they share. *)
Ltac unfold_verb :=
  unfold CreateMatter, CreateStage, CreateStep, InsertStep, ReorderStep, ReplaceStep, RemoveStep, Start,
    FinishWithEnvResult, Cancel, Pause, Resume, simpleTransition, simpleTransitionEnvResult, DependAdd,
    DependRemove, WriteOnce, AppendFinding, Bind, Unbind, Rebind, reference_verb, DeclareGate,
    store_DeclareGate, RepairGateExemption, store_RepairGateExemption, closeGateEnv, dismissGateEnv,
    gate_drafts, SetTrackerPushLevel, SetTrackerBacklogPush, SetConfig, BacklogAdd, BacklogPlan,
    BacklogDecline, BacklogDelegate, backlog_exit, ConfirmBacklogDelegation, OutboxApprove, OutboxDecline,
    OutboxRetry, WithholdOutbox, FailOutbox, FlushOutboxComment, mutateOutbox, PushTrackerState,
    ObserveTrackerState, ProposeTrackerCreate, ProposeTrackerComment, ProposeTrackerState, proposeTracker,
    CreateBatch, CreateAnonymousBatch, JoinBatch, LeaveBatch, DismissBatch, SpawnRole, CloseRole,
    StandDownRun, setCursor, clearCursor.

Lemma verb_sound w fuel v : SoundCmd w (run_verb w fuel v).
Proof. destruct v; cbn [run_verb]; unfold_verb; cbv zeta; solve_sound. Qed.

(** ** The drafts of the write surface *)

(** MODEL's lifecycle graph. *)
Inductive lifecycle_edge : Lifecycle → Lifecycle → Prop :=
| edge_start : lifecycle_edge Planned InProgress
| edge_finish : lifecycle_edge InProgress Done
| edge_cancel : lifecycle_edge InProgress Canceled
| edge_pause : lifecycle_edge InProgress Paused
| edge_resume : lifecycle_edge Paused InProgress.

#[export] Hint Constructors lifecycle_edge : wip.

(** A transition follows the graph. *)
Definition follows_graph (d : Draft) : Prop :=
  ∀ ty, enum_parse (d_type d) = Some ty → is_transition ty = true →
    ∃ from to cascade level reason, lifecycle_edge from to
      ∧ d_payload d = pl_enc (MkTransition (enum_str from) (enum_str to) cascade level reason).

(** The four types whose drafts need more than their shape: they bear an edge,
    remove or replace a Step, or declare a gate. *)
Definition special_type (t : EType) : bool :=
  match t with
  | TypeDependencyAdded | TypeStepReplaced | TypeStepRemoved | TypeGateDeclared => true
  | _ => false
  end.

(** A draft of another type, which follows the graph. *)
Definition verb_draft (d : Draft) : Prop :=
  (∀ t, d_type d = enum_str t → special_type t = false) ∧ follows_graph d.

Lemma follows_graph_type d t : d_type d = enum_str t → is_transition t = false → follows_graph d.
Proof.
  intros Hd Htr ty Hty. rewrite Hd, (enum_parse_str t) in Hty. injection Hty as <-. congruence.
Qed.

Lemma verb_draft_type d t :
  d_type d = enum_str t → special_type t = false → is_transition t = false → verb_draft d.
Proof.
  intros Hd Hs Htr. split; [|by apply (follows_graph_type d t)].
  intros t' E. rewrite Hd in E. apply (enum_str_inj (A := EType)) in E. by subst.
Qed.

Lemma verb_draft_plain {S} `{Payload S} t subject (x : S) :
  special_type t = false → is_transition t = false → verb_draft (draft t subject x).
Proof. by apply verb_draft_type. Qed.

Lemma verb_draft_transition a k subject from to c level reason :
  lifecycle_edge from to →
  verb_draft (draft (lifecycleEvents a k) subject (MkTransition (enum_str from) (enum_str to) c level reason)).
Proof.
  intros He. split; [intros t E%(enum_str_inj (A := EType)); subst; by destruct a, k|].
  intros ty _ _. by exists from, to, c, level, reason.
Qed.

Lemma verb_draft_cause d cause : verb_draft d → verb_draft (with_cause d cause).
Proof. done. Qed.

#[export] Hint Resolve verb_draft_transition verb_draft_cause : wip.
#[export] Hint Extern 2 (verb_draft (draft _ _ _)) =>
  apply verb_draft_plain; reflexivity : wip.

Lemma start_loop_drafts p level target chain ds ds' :
  start_loop p level target chain ds = Ok ds' → Forall verb_draft ds → Forall verb_draft ds'.
Proof.
  revert ds. induction chain as [|n chain IH]; intros ds; cbn [start_loop]; [by intros [= <-]|].
  intros (fresh & _ & H)%bind_Ok. case_match_hyp H; [|case_match_hyp H; [discriminate|by apply IH]].
  intros Hds. eapply IH; [exact H|]. apply Forall_app. split; [done|].
  apply Forall_singleton, verb_draft_cause. auto with wip.
Qed.

Lemma seal_drafts_drafts log p fresh o d ds x :
  seal_drafts log p fresh o d = Ok (ds, x) → verb_draft d → Forall verb_draft ds.
Proof.
  unfold seal_drafts. intros H Hd. inv_ok. case_match_hyp H; inv_ok; [|by apply Forall_singleton].
  unfold sealSweepDraft. destruct (AnonymousBatchForMatter _ _) as [[id b]|]; [|by apply Forall_singleton].
  case_bool_decide; [|by apply Forall_singleton].
  apply Forall_cons_2; [done|]. apply Forall_singleton. auto with wip.
Qed.

Lemma reap_drafts_drafts p ds ds' : reap_drafts p ds = Ok ds' → Forall verb_draft ds'.
Proof.
  revert ds'. induction ds as [|[id d] ds IH]; intros ds'; cbn [reap_drafts]; [by intros [= <-]|].
  intros H. inv_ok. subst. constructor; [|by apply IH].
  by apply (verb_draft_type _ TypeDispatchClosed).
Qed.

Lemma tcontent_draft w fuel subject kind data log p h d h' :
  tcontent w fuel subject kind data log p h = Some (Ok d, h') → verb_draft d.
Proof.
  unfold tcontent, ContentDraft. destruct (enum_parse (A := ContentKind) kind) as [k|]; [|discriminate].
  intros ([id h1] & _ & H)%bind_Some. cbv zeta in H.
  destruct (_ <? _)%Z; injection H as <- _.
  - eapply verb_draft_type; [reflexivity|by destruct k..].
  - eapply verb_draft_type; [reflexivity|by destruct k..].
Qed.

#[global] Instance content_drafts w fuel subject kind data :
  Drafts verb_draft (tcontent w fuel subject kind data ≫= λ d, mret ([d], tt)).
Proof.
  apply (drafts_bind_post _ verb_draft); [intros ?????; apply tcontent_draft|].
  intros d Hd. apply drafts_ret. repeat constructor; apply Hd.
Qed.

#[global] Instance start_drafts level target chain (b : list Draft → bool) :
  Drafts verb_draft (tread (λ _ p, start_loop p level target chain [])
    ≫= λ ds, tcheck (b ds) ErrNoEvent ;; mret (ds, tt)).
Proof.
  apply (drafts_bind_post _ (Forall verb_draft)).
  - intros log p h ds h' [H _]%tread_inv. by eapply start_loop_drafts.
  - intros ds Hds. apply drafts_bind. intros _. by apply drafts_ret, TCForall_Forall.
Qed.

#[global] Instance reap_run_drafts run (d : Draft) :
  verb_draft d →
  Drafts verb_draft (tread (λ _ p, reap_drafts p (OpenDispatchesForRun p run)) ≫= λ ds, mret (d :: ds, tt)).
Proof.
  intros Hd. apply (drafts_bind_post _ (Forall verb_draft)).
  - intros log p h ds h' [H _]%tread_inv. by eapply reap_drafts_drafts.
  - intros ds Hds. by apply drafts_ret, TCForall_Forall, Forall_cons.
Qed.

(** The verbs that write the special types. *)
Definition plain_verb (v : Verb) : bool :=
  match v with
  | VDependAdd _ _ _ _ | VReplaceStep _ _ _ _ | VRemoveStep _ _ _ _ | VDeclareGate _ _ _ => false
  | _ => true
  end.

Lemma verb_writes w fuel v : plain_verb v = true → Writes verb_draft (run_verb w fuel v).
Proof.
  intros Hv. destruct v; try discriminate Hv; clear Hv; cbn [run_verb]; unfold_verb; cbv zeta.
  all: solve_writes ltac:(first
    [ simple apply reap_run_drafts | simple apply start_drafts | simple apply content_drafts
    | match goal with |- verb_draft _ => solve [auto with wip] end
    | by eapply seal_drafts_drafts; eauto with wip ]).
Qed.

Lemma verb_follows w fuel v : Writes follows_graph (run_verb w fuel v).
Proof.
  destruct (plain_verb v) eqn:Hv.
  { eapply writes_mono; [|by apply verb_writes]. by intros d (_ & ?). }
  destruct v; try discriminate Hv; cbn [run_verb]; unfold_verb;
    solve_writes ltac:(first [match goal with |- follows_graph (draft ?t _ _) => by apply (follows_graph_type _ t) end]).
Qed.
