(* ===== verification/VerbAtomic.v ===== *)
(** Every verb of the write surface is all or nothing: whatever error it answers,
    before, in or after its commit, the log and the projection are those it
    found.  One lemma per verb; [verb_atomic] collects them. *)
From stdpp Require Import relations.
From S2P Require Import Prelude GoStd Ulid Taxonomy Json Payloads Tables View Gates Project Store.
From S2P Require Import Steps Invariants Shape Replay Mint Reach Completion Cycle Content Command.
From S2P Require Import Resolve Config NodeVerbs WorkVerbs ReadSurface Effects Outcome Verbs.

#[local] Opaque applyEvent appendEvent stamp Commit requiredDimensions.

(** ** What was addressed is live *)
Lemma select_node_live p guard id r :
  select_one TNodes p (λ k r, guard k r && node_live r) = Some (id, r) → view_Node p id = Ok (scanNode id r).
Proof.
  intros [H Hg]%select_one_Some. apply andb_true_iff in Hg as [_ Hl]. apply node_live_true in Hl.
  apply view_Node_Ok. eauto.
Qed.

Lemma NodeByLocator_live p matter loc n : NodeByLocator p matter loc = Ok n → view_Node p (n_id n) = Ok n.
Proof.
  unfold NodeByLocator. destruct (select_one _ _ _) as [[id r]|] eqn:E; [|done].
  intros [= <-]. exact (select_node_live _ (λ _ r, bool_decide (nd_matter r = matter)
    && bool_decide (nd_locator r = loc)) _ _ E).
Qed.

Lemma view_Node_id p id n : view_Node p id = Ok n → n_id n = id.
Proof. by intros (r & _ & _ & ->)%view_Node_Ok. Qed.

Lemma MatterByLocator_live p repo loc n : MatterByLocator p repo loc = Ok n → view_Node p (n_id n) = Ok n.
Proof.
  unfold MatterByLocator. destruct (select_one _ _ _) as [[id r]|] eqn:E; [|done].
  intros [= <-]. exact (select_node_live _ (λ _ r, bool_decide (nd_repo r = repo)
    && bool_decide (nd_kind r = ScaleMatter) && bool_decide (nd_locator r = loc)) _ _ E).
Qed.

Lemma ResolveNode_live p repo loc n : ResolveNode p repo loc = Ok n → view_Node p (n_id n) = Ok n.
Proof.
  unfold ResolveNode. destruct (IsIdentityShaped loc).
  { intros H%recode_Ok. by rewrite (view_Node_id _ _ _ H). }
  intros (m & Hm%recode_Ok & H)%bind_Ok. case_bool_decide; [injection H as <-; by eapply MatterByLocator_live|].
  apply recode_Ok in H. by eapply NodeByLocator_live.
Qed.

Lemma ResolveMatter_live p repo loc n : ResolveMatter p repo loc = Ok n → view_Node p (n_id n) = Ok n.
Proof. unfold ResolveMatter. intros H. inv_ok. by eapply ResolveNode_live. Qed.

Lemma ResolveBatch_row p loc b : ResolveBatch p loc = Ok b → is_Some (batches p !! b.1).
Proof.
  unfold ResolveBatch. destruct (IsIdentityShaped loc); intros H.
  - apply bind_Ok in H as (r & Hr%recode_Ok & [= <-]). unfold view_Batch in Hr. inv_ok. eauto.
  - apply recode_Ok in H. unfold BatchByName in H. inv_ok. destruct b as [id r].
    apply (select_one_Some TBatches) in H as [H _]. cbn in *. eauto.
Qed.

(** ** Read-backs after a commit *)

(** The Repo of a backlog row does not change. *)
Definition same_bl_repo (o n : BacklogRow) : Prop := bl_repo n = bl_repo o.

#[local] Instance same_bl_repo_preorder : PreOrder same_bl_repo.
Proof. split; [done|unfold same_bl_repo; intros ???; congruence]. Qed.

Lemma folded_backlog req ds events log p new log' p' repo id r :
  folded req ds events log p new log' p' → backlog_entries p !! id = Some r → bl_repo r = repo →
  ∃ a, backlogEntryByID repo id log' p' = Ok a.
Proof.
  intros Hf Hr Hrepo. edestruct (folded_evolve TBacklog same_bl_repo (λ _, True)) as (n & Hn & Hs);
    [|by apply Forall_true|exact Hf|exact Hr|].
  { by intros d ev q k o n _ _ (? & _) _. }
  exists n. unfold backlogEntryByID, BacklogEntry. apply from_option_err_Ok, bind_Some. exists n.
  split; [exact Hn|]. rewrite bool_decide_eq_true_2; [done|]. by rewrite <-Hrepo.
Qed.

Section readback.
Context (req : Request) (ds : list Draft) (evs : list Event) (s s' : Store).
Hypothesis Hf : folded req ds [] (s_log s) (s_proj s) evs (s_log s') (s_proj s').

Lemma readback_node id n :
  Forall keeps_nodes ds → view_Node (s_proj s) id = Ok n →
  ∃ a, node_of id (s_log s') (s_proj s') = Ok a.
Proof using Hf. intros HQ Hn. by eapply folded_live. Qed.

Lemma readback_row {A} t k (f : option (Row t) → result A) :
  is_Some (tget t (s_proj s) !! k) → (∀ r, ∃ a, f (Some r) = Ok a) → ∃ a, f (tget t (s_proj s') !! k) = Ok a.
Proof using Hf.
  intros Hk Ha. destruct (folded_keys _ _ _ _ _ _ _ _ Hf t k Hk) as [r ->]. apply Ha.
Qed.

Lemma readback_batch id : is_Some (batches (s_proj s) !! id) → ∃ a, batch_of id (s_log s') (s_proj s') = Ok a.
Proof using Hf. intros H. apply (readback_row TBatches id (from_option_err _) H). eauto. Qed.

Lemma readback_role id : is_Some (roles (s_proj s) !! id) → ∃ a, view_Role (s_proj s') id = Ok a.
Proof using Hf. intros H. apply (readback_row TRoles id (from_option_err _) H). eauto. Qed.

Lemma readback_run id : is_Some (runs (s_proj s) !! id) → ∃ a, view_Run (s_proj s') id = Ok a.
Proof using Hf. intros H. apply (readback_row TRuns id (from_option_err _) H). eauto. Qed.

End readback.

(** ** By the shape of the verb *)
Ltac solve_atomic :=
  repeat lazymatch goal with
  | |- atomic_at _ (mret _) => apply atomic_ret
  | |- atomic_at _ (cfail _) => apply atomic_fail
  | |- atomic_at _ (mret _ ≫= _) => apply atomic_bind_ret
  | |- atomic_at _ (cread _ ≫= _) => apply atomic_read; intros ? ?
  | |- atomic_at _ (ccheck _ _ ≫= _) => apply atomic_check; intros ?
  | |- atomic_at _ (clift _ ≫= _) => apply atomic_lift; intros ? ?
  | |- atomic_at _ (commit _ _ _ _ ≫= _) => apply atomic_commit; intros ? ? ? ? ? ? ?
  | |- atomic_at _ ((_ ≫= _) ≫= _) => apply atomic_assoc
  | |- atomic_at _ (match ?x with _ => _ end) => destruct x eqn:?
  | |- atomic_at _ (match ?x with _ => _ end ≫= _) => destruct x eqn:?
  | |- atomic_at _ (_ ≫= _) => apply atomic_then; [|intros; apply answers_ret]
  | |- answers _ (mret _) => apply answers_ret
  | |- answers _ (mret _ ≫= _) => apply answers_bind_ret
  | |- answers _ (cread _) => apply answers_read
  | |- answers _ (cread _ ≫= _) => apply answers_bind_read; [|intros; apply answers_ret]
  end.

(** Opens a commit of one draft. *)
Ltac one_draft :=
  match goal with
  | H : folded _ [_] [] _ _ _ _ _ |- _ =>
      let ev := fresh "ev" in let Hst := fresh "Hst" in let Ha := fresh "Ha" in let Hap := fresh "Hap" in
      apply folded_one in H as (ev & -> & ? & Hst & Ha & Hap)
  end.

(** One node is born and read back. *)
Lemma birth_answers req t scale id (b : NodeBirth) evs s s' :
  folded req [draft t id b] [] (s_log s) (s_proj s) evs (s_log s') (s_proj s') →
  birth_scale t = Some scale → ∃ a, node_of id (s_log s') (s_proj s') = Ok a.
Proof.
  intros Hf Ht. one_draft. destruct (stamped_draft _ _ _ _ _ Hst) as (Hty & <- & _).
  destruct (node_born _ _ _ _ _ _ Hty Ht Hap) as (? & ? & _ & _ & Hn). eexists. exact Hn.
Qed.

Section verbs.
Context (w : World) (fuel : nat) (s : Store).

Lemma CreateMatter_atomic a r t l : atomic_at s (CreateMatter w fuel a r t l).
Proof.
  unfold CreateMatter. cbv zeta. solve_atomic; inv_tx; by eapply birth_answers.
Qed.

Lemma CreateStage_atomic a r p t : atomic_at s (CreateStage w fuel a r p t).
Proof. unfold CreateStage. cbv zeta. solve_atomic. inv_tx. by eapply birth_answers. Qed.

Lemma CreateStep_atomic a r p t : atomic_at s (CreateStep w fuel a r p t).
Proof. unfold CreateStep. solve_atomic. inv_tx. by eapply birth_answers. Qed.

Lemma InsertStep_atomic a r p t af be : atomic_at s (InsertStep w fuel a r p t af be).
Proof.
  unfold InsertStep. solve_atomic. inv_tx. case_match; [by eapply birth_answers|].
  match goal with H : folded _ _ _ _ _ _ _ _ |- _ =>
    apply folded_two in H as (e1 & ev & q & _ & _ & Hst & _ & Hap) end.
  destruct (stamped_draft _ _ _ _ _ Hst) as (Hty & <- & _).
  destruct (node_born _ _ _ _ _ _ Hty eq_refl Hap) as (? & ? & _ & _ & Hn). eexists. exact Hn.
Qed.

(** The read-back of a node that was addressed and not removed. *)
Ltac kept_node :=
  eapply readback_node; [eassumption| |first [by eapply ResolveNode_live|by eapply ResolveMatter_live]];
  repeat (apply Forall_cons_2; [by split|]); by apply Forall_nil_2.

Lemma ReorderStep_atomic a r p o : atomic_at s (ReorderStep w fuel a r p o).
Proof. unfold ReorderStep. solve_atomic. inv_tx. kept_node. Qed.

Lemma RemoveStep_atomic a r l x : atomic_at s (RemoveStep w fuel a r l x).
Proof. unfold RemoveStep. solve_atomic. Qed.

Lemma ReplaceStep_atomic a r l t :
  world_ok w → handle_ok (s_handle s) → atomic_at s (ReplaceStep w fuel a r l t).
Proof.
  intros Hw Hh. unfold ReplaceStep. solve_atomic. inv_tx. one_draft.
  destruct (stamped_draft _ _ _ _ _ Hst) as (Hty & _ & Hpl & _).
  eapply replacement_born; [exact Hty|exact Hpl| |exact Hap].
  match goal with H : NewID _ _ _ = Some _ |- _ => by destruct (NewID_ok w Hw _ _ _ _ H Hh) as (_ & ? & _) end.
Qed.

Lemma Start_atomic a r l : atomic_at s (Start w fuel a r l).
Proof. unfold Start. solve_atomic. Qed.

Lemma seal_keeps log p fresh o d ds x :
  seal_drafts log p fresh o d = Ok (ds, x) → keeps_nodes d → Forall keeps_nodes ds.
Proof.
  unfold seal_drafts. intros H Hd. inv_ok. case_match_hyp H; inv_ok; [|by apply Forall_singleton].
  unfold sealSweepDraft. destruct (AnonymousBatchForMatter _ _) as [[id b]|]; [|by apply Forall_singleton].
  case_bool_decide; [|by apply Forall_singleton]. apply Forall_cons_2; [done|]. by apply Forall_singleton.
Qed.

Lemma lifecycle_keeps {S} `{Payload S} a k subject (x : S) : keeps_nodes (draft (lifecycleEvents a k) subject x).
Proof. by destruct a, k. Qed.

Lemma simpleTransition_atomic a e l act from to x :
  atomic_at s (simpleTransitionEnvResult w fuel a e l act from to x).
Proof.
  unfold simpleTransitionEnvResult. cbv zeta. solve_atomic. inv_tx.
  eapply readback_node; [eassumption| |by eapply ResolveNode_live].
  match goal with H : (if ?b then _ else _) _ _ _ = _ |- _ => destruct b end; inv_tx.
  - eapply seal_keeps; [eassumption|apply lifecycle_keeps].
  - apply Forall_singleton, lifecycle_keeps.
Qed.

Lemma transition_node_atomic a r l act from to x :
  atomic_at s (simpleTransition w fuel a r l act from to x).
Proof. apply atomic_then; [apply simpleTransition_atomic|intros; apply answers_ret]. Qed.

Lemma DependAdd_atomic a r x y : atomic_at s (DependAdd w fuel a r x y).
Proof. unfold DependAdd. solve_atomic. Qed.

Lemma DependRemove_atomic a r x y : atomic_at s (DependRemove w fuel a r x y).
Proof. unfold DependRemove. solve_atomic. Qed.

Lemma WriteOnce_atomic a r l k d : atomic_at s (WriteOnce w fuel a r l k d).
Proof. unfold WriteOnce. solve_atomic. Qed.

Lemma AppendFinding_atomic a r l d : atomic_at s (AppendFinding w fuel a r l d).
Proof. unfold AppendFinding. solve_atomic. Qed.

Lemma reference_verb_atomic a r l d :
  (∀ id level, keeps_nodes (d id level)) → atomic_at s (reference_verb w fuel a r l d).
Proof.
  intros Hd. unfold reference_verb. solve_atomic. inv_tx.
  eapply readback_node; [eassumption|by apply Forall_singleton|by eapply ResolveMatter_live].
Qed.

Lemma SetConfig_atomic r k v : atomic_at s (SetConfig w fuel r k v).
Proof. unfold SetConfig. solve_atomic. Qed.

Lemma store_DeclareGate_atomic r g sc : atomic_at s (store_DeclareGate w fuel r g sc).
Proof. unfold store_DeclareGate. solve_atomic. Qed.

Lemma DeclareGate_atomic r g sc : atomic_at s (DeclareGate w fuel r g sc).
Proof. unfold DeclareGate. solve_atomic. apply store_DeclareGate_atomic. Qed.

Lemma RepairGateExemption_atomic r g l : atomic_at s (RepairGateExemption w fuel r g l).
Proof. unfold RepairGateExemption, store_RepairGateExemption. solve_atomic. Qed.

Lemma gate_drafts_keep fresh gate d log p h ds x h' :
  gate_drafts fresh gate d log p h = Some (Ok (ds, x), h') → keeps_nodes d → Forall keeps_nodes ds.
Proof.
  unfold gate_drafts. intros H Hd. case_bool_decide; inv_tx; [eapply seal_keeps; eassumption|by apply Forall_singleton].
Qed.

Lemma closeGate_atomic a e g l : atomic_at s (closeGateEnv w fuel a e g l).
Proof.
  unfold closeGateEnv. cbv zeta. solve_atomic. inv_tx.
  eapply readback_node; [eassumption| |by eapply ResolveNode_live]. eapply gate_drafts_keep; [eassumption|done].
Qed.

Lemma dismissGate_atomic a e g l x : atomic_at s (dismissGateEnv w fuel a e g l x).
Proof.
  unfold dismissGateEnv. cbv zeta. solve_atomic. inv_tx.
  eapply readback_node; [eassumption| |by eapply ResolveNode_live]. eapply gate_drafts_keep; [eassumption|done].
Qed.

(** ** Backlog and outbox *)
Lemma requireEntered_row p repo id :
  requireEnteredBacklogEntry p repo id = Ok tt →
  ∃ r, backlog_entries p !! id = Some r ∧ bl_repo r = repo.
Proof.
  unfold requireEnteredBacklogEntry. destruct (find _ _) as [[k r]|] eqn:E; [|done]. intros _.
  apply find_some in E as [Hin Hk]. cbn in Hk. inv_bool. subst k. unfold Backlog in Hin.
  apply list_elem_of_In, (elem_of_select TBacklog) in Hin as [Hr Hg]. inv_bool. by exists r.
Qed.

Lemma backlog_exit_atomic a r id d : atomic_at s (backlog_exit w fuel a r id d).
Proof.
  unfold backlog_exit. solve_atomic. inv_tx.
  match goal with H : requireEnteredBacklogEntry _ _ _ = Ok ?u |- _ =>
    destruct u; apply requireEntered_row in H as (row & Hrow & Hrepo) end.
  by eapply folded_backlog.
Qed.

Lemma entered_answers req id (b : BacklogEntered) ds evs s' :
  folded req (draft TypeBacklogEntered id b :: ds) [] (s_log s) (s_proj s) evs (s_log s') (s_proj s') →
  ∃ a, backlogEntryByID (env_repo (rq_env req)) id (s_log s') (s_proj s') = Ok a.
Proof.
  intros Hf. inversion Hf as [|? ? ? ? ? ev ? q ? ? Hst _ _ Hap Hr]; subst.
  pose proof (stamped_repo _ _ _ _ _ Hst eq_refl) as Hrepo.
  destruct (stamped_draft _ _ _ _ _ Hst) as (Hty & <- & _).
  destruct (backlog_born _ _ _ _ Hty Hap) as (r & Hrow & Hbr). eapply folded_backlog; [exact Hr|exact Hrow|congruence].
Qed.

Lemma BacklogAdd_atomic a r p t d o : atomic_at s (BacklogAdd w fuel a r p t d o).
Proof.
  unfold BacklogAdd. cbv zeta. solve_atomic; inv_tx;
    match goal with H : (if ?b then _ else _) _ _ _ = _ |- _ => destruct b end; inv_tx;
    eapply (entered_answers (repo_request a r)); eassumption.
Qed.

Lemma ConfirmBacklogDelegation_atomic a r o x : atomic_at s (ConfirmBacklogDelegation w fuel a r o x).
Proof. unfold ConfirmBacklogDelegation. solve_atomic. Qed.

Lemma mutateOutbox_atomic {S} `{Payload S} a r id t (x : S) :
  outbox_touch t = true → repo_typed t = true → atomic_at s (mutateOutbox w fuel a r id (draft t id x)).
Proof.
  intros Ht Hr. unfold mutateOutbox. solve_atomic.
  match goal with H : mret _ _ _ _ = Some _ |- _ => apply tret_inv in H as [E _] end.
  injection E as -> _. one_draft.
  pose proof (stamped_repo _ _ _ _ _ Hst Hr) as Hrepo.
  destruct (stamped_draft _ _ _ _ _ Hst) as (Hty & <- & _).
  destruct (outbox_touched _ _ _ _ _ Hty Ht Hap) as (row & Hrow & Hob). eexists.
  unfold view_OutboxEntry. rewrite Hrow, Hob, Hrepo. cbn. by rewrite bool_decide_eq_true_2.
Qed.

Lemma PushTrackerState_atomic a r i x d l : atomic_at s (PushTrackerState w fuel a r i x d l).
Proof. unfold PushTrackerState. solve_atomic. Qed.

Lemma ObserveTrackerState_atomic a r i x d l : atomic_at s (ObserveTrackerState w fuel a r i x d l).
Proof. unfold ObserveTrackerState. solve_atomic. Qed.

Lemma proposeTracker_atomic a r x :
  refs_ok (s_log s) (s_proj s) → atomic_at s (proposeTracker w fuel a r x).
Proof.
  intros Href. unfold proposeTracker. solve_atomic. inv_tx. one_draft. cbn [fst]. apply answers_read.
  pose proof (stamped_repo _ _ _ _ _ Hst eq_refl) as Hrepo.
  destruct (stamped_draft _ _ _ _ _ Hst) as (Hty & _). cbn in Hrepo. rewrite <-Hrepo.
  apply appendEvent_Ok in Ha as [_ Hlt]. by eapply adhoc_born.
Qed.

(** ** Batches, roles, runs *)
Lemma CreateBatch_atomic a e n : atomic_at s (CreateBatch w fuel a e n).
Proof.
  unfold CreateBatch. solve_atomic. inv_tx. one_draft. destruct (stamped_draft _ _ _ _ _ Hst) as (Hty & <- & _).
  destruct (batch_born _ _ _ _ Hty Hap) as [b Hb]. exists b. unfold batch_of, view_Batch. cbn. by rewrite Hb.
Qed.

Lemma CreateAnonymousBatch_atomic a e m : atomic_at s (CreateAnonymousBatch w fuel a e m).
Proof.
  unfold CreateAnonymousBatch. solve_atomic. inv_tx. one_draft. destruct (stamped_draft _ _ _ _ _ Hst) as (Hty & <- & _).
  destruct (batch_born _ _ _ _ Hty Hap) as [b Hb]. exists b. unfold batch_of, view_Batch. cbn. by rewrite Hb.
Qed.

Lemma JoinBatch_atomic a e b m : atomic_at s (JoinBatch w fuel a e b m).
Proof. unfold JoinBatch. solve_atomic. by eapply readback_batch, ResolveBatch_row. Qed.

Lemma LeaveBatch_atomic a e b m : atomic_at s (LeaveBatch w fuel a e b m).
Proof. unfold LeaveBatch. solve_atomic. by eapply readback_batch, ResolveBatch_row. Qed.

Lemma DismissBatch_atomic a e b : atomic_at s (DismissBatch w fuel a e b).
Proof. unfold DismissBatch. solve_atomic. by eapply readback_batch, ResolveBatch_row. Qed.

Lemma SpawnRole_atomic a e n : atomic_at s (SpawnRole w fuel a e n).
Proof.
  unfold SpawnRole. solve_atomic; inv_tx; one_draft; destruct (stamped_draft _ _ _ _ _ Hst) as (Hty & <- & _);
    destruct (role_born _ _ _ _ Hty Hap) as [b Hb]; exists b; unfold view_Role; cbn; by rewrite Hb.
Qed.

Lemma CloseRole_atomic e n : atomic_at s (CloseRole w fuel e n).
Proof.
  unfold CloseRole. solve_atomic. inv_tx. eapply readback_role; [eassumption|]. inv_ok.
  match goal with H : OpenRole _ _ _ = Some ?r |- _ =>
    destruct r as [id row]; apply (select_one_Some TRoles) in H as [H _] end. eauto.
Qed.

Lemma StandDownRun_atomic q a e r : atomic_at s (StandDownRun w fuel q a e r).
Proof.
  unfold StandDownRun. solve_atomic. eapply readback_run; [eassumption|].
  match goal with H : recode _ (view_Run _ _) = Ok _ |- _ => apply recode_Ok in H; unfold view_Run in H end.
  inv_ok. eauto.
Qed.

Lemma setCursor_atomic a c l : atomic_at s (setCursor w fuel a c l).
Proof. unfold setCursor. solve_atomic. Qed.

Lemma clearCursor_atomic a c : atomic_at s (clearCursor w fuel a c).
Proof. unfold clearCursor. solve_atomic. Qed.
End verbs.

#[local] Hint Resolve CreateMatter_atomic CreateStage_atomic CreateStep_atomic InsertStep_atomic
  ReorderStep_atomic RemoveStep_atomic ReplaceStep_atomic Start_atomic simpleTransition_atomic
  transition_node_atomic DependAdd_atomic DependRemove_atomic WriteOnce_atomic AppendFinding_atomic
  SetConfig_atomic DeclareGate_atomic RepairGateExemption_atomic closeGate_atomic
  dismissGate_atomic backlog_exit_atomic BacklogAdd_atomic ConfirmBacklogDelegation_atomic
  mutateOutbox_atomic PushTrackerState_atomic ObserveTrackerState_atomic CreateBatch_atomic CreateAnonymousBatch_atomic JoinBatch_atomic LeaveBatch_atomic DismissBatch_atomic
  SpawnRole_atomic CloseRole_atomic StandDownRun_atomic setCursor_atomic
  clearCursor_atomic st_handle : wip_atomic.

Lemma verb_atomic w fuel s v : world_ok w → store_ok s → atomic_at s (run_verb w fuel v).
Proof.
  intros Hw Hs. destruct v; cbn [run_verb];
    unfold FinishWithEnvResult, Cancel, Pause, Resume, Bind, Unbind, Rebind, BacklogPlan, BacklogDecline,
      BacklogDelegate, OutboxApprove, OutboxDecline, OutboxRetry, WithholdOutbox, FailOutbox,
      FlushOutboxComment, ProposeTrackerCreate, ProposeTrackerComment, ProposeTrackerState,
      SetTrackerPushLevel, SetTrackerBacklogPush; cbv zeta.
  all: repeat lazymatch goal with
    | |- atomic_at _ (ccheck _ _ ≫= _) => apply atomic_check; intros ?
    | |- atomic_at _ (clift _ ≫= _) => apply atomic_lift; intros ? ?
    | |- atomic_at _ (cread _ ≫= _) => apply atomic_read; intros ? ?
    | |- atomic_at _ ((_ ≫= _) ≫= _) => apply atomic_assoc
    | |- atomic_at _ (_ ≫= _) => apply atomic_then; [|intros; first [apply answers_ret|apply answers_bind_ret, answers_ret]]
    end.
  all: try solve [eauto 3 with wip_atomic].
  all: first [by apply reference_verb_atomic|apply proposeTracker_atomic, db_refs, st_db, Hs].
Qed.
