(* ===== verification/Slug.v ===== *)
(** Locators (src/internal/writesurface/writesurface.go, slugify): the form of a
    slug, that slugging a slug changes nothing, and that a new Matter is addressed
    by its own locator. *)
From S2P Require Import Prelude GoStd Ulid Taxonomy Json Payloads Tables View Gates Project Store.
From S2P Require Import Steps Invariants Shape Replay Mint Reach Completion Cycle Content Command.
From S2P Require Import Resolve Config NodeVerbs WorkVerbs Effects Outcome Verbs VerbAtomic.
Local Open Scope Z_scope.

(** ** The form of a slug *)
Definition alnum (b : Z) : bool := between 97 b 122 || between 48 b 57.

(** Letters, digits, and hyphens that neither start the list nor follow one. *)
Fixpoint hyphenated (prevDash : bool) (bs : list Z) : bool :=
  match bs with
  | [] => true
  | b :: bs => if alnum b then hyphenated false bs else (b =? hyphen) && negb prevDash && hyphenated true bs
  end.

Definition slug_form (bs : list Z) : Prop := hyphenated true bs = true ∧ last bs ≠ Some hyphen.

Lemma alnum_bound b : alnum b = true → 48 <= b <= 122 ∧ b ≠ 47 ∧ b ≠ hyphen.
Proof. unfold alnum, between, hyphen. rewrite orb_true_iff, !andb_true_iff, !Z.leb_le. lia. Qed.

Lemma slug_rune_alnum r b : slug_rune r = Some b → alnum b = true.
Proof.
  unfold slug_rune. intros H. unfold alnum, between in *.
  repeat case_match; try discriminate; injection H as <-; rewrite ?orb_true_iff, ?andb_true_iff, ?Z.leb_le in *; lia.
Qed.

Lemma slug_loop_hyphenated rs prev : hyphenated prev (slug_loop rs prev) = true.
Proof.
  revert prev. induction rs as [|r rs IH]; intros prev; cbn [slug_loop]; [done|].
  destruct (slug_rune r) as [b|] eqn:E; [|destruct prev; [apply IH|]]; cbn [hyphenated].
  - rewrite (slug_rune_alnum _ _ E). apply IH.
  - change (alnum hyphen) with false. cbn. apply IH.
Qed.

Lemma hyphenated_snoc prev l b :
  hyphenated prev (l ++ [b]) = true →
  hyphenated prev l = true ∧ (b = hyphen → match last l with Some c => c ≠ hyphen | None => prev = false end).
Proof.
  revert prev. induction l as [|a l IH]; intros prev; cbn [app hyphenated].
  { intros H. split; [done|]. intros ->. change (alnum hyphen) with false in H. cbn in H. by destruct prev. }
  destruct (alnum a) eqn:Ea.
  - intros [H1 H2]%IH. split; [done|]. intros Hb. specialize (H2 Hb). rewrite last_cons.
    destruct (last l); [done|]. apply (alnum_bound a Ea).
  - intros H. apply andb_true_iff in H as [H1 [H2 H3]%IH]. rewrite H1, H2. split; [done|].
    intros Hb. specialize (H3 Hb). rewrite last_cons. by destruct (last l).
Qed.

Lemma trim_slug_form bs : hyphenated true bs = true → slug_form (trim_hyphen bs).
Proof.
  intros H. unfold trim_hyphen. destruct (last bs) as [b|] eqn:E; [|split; congruence].
  case_bool_decide as Hb; [|split; congruence]. apply last_Some in E as [l ->].
  rewrite length_app, Nat.add_sub, take_app_length. apply hyphenated_snoc in H as [H1 H2]. split; [done|].
  specialize (H2 Hb). destruct (last l); [congruence|done].
Qed.

(** ** Slugging a slug *)
Lemma bytes_string bs : Forall is_byte bs → bytes_of (string_of bs) = bs.
Proof. induction 1 as [|b bs Hb _ IH]; [done|]. cbn [string_of bytes_of]. by rewrite byte_ascii, IH. Qed.

Lemma hyphenated_ascii prev bs : hyphenated prev bs = true → Forall (λ b, 0 <= b < 128) bs.
Proof.
  revert prev. induction bs as [|b bs IH]; intros prev; cbn [hyphenated]; [constructor|].
  destruct (alnum b) eqn:E; intros H.
  - constructor; [apply alnum_bound in E; lia|by eapply IH].
  - apply andb_true_iff in H as [[->%Z.eqb_eq _]%andb_true_iff H]. constructor; [unfold hyphen; lia|by eapply IH].
Qed.

Lemma runes_ascii fuel bs :
  (length bs < fuel)%nat → Forall (λ b, 0 <= b < 128) bs → runes fuel bs = (λ b, [b]) <$> bs.
Proof.
  revert bs. induction fuel as [|fuel IH]; intros bs Hl H; [lia|]. destruct bs as [|b bs]; [done|].
  apply Forall_cons in H as [Hb H]. cbn [runes rune_len]. rewrite (proj2 (Z.ltb_lt b 0x80)) by lia.
  cbn [take drop]. rewrite fmap_cons. f_equal. apply IH; [cbn in Hl; lia|done].
Qed.

Lemma slug_loop_slug prev bs : hyphenated prev bs = true → slug_loop ((λ b, [b]) <$> bs) prev = bs.
Proof.
  revert prev. induction bs as [|b bs IH]; intros prev; cbn [hyphenated]; [done|]. rewrite fmap_cons. cbn [slug_loop slug_rune].
  fold (alnum b). destruct (alnum b) eqn:E; intros H.
  - by rewrite IH.
  - apply andb_true_iff in H as [[->%Z.eqb_eq Hp]%andb_true_iff H]. cbn. apply negb_true_iff in Hp. rewrite Hp. by rewrite IH.
Qed.

Lemma slug_form_fixed bs : slug_form bs → Forall is_byte bs → slugify (string_of bs) = string_of bs.
Proof.
  intros [Hh Hl] Hb. unfold slugify. rewrite bytes_string by done.
  rewrite runes_ascii; [|rewrite <-bytes_of_length, bytes_string by done; lia|by eapply hyphenated_ascii].
  rewrite slug_loop_slug by done. unfold trim_hyphen. destruct (last bs) as [b|] eqn:E; [|done].
  case_bool_decide; [congruence|done].
Qed.

Lemma slugify_form title : ∃ bs, slugify title = string_of bs ∧ slug_form bs ∧ Forall is_byte bs.
Proof.
  eexists. split; [reflexivity|].
  assert (slug_form (trim_hyphen (slug_loop (runes (S (String.length title)) (bytes_of title)) true))) as H
    by apply trim_slug_form, slug_loop_hyphenated.
  split; [done|]. eapply Forall_impl; [eapply hyphenated_ascii, H|]. intros b. cbn. unfold is_byte. lia.
Qed.

Lemma slugify_fixed title : slugify (slugify title) = slugify title.
Proof. destruct (slugify_form title) as (bs & -> & Hf & Hb). by apply slug_form_fixed. Qed.

Lemma split_no_slash s : Forall (λ b, b ≠ 47) (bytes_of s) → split_slash s = [s].
Proof.
  induction s as [|c s IH]; [done|]. cbn [bytes_of split_slash]. intros [Hc Hs]%Forall_cons.
  rewrite (proj2 (Z.eqb_neq _ _) Hc). by rewrite IH.
Qed.

Lemma hyphenated_no_slash prev bs : hyphenated prev bs = true → Forall (λ b, b ≠ 47) bs.
Proof.
  revert prev. induction bs as [|b bs IH]; intros prev; cbn [hyphenated]; [constructor|].
  destruct (alnum b) eqn:E; intros H.
  - constructor; [apply (alnum_bound b E)|by eapply IH].
  - apply andb_true_iff in H as [[->%Z.eqb_eq _]%andb_true_iff H]. constructor; [done|by eapply IH].
Qed.

(** A slug is one segment, and it is ASCII. *)
Lemma slug_segment s : slugify s = s → split_slash s = [s] ∧ utf8_coerce s = s.
Proof.
  intros H. destruct (slugify_form s) as (bs & E & [Hf _] & Hb). rewrite H in E. rewrite E. split.
  - apply split_no_slash. rewrite bytes_string by done. by eapply hyphenated_no_slash.
  - apply utf8_coerce_ascii. rewrite bytes_string by done. by eapply hyphenated_ascii.
Qed.

(** ** The new Matter *)
Lemma select_one_unique t p guard k r :
  tget t p !! k = Some r → guard k r = true →
  (∀ k' r', tget t p !! k' = Some r' → guard k' r' = true → k' = k) → select_one t p guard = Some (k, r).
Proof.
  intros Hk Hg Hu. destruct (select_one t p guard) as [[k' r']|] eqn:E.
  - apply select_one_Some in E as [Hk' Hg']. pose proof (Hu _ _ Hk' Hg') as ->.
    assert (Some r' = Some r) as [= ->]; [exact (eq_trans (eq_sym Hk') Hk)|done].
  - pose proof (proj1 (select_one_None t p guard) E k r Hk). congruence.
Qed.

(** The locator CreateMatter settles on. *)
Definition new_locator (title locator : string) : string :=
  if bool_decide (locator = "") then slugify title else locator.

Lemma insertNode_fresh c ev scale p p' :
  insertNode c ev scale p = Ok p' →
  nodes p !! ev_subject ev = None ∧ ∃ r, nodes p' = <[ev_subject ev := r]> (nodes p).
Proof.
  unfold insertNode. intros H. inv_ok. apply sql_insert_Ok in H as (_ & Hn & H%(put_tget_eq _ TNodes)).
  cbn [tget] in *. eauto.
Qed.

(** What CreateMatter leaves: the node it returns, alone under its locator. *)
Lemma CreateMatter_Ok w fuel actor repo title locator s n s' :
  CreateMatter w fuel actor repo title locator s = Some (Ok n, s') →
  let loc := new_locator title locator in
  slugify loc = loc ∧ loc ≠ "" ∧ n_locator n = loc ∧ n_kind n = ScaleMatter ∧ n_repo n = repo
  ∧ n_lifecycle n = Planned ∧ n_title n = utf8_coerce title ∧ view_Node (s_proj s') (n_id n) = Ok n
  ∧ nodes (s_proj s) !! n_id n = None ∧ IsIdentityShaped (n_id n) = true
  ∧ MatterByLocator (s_proj s') repo loc = Ok n.
Proof.
  intros H. cbv zeta. unfold CreateMatter in H.
  apply cmd_bind_Ok in H as (loc & s1 & Hloc & H).
  assert (loc = new_locator title locator ∧ s1 = s ∧ slugify loc = loc ∧ loc ≠ "") as (<- & -> & Hslug & Hne).
  { clear H. unfold new_locator. case_bool_decide; cbv zeta in Hloc; inv_cmd; inv_bool;
      [split_and!; try done; apply slugify_fixed|done]. }
  clear Hloc. inv_cmd.
  match goal with H : commit _ _ _ _ _ = Some (Ok ?p, _) |- _ =>
    destruct p as [evs id]; apply commit_folded in H as (ds & h & Hd & _ & Hf) end.
  inv_tx. inv_ok. apply folded_one in Hf as (ev & _ & _ & Hst & Ha & Hap).
  pose proof (stamped_repo _ _ _ _ _ Hst eq_refl) as Hrepo. cbn in Hrepo.
  destruct (stamped_draft _ _ _ _ _ Hst) as (Hty & Hsub & Hpl & _).
  destruct (node_born _ _ _ _ _ _ Hty eq_refl Hap) as (b & m & Hb & Hm & Hn).
  rewrite Hpl, decode_node_birth in Hb by done. injection Hb as <-.
  destruct (slug_segment loc Hslug) as [_ Hutf].
  unfold node_of in H. cbn [snd] in H. rewrite <-Hsub, Hn in H. injection H as <-. cbn [n_id scanNode].
  as_rule Hap Hty. apply insertNode_fresh in Hap as (Hfresh & row & Hrow).
  pose proof Hn as (r & Hr & Hlive & Er)%view_Node_Ok. cbn [scanNode n_locator n_kind n_repo n_lifecycle n_title
    NodeBirth_Locator NodeBirth_Title nd_locator nd_kind nd_repo nd_lifecycle nd_title].
  split_and!; try done; [by eapply appended_subject|].
  unfold MatterByLocator. rewrite (select_one_unique TNodes _ _ (ev_subject ev) r); [f_equal; symmetry; exact Er|done| |].
  - injection Er as Ek Erp _ _ El _ _ _. cbn in Ek, Erp, El. apply node_live_true in Hlive.
    rewrite Hlive, <-Ek, <-Erp, <-El, !bool_decide_true by done. done.
  - intros k' r' Hk' Hg. destruct (decide (k' = ev_subject ev)) as [|Hk]; [done|]. exfalso. cbn [tget] in Hk'.
    rewrite Hrow, lookup_insert_ne in Hk' by done.
    match goal with H : negb (is_ok (MatterByLocator _ _ _)) = true |- _ =>
      apply negb_true_iff in H; unfold MatterByLocator in H; destruct (select_one _ _ _) as [[]|] eqn:E; [done|] end.
    pose proof (proj1 (select_one_None TNodes _ _) E k' r' Hk'). congruence.
Qed.
