(* ===== verification/Cascade.v ===== *)
(** Start (src/internal/writesurface/lifecycle.go): the drafts of the cascade and
    what their fold does to the lifecycles of the chain. *)
From stdpp Require Import relations.
From S2P Require Import Prelude GoStd Ulid Taxonomy Json Payloads Tables View Gates Project Store.
From S2P Require Import Steps Invariants Shape Replay Mint Reach Completion Cycle Content Command.
From S2P Require Import Resolve Config NodeVerbs WorkVerbs Effects Outcome Verbs VerbAtomic.

(** ** The drafts *)

(** The [i]-th draft of the command: the transition of [n], caused by the draft
    before it, a cascade unless [n] is the target. *)
Definition start_draft (level target : string) (i : nat) (n : Node) : Draft :=
  with_cause (draft (lifecycleEvents Started (n_kind n)) (n_id n)
    (MkTransition (enum_str Planned) (enum_str InProgress) (negb (bool_decide (n_id n = target))) level ""))
    (Z.of_nat (pred i)).

Definition planned_of (chain : list Node) : list Node := filter (λ n, n_lifecycle n = Planned) chain.

Lemma start_loop_spec p level target chain ds ds' :
  (∀ n, n ∈ chain → view_Node p (n_id n) = Ok n) →
  start_loop p level target chain ds = Ok ds' →
  ds' = ds ++ imap (λ i, start_draft level target (length ds + i)) (planned_of chain)
  ∧ ∀ n, n ∈ chain → n_id n = target → n_lifecycle n = Planned.
Proof.
  revert ds. induction chain as [|n chain IH]; intros ds Hlive; cbn [start_loop].
  { intros [= <-]. cbn. rewrite app_nil_r. split; [done|]. by intros n ?%elem_of_nil. }
  rewrite (Hlive n) by left. cbn [mbind result_bind]. intros H.
  unfold planned_of. rewrite filter_cons.
  destruct (bool_decide (n_lifecycle n = Planned)) eqn:El; inv_bool.
  - apply IH in H as [-> Hp]; [|intros; apply Hlive; by right]. rewrite decide_True by done.
    split; [|intros m [->|Hm]%elem_of_cons; auto].
    rewrite <-app_assoc. f_equal. cbn [app imap]. f_equal.
    + unfold start_draft. rewrite Nat.add_0_r. f_equal. destruct ds; cbn; lia.
    + rewrite length_app. cbn [length]. apply imap_ext. intros i m _. cbn. f_equal. lia.
  - rewrite decide_False by done. destruct (bool_decide (n_id n = target)) eqn:Et; [discriminate|]. inv_bool.
    apply IH in H as [-> Hp]; [|intros; apply Hlive; by right].
    split; [done|]. intros m [->|Hm]%elem_of_cons; [done|auto].
Qed.

(** ** The chain *)
Lemma ancestors_up_spec depth p n l :
  tree_ok p → view_Node p (n_id n) = Ok n → ancestors_up depth p n = Ok l →
  NoDup (n_id <$> n :: l) ∧ (∀ m, m ∈ l → view_Node p (n_id m) = Ok m ∧ (scale_rank (n_kind m) < scale_rank (n_kind n))%nat).
Proof.
  intros Ht. revert n l. induction depth as [|depth IH]; intros n l Hn; cbn [ancestors_up]; case_bool_decide as Hp.
  1,3: intros [= <-]; split; [apply NoDup_singleton|by intros m ?%elem_of_nil].
  { done. }
  intros (parent & Hpar & (rest & Hrest & [= <-])%bind_Ok)%bind_Ok.
  pose proof (view_Node_id _ _ _ Hpar) as Hid. rewrite <-Hid in Hpar.
  assert (scale_rank (n_kind parent) < scale_rank (n_kind n))%nat as Hlt.
  { eapply parent_rank; [exact Ht|exact Hn|exact Hp|by rewrite <-Hid]. }
  destruct (IH parent rest Hpar Hrest) as [Hnd Hall].
  assert (∀ m, m ∈ parent :: rest → view_Node p (n_id m) = Ok m ∧ (scale_rank (n_kind m) < scale_rank (n_kind n))%nat) as Hup.
  { intros m [->|Hm]%elem_of_cons; [done|]. destruct (Hall m Hm). split; [done|lia]. }
  split; [|exact Hup]. rewrite fmap_cons. apply NoDup_cons. split; [|exact Hnd].
  intros (m & Heq & Hm)%list_elem_of_fmap. destruct (Hup m Hm) as [Hv Hr].
  rewrite <-Heq, Hn in Hv. injection Hv as ->. lia.
Qed.

(** ** The fold *)
Lemma started_type k : is_transition (lifecycleEvents Started k) = true.
Proof. by destruct k. Qed.

Definition same_life (o n : NodeRow) : Prop := nd_lifecycle n = nd_lifecycle o.

#[local] Instance same_life_preorder : PreOrder same_life.
Proof. split; [done|unfold same_life; intros ???; congruence]. Qed.

Lemma stamped_start req level target i n ev :
  stamped req (start_draft level target i n) ev →
  enum_parse (ev_type ev) = Some (lifecycleEvents Started (n_kind n)) ∧ ev_subject ev = n_id n
  ∧ ∃ t, decode (S := Transition) (ev_payload ev) = Ok t ∧ Transition_From t = enum_str Planned
       ∧ Transition_To t = enum_str InProgress ∧ Transition_Cascade t = negb (bool_decide (n_id n = target)).
Proof.
  intros (rule & _ & Ht & Hs & Hp & _). rewrite Ht, Hs, Hp. split_and!; [apply enum_parse_str|done|].
  destruct (decode_transition (enum_str Planned) (enum_str InProgress) (negb (bool_decide (n_id n = target)))
    level "") as (t & Hd & Hf & Hto & Hc). exists t. split_and!; [exact Hd|by rewrite Hf|by rewrite Hto|exact Hc].
Qed.

Lemma transition_applied c ev ty p p' :
  enum_parse (ev_type ev) = Some ty → is_transition ty = true → applyEvent c ev p = Ok p' →
  ∃ q, applyTransition c ev p = Ok q ∧ projectTransitionCandidates c ev q = Ok p'.
Proof.
  intros Hty Htr H. unfold applyEvent in H. rewrite Hty in H.
  destruct ty; try discriminate Htr; by apply bind_Ok in H.
Qed.

(** A transition leaves its subject in the state its payload names. *)
Lemma transition_effect c ev ty t (l : Lifecycle) p p' :
  enum_parse (ev_type ev) = Some ty → is_transition ty = true →
  decode (S := Transition) (ev_payload ev) = Ok t → Transition_To t = enum_str l → applyEvent c ev p = Ok p' →
  ∃ r, nodes p' !! ev_subject ev = Some r ∧ nd_lifecycle r = l.
Proof.
  intros Hty Htr Hd Hto Hap. destruct (transition_applied _ _ _ _ _ Hty Htr Hap) as (q & Hq & Hcand).
  apply transition_candidates_frame in Hcand. specialize (Hcand TNodes ltac:(done)). cbn in Hcand.
  rewrite Hcand. unfold applyTransition in Hq. rewrite Hd in Hq. cbn [mbind result_bind] in Hq. inv_ok.
  apply update1_Ok in Hq as (r & r' & Hr & _ & Hf & [_ Hput]%sql_set_Ok).
  apply (put_tget_eq _ TNodes) in Hput. cbn in Hput. rewrite Hput, lookup_insert_eq.
  eexists. split; [done|]. rewrite Hto in Hf. unfold check_enum in Hf. rewrite (enum_parse_str l) in Hf.
  by injection Hf as <-.
Qed.

(** One start event: its subject is in progress, every other node is as before. *)
Lemma start_event_effect req level target i n ev c p p' id o :
  stamped req (start_draft level target i n) ev → applyEvent c ev p = Ok p' →
  nodes p !! id = Some o →
  ∃ r, nodes p' !! id = Some r
    ∧ nd_lifecycle r = if bool_decide (id = n_id n) then InProgress else nd_lifecycle o.
Proof.
  intros Hst Hap Ho. destruct (stamped_start _ _ _ _ _ _ Hst) as (Hty & Hsub & t & Hd & Hfrom & Hto & _).
  case_bool_decide as Hid.
  - rewrite Hid, <-Hsub. exact (transition_effect _ _ _ t InProgress _ _ Hty (started_type _) Hd Hto Hap).
  - destruct (steps_evolve_at TNodes same_life c ev p p' id o) as (r & Hr & Hl); [|by apply applyEvent_steps|done|].
    { intros q x y (_ & _ & _ & _ & _ & _ & _ & _ & [?|(? & ? & Hk & _)]) _; [done|].
      destruct Hid. by rewrite Hk, Hsub. }
    exists r. by split.
Qed.

(** The whole cascade. *)
Lemma start_folded req level target ns k events log p new log' p' :
  folded req (imap (λ i, start_draft level target (k + i)) ns) events log p new log' p' →
  ∀ id o, nodes p !! id = Some o →
  ∃ r, nodes p' !! id = Some r
    ∧ nd_lifecycle r = if bool_decide (id ∈ n_id <$> ns) then InProgress else nd_lifecycle o.
Proof.
  revert k events log p new. induction ns as [|n ns IH]; intros k events log p new Hf id o Ho; cbn [imap] in Hf.
  { inversion Hf; subst. exists o. split; [done|]. rewrite bool_decide_eq_false_2; [done|]. by intros ?%elem_of_nil. }
  inversion Hf as [|? ? ? ? ? ev ? p1 ? ? Hst _ _ Hap Hr]; subst.
  destruct (start_event_effect _ _ _ _ _ _ _ _ _ _ _ Hst Hap Ho) as (r1 & Hr1 & Hl1).
  assert (imap ((λ i, start_draft level target (k + i)) ∘ S) ns
    = imap (λ i, start_draft level target (S k + i)) ns) as Hshift
    by (apply imap_ext; intros i m _; cbn; f_equal; lia).
  rewrite Hshift in Hr.
  destruct (IH _ _ _ _ _ Hr id r1 Hr1) as (r & Hr2 & Hl2). exists r. split; [done|]. rewrite Hl2, Hl1.
  rewrite fmap_cons. repeat case_bool_decide; set_solver.
Qed.

(** The [i]-th event of a commit comes from the [i]-th draft. *)
Lemma folded_lookup req ds events log p new log' p' i d :
  folded req ds events log p new log' p' → ds !! i = Some d →
  ∃ ev, new !! i = Some ev ∧ stamped req d ev ∧ caused (events ++ take i new) d ev.
Proof.
  intros H. revert i. induction H as [|d' ds events log p ev new p1 log' p' Hst Hc _ _ _ IH]; intros i Hi.
  { by rewrite lookup_nil in Hi. }
  destruct i as [|i]; cbn in Hi; [injection Hi as ->|].
  - exists ev. cbn. by rewrite app_nil_r.
  - destruct (IH i Hi) as (ev' & Hev & Hst' & Hc'). exists ev'. split_and!; [done..|].
    cbn. by rewrite <-app_assoc in Hc'.
Qed.

(** The event that started [n], and the one that caused it. *)
Definition started_by (evs : list Event) (target : string) (i : nat) (n : Node) : Prop :=
  ∃ ev cause t, evs !! i = Some ev ∧ evs !! pred i = Some cause
    ∧ ev_causation ev = ev_id cause ∧ ev_subject ev = n_id n
    ∧ enum_parse (ev_type ev) = Some (lifecycleEvents Started (n_kind n))
    ∧ decode (S := Transition) (ev_payload ev) = Ok t
    ∧ Transition_From t = enum_str Planned ∧ Transition_To t = enum_str InProgress
    ∧ (Transition_Cascade t = false ↔ n_id n = target).

Lemma start_events req level target ns log p new log' p' i n :
  folded req (imap (λ i, start_draft level target i) ns) [] log p new log' p' → ns !! i = Some n →
  started_by new target i n.
Proof.
  intros Hf Hi. destruct (folded_lookup _ _ _ _ _ _ _ _ i (start_draft level target i n) Hf) as (ev & Hev & Hst & Hc).
  { by rewrite list_lookup_imap, Hi. }
  destruct (stamped_start _ _ _ _ _ _ Hst) as (Hty & Hsub & t & Hd & Hfrom & Hto & Hcas).
  assert (∃ cause, new !! pred i = Some cause ∧ ev_causation ev = ev_id cause) as (cause & Hcause & Hcz).
  { unfold caused in Hc. cbn [app] in Hc. destruct i as [|i]; [exists ev; by destruct Hc|].
    destruct (take (S i) new) as [|origin rest] eqn:Et; [by destruct new|]. rewrite <-Et in Hc.
    destruct Hc as (e & He & Hcz & _). exists e. split; [|done].
    cbn [start_draft with_cause d_cause] in He. rewrite Nat2Z.id in He. cbn in He.
    rewrite lookup_take in He. by case_decide. }
  exists ev, cause, t. split_and!; [done..|]. rewrite Hcas, negb_false_iff. apply bool_decide_eq_true.
Qed.
