(* ===== verification/Seal.v ===== *)
(** The three verbs that can seal a Matter (src/internal/writesurface:
    lifecycle.go Finish, gate.go CloseGate and DismissGate, seal.go): the flag they
    return is computed from an overlay before the write; here it is related to the
    completion after it. *)
From stdpp Require Import relations.
From S2P Require Import Prelude GoStd Ulid Taxonomy Json Payloads Tables View Gates Project Store.
From S2P Require Import Steps Invariants Shape Replay Mint Reach Completion Cycle Content Command.
From S2P Require Import Resolve Config NodeVerbs WorkVerbs Effects Outcome Verbs VerbAtomic Cascade.

(** ** Which tables an event leaves alone *)
Definition only (ts : list tbl) (p p' : Proj) : Prop := ∀ t, t ∉ ts → tget t p' = tget t p.

Lemma only_trans ts us p q r : only ts p q → only us q r → only (ts ++ us) p r.
Proof.
  intros H1 H2 t Ht. rewrite elem_of_app in Ht. rewrite H2 by tauto. apply H1. tauto.
Qed.

Lemma only_mono ts us p q : ts ⊆ us → only ts p q → only us p q.
Proof. intros Hs H t Ht. apply H. by intros ?%Hs. Qed.

Lemma put_only c t k r p p' : put c t k r p = Ok p' → only [t] p p'.
Proof. intros H t' Ht. eapply put_tget_ne; [|exact H]. intros ->. apply Ht. by left. Qed.

Lemma insert_only c t k r p p' : sql_insert c t k r p = Ok p' → only [t] p p'.
Proof. intros (_ & _ & H)%sql_insert_Ok. by eapply put_only. Qed.

Lemma update1_only c t k g f p p' : update1 c t k g f p = Ok p' → only [t] p p'.
Proof. intros (? & ? & _ & _ & _ & [_ H]%sql_set_Ok)%update1_Ok. by eapply put_only. Qed.

Lemma outbox_only_only p p' : outbox_only p p' → only [TOutbox] p p'.
Proof. intros H t Ht. apply H. intros <-. apply Ht. by left. Qed.

Lemma update_all_only c t g f p p' : update_all c t g f p = Ok p' → only [t] p p'.
Proof. intros [H _]%update_all_get t' Ht. apply H. intros ->. apply Ht. by left. Qed.

Lemma transition_only c ev ty p p' :
  enum_parse (ev_type ev) = Some ty → is_transition ty = true → applyEvent c ev p = Ok p' →
  only [TNodes; TOutbox] p p'.
Proof.
  intros Hty Htr H. destruct (transition_applied _ _ _ _ _ Hty Htr H) as (q & Hq & Hc).
  apply transition_candidates_frame, outbox_only_only in Hc. unfold applyTransition in Hq. inv_ok.
  apply update1_only in Hq. exact (only_trans _ _ _ _ _ Hq Hc).
Qed.

(** A closure or a dismissal adds one row. *)
Definition gate_row (ev : Event) (gate : string) (p p' : Proj) : Prop :=
  only [TGateState; TOutbox] p p'
  ∧ ∃ r, gate_state p' = <[(ev_subject ev, gate) := r]> (gate_state p).

Lemma gate_row_intro c ev gate r p q p' :
  sql_insert c TGateState (ev_subject ev, gate) r p = Ok q → outbox_only q p' → gate_row ev gate p p'.
Proof.
  intros Hi Hc. split.
  - exact (only_trans _ _ _ _ _ (insert_only _ _ _ _ _ _ Hi) (outbox_only_only _ _ Hc)).
  - exists r. apply sql_insert_Ok in Hi as (_ & _ & Hi). apply (put_tget_eq _ TGateState) in Hi.
    specialize (Hc TGateState ltac:(done)). cbn in Hi, Hc. congruence.
Qed.

Lemma closed_row c ev g p p' :
  enum_parse (ev_type ev) = Some TypeGateClosed → decode (S := GateClosed) (ev_payload ev) = Ok g →
  applyEvent c ev p = Ok p' → gate_row ev (GateClosed_Gate g) p p'.
Proof.
  intros Hty Hg H. as_rule H Hty. apply bind_Ok in H as (q & Hq & Hc%gate_candidates_frame).
  unfold closeGate in Hq. rewrite Hg in Hq. cbn [mbind result_bind] in Hq. inv_ok_match. by eapply gate_row_intro.
Qed.

Lemma dismissed_row c ev g p p' :
  enum_parse (ev_type ev) = Some TypeGateDismissed → decodeStrict (S := GateDismissed) (ev_payload ev) = Ok g →
  applyEvent c ev p = Ok p' → gate_row ev (GateDismissed_Gate g) p p'.
Proof.
  intros Hty Hg H. as_rule H Hty. apply bind_Ok in H as (q & Hq & Hc%gate_candidates_frame).
  unfold dismissGate in Hq. rewrite Hg in Hq. cbn [mbind result_bind] in Hq. inv_ok_match. by eapply gate_row_intro.
Qed.

(** A sweep closes the Batch, and touches no table the gates read. *)
Lemma swept c ev p p' :
  enum_parse (ev_type ev) = Some TypeBatchSwept → applyEvent c ev p = Ok p' →
  only [TRoles; TDispatches; TRuns; TBatches] p p'
  ∧ (∃ b, batches p' !! ev_subject ev = Some b ∧ bt_state b = BatchClosedState)
  ∧ ∀ id b, id ≠ ev_subject ev → batches p' !! id = Some b → batches p !! id = Some b.
Proof.
  intros Hty H. as_rule H Hty. unfold sweepBatch in H. cbv zeta in H. inv_ok.
  repeat match goal with H : update_all _ _ _ _ _ = Ok _ |- _ => apply update_all_only in H end.
  pose proof (update1_only _ _ _ _ _ _ _ H) as Hb.
  apply update1_Ok in H as (b & b' & _ & _ & [= <-] & [_ Hput%(put_tget_eq _ TBatches)]%sql_set_Ok). cbn [tget] in Hput.
  split; [|split].
  - eapply only_mono; [|eapply only_trans; [eassumption|eapply only_trans; [eassumption|eapply only_trans; eassumption]]].
    done.
  - rewrite Hput, lookup_insert_eq. eexists. by split.
  - intros id b' Hne. rewrite Hput, lookup_insert_ne by done.
    assert (∀ t q q', t ≠ TBatches → only [t] q q' → batches q' = batches q) as Hsame.
    { intros t q q' Ht Hq. apply (Hq TBatches). intros ?%list_elem_of_singleton. congruence. }
    repeat match goal with H : only [?t] ?a ?q |- context [batches ?q] => rewrite (Hsame t a q ltac:(done) H) end.
    done.
Qed.

(** ** Nodes across a commit *)
Definition kept_node (o n : NodeRow) : Prop := stays_live o n ∧ same_place o n.

#[global] Instance kept_node_preorder : PreOrder kept_node.
Proof.
  split; [intros r; split; [by intros ?|reflexivity]|]. intros a b c [H1 H2] [H3 H4]. split; [intros H; by apply H3, H1|by trans b].
Qed.

Lemma folded_same_node req ds events log p new log' p' id n :
  Forall keeps_nodes ds → folded req ds events log p new log' p' → view_Node p id = Ok n →
  ∃ n', view_Node p' id = Ok n' ∧ same_node n n'.
Proof.
  intros HQ Hf (r & Hr & Hl & ->)%view_Node_Ok.
  edestruct (folded_evolve TNodes kept_node keeps_nodes) as (r' & Hr' & Hl' & Hp);
    [|exact HQ|exact Hf|exact Hr|].
  - intros d ev q k o n' Hd Hst Hc Hu. split; [|by eapply node_change_place].
    destruct Hc as (_ & _ & _ & _ & _ & _ & _ & [Ht|(_ & _ & Hrem & _)] & _); [by intros _|].
    by destruct (keeps_nodes_removal _ _ _ Hd Hst).
  - exists (scanNode id r'). split; [apply view_Node_Ok; eauto|]. destruct Hp as (H1 & H2 & H3 & H4 & _).
    unfold same_node. cbn. split_and!; congruence.
Qed.

(** ** The overlay and the commit *)
Section sealing.
Context (req : Request) (log log' evs : list Event) (p p' : Proj) (ds : list Draft).
Context (Hdb : db_ok log p) (Hdb' : db_ok log' p').
Context (Hkeep : Forall keeps_nodes ds) (Hf : folded req ds [] log p evs log' p').

Lemma node_id_nonempty q id n : checked q → view_Node q id = Ok n → id ≠ "".
Proof. intros Hq (r & Hr & _)%view_Node_Ok ->. by pose proof (Hq TNodes "" r Hr). Qed.

(** What the overlay promises of one node is what the store answers afterwards. *)
Lemma commit_predicted o n n' c :
  gate_declarations p' = gate_declarations p → gate_exemptions p' = gate_exemptions p →
  (∀ id gate, is_some (gate_state p' !! (id, gate)) = is_some (gate_state p !! (id, gate)) || closing o id gate) →
  view_Node p (n_id n) = Ok n → view_Node p' (n_id n) = Ok n' →
  (bool_decide (n_lifecycle n = Done) || bool_decide (FinishingNode o = n_id n) = bool_decide (n_lifecycle n' = Done)) →
  NodeCompletionWithOverlay log p n o = Ok c →
  ∃ c', view_NodeCompletion log' p' n' = Ok c' ∧ Sealed c' = Sealed c.
Proof using Hdb Hdb' Hkeep Hf.
  intros Hd He Hrows Hn Hn' Hdone Hc.
  destruct (folded_same_node _ _ _ _ _ _ _ _ _ _ Hkeep Hf Hn) as (m & Hm & Hsame).
  rewrite Hn' in Hm. injection Hm as <-.
  destruct (overlay_predicts log log' p p' o Hd He) with (n := n) (n' := n') (c := c) as (c' & ? & ? & _); try done.
  - intros id x Hx. by eapply folded_same_node.
  - apply (db_gates _ _ Hdb).
  - apply (db_gates _ _ Hdb').
  - eapply node_id_nonempty; [apply (sh_checked _ (db_shape _ _ Hdb))|exact Hn].
  - eauto.
Qed.
End sealing.

(** What the first draft of a sealing command does, as the overlay has it. *)
Definition overlaid (o : CompletionOverlay) (n : Node) (p q : Proj) : Prop :=
  gate_declarations q = gate_declarations p ∧ gate_exemptions q = gate_exemptions p
  ∧ (∀ id gate, is_some (gate_state q !! (id, gate)) = is_some (gate_state p !! (id, gate)) || closing o id gate)
  ∧ ∀ n', view_Node q (n_id n) = Ok n' →
      bool_decide (n_lifecycle n = Done) || bool_decide (FinishingNode o = n_id n) = bool_decide (n_lifecycle n' = Done).

Lemma overlaid_sweep o n p q p' :
  overlaid o n p q → only [TRoles; TDispatches; TRuns; TBatches] q p' → overlaid o n p p'.
Proof.
  intros (H1 & H2 & H3 & H4) Hs.
  pose proof (Hs TNodes ltac:(by apply (bool_decide_unpack _))) as En. pose proof (Hs TDecls ltac:(by apply (bool_decide_unpack _))) as Ed.
  pose proof (Hs TExempt ltac:(by apply (bool_decide_unpack _))) as Ee. pose proof (Hs TGateState ltac:(by apply (bool_decide_unpack _))) as Eg.
  cbn in En, Ed, Ee, Eg. unfold overlaid, view_Node, live_node. by rewrite En, Ed, Ee, Eg.
Qed.

Definition sweeps (p : Proj) (m : string) (d : Draft) (ds : list Draft) : Prop :=
  (ds = [d] ∧ ∀ id r, AnonymousBatchForMatter p m = Some (id, r) → bt_state r ≠ BatchLive)
  ∨ ∃ id r, AnonymousBatchForMatter p m = Some (id, r)
      ∧ ds = [d; draft TypeBatchSwept id MkBatchSweptPayload].

Lemma seal_drafts_Ok log p n o d ds b :
  seal_drafts log p n o d = Ok (ds, b) →
  ∃ c0 c, view_NodeCompletion log p n = Ok c0 ∧ NodeCompletionWithOverlay log p n o = Ok c
    ∧ b = negb (Sealed c0) && Sealed c
    ∧ (b = false ∧ ds = [d] ∨ b = true ∧ sweeps p (n_id n) d ds).
Proof.
  unfold seal_drafts. intros (c0 & H0 & (c & Hc & H)%bind_Ok)%bind_Ok. exists c0, c. cbv zeta in H.
  destruct (negb (Sealed c0) && Sealed c); injection H as <- <-; split_and!; [done..| |done|done|done|by left].
  right. split; [done|]. unfold sweeps, sealSweepDraft.
  destruct (AnonymousBatchForMatter p (n_id n)) as [[id r]|]; [|by left].
  case_bool_decide; [right; by eauto|left]. split; [done|]. by intros ? ? [= <- <-].
Qed.

Lemma anonymous_unique p m id r id' r' :
  unique p → AnonymousBatchForMatter p m = Some (id, r) →
  batches p !! id' = Some r' → bt_matter r' = Some m → id' = id ∧ r' = r.
Proof.
  intros Hu [Hid Hm]%(select_one_Some TBatches) Hid' Hm'. apply bool_decide_eq_true_1 in Hm. cbn [tget] in Hid.
  destruct (decide (id = id')) as [<-|Hne].
  { split; [done|]. assert (Some r' = Some r) as [= ->]; [exact (eq_trans (eq_sym Hid') Hid)|done]. }
  pose proof (Hu TBatches id id' r r' Hid Hid' Hne) as Hc. cbn [conflict] in Hc.
  apply orb_false_iff in Hc as [_ Hc]. rewrite Hm, Hm' in Hc.
  by rewrite (proj2 (opt_eqb_true (Some m) (Some m))) in Hc.
Qed.

Lemma sweeps_close req log p evs log' p' n o d ds :
  unique p → sweeps p (n_id n) d ds → folded req ds [] log p evs log' p' →
  (∀ ev q, stamped req d ev → applyEvent (MkCtx (log ++ [ev]) true) ev p = Ok q →
     overlaid o n p q ∧ batches q = batches p) →
  overlaid o n p p' ∧ (∀ id r, batches p' !! id = Some r → bt_matter r = Some (n_id n) →
    bt_state r = BatchClosedState).
Proof.
  intros Hu Hsw Hf Heff. destruct Hsw as [[-> Hnl]|(id & r & Ha & ->)].
  - apply folded_one in Hf as (ev & _ & _ & Hst & _ & Hap). destruct (Heff _ _ Hst Hap) as [Ho ->].
    split; [done|]. intros id r Hr Hm.
    destruct (AnonymousBatchForMatter p (n_id n)) as [[id' r']|] eqn:E.
    + destruct (anonymous_unique _ _ _ _ _ _ Hu E Hr Hm) as [-> ->]. specialize (Hnl _ _ eq_refl). by destruct (bt_state r').
    + pose proof (proj1 (select_one_None TBatches _ _) E id r Hr) as Hg.
      by apply bool_decide_eq_false_1 in Hg.
  - apply folded_two in Hf as (e1 & e2 & q & -> & Hst1 & Hst2 & Hap1 & Hap2).
    destruct (Heff _ _ Hst1 Hap1) as [Ho Hq]. destruct (stamped_draft _ _ _ _ _ Hst2) as (Hty & Hsub & _).
    destruct (swept _ _ _ _ Hty Hap2) as (Honly & (b & Hb & Hbs) & Hrest).
    split; [by eapply overlaid_sweep|]. intros id' r' Hr' Hm'.
    destruct (decide (id' = ev_subject e2)) as [->|Hne]; [congruence|].
    apply Hrest in Hr'; [|done]. rewrite Hq in Hr'.
    by destruct (anonymous_unique _ _ _ _ _ _ Hu Ha Hr' Hm') as [-> _].
Qed.

(** The flag is exact, and a Matter that became sealed has no live Batch of its own. *)
Lemma seal_outcome req log p evs log' p' n o d ds b :
  db_ok log p → view_Node p (n_id n) = Ok n → keeps_nodes d →
  (∀ ev q, stamped req d ev → applyEvent (MkCtx (log ++ [ev]) true) ev p = Ok q →
     overlaid o n p q ∧ batches q = batches p) →
  seal_drafts log p n o d = Ok (ds, b) → folded req ds [] log p evs log' p' →
  ∃ c0 c' n', view_NodeCompletion log p n = Ok c0 ∧ view_Node p' (n_id n) = Ok n'
    ∧ view_NodeCompletion log' p' n' = Ok c' ∧ b = negb (Sealed c0) && Sealed c'
    ∧ (b = true → ∀ id r, batches p' !! id = Some r → bt_matter r = Some (n_id n) → bt_state r = BatchClosedState).
Proof.
  intros Hdb Hn Hk Heff Hsd Hf. pose proof (folded_db _ _ _ _ _ _ _ _ Hf Hdb) as Hdb'.
  pose proof (sh_unique _ (db_shape _ _ Hdb)) as Hu.
  pose proof (seal_keeps _ _ _ _ _ _ _ Hsd Hk) as Hkeep.
  destruct (folded_live _ _ _ _ _ _ _ _ _ _ Hkeep Hf Hn) as [n' Hn'].
  destruct (seal_drafts_Ok _ _ _ _ _ _ _ Hsd) as (c0 & c & H0 & Hc & Hb & Hcases).
  assert (overlaid o n p p' ∧ (b = true → ∀ id r, batches p' !! id = Some r → bt_matter r = Some (n_id n) →
    bt_state r = BatchClosedState)) as [(Hd & He & Hrows & Hdone) Hclosed].
  { destruct Hcases as [[-> ->]|[_ Hsw]].
    2: { destruct (sweeps_close _ _ _ _ _ _ _ o _ _ Hu Hsw Hf Heff). by split. }
    apply folded_one in Hf as (ev & _ & _ & Hst & _ & Hap). split; [|done]. by eapply Heff. }
  destruct (commit_predicted _ _ _ _ _ _ _ Hdb Hdb' Hkeep Hf o n n' c) as (c' & Hc' & Hs); [done..| |done|].
  { by apply Hdone. }
  exists c0, c', n'. split_and!; [done..| |done]. by rewrite Hs.
Qed.

(** ** The three first drafts *)
Lemma finish_overlaid req n level reason ev c p q :
  stamped req (draft (lifecycleEvents Finished (n_kind n)) (n_id n)
    (MkTransition (enum_str InProgress) (enum_str Done) false level reason)) ev →
  applyEvent c ev p = Ok q → overlaid (MkOverlay (n_id n) "" "") n p q ∧ batches q = batches p.
Proof.
  intros Hst Hap. destruct (stamped_draft _ _ _ _ _ Hst) as (Hty & Hsub & Hpl & _).
  assert (is_transition (lifecycleEvents Finished (n_kind n)) = true) as Htr by (by destruct (n_kind n)).
  pose proof (transition_only _ _ _ _ _ Hty Htr Hap) as Honly.
  destruct (decode_transition (enum_str InProgress) (enum_str Done) false level reason) as (t & Hd & _ & Hto & _).
  rewrite <-Hpl in Hd.
  destruct (transition_effect _ _ _ _ Done _ _ Hty Htr Hd Hto Hap) as (r & Hr & Hl).
  split; [|apply (Honly TBatches); by apply (bool_decide_unpack _)]. split_and!.
  - apply (Honly TDecls). by apply (bool_decide_unpack _).
  - apply (Honly TExempt). by apply (bool_decide_unpack _).
  - intros id gate. assert (gate_state q = gate_state p) as ->
      by (apply (Honly TGateState); by apply (bool_decide_unpack _)).
    unfold closing. cbn [ClosingNode]. rewrite (bool_decide_true ("" = "")) by done. cbn [negb andb].
    by rewrite orb_false_r.
  - intros n' (r' & Hr' & _ & ->)%view_Node_Ok. rewrite <-Hsub, Hr in Hr'. injection Hr' as <-.
    cbn [FinishingNode scanNode n_lifecycle]. rewrite Hl, (bool_decide_true (n_id n = n_id n)),
      (bool_decide_true (Done = Done)) by done. apply orb_true_r.
Qed.

Lemma gate_overlaid ev gate n p q :
  checked p → view_Node p (n_id n) = Ok n → ev_subject ev = n_id n → gate ≠ "" → gate_row ev gate p q →
  overlaid (MkOverlay "" (n_id n) gate) n p q ∧ batches q = batches p.
Proof.
  intros Hchk Hn Hsub Hgate [Honly [row Hrow]]. pose proof (node_id_nonempty _ _ _ Hchk Hn) as Hid.
  split; [|apply (Honly TBatches); by apply (bool_decide_unpack _)]. split_and!.
  - apply (Honly TDecls). by apply (bool_decide_unpack _).
  - apply (Honly TExempt). by apply (bool_decide_unpack _).
  - intros id g. rewrite Hrow, Hsub. unfold closing. cbn [ClosingNode ClosingGate].
    rewrite !(bool_decide_false (_ = "")) by done. cbn [negb andb].
    destruct (decide ((n_id n, gate) = (id, g))) as [[= <- <-]|Hne].
    + rewrite lookup_insert_eq, !bool_decide_true by done. by rewrite orb_true_r.
    + rewrite lookup_insert_ne by done. rewrite <-bool_decide_and, bool_decide_false by naive_solver.
      by rewrite orb_false_r.
  - intros n' Hn'. assert (view_Node q (n_id n) = view_Node p (n_id n)) as E.
    { pose proof (Honly TNodes ltac:(by apply (bool_decide_unpack _))) as E. cbn in E.
      unfold view_Node, live_node. by rewrite E. }
    rewrite E, Hn in Hn'. injection Hn' as <-. cbn [FinishingNode].
    rewrite (bool_decide_false ("" = n_id n)) by done. apply orb_false_r.
Qed.

Lemma decode_gate_closed gate scale level :
  decode (pl_enc (MkGateClosed gate scale level))
  = Ok (MkGateClosed (utf8_coerce gate) (utf8_coerce scale) (utf8_coerce level)).
Proof. unfold pl_enc, GateClosed_payload; eval_decode; reflexivity. Qed.

Lemma decode_gate_dismissed gate scale reason level :
  decodeStrict (pl_enc (MkGateDismissed gate scale reason level))
  = Ok (MkGateDismissed (utf8_coerce gate) (utf8_coerce scale) (utf8_coerce reason) (utf8_coerce level)).
Proof. unfold pl_enc, GateDismissed_payload, decodeStrict; eval_decode; reflexivity. Qed.

Lemma close_overlaid req n gate scale level ev c p q :
  utf8_valid gate = true → checked p → view_Node p (n_id n) = Ok n →
  stamped req (draft TypeGateClosed (n_id n) (MkGateClosed gate scale level)) ev →
  applyEvent c ev p = Ok q → overlaid (MkOverlay "" (n_id n) gate) n p q ∧ batches q = batches p.
Proof.
  intros Hg Hchk Hn Hst Hap. destruct (stamped_draft _ _ _ _ _ Hst) as (Hty & Hsub & Hpl & _).
  pose proof (decode_gate_closed gate scale level) as Hd. rewrite <-Hpl in Hd.
  pose proof (closed_row _ _ _ _ _ Hty Hd Hap) as Hrow. cbn [GateClosed_Gate] in Hrow.
  rewrite (utf8_valid_true _ Hg) in Hrow, Hd. eapply gate_overlaid; try done.
  as_rule Hap Hty. apply bind_Ok in Hap as (q' & Hq & _). unfold closeGate in Hq. rewrite Hd in Hq.
  cbn [mbind result_bind GateClosed_Gate] in Hq. apply bind_Ok in Hq as (u & Hu & _). inv_ok. by inv_bool.
Qed.

Lemma dismiss_overlaid req n gate scale reason level ev c p q :
  utf8_valid gate = true → checked p → view_Node p (n_id n) = Ok n →
  stamped req (draft TypeGateDismissed (n_id n) (MkGateDismissed gate scale reason level)) ev →
  applyEvent c ev p = Ok q → overlaid (MkOverlay "" (n_id n) gate) n p q ∧ batches q = batches p.
Proof.
  intros Hg Hchk Hn Hst Hap. destruct (stamped_draft _ _ _ _ _ Hst) as (Hty & Hsub & Hpl & _).
  pose proof (decode_gate_dismissed gate scale reason level) as Hd. rewrite <-Hpl in Hd.
  pose proof (dismissed_row _ _ _ _ _ Hty Hd Hap) as Hrow. cbn [GateDismissed_Gate] in Hrow.
  rewrite (utf8_valid_true _ Hg) in Hrow, Hd. eapply gate_overlaid; try done.
  as_rule Hap Hty. apply bind_Ok in Hap as (q' & Hq & _). unfold dismissGate in Hq. rewrite Hd in Hq.
  cbn [mbind result_bind GateDismissed_Gate] in Hq. apply bind_Ok in Hq as (u & Hu & _). inv_ok. by inv_bool.
Qed.

(** ** The verbs *)
Inductive SealVerb :=
| SealFinish (actor : string) (env : Env) (locator : string)
| SealClose (actor : string) (env : Env) (gate locator : string)
| SealDismiss (actor : string) (env : Env) (gate locator reason : string).

Definition run_seal (w : World) (fuel : nat) (v : SealVerb) : cmd SealTransition :=
  match v with
  | SealFinish a e l => FinishWithEnvResult w fuel a e l
  | SealClose a e g l => closeGateEnv w fuel a e g l
  | SealDismiss a e g l x => dismissGateEnv w fuel a e g l x
  end.

(** The Repo and locator a sealing verb addresses, and the gate it names. *)
Definition seal_repo (v : SealVerb) : string :=
  match v with SealFinish _ e _ | SealClose _ e _ _ | SealDismiss _ e _ _ _ => env_repo e end.

Definition seal_locator (v : SealVerb) : string :=
  match v with SealFinish _ _ l | SealClose _ _ _ l | SealDismiss _ _ _ l _ => l end.

Definition seal_gate (v : SealVerb) : string :=
  match v with SealFinish _ _ _ => "" | SealClose _ _ g _ | SealDismiss _ _ g _ _ => g end.

(** What the returned flag says of the node and of its Batch. *)
Definition seal_report (s s' : Store) (n : Node) (r : SealTransition) : Prop :=
  view_Node (s_proj s') (n_id n) = Ok (st_node r)
  ∧ if bool_decide (n_kind n = ScaleMatter) then
      ∃ c0 c', view_NodeCompletion (s_log s) (s_proj s) n = Ok c0
        ∧ view_NodeCompletion (s_log s') (s_proj s') (st_node r) = Ok c'
        ∧ BecameSealed r = negb (Sealed c0) && Sealed c'
        ∧ (BecameSealed r = true → ∀ id b, batches (s_proj s') !! id = Some b →
             bt_matter b = Some (n_id n) → bt_state b = BatchClosedState)
    else BecameSealed r = false.

(** A commit of [seal_drafts], then the read-back. *)
Lemma seal_commit req s s' n o d ds b evs fresh :
  store_ok s → view_Node (s_proj s) (n_id n) = Ok n →
  seal_drafts (s_log s) (s_proj s) n o d = Ok (ds, b) →
  folded req ds [] (s_log s) (s_proj s) evs (s_log s') (s_proj s') →
  view_Node (s_proj s') (n_id n) = Ok fresh → keeps_nodes d →
  (∀ ev q, stamped req d ev → applyEvent (MkCtx (s_log s ++ [ev]) true) ev (s_proj s) = Ok q →
     overlaid o n (s_proj s) q ∧ batches q = batches (s_proj s)) →
  n_kind n = ScaleMatter → seal_report s s' n (MkSealTransition fresh b).
Proof.
  intros Hs Hn Hd Hf Hfresh Hk Heff Hm. split; [done|]. rewrite bool_decide_true by done.
  destruct (seal_outcome _ _ _ _ _ _ _ _ _ _ _ (st_db _ Hs) Hn Hk Heff Hd Hf)
    as (c0 & c' & n' & H0 & Hn' & Hc' & Hb & Hcl).
  rewrite Hfresh in Hn'. injection Hn' as <-. exists c0, c'. done.
Qed.

Lemma other_commit s s' n fresh :
  view_Node (s_proj s') (n_id n) = Ok fresh → n_kind n ≠ ScaleMatter →
  seal_report s s' n (MkSealTransition fresh false).
Proof. intros H Hk. split; [done|]. by rewrite bool_decide_false. Qed.

Lemma run_seal_report w fuel v s r s' :
  store_ok s → utf8_valid (seal_gate v) = true → run_seal w fuel v s = Some (Ok r, s') →
  ∃ n, ResolveNode (s_proj s) (seal_repo v) (seal_locator v) = Ok n ∧ seal_report s s' n r.
Proof.
  intros Hs Hg H. pose proof (sh_checked _ (db_shape _ _ (st_db _ Hs))) as Hchk.
  destruct v; cbn [run_seal seal_repo seal_locator seal_gate] in *;
    unfold FinishWithEnvResult, simpleTransitionEnvResult, closeGateEnv, dismissGateEnv in H; cbv zeta in H; inv_cmd.
  all: match goal with H : resolve _ _ _ _ = Ok ?n |- _ => exists n; split; [exact H|];
         pose proof (ResolveNode_live _ _ _ _ H) as Hn end.
  all: match goal with H : commit _ _ _ _ _ = Some (Ok ?x, _) |- _ =>
         destruct x as [evs b]; apply commit_folded in H as (ds & h & Hd & _ & Hf) end.
  all: inv_tx; cbn [snd];
    match goal with Hn : view_Node ?p (n_id ?n) = Ok ?n, H : node_of (n_id ?n) _ ?p = Ok ?f |- _ =>
      unfold node_of in H; rewrite Hn in H; injection H as <- end.
  all: unfold gate_drafts in *; cbn [action_is_finish andb] in *;
    match goal with H : (if bool_decide (n_kind ?n = ScaleMatter) then _ else _) _ _ _ = _ |- _ =>
      destruct (bool_decide (n_kind n = ScaleMatter)) eqn:Ek; apply bool_decide_eq_true_1 in Ek
        || apply bool_decide_eq_false_1 in Ek end; inv_tx; try by apply other_commit.
  - eapply seal_commit; [done..|eassumption|eassumption|done|apply lifecycle_keeps| |done].
    intros ev q. apply finish_overlaid.
  - eapply seal_commit; [done..|eassumption|eassumption|done|done| |done].
    intros ev q. by apply close_overlaid.
  - eapply seal_commit; [done..|eassumption|eassumption|done|done| |done].
    intros ev q. by apply dismiss_overlaid.
Qed.
