(* ===== verification/Archive.v ===== *)
(** The archive never shrinks: what every verb does to a sealed Matter.  A
    declaration exempts the nodes already sealed at its scale, so it opens no gate
    on them (store/config.go, DeclareGate and sealedNodesAtScale); a removal takes a
    Step; nothing leaves Done; gate rows and exemptions stay. *)
From stdpp Require Import relations.
From S2P Require Import Prelude GoStd Ulid Taxonomy Json Payloads Tables View Gates Project Store.
From S2P Require Import Steps Invariants Shape Replay Mint Reach Completion Cycle Content Command.
From S2P Require Import Resolve Config NodeVerbs WorkVerbs Effects Outcome Verbs VerbAtomic Cascade Seal.

(** A Matter the archived_matters view selects. *)
Definition archived (p : Proj) (id : string) : Prop :=
  ∃ r, nodes p !! id = Some r ∧ archived_row p id r = true.

Lemma archived_row_iff p id r :
  archived_row p id r = true ↔
    nd_kind r = ScaleMatter ∧ nd_lifecycle r = Done ∧ nd_tombstone r = None
    ∧ ∀ d, d ∈ GateDeclarations p (nd_repo r) → gd_scale d = ScaleMatter →
        is_Some (gate_state p !! (id, gd_gate d)) ∨ is_Some (gate_exemptions p !! (nd_repo r, gd_gate d, id)).
Proof.
  unfold archived_row. rewrite !andb_true_iff, !bool_decide_eq_true, node_live_true, forallb_forall.
  split.
  - intros [[[H1 H2] H3] H4]. split_and!; [done..|]. intros d Hd Hs. apply list_elem_of_In in Hd.
    specialize (H4 d Hd). rewrite (bool_decide_true (gd_scale d = ScaleMatter)) in H4 by done. cbn in H4.
    apply orb_true_iff in H4. by rewrite !is_some_true in H4.
  - intros (H1 & H2 & H3 & H4). split_and!; [done..|]. intros d Hd. apply list_elem_of_In in Hd.
    destruct (decide (gd_scale d = ScaleMatter)) as [Hs|Hs]; [|by rewrite bool_decide_false].
    specialize (H4 d Hd Hs). rewrite <-!is_some_true in H4. apply orb_true_iff.
    destruct H4; [left|by right]. apply orb_true_iff. by right.
Qed.

Lemma elem_of_declarations p repo d :
  d ∈ GateDeclarations p repo ↔ gd_repo d = repo ∧ gate_declarations p !! (repo, gd_gate d) = Some (gd_scale d).
Proof.
  unfold GateDeclarations. rewrite list_elem_of_fmap. split.
  - intros ([[r g] sc] & -> & Hin). apply (elem_of_select TDecls) in Hin as [Hk Hg]. cbn in *. inv_bool. by subst.
  - intros [Hr Hd]. destruct d as [r g sc]. cbn in *. subst. exists ((repo, g), sc). split; [done|].
    apply (elem_of_select TDecls). split; [done|]. cbn. by rewrite bool_decide_true.
Qed.

(** ** One event *)
Definition stays_done (o n : NodeRow) : Prop := nd_lifecycle o = Done → nd_lifecycle n = Done.

Definition archive_kept (o n : NodeRow) : Prop := kept_node o n ∧ stays_done o n.

#[local] Instance archive_kept_preorder : PreOrder archive_kept.
Proof.
  split; [intros r; split; [reflexivity|by intros ?]|].
  intros a b c [H1 H2] [H3 H4]. split; [by trans b|intros ?; by apply H4, H2].
Qed.

Lemma steps_decls c ev p p' :
  enum_parse (ev_type ev) ≠ Some TypeGateDeclared → steps c ev p p' → gate_declarations p' = gate_declarations p.
Proof.
  intros Hty. induction 1 as [p|p q r Hs _ IH]; [done|]. rewrite IH.
  by destruct (step_table _ _ _ _ TDecls Hs) as [?|k x _ _ _ _ _ Hb _|k x y _ _ _ _ _ [] _].
Qed.

(** The event neither declares a gate, nor moves anything out of Done, nor removes
    the Matter. *)
Definition spares (ev : Event) (id : string) : Prop :=
  enum_parse (ev_type ev) ≠ Some TypeGateDeclared
  ∧ (∀ ty t, enum_parse (ev_type ev) = Some ty → is_transition ty = true →
       decode (S := Transition) (ev_payload ev) = Ok t → Transition_From t ≠ enum_str Done)
  ∧ ¬ (removal ev ∧ id = ev_subject ev).

Lemma archived_row_mono p p' id r r' :
  archived_row p id r = true → archive_kept r r' → keys_in p p' →
  gate_declarations p' = gate_declarations p → archived_row p' id r' = true.
Proof.
  rewrite !archived_row_iff. intros (Hk & Hd & Ht & Hg) [[Hl Hp] Hdone] Hkeys Hdecl.
  destruct Hp as (Hkind & Hrepo & _). split_and!; [congruence|by apply Hdone|by apply Hl|].
  intros d Hin Hs. rewrite Hrepo in *. destruct (Hg d) as [?|?]; [|done|left|right].
  - apply elem_of_declarations in Hin. apply elem_of_declarations. by rewrite <-Hdecl.
  - by apply (Hkeys TGateState (id, gd_gate d)).
  - by apply (Hkeys TExempt (nd_repo r, gd_gate d, id)).
Qed.

Lemma archived_event c ev p p' id :
  applyEvent c ev p = Ok p' → spares ev id → archived p id → archived p' id.
Proof.
  intros Hs%applyEvent_steps (Hdecl & Hmove & Hrem) (r & Hr & Ha).
  destruct (steps_evolve_at TNodes archive_kept c ev p p' id r) as (r' & Hr' & Hk); [|exact Hs|exact Hr|].
  - intros q o n Hc Hu. split; [split; [|by eapply node_change_place]|];
      destruct Hc as (_ & _ & _ & _ & _ & _ & _ & Htb & Hlife).
    + destruct Htb as [?|(_ & _ & Hx & Hkey)]; [by intros _|]. by destruct Hrem.
    + intros Hd. destruct Hlife as [->|(ty & t & _ & Hty & Htr & Hdec & Hfrom & _)]; [done|].
      destruct (Hmove ty t Hty Htr Hdec). congruence.
  - exists r'. split; [done|]. eapply archived_row_mono; [exact Ha|exact Hk|by eapply steps_keys|by eapply steps_decls].
Qed.

(** ** Drafts that spare every Matter *)
Definition archive_draft (d : Draft) : Prop :=
  d_type d ≠ enum_str TypeGateDeclared ∧ keeps_nodes d ∧ follows_graph d.

Lemma not_from_done from to : lifecycle_edge from to → from ≠ Done.
Proof. by destruct 1. Qed.

Lemma follows_not_done req d ev ty t :
  follows_graph d → stamped req d ev → enum_parse (ev_type ev) = Some ty → is_transition ty = true →
  decode (S := Transition) (ev_payload ev) = Ok t → Transition_From t ≠ enum_str Done.
Proof.
  intros Hd (rule & _ & Ht & _ & Hp & _) Hty Htr Hdec. rewrite Ht in Hty.
  destruct (Hd ty Hty Htr) as (from & to & c & level & reason & He & Hpl). rewrite Hp, Hpl in Hdec.
  destruct (decode_transition (enum_str from) (enum_str to) c level reason) as (t' & Ht' & Hf' & _).
  rewrite Ht' in Hdec. injection Hdec as <-. rewrite Hf'.
  assert (utf8_coerce (enum_str from) = enum_str from) as -> by (by destruct from; vm_compute).
  intros E%enum_str_inj. by apply (not_from_done from to He).
Qed.

Lemma archive_draft_spares req d ev id : archive_draft d → stamped req d ev → spares ev id.
Proof.
  intros (Hg & Hk & Hd) Hst. split_and!.
  - intros E. destruct Hst as (rule & _ & Ht & _). rewrite Ht in E. by apply (enum_parse_Some (A := EType)) in E.
  - intros ty t. by eapply follows_not_done.
  - intros [Hr _]. by eapply keeps_nodes_removal.
Qed.

Lemma folded_archived req ds events log p new log' p' id :
  Forall archive_draft ds → folded req ds events log p new log' p' → archived p id → archived p' id.
Proof.
  intros Hds Hf. eapply (folded_ind_db (λ _ q, archived q id) archive_draft); [|exact Hds|exact Hf].
  intros d ev l q q' Hd Hst Hq _ Hap. eapply archived_event; [exact Hap|by eapply archive_draft_spares|exact Hq].
Qed.

Lemma verb_draft_archive d : verb_draft d → archive_draft d.
Proof. intros [Ht Hg]. split; [|split; [split|done]]; intros E; by apply Ht in E. Qed.

(** ** The special verbs *)

(** DependAdd writes one plain draft. *)
Lemma DependAdd_archive w fuel a r x y : Writes archive_draft (DependAdd w fuel a r x y).
Proof.
  unfold DependAdd. solve_writes ltac:(first [match goal with |- archive_draft (draft ?t _ _) =>
    split_and!; [done..|by apply (follows_graph_type _ t)] end]).
Qed.

(** A removal or replacement of another node. *)
Lemma archived_removal {S} `{Payload S} req t subject (x : S) ev c p p' id :
  stamped req (draft t subject x) ev → applyEvent c ev p = Ok p' → special_type t = true →
  t ≠ TypeGateDeclared → subject ≠ id → archived p id → archived p' id.
Proof.
  intros Hst Hap Ht Hg Hne. destruct (stamped_draft _ _ _ _ _ Hst) as (Hty & Hsub & _).
  apply (archived_event _ _ _ _ _ Hap). split_and!; [congruence| |].
  - intros ty d Hty' Htr _. rewrite Hty in Hty'. injection Hty' as <-. by destruct t.
  - intros [_ ->]. congruence.
Qed.

Lemma step_not_archived p id n :
  view_Node p (n_id n) = Ok n → n_kind n = ScaleStep → archived p id → n_id n ≠ id.
Proof.
  intros (r & Hr & _ & ->)%view_Node_Ok Hk (r' & Hr' & Ha) E. cbn in *. subst id. rewrite Hr in Hr'.
  injection Hr' as <-. apply archived_row_iff in Ha as [Hm _]. congruence.
Qed.

Lemma RemoveStep_archive w fuel a r l x s u s' id :
  RemoveStep w fuel a r l x s = Some (Ok u, s') → archived (s_proj s) id → archived (s_proj s') id.
Proof.
  intros H Ha. unfold RemoveStep in H. inv_cmd. inv_bool.
  match goal with H : commit _ _ _ _ _ = Some (Ok ?p, _) |- _ =>
    destruct p; apply commit_folded in H as (ds & h & Hd & _ & Hf) end.
  inv_tx. apply folded_one in Hf as (ev & _ & _ & Hst & _ & Hap).
  apply (archived_removal _ _ _ _ _ _ _ _ _ Hst Hap); [done|done| |exact Ha].
  eapply step_not_archived; [by eapply ResolveNode_live|done|exact Ha].
Qed.

Lemma ReplaceStep_archive w fuel a r l t s n s' id :
  ReplaceStep w fuel a r l t s = Some (Ok n, s') → archived (s_proj s) id → archived (s_proj s') id.
Proof.
  intros H Ha. unfold ReplaceStep in H. inv_cmd. inv_bool.
  match goal with H : commit _ _ _ _ _ = Some (Ok ?p, _) |- _ =>
    destruct p; apply commit_folded in H as (ds & h & Hd & _ & Hf) end.
  inv_tx. apply folded_one in Hf as (ev & _ & _ & Hst & _ & Hap).
  apply (archived_removal _ _ _ _ _ _ _ _ _ Hst Hap); [done|done| |exact Ha].
  eapply step_not_archived; [by eapply ResolveNode_live|done|exact Ha].
Qed.

(** ** The declaration *)
Lemma exempt_loop_rows c ev gate scale ns p p' :
  exempt_loop c ev gate scale ns p = Ok p' →
  only [TExempt] p p' ∧ (∀ k, is_Some (gate_exemptions p !! k) → is_Some (gate_exemptions p' !! k))
  ∧ ∀ id, id ∈ ns → is_Some (gate_exemptions p' !! (ev_repo ev, gate, id)).
Proof.
  revert p. induction ns as [|n ns IH]; intros p; cbn [exempt_loop].
  { intros [= <-]. split_and!; [by intros ??|done|by intros ? ?%elem_of_nil]. }
  intros H. inv_ok. match goal with H : sql_insert _ _ _ _ _ = Ok ?q |- _ => rename H into Hi; rename q into q0 end.
  destruct (IH _ H) as (Ho & Hk & Hrows). pose proof (sql_insert_get _ TExempt _ _ _ _ Hi) as Hg. split_and!.
  - intros t Ht. rewrite (Ho t Ht). by apply (insert_only _ _ _ _ _ _ Hi).
  - intros k Hs. apply Hk. apply sql_insert_Ok in Hi as (_ & _ & Hp). by apply (put_keeps _ _ _ _ _ _ TExempt k Hp).
  - intros id [->|Hid]%elem_of_cons; [|by apply Hrows]. apply Hk. eauto.
Qed.

Lemma sealed_ids_elem log p ns ids n c :
  sealed_ids log p ns = Ok ids → n ∈ ns → view_NodeCompletion log p n = Ok c → Sealed c = true → n_id n ∈ ids.
Proof.
  revert ids. induction ns as [|m ns IH]; intros ids; cbn [sealed_ids]; [by intros _ ?%elem_of_nil|].
  intros (cm & Hm & (rest & Hr & [= <-])%bind_Ok)%bind_Ok [->|Hn]%elem_of_cons Hc Hs.
  - rewrite Hc in Hm. injection Hm as <-. rewrite Hs. by left.
  - destruct (Sealed cm); [right|]; by apply IH.
Qed.

(** A sealed Matter of the Repo is in the snapshot. *)
Lemma archived_in_snapshot log p id r ids :
  gates_logged log p → shape_ok p → nodes p !! id = Some r → archived_row p id r = true →
  sealedNodesAtScale log p (nd_repo r) ScaleMatter = Ok ids → id ∈ ids.
Proof.
  intros Hg Hsh Hr Ha Hids. pose proof Ha as (Hk & Hd & Ht & _)%archived_row_iff.
  destruct (matter_sealed log p id r Hg Hsh Hr Hk Ht) as (c & Hc & Hs). rewrite Ha in Hs.
  apply (sealed_ids_elem log p (done_at_scale p (nd_repo r) ScaleMatter) ids (scanNode id r) c); [done| |done..].
  unfold done_at_scale, nodeList. apply list_elem_of_fmap. exists (id, r). split; [done|].
  apply (elem_of_select TNodes). split; [done|]. apply node_live_true in Ht.
  rewrite Ht, !bool_decide_true by done. done.
Qed.

Lemma mapM_str_coerce l :
  mapM_r str_elem ((λ s, JStr (utf8_coerce s)) <$> l) = Ok (utf8_coerce <$> l).
Proof. induction l as [|x l IH]; [done|]. rewrite !fmap_cons. cbn [mapM_r str_elem mbind result_bind]. by rewrite IH. Qed.

Lemma decode_gate_declared gate scale exempt :
  decodeStrict (pl_enc (MkGateDeclared gate scale exempt))
  = Ok (MkGateDeclared (utf8_coerce gate) (utf8_coerce scale) (utf8_coerce <$> exempt)).
Proof.
  unfold pl_enc, GateDeclared_payload, decodeStrict, jstrs_omit. json_cbn.
  destruct (bool_decide (exempt = [])) eqn:E; inv_bool; subst; eval_decode; [reflexivity|].
  rewrite mapM_str_coerce. reflexivity.
Qed.

Definition ids_shaped (p : Proj) : Prop := ∀ k, is_Some (nodes p !! k) → IsIdentityShaped k = true.

(** What a declaration writes: the declaration, fresh, and the exemptions. *)
Lemma gate_declared_effect req c ev p p' repo gate (sc : Scale) exempt :
  env_repo (rq_env req) = repo →
  stamped req (draft TypeGateDeclared repo (MkGateDeclared gate (enum_str sc) exempt)) ev →
  applyEvent c ev p = Ok p' →
  only [TDecls; TExempt] p p'
  ∧ gate_declarations p' = <[(repo, utf8_coerce gate) := sc]> (gate_declarations p)
  ∧ gate_declarations p !! (repo, utf8_coerce gate) = None
  ∧ (∀ k, is_Some (gate_exemptions p !! k) → is_Some (gate_exemptions p' !! k))
  ∧ ∀ id, id ∈ exempt → is_Some (gate_exemptions p' !! (repo, utf8_coerce gate, utf8_coerce id)).
Proof.
  intros Hrepo Hst Hap. pose proof (stamped_repo _ _ _ _ _ Hst eq_refl) as Hev. rewrite Hrepo in Hev.
  destruct (stamped_draft _ _ _ _ _ Hst) as (Hty & _ & Hpl & _). as_rule Hap Hty.
  unfold declareGateProjection in Hap. rewrite Hpl, decode_gate_declared in Hap.
  cbn [mbind result_bind GateDeclared_Gate GateDeclared_Scale GateDeclared_Exempt] in Hap.
  assert (utf8_coerce (enum_str sc) = enum_str sc) as Esc by (by destruct sc; vm_compute).
  rewrite Esc, (enum_parse_str sc) in Hap. cbn [from_option_err mbind result_bind] in Hap. inv_ok. rewrite Hev in *.
  match goal with H : sql_insert _ TDecls _ _ _ = Ok ?q |- _ => rename H into Hi; rename q into q0 end.
  destruct (exempt_loop_rows _ _ _ _ _ _ _ Hap) as (Ho & Hkeep & Hrows). rewrite Hev in Hrows.
  pose proof (insert_only _ _ _ _ _ _ Hi) as Ho0.
  apply sql_insert_Ok in Hi as (_ & Hfresh & Hi%(put_tget_eq _ TDecls)). cbn [tget] in Hi, Hfresh.
  pose proof (Ho TDecls ltac:(by apply (bool_decide_unpack _))) as Hd.
  pose proof (Ho0 TExempt ltac:(by apply (bool_decide_unpack _))) as Hx. cbn [tget] in Hd, Hx. split_and!.
  - exact (only_trans _ _ _ _ _ Ho0 Ho).
  - by rewrite Hd, Hi.
  - exact Hfresh.
  - intros k Hk. apply Hkeep. by rewrite Hx.
  - intros id Hid. apply Hrows. by apply list_elem_of_fmap_2.
Qed.

(** A declaration with the snapshot of the sealed nodes keeps them archived. *)
Lemma declared_archive req log p ev p' repo gate (sc : Scale) exempt id :
  gates_logged log p → shape_ok p → ids_shaped p → env_repo (rq_env req) = repo →
  sealedNodesAtScale log p repo sc = Ok exempt →
  stamped req (draft TypeGateDeclared repo (MkGateDeclared gate (enum_str sc) exempt)) ev →
  applyEvent (MkCtx (log ++ [ev]) true) ev p = Ok p' → archived p id → archived p' id.
Proof.
  intros Hg Hsh Hids Hrepo Hsnap Hst Hap (r & Hr & Ha).
  destruct (gate_declared_effect _ _ _ _ _ _ _ _ _ Hrepo Hst Hap) as (Honly & Hd & _ & Hkeep & Hrows).
  pose proof (Honly TNodes ltac:(by apply (bool_decide_unpack _))) as Hn.
  pose proof (Honly TGateState ltac:(by apply (bool_decide_unpack _))) as Hgs. cbn [tget] in Hn, Hgs.
  exists r. rewrite Hn. split; [done|]. pose proof Ha as (Hk & Hl & Ht & Hsat)%archived_row_iff.
  apply archived_row_iff. split_and!; [done..|]. intros d [Hdr Hdd]%elem_of_declarations Hscale.
  rewrite Hd in Hdd. rewrite Hgs. apply lookup_insert_Some in Hdd as [[Hkey Hsc]|[_ Hdd]].
  - injection Hkey as Hkr Hkg. right. rewrite <-Hkr, <-Hkg.
    rewrite <-(identity_utf8 id) by (apply Hids; by eexists). apply Hrows.
    rewrite Hsc, Hscale, Hkr in Hsnap. by eapply archived_in_snapshot.
  - destruct (Hsat d) as [?|?]; [by apply elem_of_declarations|done|by left|right; by apply Hkeep].
Qed.

Lemma store_DeclareGate_archive w fuel repo gate scale s u s' id :
  store_ok s → ids_shaped (s_proj s) → store_DeclareGate w fuel repo gate scale s = Some (Ok u, s') →
  archived (s_proj s) id → archived (s_proj s') id.
Proof.
  intros Hs Hids H Ha. unfold store_DeclareGate in H. inv_cmd.
  match goal with H : match ?x with _ => _ end _ = _ |- _ => destruct x as [d|] end.
  { case_bool_decide; inv_cmd; [done|]. unfold cfail in *. inv_cmd. discriminate. }
  inv_cmd. match goal with H : commit _ _ _ _ _ = Some (Ok ?p, _) |- _ =>
    destruct p; apply commit_folded in H as (ds & h & Hd & _ & Hf) end.
  inv_tx. apply folded_one in Hf as (ev & _ & _ & Hst & _ & Hap). inv_ok.
  match goal with H : enum_parse scale = Some ?sc |- _ => apply (enum_parse_Some (A := Scale)) in H as Esc end.
  subst scale. refine (declared_archive _ _ _ _ _ _ _ _ _ _ _ _ Hids eq_refl _ Hst Hap Ha);
    [apply (st_db _ Hs)..|eassumption].
Qed.
