(* ===== verification/GateOrder.v ===== *)
(** Gate-order monotonicity (src/internal/guards/gateorder.go): the list the double
    loop builds, the add-time check built on it, and the declarations of a store
    across a verb. *)
From stdpp Require Import relations.
From S2P Require Import Prelude GoStd Ulid Taxonomy Json Payloads Tables View Gates Project Store.
From S2P Require Import Steps Invariants Shape Replay Mint Reach Completion Cycle Content Command.
From S2P Require Import Resolve Config NodeVerbs WorkVerbs Effects Outcome Verbs VerbAtomic Slug Cascade Seal.
From S2P Require Import Archive.

(** ** The double loop *)
Lemma violates_irrefl a b : violates a b = true → a ≠ b.
Proof.
  unfold violates. intros H ->. destruct (gateOrder (gd_gate b)); [|done].
  apply andb_true_iff in H as [H _]. apply Nat.ltb_lt in H. lia.
Qed.

Lemma elem_of_later a i j ds v :
  v ∈ later_violations a i j ds ↔
    ∃ k b, ds !! k = Some b ∧ i ≠ (j + k)%nat ∧ violates a b = true ∧ v = MkViolation a b.
Proof.
  revert j. induction ds as [|b ds IH]; intros j; cbn [later_violations].
  { split; [by intros ?%elem_of_nil|]. intros (k & b & Hk & _). by rewrite lookup_nil in Hk. }
  assert (v ∈ later_violations a i (S j) ds ↔
    ∃ k b', ds !! k = Some b' ∧ i ≠ (j + S k)%nat ∧ violates a b' = true ∧ v = MkViolation a b') as IH'.
  { rewrite (IH (S j)). by split; intros (k & b' & ? & ? & ? & ?); exists k, b'; split_and!; (done || lia). }
  destruct (negb (i =? j)%nat && violates a b) eqn:E; [rewrite elem_of_cons|]; rewrite IH'; split.
  - apply andb_true_iff in E as [En Ev]. apply negb_true_iff, Nat.eqb_neq in En.
    intros [->|(k & b' & H)]; [exists 0%nat, b; split_and!; (done || cbn; lia)|exists (S k), b'; apply H].
  - intros ([|k] & b' & Hk & Hrest); cbn in Hk; [left|right; by exists k, b'].
    injection Hk as <-. apply Hrest.
  - intros (k & b' & H). exists (S k), b'. apply H.
  - intros ([|k] & b' & Hk & Hi & Hv & ->); cbn in Hk; [|exists k, b'; done]. injection Hk as <-. exfalso.
    rewrite Hv, andb_true_r in E. apply negb_false_iff, Nat.eqb_eq in E. lia.
Qed.

(** Every violating pair, and nothing else. *)
Lemma elem_of_Violations ds v :
  v ∈ Violations ds ↔ Earlier v ∈ ds ∧ Later v ∈ ds ∧ violates (Earlier v) (Later v) = true.
Proof.
  unfold Violations.
  assert (∀ as_ i, v ∈ violations_from i as_ ds ↔
    ∃ k a, as_ !! k = Some a ∧ v ∈ later_violations a (i + k) 0 ds) as Hfrom.
  { induction as_ as [|a as_ IH]; intros i; cbn [violations_from].
    { split; [by intros ?%elem_of_nil|]. intros (k & a & Hk & _). by rewrite lookup_nil in Hk. }
    rewrite elem_of_app, (IH (S i)). split.
    - intros [H|(k & a' & Hk & H)]; [exists 0%nat, a; by rewrite Nat.add_0_r|exists (S k), a'].
      by rewrite <-plus_n_Sm.
    - intros ([|k] & a' & Hk & H); cbn in Hk; [left; injection Hk as <-; by rewrite Nat.add_0_r in H|right].
      exists k, a'. by rewrite <-plus_n_Sm in H. }
  rewrite (Hfrom ds 0%nat). split.
  - intros (k & a & Hk & (k' & b & Hk' & _ & Hv & ->)%elem_of_later). cbn.
    split_and!; [by eapply list_elem_of_lookup_2..|done].
  - intros ((k & Hk)%list_elem_of_lookup & (k' & Hk')%list_elem_of_lookup & Hv).
    exists k, (Earlier v). split; [done|]. apply elem_of_later. exists k', (Later v). split_and!; [done| |done|by destruct v].
    intros E. cbn in E. subst k'. rewrite Hk in Hk'. injection Hk' as E. by apply violates_irrefl in Hv.
Qed.

(** A Repo's declarations respect the order. *)
Definition ordered (ds : list GateDeclaration) : Prop :=
  ∀ a b, a ∈ ds → b ∈ ds → violates a b = false.

Lemma Violations_nil ds : Violations ds = [] ↔ ordered ds.
Proof.
  split.
  - intros H a b Ha Hb. destruct (violates a b) eqn:E; [|done].
    assert (MkViolation a b ∈ Violations ds) as Hin by (by apply elem_of_Violations).
    rewrite H in Hin. by apply elem_of_nil in Hin.
  - intros H. destruct (Violations ds) as [|v vs] eqn:E; [done|].
    assert (v ∈ Violations ds) as (Ha & Hb & Hv)%elem_of_Violations by (rewrite E; by left).
    by rewrite H in Hv.
Qed.

(** The add-time check: a gate not yet declared fits exactly when it is in order
    with every declared one. *)
Lemma WouldViolate_None ds gate scale :
  ordered ds → Forall (λ d, gd_gate d ≠ gate) ds → WouldViolate ds gate scale = None →
  ordered (ds ++ [MkGateDeclaration "" gate scale]).
Proof.
  intros Ho Hnew H. unfold WouldViolate in H.
  assert (filter (λ d, gd_gate d ≠ gate) ds = ds) as Ef.
  { clear -Hnew. induction Hnew as [|d ds Hd _ IH]; [done|]. by rewrite filter_cons_True, IH. }
  rewrite Ef in H. apply Violations_nil.
  destruct (Violations (ds ++ [MkGateDeclaration "" gate scale])) as [|v vs] eqn:E; [done|]. exfalso.
  assert (v ∈ Violations (ds ++ [MkGateDeclaration "" gate scale])) as Hv by (rewrite E; by left).
  apply elem_of_Violations in Hv as (Ha & Hb & Hv). rewrite elem_of_app, list_elem_of_singleton in Ha, Hb.
  assert (gd_gate (Earlier v) = gate ∨ gd_gate (Later v) = gate) as Hg.
  { destruct Ha as [Ha|Ha]; [|left; by rewrite Ha]. destruct Hb as [Hb|Hb]; [|right; by rewrite Hb].
    by rewrite Ho in Hv. }
  destruct Hg as [Hg|Hg]; rewrite Hg in H; rewrite (bool_decide_true (gate = gate)) in H by done;
    [done|by destruct (bool_decide _)].
Qed.

(** ** Across a verb *)
Definition gates_ordered (p : Proj) : Prop := ∀ repo, ordered (GateDeclarations p repo).

Lemma gates_ordered_same p p' :
  gate_declarations p' = gate_declarations p → gates_ordered p → gates_ordered p'.
Proof.
  intros Hd Ho repo a b Ha Hb. apply (Ho repo); apply elem_of_declarations; rewrite <-Hd; by apply elem_of_declarations.
Qed.

Lemma violates_repo r r' g sc d :
  violates (MkGateDeclaration r g sc) d = violates (MkGateDeclaration r' g sc) d
  ∧ violates d (MkGateDeclaration r g sc) = violates d (MkGateDeclaration r' g sc).
Proof. done. Qed.

Lemma gates_ordered_insert p p' repo gate sc :
  gate_declarations p' = <[(repo, gate) := sc]> (gate_declarations p) →
  gate_declarations p !! (repo, gate) = None →
  WouldViolate (GateDeclarations p repo) gate sc = None → gates_ordered p → gates_ordered p'.
Proof.
  intros Hp Hfresh Hw Ho.
  assert (ordered (GateDeclarations p repo ++ [MkGateDeclaration "" gate sc])) as Hnew.
  { apply WouldViolate_None; [apply Ho| |done]. apply Forall_forall. intros d [_ Hd]%elem_of_declarations Hg.
    congruence. }
  assert (∀ r d, d ∈ GateDeclarations p' r → d ∈ GateDeclarations p r ∨ (r = repo ∧ d = MkGateDeclaration repo gate sc))
    as Hcase.
  { intros r d [Hr Hd]%elem_of_declarations. rewrite Hp in Hd.
    apply lookup_insert_Some in Hd as [[[= Hr1 Hg1] Hs1]|[_ Hd]]; [right; by destruct d; cbn in *; subst|left].
    by apply elem_of_declarations. }
  assert (∀ d, d ∈ GateDeclarations p repo → violates d (MkGateDeclaration repo gate sc) = false
    ∧ violates (MkGateDeclaration repo gate sc) d = false) as Hpair.
  { intros d Hd. destruct (violates_repo repo "" gate sc d) as [-> ->].
    split; apply Hnew; rewrite elem_of_app, ?list_elem_of_singleton; auto. }
  intros r a b Ha Hb. destruct (Hcase r a Ha) as [Ha'|[-> ->]], (Hcase _ b Hb) as [Hb'|[? ->]]; subst.
  - by apply (Ho r).
  - by apply Hpair.
  - by apply Hpair.
  - unfold violates. cbn [gd_gate gd_scale]. destruct (gateOrder gate); [|done]. by rewrite Nat.ltb_irrefl.
Qed.

(** ** Names that are not UTF-8

    The check sees the name as it was given, the fold the name as JSON carries it.  A
    name that JSON changes becomes one with a replacement character in it, which no
    ranked gate has. *)
Lemma coerce_bytes_bound fuel bs :
  Forall (λ b, 0 <= b < 256)%Z bs → Forall (λ b, 0 <= b < 256)%Z (coerce_bytes fuel bs).
Proof.
  revert bs. induction fuel as [|fuel IH]; intros bs H; cbn [coerce_bytes]; [done|].
  destruct bs as [|b bs]; [done|]. destruct (rune_len (b :: bs)) as [|n]; apply Forall_app; split.
  - repeat constructor; lia.
  - apply IH. by apply Forall_cons in H as [_ H].
  - by apply Forall_take.
  - by apply IH, Forall_drop.
Qed.

Lemma coerced_ascii fuel bs :
  (length bs < fuel)%nat → Forall (λ b, b < 128)%Z (coerce_bytes fuel bs) → coerce_bytes fuel bs = bs.
Proof.
  revert bs. induction fuel as [|fuel IH]; intros bs Hl H; [lia|]. destruct bs as [|b bs]; [done|].
  cbn [coerce_bytes] in *. destruct (rune_len (b :: bs)) as [|n] eqn:E.
  - apply Forall_app in H as [H _]. apply Forall_cons in H as [H _]. lia.
  - assert (Hb : (b <? 0x80)%Z = true).
    { apply Z.ltb_lt. apply Forall_app in H as [H _]. cbn [take] in H. by apply Forall_cons in H as [H _]. }
    unfold rune_len in E. rewrite Hb in E. injection E as <-. cbn [take drop app] in *. f_equal.
    apply IH; [cbn in Hl; lia|]. by apply Forall_cons in H as [_ H].
Qed.

Lemma gateOrder_ascii gate i : gateOrder gate = Some i → Forall (λ b, b < 128)%Z (bytes_of gate).
Proof.
  unfold gateOrder. intros H. repeat case_bool_decide; [subst; repeat constructor..|discriminate].
Qed.

Lemma gateOrder_coerce gate i : gateOrder (utf8_coerce gate) = Some i → utf8_coerce gate = gate.
Proof.
  intros H. apply gateOrder_ascii in H. unfold utf8_coerce in *.
  rewrite bytes_string in H by (apply coerce_bytes_bound, bytes_of_bound).
  rewrite (coerced_ascii (S (String.length gate)) (bytes_of gate)); [apply string_bytes|rewrite bytes_of_length; lia|done].
Qed.

(** A gate outside the order violates nothing. *)
Lemma gates_ordered_unranked p p' repo gate sc :
  gate_declarations p' = <[(repo, gate) := sc]> (gate_declarations p) → gateOrder gate = None →
  gates_ordered p → gates_ordered p'.
Proof.
  intros Hp Hg Ho r a b Ha Hb. destruct (decide (gd_gate a = gate)) as [Ea|Ea]; [unfold violates; by rewrite Ea, Hg|].
  destruct (decide (gd_gate b = gate)) as [Eb|Eb].
  { unfold violates. rewrite Eb, Hg. by destruct (gateOrder (gd_gate a)). }
  assert (Hold : ∀ d, gd_gate d ≠ gate → d ∈ GateDeclarations p' r → d ∈ GateDeclarations p r).
  { intros d Hd [Hr Hl]%elem_of_declarations. apply elem_of_declarations. split; [done|].
    rewrite Hp, lookup_insert_ne in Hl by congruence. done. }
  apply (Ho r); by apply Hold.
Qed.

Lemma DeclareGate_ordered w fuel repo gate scale s u s' :
  DeclareGate w fuel repo gate scale s = Some (Ok u, s') →
  gates_ordered (s_proj s) → gates_ordered (s_proj s').
Proof.
  intros H Ho. unfold DeclareGate, store_DeclareGate in H. inv_cmd.
  match goal with H : match ?x with _ => _ end _ = _ |- _ => destruct x as [d|] eqn:Efind end.
  { case_bool_decide; inv_cmd; [done|]. unfold cfail in *. inv_cmd. discriminate. }
  inv_cmd. match goal with H : commit _ _ _ _ _ = Some (Ok ?p, _) |- _ =>
    destruct p; apply commit_folded in H as (ds & h & Hd & _ & Hf) end.
  inv_tx. apply folded_one in Hf as (ev & _ & _ & Hst & _ & Hap). inv_ok.
  match goal with H : enum_parse scale = Some ?sc, H' : enum_parse scale = Some ?sc' |- _ =>
    rewrite H in H'; injection H' as <-; apply (enum_parse_Some (A := Scale)) in H as Esc end. subst scale.
  destruct (gate_declared_effect _ _ _ _ _ _ _ _ _ eq_refl Hst Hap) as (_ & Hd & Hn & _).
  destruct (gateOrder (utf8_coerce gate)) as [i|] eqn:Eg; [|by eapply gates_ordered_unranked].
  rewrite (gateOrder_coerce _ _ Eg) in Hd, Hn. eapply gates_ordered_insert; [exact Hd|exact Hn| |exact Ho].
  match goal with H : negb (is_some (WouldViolate _ _ _)) = true |- _ => apply negb_true_iff, is_some_false in H; exact H end.
Qed.
