(* ===== verification/Removal.v ===== *)
(** Only Steps are ever removed.  The fold would tombstone any node a step.removed
    event names; the verbs name Steps alone (amendment.go, RemoveStep and
    ReplaceStep), so every live node keeps a live parent, which is what the reads
    that climb the tree rely on. *)
From stdpp Require Import relations.
From S2P Require Import Prelude GoStd Ulid Taxonomy Json Payloads Tables View Gates Project Store.
From S2P Require Import Steps Invariants Shape Replay Mint Reach Completion Content Command.
From S2P Require Import Resolve Config NodeVerbs WorkVerbs Effects Outcome Verbs VerbAtomic.

#[local] Opaque applyEvent appendEvent stamp Commit.

Definition only_steps_removed (p : Proj) : Prop :=
  ∀ k r, nodes p !! k = Some r → nd_tombstone r ≠ None → nd_kind r = ScaleStep.

(** A removal whose subject is a Step keeps it, and so does any other event. *)
Lemma event_removes c ev p p' :
  applyEvent c ev p = Ok p' →
  (removal ev → ∃ r, nodes p !! ev_subject ev = Some r ∧ nd_kind r = ScaleStep) →
  only_steps_removed p → only_steps_removed p'.
Proof.
  intros H%applyEvent_steps Hsub Ho.
  assert (only_steps_removed p' ∧ (removal ev → ∃ r, nodes p' !! ev_subject ev = Some r ∧ nd_kind r = ScaleStep))
    as [? _]; [|done].
  refine (steps_stable c ev (λ p, only_steps_removed p
    ∧ (removal ev → ∃ r, nodes p !! ev_subject ev = Some r ∧ nd_kind r = ScaleStep)) p p' _ H (conj Ho Hsub)).
  clear. intros p q Hs [Ho Hsub].
  destruct (step_table _ _ _ _ TNodes Hs) as [He|k r Hk He _ _ _ Hb _|k o n Hk He _ _ _ Hc _];
    cbn [tget] in *; unfold only_steps_removed; rewrite He; [by split|..].
  - split.
    + intros k' r' [[<- <-]|[_ Hk']]%lookup_insert_Some Ht; [|by eapply Ho].
      destruct Hb as (_ & Hb & _). by rewrite Hb in Ht.
    + intros Hr. destruct (Hsub Hr) as (r' & Hr' & ?). exists r'. split; [|done].
      apply lookup_insert_Some. right. split; [|done]. intros E. subst k. by pose proof (eq_trans (eq_sym Hk) Hr').
  - destruct Hc as (Hlive & Hkind & _ & _ & _ & _ & _ & Htb & _). split.
    + intros k' r' [[<- <-]|[_ Hk']]%lookup_insert_Some Ht; [|by eapply Ho]. rewrite Hkind.
      destruct Htb as [?|(_ & _ & Hr & ->)]; [done|]. destruct (Hsub Hr) as (r' & Hr' & ?).
      pose proof (eq_trans (eq_sym Hk) Hr') as E. by injection E as ->.
    + intros Hr. destruct (Hsub Hr) as (r' & Hr' & Hk'). destruct (decide (k = ev_subject ev)) as [->|Hne].
      * exists n. rewrite lookup_insert_eq. split; [done|]. pose proof (eq_trans (eq_sym Hk) Hr') as E.
        injection E as ->. by rewrite Hkind.
      * exists r'. by rewrite lookup_insert_ne by done.
Qed.

Definition spare_draft (d : Draft) : Prop :=
  d_type d ≠ enum_str TypeStepRemoved ∧ d_type d ≠ enum_str TypeStepReplaced.

Lemma folded_removes req ds events log p new log' p' :
  Forall spare_draft ds → folded req ds events log p new log' p' → only_steps_removed p → only_steps_removed p'.
Proof.
  intros Hds Hf. eapply (folded_ind_db (λ _ p, only_steps_removed p) spare_draft); [|exact Hds|exact Hf].
  intros d ev l q q' (Hrem & Hrep) (rule & _ & Ht & _) Hq _ Hap. eapply event_removes; [exact Hap| |exact Hq].
  intros (ty & Hty & Hor). rewrite Ht in Hty. apply (enum_parse_Some (A := EType)) in Hty.
  destruct Hor; subst ty; [by destruct Hrem|by destruct Hrep].
Qed.

(** The two verbs that remove. *)
Lemma removal_folded {S} `{Payload S} req t (n : Node) (x : S) s ev s' :
  view_Node (s_proj s) (n_id n) = Ok n → n_kind n = ScaleStep →
  stamped req (draft t (n_id n) x) ev → applyEvent (MkCtx (s_log s ++ [ev]) true) ev (s_proj s) = Ok (s_proj s') →
  only_steps_removed (s_proj s) → only_steps_removed (s_proj s').
Proof.
  intros (r & Hr & _ & En)%view_Node_Ok Hk Hst Hap. destruct (stamped_draft _ _ _ _ _ Hst) as (_ & Hsub & _).
  apply (event_removes _ _ _ _ Hap). intros _. exists r. rewrite Hsub. split; [done|]. by rewrite En in Hk.
Qed.

Definition spare_verb (v : Verb) : bool :=
  match v with VRemoveStep _ _ _ _ | VReplaceStep _ _ _ _ => false | _ => true end.

Lemma verb_spare_writes w fuel v : spare_verb v = true → Writes spare_draft (run_verb w fuel v).
Proof.
  intros Hv. destruct (plain_verb v) eqn:Hp.
  - eapply writes_mono; [|by apply verb_writes]. intros d [Hd _]. split; intros E; by apply Hd in E.
  - destruct v; try discriminate Hv; try discriminate Hp; cbn [run_verb];
      unfold DependAdd, DeclareGate, store_DeclareGate;
      solve_writes ltac:(first [match goal with |- spare_draft _ => by split end]).
Qed.

Lemma verb_removes w fuel v s r s' :
  world_ok w → store_ok s → run_verb w fuel v s = Some (r, s') →
  only_steps_removed (s_proj s) → only_steps_removed (s_proj s').
Proof.
  intros Hw Hok H Ho. destruct r as [u|e]; [|by destruct (verb_atomic w fuel s v Hw Hok e s' H) as [_ ->]].
  destruct (spare_verb v) eqn:Hv.
  - apply verb_spare_writes in H; [|done]. clear Hok.
    induction H as [s|s s1 s2 Hst _ IH]; [done|]. apply IH.
    destruct Hst as [[_ ->]|(req & ds & new & Hds & Hf)]; [done|]. by eapply folded_removes.
  - destruct v; try discriminate Hv; cbn [run_verb] in H; unfold RemoveStep, ReplaceStep in H; inv_cmd; inv_bool;
      match goal with H : commit _ _ _ _ _ = Some (Ok ?p, _) |- _ =>
        destruct p; apply commit_folded in H as (ds & h & Hd & _ & Hf) end;
      inv_tx; apply folded_one in Hf as (ev & _ & _ & Hst & _ & Hap);
      (refine (removal_folded _ _ _ _ _ _ _ _ _ Hst Hap Ho); [eapply ResolveNode_live; eassumption|assumption]).
Qed.
