(* ===== verification/ReadFacts.v ===== *)
(** Facts about the reads: on a store the fold built, in which only Steps were
    removed, the climbs to the root and the evaluator never fail, and the frontier
    and the collapsed listings are what their definitions say. *)
From stdpp Require Import relations.
From S2P Require Import Prelude GoStd Ulid Taxonomy Json Payloads Tables View Gates Project Store.
From S2P Require Import Steps Invariants Shape Mint Reach Cycle Completion NodeVerbs ReadSurface Removal.

(** ** Listings *)
Lemma elem_of_nodeList p guard leb n :
  n ∈ nodeList p guard leb ↔
  ∃ r, nodes p !! n_id n = Some r ∧ guard r = true ∧ nd_tombstone r = None ∧ n = scanNode (n_id n) r.
Proof.
  unfold nodeList. rewrite list_elem_of_fmap. split.
  - intros ([id r] & -> & Hin). apply (elem_of_select TNodes) in Hin as [Hr Hg]. inv_bool.
    exists r. split_and!; try done. by apply node_live_true.
  - intros (r & Hr & Hg & Ht & ->). exists (n_id n, r). split; [done|]. apply (elem_of_select TNodes).
    split; [done|]. by rewrite Hg, (proj2 (node_live_true r) Ht).
Qed.

Lemma nodeList_NoDup p guard leb : NoDup (n_id <$> nodeList p guard leb).
Proof.
  unfold nodeList, select. rewrite <-list_fmap_compose. apply (NoDup_fmap_2_strong _).
  - intros [k r] [k' r'] H1 H2 E. cbn in E. subst k'.
    rewrite !elem_of_order_by, !list_elem_of_filter, !elem_of_map_to_list in *.
    pose proof (eq_trans (eq_sym (proj2 H1)) (proj2 H2)) as E. by injection E as ->.
  - rewrite order_by_perm. apply NoDup_filter, NoDup_map_to_list.
Qed.

Lemma elem_of_lifecycle p l n : n ∈ by_lifecycle p l ↔ view_Node p (n_id n) = Ok n ∧ n_lifecycle n = l.
Proof.
  unfold by_lifecycle. rewrite elem_of_nodeList, view_Node_Ok. split.
  - intros (r & Hr & Hg & Ht & E). inv_bool. split; [eauto|]. by rewrite E.
  - intros [(r & Hr & Ht & E) Hl]. exists r. split_and!; try done. rewrite E in Hl. by apply bool_decide_eq_true.
Qed.

Lemma elem_of_Children p parent n :
  n ∈ Children p parent ↔ ∃ r, nodes p !! n_id n = Some r ∧ nd_parent r = Some parent ∧ nd_tombstone r = None
    ∧ n = scanNode (n_id n) r.
Proof.
  unfold Children. rewrite elem_of_nodeList. by setoid_rewrite bool_decide_eq_true.
Qed.

Lemma elem_of_BlockedBy p x e :
  e ∈ BlockedBy p x → waits (liveEdgeGraph p) x (e_blocker e).
Proof.
  unfold BlockedBy, edgeList. intros ([k r] & -> & Hin)%list_elem_of_fmap.
  apply (elem_of_select TEdges) in Hin as [Hr Hg]. inv_bool. apply waits_live. eauto 6.
Qed.

Lemma waits_BlockedBy p x y : waits (liveEdgeGraph p) x y → ∃ e, e ∈ BlockedBy p x ∧ e_blocker e = y.
Proof.
  intros (k & r & Hr & Hf & <- & <-)%waits_live. exists (MkEdge k (eg_blocked r) (eg_blocker r)).
  split; [|done]. unfold BlockedBy, edgeList. apply list_elem_of_fmap. exists (k, r). split; [done|].
  apply (elem_of_select TEdges). split; [done|]. by rewrite Hf, bool_decide_true.
Qed.

Lemma waits_ends p x y : waits (liveEdgeGraph p) x y → ∃ n m, view_Node p x = Ok n ∧ view_Node p y = Ok m.
Proof.
  intros (k & r & _ & Hf & <- & <-)%waits_live. unfold in_force in Hf. inv_bool.
  unfold view_Node. destruct (live_node p (eg_blocked r)), (live_node p (eg_blocker r)); try done. eauto.
Qed.

(** Distinct keys come out of a sort strictly ascending, whatever order they went in. *)
Lemma order_by_strict {A} (f : A → string) l :
  NoDup (f <$> l) → StronglySorted slt (f <$> order_by (λ a b, String.leb (f a) (f b)) l).
Proof.
  intros Hnd. set (leb := λ a b, String.leb (f a) (f b)).
  assert (Sorted (λ a b, leb a b = true) (order_by leb l)) as Hs.
  { apply order_by_sorted.
    - intros a b. destruct (total String.le (f a) (f b)) as [Hle|Hle]; [left|right]; by apply Is_true_eq_true.
    - intros a b c Hab Hbc. apply Is_true_eq_true. change (String.le (f a) (f c)).
      trans (f b); by apply Is_true_eq_left. }
  assert (NoDup (f <$> order_by leb l)) as Hnd' by (by rewrite order_by_perm).
  apply Sorted_StronglySorted; [intros a b c; apply slt_trans|].
  induction Hs as [|x l' _ IH Hd]; [constructor|]. rewrite fmap_cons in *. apply NoDup_cons in Hnd' as [Hx Hnd'].
  constructor; [by apply IH|]. destruct Hd as [|y l'' Hxy]; rewrite ?fmap_cons in *; constructor.
  apply slt_le. split; [by apply Is_true_eq_left|]. intros E. apply Hx. rewrite E. by left.
Qed.

(** One step and many steps towards the root. *)
Definition parent_of (p : Proj) (x y : string) : Prop := ∃ n, view_Node p x = Ok n ∧ n_parent n = y ∧ y ≠ "".

Definition above (p : Proj) : relation string := tc (parent_of p).

Lemma above_parent p n y :
  view_Node p (n_id n) = Ok n →
  above p (n_id n) y ↔ n_parent n ≠ "" ∧ (y = n_parent n ∨ above p (n_parent n) y).
Proof.
  intros Hn. split.
  - intros H. remember (n_id n) as x eqn:Ex. destruct H as [x y (n' & Hn' & <- & Hy)|x z y (n' & Hn' & <- & Hz) H];
      rewrite Hn in Hn'; injection Hn' as <-; auto.
  - intros [Hp [->|H]]; [apply tc_once|eapply tc_l; [|exact H]]; exists n; done.
Qed.

(** Induction along a finite relation without cycles. *)
Lemma acyclic_ind (R : relation string) (X : gset string) (P : string → Prop) :
  acyclic R → (∀ x y, R x y → y ∈ X) → (∀ x, (∀ y, R x y → P y) → P x) → ∀ x, P x.
Proof.
  intros Hac HX HP.
  assert (∀ k V x, (size (X ∖ V) ≤ k)%nat → x ∈ X → (∀ v, v ∈ V → tc R v x) → P x) as Hall.
  { induction k as [|k IH]; intros V x Hk Hx HV; assert (x ∈ X ∖ V) as Hin
      by (apply elem_of_difference; split; [done|intros Hv; by eapply Hac, HV]).
    - assert (size (X ∖ V) ≠ O) by (apply size_non_empty_iff; set_solver). lia.
    - apply HP. intros y Hxy. apply (IH (V ∪ {[x]})); [|by eapply HX|].
      + assert (X ∖ (V ∪ {[x]}) ⊂ X ∖ V) as Hsub by set_solver.
        apply subset_size in Hsub. lia.
      + intros v [Hv| ->%elem_of_singleton]%elem_of_union; [|by apply tc_once]. eapply tc_r; [by apply HV|done]. }
  intros x. apply HP. intros y Hxy. apply (Hall (size X) ∅ y); [apply subseteq_size; set_solver|by eapply HX|set_solver].
Qed.

Lemma scale_depth n : (scale_rank (n_kind n) ≤ S tree_depth)%nat.
Proof. destruct (n_kind n); cbn; unfold tree_depth; lia. Qed.

Section reads.
Context (log : list Event) (p : Proj) (Hdb : db_ok log p) (Hst : only_steps_removed p).

#[local] Set Default Proof Using "All".
Let Htree : tree_ok p := sh_tree p (db_shape _ _ Hdb).

(** ** Climbing *)
Lemma parent_live id n :
  view_Node p id = Ok n → n_parent n ≠ "" →
  ∃ m, view_Node p (n_parent n) = Ok m ∧ n_matter m = n_matter n
    ∧ (scale_rank (n_kind m) < scale_rank (n_kind n))%nat.
Proof.
  intros Hn Hp. pose proof Hn as (r & Hr & _ & ->)%view_Node_Ok. cbn in Hp |- *.
  pose proof (Htree id r Hr) as Ht. unfold node_ok in Ht. destruct (nd_parent r) as [pk|] eqn:Epk; [|done].
  destruct Ht as (pr & Hpr & Hm & Hb). cbn. exists (scanNode pk pr).
  assert (view_Node p pk = Ok (scanNode pk pr)) as Hv.
  { apply view_Node_Ok. exists pr. split_and!; try done. destruct (nd_tombstone pr) eqn:E; [|done].
    assert (nd_kind pr = ScaleStep) as Hk by (eapply Hst; [done|by rewrite E]).
    rewrite Hk in Hb. by destruct (nd_kind r). }
  split_and!; [done..|]. cbn. destruct (nd_kind r), (nd_kind pr); cbn in *; (done || lia).
Qed.

(** A climb with as much fuel as the node's scale never runs out. *)
Lemma climb_ind (P : nat → Node → Prop) :
  (∀ depth n, view_Node p (n_id n) = Ok n → n_parent n = "" → P depth n) →
  (∀ depth n m, view_Node p (n_id n) = Ok n → n_parent n ≠ "" → view_Node p (n_parent n) = Ok m →
     n_id m = n_parent n → n_matter m = n_matter n → P depth m → P (S depth) n) →
  ∀ depth n, view_Node p (n_id n) = Ok n → (scale_rank (n_kind n) ≤ S depth)%nat → P depth n.
Proof.
  intros H0 HS. induction depth as [|depth IH]; intros n Hn Hk;
    destruct (decide (n_parent n = "")) as [Hp|Hp]; try by apply H0.
  all: destruct (parent_live _ _ Hn Hp) as (m & Hm & Hmat & Hlt).
  - destruct (n_kind m), (n_kind n); cbn in *; lia.
  - assert (n_id m = n_parent n) as Hid by (apply view_Node_Ok in Hm as (? & _ & _ & ->); done).
    apply (HS depth n m); try done. apply IH; [by rewrite Hid|lia].
Qed.

(** ** The evaluator *)
Lemma walk_total decls target depth n :
  view_Node p (n_id n) = Ok n → (scale_rank (n_kind n) ≤ S depth)%nat →
  ∃ l, walk_requirements (S depth) log p decls target n = Ok l.
Proof.
  revert depth n. refine (climb_ind (λ depth n, ∃ l, walk_requirements (S depth) log p decls target n = Ok l) _ _).
  - intros depth n _ Hp. cbn [walk_requirements]. unfold node_requirements.
    destruct (closedGateMetadata_lookup log p (n_id n) (db_gates _ _ Hdb)) as (c & -> & _). cbn [mbind result_bind].
    rewrite bool_decide_true by done. eauto.
  - intros depth n m _ Hp Hm _ _ (l & Hl). remember (S depth) as fuel. cbn [walk_requirements]. unfold node_requirements.
    destruct (closedGateMetadata_lookup log p (n_id n) (db_gates _ _ Hdb)) as (c & -> & _). cbn [mbind result_bind].
    rewrite bool_decide_false by done. rewrite Hm. cbn [mbind result_bind]. rewrite Hl. cbn [mbind result_bind]. eauto.
Qed.

Lemma completion_total n : view_Node p (n_id n) = Ok n → ∃ c, view_NodeCompletion log p n = Ok c.
Proof.
  intros Hn. destruct (walk_total (GateDeclarations p (n_repo n)) n 2 n Hn) as (l & Hl).
  { destruct (n_kind n); cbn; lia. }
  unfold view_NodeCompletion, NodeCompletionWithOverlay, EffectiveGateRequirements, tree_depth. rewrite Hl.
  cbn [mbind result_bind]. cbv zeta. destruct (foldl _ _ _) as [[? ?] ?]. eauto.
Qed.

Definition local (n : Node) : bool := match view_NodeCompletion log p n with Ok c => LocallyComplete c | _ => false end.
Definition sealed (n : Node) : bool := match view_NodeCompletion log p n with Ok c => Sealed c | _ => false end.

Lemma read_local n : view_Node p (n_id n) = Ok n → read_LocallyComplete log p n = Ok (local n).
Proof. intros (c & Hc)%completion_total. unfold read_LocallyComplete, local. by rewrite Hc. Qed.

Lemma read_sealed n : view_Node p (n_id n) = Ok n → read_Sealed log p n = Ok (sealed n).
Proof. intros (c & Hc)%completion_total. unfold read_Sealed, sealed. by rewrite Hc. Qed.

(** ** The frontier *)
Definition ends (es : list Edge) : list Node :=
  omap (λ e, match view_Node p (e_blocker e) with Ok n => Some n | Error _ => None end) es.

Definition blockers (x : string) : list Node := ends (BlockedBy p x).

Definition unmet (x : string) : list Node := filter (λ m, local m = false) (blockers x).
Definition met (x : string) : list Node := filter (λ m, local m = true) (blockers x).

Lemma split_total es :
  (∀ e, e ∈ es → ∃ m, view_Node p (e_blocker e) = Ok m) →
  split_blockers log p es = Ok (filter (λ m, local m = true) (ends es), filter (λ m, local m = false) (ends es)).
Proof.
  induction es as [|e es IH]; intros H; [done|]. cbn [split_blockers ends omap list_omap].
  destruct (H e) as (m & Hm); [by left|]. rewrite Hm. cbn [mbind result_bind].
  assert (view_Node p (n_id m) = Ok m) as Hm' by (apply view_Node_Ok in Hm as (? & ? & ? & ->); by apply view_Node_Ok; eauto).
  rewrite (read_local _ Hm'). cbn [mbind result_bind]. rewrite IH by (intros; apply H; by right).
  cbn [mbind result_bind fst snd]. fold (ends es). rewrite !filter_cons. by destruct (local m).
Qed.

Lemma split_blockers_of x : split_blockers log p (BlockedBy p x) = Ok (met x, unmet x).
Proof.
  apply split_total. intros e (_ & m & _ & Hm)%elem_of_BlockedBy%waits_ends. eauto.
Qed.

Lemma elem_of_blockers x m :
  m ∈ blockers x ↔ view_Node p (n_id m) = Ok m ∧ waits (liveEdgeGraph p) x (n_id m).
Proof.
  unfold blockers, ends. rewrite list_elem_of_omap. split.
  - intros (e & He & Hm). destruct (view_Node p (e_blocker e)) as [m'|] eqn:E; [|done]. injection Hm as ->.
    pose proof E as (r & Hr & Ht & ->)%view_Node_Ok. cbn [n_id scanNode]. split; [done|by apply elem_of_BlockedBy].
  - intros [Hm (e & He & Hid)%waits_BlockedBy]. exists e. split; [done|]. by rewrite Hid, Hm.
Qed.

Lemma elem_of_unmet x m :
  m ∈ unmet x ↔ view_Node p (n_id m) = Ok m ∧ waits (liveEdgeGraph p) x (n_id m) ∧ local m = false.
Proof. unfold unmet. rewrite list_elem_of_filter, elem_of_blockers. tauto. Qed.

Lemma frontier_loop_total ns :
  frontier_loop log p ns = Ok (filter (λ n, unmet (n_id n) = []) ns,
    (λ n, MkBlocked n (unmet (n_id n))) <$> filter (λ n, unmet (n_id n) ≠ []) ns).
Proof.
  induction ns as [|n ns IH]; [done|]. cbn [frontier_loop]. rewrite split_blockers_of. cbn [mbind result_bind snd].
  rewrite IH. cbn [mbind result_bind fst snd]. rewrite !filter_cons.
  destruct (decide (unmet (n_id n) = [])) as [E|E]; [rewrite E|].
  - rewrite decide_False by (intros []; done). done.
  - rewrite decide_True by done. destruct (unmet (n_id n)) eqn:Eu; [done|]. rewrite fmap_cons. by rewrite Eu.
Qed.

Lemma Frontier_total :
  Frontier log p = Ok (filter (λ n, unmet (n_id n) = []) (view_Planned p),
    (λ n, MkBlocked n (unmet (n_id n))) <$> filter (λ n, unmet (n_id n) ≠ []) (view_Planned p)).
Proof. apply frontier_loop_total. Qed.

Lemma elem_of_ready n ready blocked :
  Frontier log p = Ok (ready, blocked) →
  n ∈ ready ↔ view_Node p (n_id n) = Ok n ∧ n_lifecycle n = Planned
    ∧ ∀ m, view_Node p (n_id m) = Ok m → waits (liveEdgeGraph p) (n_id n) (n_id m) → local m = true.
Proof.
  rewrite Frontier_total. intros [= <- <-]. rewrite list_elem_of_filter. unfold view_Planned.
  rewrite elem_of_lifecycle. split.
  - intros [Hu [Hn Hp]]. split_and!; [done..|]. intros m Hm Hw. destruct (local m) eqn:E; [done|].
    assert (m ∈ unmet (n_id n)) as Hin by (by apply elem_of_unmet). rewrite Hu in Hin. by apply elem_of_nil in Hin.
  - intros (Hn & Hp & Hall). split; [|done]. apply elem_of_nil_inv. intros m (Hm & Hw & E)%elem_of_unmet.
    by rewrite (Hall m Hm Hw) in E.
Qed.

Lemma elem_of_blocked b ready blocked :
  Frontier log p = Ok (ready, blocked) →
  b ∈ blocked ↔ view_Node p (n_id (bk_node b)) = Ok (bk_node b) ∧ n_lifecycle (bk_node b) = Planned
    ∧ bk_blockers b = unmet (n_id (bk_node b)) ∧ bk_blockers b ≠ [].
Proof.
  rewrite Frontier_total. intros [= <- <-]. rewrite list_elem_of_fmap. unfold view_Planned. split.
  - intros (n & -> & [Hu [Hn Hp]%elem_of_lifecycle]%list_elem_of_filter). done.
  - intros (Hn & Hp & Hb & Hne). exists (bk_node b). split; [destruct b; cbn in *; congruence|].
    rewrite list_elem_of_filter, elem_of_lifecycle. rewrite Hb in Hne. done.
Qed.

(** A planned node held by a node it waits for that is not locally complete. *)
Definition held (x y : string) : Prop :=
  ∃ n m, view_Node p x = Ok n ∧ n_lifecycle n = Planned ∧ view_Node p y = Ok m
    ∧ waits (liveEdgeGraph p) x y ∧ read_LocallyComplete log p m = Ok false.

(** What a planned node is held by, to the end of the chain. *)
Lemma waiting_chain ready blocked :
  Frontier log p = Ok (ready, blocked) → acyclic (waits (liveEdgeGraph p)) →
  ∀ x n, view_Node p x = Ok n → n_lifecycle n = Planned →
  ∃ m, rtc held x (n_id m) ∧ view_Node p (n_id m) = Ok m
    ∧ (m ∈ ready ∨ (n_lifecycle m ≠ Planned ∧ local m = false)).
Proof.
  intros Hf Hac. refine (acyclic_ind _ (dom (nodes p)) _ Hac _ _).
  - intros x y (_ & m & _ & (r & Hr & _)%view_Node_Ok)%waits_ends. by eapply elem_of_dom_2.
  - intros x IH n Hn Hp. assert (n_id n = x) as <- by (apply view_Node_Ok in Hn as (? & _ & _ & ->); done).
    destruct (unmet (n_id n)) as [|m ms] eqn:E.
    + exists n. split_and!; [apply rtc_refl|done|left]. apply (elem_of_ready n _ _ Hf). split_and!; [done..|].
      intros m Hm Hw. destruct (local m) eqn:El; [done|].
      assert (m ∈ unmet (n_id n)) as Hin by (by apply elem_of_unmet). rewrite E in Hin. by apply elem_of_nil in Hin.
    + assert (m ∈ unmet (n_id n)) as (Hm & Hw & Hl)%elem_of_unmet by (rewrite E; by left).
      assert (held (n_id n) (n_id m)) as Hh.
      { exists n, m. split_and!; [done..|]. by rewrite (read_local m Hm), Hl. }
      destruct (decide (n_lifecycle m = Planned)) as [Hmp|Hmp].
      * destruct (IH (n_id m) Hw m Hm Hmp) as (m' & Hr & Hm' & Hor). exists m'. split; [|done].
        by eapply rtc_l.
      * exists m. split_and!; [by apply rtc_once|done|by right].
Qed.

(** ** Ancestors *)
Lemma above_rank n m :
  view_Node p (n_id n) = Ok n → view_Node p (n_id m) = Ok m → above p (n_id n) (n_id m) →
  (scale_rank (n_kind m) < scale_rank (n_kind n))%nat.
Proof.
  intros Hn Hm Ha. remember (n_id n) as x eqn:Ex. remember (n_id m) as y eqn:Ey. revert n Hn Ex.
  induction Ha as [x y (n' & Hn' & <- & Hy)|x z y (n' & Hn' & <- & Hz) _ IH]; intros n Hn ->;
    rewrite Hn in Hn'; injection Hn' as <-.
  - destruct (parent_live _ _ Hn Hy) as (m' & Hm' & _ & Hlt). rewrite Hm in Hm'. by injection Hm' as ->.
  - destruct (parent_live _ _ Hn Hz) as (m' & Hm' & _ & Hlt).
    assert (n_id m' = n_parent n) as Hid by (apply view_Node_Ok in Hm' as (? & _ & _ & ->); done).
    specialize (IH Ey Hm m' Hm' (eq_sym Hid)). lia.
Qed.

Lemma climb_above depth mark n :
  view_Node p (n_id n) = Ok n → (scale_rank (n_kind n) ≤ S depth)%nat →
  ∃ b, marked_above depth p mark n = Ok b ∧ (b = true ↔ ∃ y, above p (n_id n) y ∧ mark y = true).
Proof.
  revert depth n. refine (climb_ind (λ depth n, ∃ b, marked_above depth p mark n = Ok b
    ∧ (b = true ↔ ∃ y, above p (n_id n) y ∧ mark y = true)) _ _).
  - intros depth n Hn Hp. exists false. split; [by destruct depth; cbn [marked_above]; rewrite bool_decide_true|].
    split; [done|]. intros (y & [Ha _]%(above_parent p n _ Hn) & _). by rewrite Hp in Ha.
  - intros depth n m Hn Hp Hm Hid _ (b & Hb & Hiff). cbn [marked_above]. rewrite bool_decide_false, Hm by done.
    cbn [mbind result_bind]. destruct (mark (n_id m)) eqn:E.
    + exists true. split; [done|]. split; [|done]. intros _. exists (n_id m). split; [|done].
      apply (above_parent p n _ Hn). rewrite <-Hid. split; [by rewrite Hid|by left].
    + exists b. split; [done|]. rewrite Hiff. split; intros (y & Ha & Hy); exists y; (split; [|done]).
      * apply (above_parent p n _ Hn). rewrite <-Hid. split; [by rewrite Hid|by right].
      * apply (above_parent p n _ Hn) in Ha as [_ [->|Ha]]; [congruence|by rewrite Hid].
Qed.

Lemma marked_total mark n :
  view_Node p (n_id n) = Ok n →
  ∃ b, marked_above tree_depth p mark n = Ok b ∧ (b = true ↔ ∃ y, above p (n_id n) y ∧ mark y = true).
Proof. intros Hn. apply climb_above; [done|apply scale_depth]. Qed.

Definition live_all (ns : list Node) : Prop := ∀ n, n ∈ ns → view_Node p (n_id n) = Ok n.

Lemma collapse_ready_total mark ns :
  live_all ns → ∃ out, collapse_ready p mark ns = Ok out ∧ out `sublist_of` ns
    ∧ ∀ n, n ∈ out ↔ n ∈ ns ∧ ∀ y, above p (n_id n) y → mark y = false.
Proof.
  induction ns as [|n ns IH]; intros Hl; cbn [collapse_ready].
  { exists []. split_and!; [done..|]. intros m. rewrite elem_of_nil. naive_solver. }
  destruct (marked_total mark n) as (b & -> & Hb); [apply Hl; by left|]. cbn [mbind result_bind].
  destruct IH as (out & -> & Hsub & Hout); [intros m ?; apply Hl; by right|]. cbn [mbind result_bind].
  destruct b; eexists; (split; [reflexivity|]).
  - split; [by apply sublist_cons|]. intros m. rewrite Hout, elem_of_cons. split; [naive_solver|].
    intros [[->|?] Hm]; [|done]. destruct (proj1 Hb eq_refl) as (y & Hy & My). by rewrite Hm in My.
  - split; [by apply sublist_skip|]. intros m. rewrite !elem_of_cons, Hout. split; [|naive_solver].
    intros [->|[? ?]]; [|naive_solver]. split; [by left|]. intros y Hy. destruct (mark y) eqn:E; [|done].
    exfalso. by assert (false = true) by (apply Hb; eauto).
Qed.

(** What CollapseReady keeps: the outermost nodes, and everything is below one. *)
Lemma CollapseReady_total ns :
  live_all ns → ∃ out, CollapseReady p ns = Ok out ∧ out `sublist_of` ns
    ∧ (∀ n, n ∈ out ↔ n ∈ ns ∧ ∀ m, m ∈ ns → ¬ above p (n_id n) (n_id m))
    ∧ ∀ n, n ∈ ns → ∃ m, m ∈ out ∧ (n = m ∨ above p (n_id n) (n_id m)).
Proof.
  intros Hl. unfold CollapseReady. destruct (collapse_ready_total (λ id, bool_decide (id ∈ n_id <$> ns)) ns Hl)
    as (out & -> & Hsub & Hout). exists out.
  assert (∀ n, n ∈ out ↔ n ∈ ns ∧ ∀ m, m ∈ ns → ¬ above p (n_id n) (n_id m)) as Hiff.
  { intros n. rewrite Hout. split; intros [Hn Hy]; (split; [done|]).
    - intros m Hm Ha. specialize (Hy _ Ha). apply bool_decide_eq_false in Hy. apply Hy. by apply list_elem_of_fmap_2.
    - intros y Ha. apply bool_decide_eq_false. intros (m & -> & Hm)%list_elem_of_fmap. by apply (Hy m Hm). }
  split_and!; [done..|].
  assert (∀ k n, (scale_rank (n_kind n) < k)%nat → n ∈ ns → ∃ m, m ∈ out ∧ (n = m ∨ above p (n_id n) (n_id m)))
    as Hall; [|intros n; apply (Hall _ n (Nat.lt_succ_diag_r _))].
  induction k as [|k IH]; intros n Hk Hn; [lia|].
  destruct (decide (n ∈ out)) as [|Hno]; [exists n; auto|].
  assert (∃ m, m ∈ ns ∧ above p (n_id n) (n_id m)) as (m & Hm & Ha).
  { destruct (marked_total (λ id, bool_decide (id ∈ n_id <$> ns)) n (Hl n Hn)) as ([] & _ & Hb).
    - destruct (proj1 Hb eq_refl) as (y & Ha & (m & -> & Hm)%bool_decide_eq_true%list_elem_of_fmap). eauto.
    - destruct Hno. apply Hiff. split; [done|]. intros m Hm Ha. exfalso.
      assert (false = true) as E; [|done]. apply Hb. exists (n_id m). split; [done|].
      by apply bool_decide_eq_true, list_elem_of_fmap_2. }
  pose proof (above_rank n m (Hl n Hn) (Hl m Hm) Ha).
  destruct (IH m) as (m' & Hm' & Hor); [lia|done|].
  exists m'. split; [done|]. right. destruct Hor as [<-|?]; [done|]. by eapply tc_transitive.
Qed.
End reads.
