(* ===== verification/Reap.v ===== *)
(** Standing a Run down (src/internal/writesurface/run.go, StandDownRun): the Run
    closes and every open Dispatch of it is reaped with its roles. *)
From stdpp Require Import relations.
From S2P Require Import Prelude GoStd Ulid Taxonomy Json Payloads Tables View Gates Project Store.
From S2P Require Import Steps Invariants Shape Replay Mint Reach Completion Cycle Content Command.
From S2P Require Import Resolve Config NodeVerbs WorkVerbs Effects Outcome Verbs VerbAtomic Cascade Seal.

(** dispatch.closed rewrites its subject's row, closed, and no other. *)
Lemma dispatch_closed_row c ev p p' :
  enum_parse (ev_type ev) = Some TypeDispatchClosed → applyEvent c ev p = Ok p' →
  ∃ d, dispatches p' = <[ev_subject ev := d]> (dispatches p) ∧ dp_state d = StClosed.
Proof.
  intros Hty H. as_rule H Hty. unfold closeDispatch in H. inv_ok.
  match goal with H : update_all _ TRoles _ _ _ = Ok _ |- _ => apply update_all_only in H as Hroles end.
  apply update1_Ok in H as (o & n & _ & _ & Hn & [_ Hp%(put_tget_eq _ TDispatches)]%sql_set_Ok).
  pose proof (Hroles TDispatches ltac:(by apply (bool_decide_unpack _))) as E. cbn [tget] in Hp, E.
  exists n. rewrite Hp, E. split; [done|]. apply bind_Ok in Hn as (reason & _ & [= <-]). done.
Qed.

(** A draft of a reap. *)
Definition is_reap (d : Draft) : Prop := d_type d = enum_str TypeDispatchClosed.

Lemma reap_drafts_spec p ds out :
  reap_drafts p ds = Ok out → Forall is_reap out ∧ (d_subject <$> out) = ds.*1.
Proof.
  revert out. induction ds as [|[id d] ds IH]; intros out; cbn [reap_drafts]; [by intros [= <-]|].
  intros H. inv_ok. subst. destruct (IH _ ltac:(eassumption)) as [Hf Hs].
  split; [constructor; done|]. rewrite !fmap_cons, Hs. done.
Qed.

Lemma reaped_rows req ds events log p new log' p' :
  Forall is_reap ds → folded req ds events log p new log' p' →
  ∀ k d, dispatches p' !! k = Some d →
    dp_state d = StClosed ∨ (k ∉ (d_subject <$> ds) ∧ dispatches p !! k = Some d).
Proof.
  intros Hds Hf. induction Hf as [|x ds events log p ev new p1 log' p' Hst _ _ Hap _ IH]; intros k d Hk.
  { right. split; [apply not_elem_of_nil|done]. }
  apply Forall_cons in Hds as [Hx Hds]. destruct (IH Hds k d Hk) as [?|[Hni Hk1]]; [by left|].
  destruct Hst as (rule & _ & Ht & Hs & _). unfold is_reap in Hx. rewrite Hx in Ht.
  destruct (dispatch_closed_row _ ev _ _ ltac:(rewrite Ht; apply enum_parse_str) Hap) as (d' & Hrow & Hcl).
  rewrite Hrow in Hk1. apply lookup_insert_Some in Hk1 as [[<- <-]|[Hne Hk1]]; [by left|right].
  split; [|done]. rewrite fmap_cons, not_elem_of_cons. split; [congruence|done].
Qed.

Lemma run_stood_down c ev p p' :
  enum_parse (ev_type ev) = Some TypeRunStoodDown → applyEvent c ev p = Ok p' →
  only [TRuns] p p' ∧ ∃ r, runs p' !! ev_subject ev = Some r ∧ rn_state r = StClosed.
Proof.
  intros Hty H. as_rule H Hty. unfold standDownRun in H. inv_ok.
  pose proof (update1_only _ _ _ _ _ _ _ H) as Ho. split; [done|].
  apply update1_Ok in H as (o & n & _ & _ & [= <-] & [_ Hp%(put_tget_eq _ TRuns)]%sql_set_Ok).
  cbn [tget] in Hp. rewrite Hp, lookup_insert_eq. by eexists.
Qed.

Definition run_closed (o n : RunRow) : Prop := rn_state o = StClosed → rn_state n = StClosed.

#[local] Instance run_closed_preorder : PreOrder run_closed.
Proof. split; [by intros r ?|intros a b c H1 H2 ?; by apply H2, H1]. Qed.

Lemma StandDownRun_reaps w fuel acquire actor env run s row evs s' :
  store_ok s → StandDownRun w fuel acquire actor env run s = Some (Ok (row, evs), s') →
  runs (s_proj s') !! run = Some row ∧ rn_state row = StClosed
  ∧ ∀ k d, dispatches (s_proj s') !! k = Some d → dp_run d = Some run → dp_state d = StClosed.
Proof.
  intros Hs H. unfold StandDownRun in H. inv_cmd.
  match goal with H : commit _ _ _ _ _ = Some (Ok ?x, _) |- _ =>
    destruct x as [evs u]; apply commit_folded in H as (ds & h & Hd & _ & Hf) end.
  inv_tx. match goal with H : reap_drafts _ _ = Ok _ |- _ => apply reap_drafts_spec in H as [Hreap Hids] end.
  inversion Hf as [|? ? ? ? ? ev ? p1 ? ? Hst _ _ Hap Hrest]; subst.
  destruct (stamped_draft _ _ _ _ _ Hst) as (Hty & Hsub & _).
  destruct (run_stood_down _ _ _ _ Hty Hap) as [Ho (r1 & Hr1 & Hcl)]. rewrite Hsub in Hr1.
  match goal with H : view_Run (s_proj ?q) _ = Ok _ |- context [runs (s_proj ?q)] =>
    unfold view_Run in H; apply from_option_err_Ok in H; rename H into Hrow end.
  split_and!; [done| |].
  - edestruct (folded_evolve TRuns run_closed (λ _, True)) as (r2 & Hr2 & Hc2); [|by apply Forall_true|exact Hrest|exact Hr1|].
    { by intros d e q k o n _ _ (_ & ? & _) _ _. }
    pose proof (eq_trans (eq_sym Hr2) Hrow) as E. injection E as ->. by apply Hc2.
  - intros k d Hk Hrun. destruct (reaped_rows _ _ _ _ _ _ _ _ Hreap Hrest k d Hk) as [?|[Hni Hk1]]; [done|].
    pose proof (Ho TDispatches ltac:(by apply (bool_decide_unpack _))) as E. cbn [tget] in E. rewrite E in Hk1.
    destruct (dp_state d) eqn:Est; [|done]. exfalso. apply Hni. rewrite Hids.
    apply list_elem_of_fmap. exists (k, d). split; [done|]. unfold OpenDispatchesForRun.
    apply (elem_of_select TDispatches). split; [done|]. by rewrite !bool_decide_true.
Qed.
