(* ===== verification/Reorder.v ===== *)
(** Reordering Steps (src/internal/writesurface/amendment.go, ReorderStep, with the
    loop of store/project.go, applyReorder): the order asked for is a permutation
    of the live Steps, and it is the order the store lists them in afterwards. *)
From stdpp Require Import relations sorting.
From S2P Require Import Prelude GoStd Ulid Taxonomy Json Payloads Tables View Gates Project Store.
From S2P Require Import Steps Invariants Shape Replay Mint Reach Completion Cycle Content Command.
From S2P Require Import Resolve Config NodeVerbs WorkVerbs Effects Outcome Verbs VerbAtomic Cascade Seal.
From S2P Require Import Archive.
Local Open Scope Z_scope.

(** ** The live Steps of a parent *)
Definition live_step (parent : string) (r : NodeRow) : Prop :=
  nd_parent r = Some parent ∧ nd_kind r = ScaleStep ∧ nd_tombstone r = None.

Lemma elem_of_liveSteps p parent n :
  n ∈ liveSteps p parent ↔ ∃ r, nodes p !! n_id n = Some r ∧ live_step parent r ∧ n = scanNode (n_id n) r.
Proof.
  unfold liveSteps, Children, nodeList, live_step. rewrite list_elem_of_filter, list_elem_of_fmap. split.
  - intros [Hk ([id r] & -> & Hin)]. apply (elem_of_select TNodes) in Hin as [Hr Hg]. inv_bool.
    apply node_live_true in H0. cbn in *. exists r. done.
  - intros (r & Hr & (Hp & Hk & Ht) & E). rewrite E. split; [done|]. exists (n_id n, r). split; [done|].
    apply (elem_of_select TNodes). split; [done|]. apply node_live_true in Ht. by rewrite bool_decide_true, Ht.
Qed.

Lemma liveSteps_NoDup p parent : NoDup (n_id <$> liveSteps p parent).
Proof.
  unfold liveSteps, Children, nodeList.
  apply (sublist_NoDup _ (n_id <$> ((λ kr : string * NodeRow, scanNode kr.1 kr.2)
    <$> select TNodes p (λ _ r, bool_decide (nd_parent r = Some parent) && node_live r) by_sort_key))).
  - rewrite <-list_fmap_compose. change (n_id ∘ _) with (@fst string NodeRow).
    unfold select. rewrite order_by_perm.
    apply (sublist_NoDup _ (map_to_list (nodes p)).*1); [apply NoDup_fst_map_to_list|apply fmap_sublist, sublist_filter].
  - apply fmap_sublist, sublist_filter.
Qed.

(** They are listed by sort key. *)
Lemma by_sort_key_total a b : by_sort_key a b = true ∨ by_sort_key b a = true.
Proof.
  unfold by_sort_key, by_birth. destruct (Z.lt_trichotomy (nd_sort_key a.2) (nd_sort_key b.2)) as [H|[H|H]].
  - left. apply orb_true_iff. left. by apply Z.ltb_lt.
  - rewrite H, Z.eqb_refl, !Z.ltb_irrefl, !orb_false_l, !andb_true_l.
    destruct (total String.le (nd_birth a.2) (nd_birth b.2)) as [Hle|Hle]; [left|right]; by apply Is_true_eq_true.
  - right. apply orb_true_iff. left. by apply Z.ltb_lt.
Qed.

Lemma by_sort_key_trans a b c : by_sort_key a b = true → by_sort_key b c = true → by_sort_key a c = true.
Proof.
  unfold by_sort_key, by_birth. rewrite !orb_true_iff, !andb_true_iff, !Z.ltb_lt, !Z.eqb_eq.
  intros [H1|[H1 B1]] [H2|[H2 B2]]; [left; lia..|right]. split; [lia|].
  apply Is_true_eq_true. change (String.le (nd_birth a.2) (nd_birth c.2)).
  trans (nd_birth b.2); by apply Is_true_eq_left.
Qed.

Definition key_le (a b : Node) : Prop := n_sort_key a <= n_sort_key b.

Lemma liveSteps_sorted p parent : StronglySorted key_le (liveSteps p parent).
Proof.
  assert (StronglySorted key_le (Children p parent)) as H.
  { unfold Children, nodeList, select. apply Sorted_StronglySorted; [intros a b c; unfold key_le; lia|].
    match goal with |- Sorted _ (_ <$> ?l) =>
      assert (Sorted (λ x y, by_sort_key x y = true) l) as Hs
        by exact (order_by_sorted by_sort_key by_sort_key_total by_sort_key_trans _); generalize dependent l end.
    intros l Hs.
    induction Hs as [|x l _ IH Hd]; [constructor|]. rewrite fmap_cons. constructor; [done|].
    destruct Hd as [|y l Hxy]; rewrite ?fmap_cons; constructor. unfold key_le. cbn. unfold by_sort_key in Hxy.
    apply orb_true_iff in Hxy as [H%Z.ltb_lt|[H%Z.eqb_eq _]%andb_true_iff]; lia. }
  unfold liveSteps. induction H as [|n l _ IH Hall]; [constructor|]. rewrite filter_cons.
  case_decide; [|done]. constructor; [done|]. apply Forall_forall. intros m [_ Hm]%list_elem_of_filter.
  by apply (proj1 (Forall_forall _ _) Hall).
Qed.

(** ** The loop *)
Lemma reorder_loop_spec c ev i order p p' :
  reorder_loop c ev i order p = Ok p' →
  NoDup order
  ∧ (∀ j id, order !! j = Some id → ∃ o, nodes p !! id = Some o ∧ live_step (ev_subject ev) o
       ∧ nodes p' !! id = Some (set_sort_key (wrap64 (wrap64 (i + Z.of_nat j + 1) * sortKeyGap)) (ev_id ev) o))
  ∧ (∀ id, id ∉ order → nodes p' !! id = nodes p !! id)
  ∧ ∀ id o, id ∈ order → nodes p !! id = Some o → nd_last o <s ev_id ev.
Proof.
  revert i p. induction order as [|id order IH]; intros i p; cbn [reorder_loop].
  { intros [= <-]. split_and!; [constructor|by intros j id ?|done|by intros id o ?%elem_of_nil]. }
  intros (q & Hq & H)%bind_Ok. destruct (IH _ _ H) as (Hnd & Hin & Hout & Hlast).
  apply update1_Ok in Hq as (o & o' & Ho & Hg & [= <-] & [Htr Hput%(put_tget_eq _ TNodes)]%sql_set_Ok).
  cbn [tget] in Hput, Ho. inv_bool. apply node_live_true in H1.
  assert (nd_last o <s ev_id ev) as Hadv.
  { unfold update_trigger in Htr. inv_bool. done. }
  assert (id ∉ order) as Hni.
  { intros Hid. pose proof (Hlast id (set_sort_key (wrap64 (wrap64 (i + 1) * sortKeyGap)) (ev_id ev) o) Hid) as Hbad.
    rewrite Hput, lookup_insert_eq in Hbad. specialize (Hbad eq_refl). by apply slt_irrefl in Hbad. }
  split_and!.
  - by constructor.
  - intros [|j] id' Hj; cbn in Hj.
    + injection Hj as <-. exists o. split_and!; [done|done|]. rewrite (Hout _ Hni), Hput, lookup_insert_eq.
      by rewrite Z.add_0_r.
    + destruct (Hin j id' Hj) as (o' & Ho' & Hl & Hp'). exists o'.
      assert (id ≠ id') as Hne by (intros ->; apply Hni; by eapply list_elem_of_lookup_2).
      rewrite Hput, lookup_insert_ne in Ho' by done. split_and!; [done..|]. rewrite Hp'.
      by replace (i + 1 + Z.of_nat j + 1) with (i + Z.of_nat (S j) + 1) by lia.
  - intros id' [Hne Hid']%not_elem_of_cons. rewrite (Hout _ Hid'), Hput. by rewrite lookup_insert_ne.
  - assert (∀ x, nodes p !! id = Some x → nd_last x <s ev_id ev) as Hhead.
    { intros x Hx. pose proof (eq_trans (eq_sym Hx) Ho) as E. by injection E as ->. }
    intros id' x [->|Hid']%elem_of_cons Hx; [by apply Hhead|].
    destruct (decide (id' = id)) as [->|Hne]; [by apply Hhead|].
    apply (Hlast id' x Hid'). by rewrite Hput, lookup_insert_ne.
Qed.

(** ** The verb *)
Lemma resolve_order_live p repo live order ids :
  resolve_order p repo live order = Ok ids → length ids = length order ∧ Forall (λ id, id ∈ live) ids.
Proof.
  revert ids. induction order as [|l order IH]; intros ids; cbn [resolve_order]; [by intros [= <-]|].
  intros H. inv_ok. subst. inv_bool. destruct (IH _ ltac:(eassumption)) as [Hl Hf].
  cbn. split; [by rewrite Hl|by constructor].
Qed.

Lemma resolve_order_locators p repo live order ids :
  resolve_order p repo live order = Ok ids →
  Forall2 (λ loc id, ∃ t, ResolveNode p repo loc = Ok t ∧ n_id t = id) order ids.
Proof.
  revert ids. induction order as [|l order IH]; intros ids; cbn [resolve_order]; [by intros [= <-]|].
  intros H. inv_ok. subst. constructor; [by eexists|by apply IH].
Qed.

(** Distinct members of a list without repetition, as many as it has, are all of it. *)
Lemma NoDup_all {A} `{EqDecision A} (l k : list A) :
  NoDup l → length k = length l → Forall (λ x, x ∈ l) k → NoDup k → k ≡ₚ l.
Proof.
  intros Hl Hlen Hin Hk. apply (submseteq_length_Permutation k l); [|lia].
  apply NoDup_submseteq; [done|]. by apply Forall_forall.
Qed.

Definition reorder_key (j : nat) : Z := wrap64 (wrap64 (0 + Z.of_nat j + 1) * sortKeyGap).

Lemma reorder_key_lt j j' n :
  (j < j' < n)%nat → Z.of_nat n < 2 ^ 53 → reorder_key j < reorder_key j'.
Proof.
  intros Hj Hn. unfold reorder_key, sortKeyGap.
  assert (∀ z, 0 <= z < 2 ^ 63 → wrap64 z = z) as Hw by (intros z Hz; unfold wrap64; rewrite Z.mod_small; lia).
  rewrite !(Hw (0 + _ + 1)), !Hw; lia.
Qed.

Lemma sorted_by_lookup {A} (R : A → A → Prop) l :
  (∀ i j x y, (i < j)%nat → l !! i = Some x → l !! j = Some y → R x y) → StronglySorted R l.
Proof.
  induction l as [|x l IH]; intros H; constructor.
  - apply IH. intros i j y z Hij Hi Hj. apply (H (S i) (S j)); [lia|done..].
  - apply Forall_forall. intros y [j Hj]%list_elem_of_lookup. apply (H 0%nat (S j)); [lia|done..].
Qed.

(** The sort key of a node, by identity. *)
Definition key_of (p : Proj) (id : string) : Z :=
  match nodes p !! id with Some r => nd_sort_key r | None => 0 end.

Definition key_of_le (p : Proj) (x y : string) : Prop := key_of p x <= key_of p y.

Lemma live_ids_sorted p parent : StronglySorted (key_of_le p) (n_id <$> liveSteps p parent).
Proof.
  assert (∀ l, (∀ n, n ∈ l → key_of p (n_id n) = n_sort_key n) → StronglySorted key_le l →
    StronglySorted (key_of_le p) (n_id <$> l)) as Hmap.
  { intros l Hl. induction 1 as [|n l _ IH Hall]; [constructor|]. rewrite fmap_cons.
    constructor; [apply IH; intros m Hm; apply Hl; by right|]. apply Forall_fmap, Forall_forall. intros m Hm. cbn.
    unfold key_of_le. rewrite (Hl n), (Hl m) by (by left || by right). by apply (proj1 (Forall_forall _ _) Hall). }
  apply Hmap; [|apply liveSteps_sorted]. intros n (r & Hr & _ & ->)%elem_of_liveSteps. unfold key_of. cbn in *. by rewrite Hr.
Qed.

(** A reorder event of a permutation of the live Steps lists them in that order. *)
Lemma reorder_event c ev order p p' :
  reorder_loop c ev 0 order p = Ok p' → order ≡ₚ n_id <$> liveSteps p (ev_subject ev) →
  Z.of_nat (length order) < 2 ^ 53 → n_id <$> liveSteps p' (ev_subject ev) = order.
Proof.
  intros H Hperm Hlen. destruct (reorder_loop_spec _ _ _ _ _ _ H) as (Hnd & Hin & Hout & _).
  assert (∀ id, id ∈ n_id <$> liveSteps p' (ev_subject ev) ↔ id ∈ order) as Hsame.
  { intros id. rewrite Hperm, !list_elem_of_fmap. setoid_rewrite elem_of_liveSteps. split.
    - intros (n & -> & r & Hr & Hl & _). destruct (decide (n_id n ∈ order)) as [Hid|Hid].
      + rewrite Hperm in Hid. apply list_elem_of_fmap in Hid as (m & Em & Hm%elem_of_liveSteps). eauto.
      + rewrite (Hout _ Hid) in Hr. exists (scanNode (n_id n) r). split; [done|]. eauto.
    - intros (n & -> & r & Hr & Hl & En). assert (n_id n ∈ order) as Hid.
      { rewrite Hperm. apply list_elem_of_fmap. exists n. split; [done|]. apply elem_of_liveSteps. eauto. }
      apply list_elem_of_lookup in Hid as [j Hj]. destruct (Hin j _ Hj) as (o & _ & Ho & Hp').
      eexists (scanNode (n_id n) _). split; [reflexivity|]. eexists. split; [exact Hp'|]. split; [exact Ho|done]. }
  assert (∀ j id, order !! j = Some id → key_of p' id = reorder_key j) as Hkey.
  { intros j id Hj. destruct (Hin j id Hj) as (o & _ & _ & Hp'). unfold key_of. by rewrite Hp'. }
  assert (∀ i j x y, (i < j)%nat → order !! i = Some x → order !! j = Some y → key_of p' x < key_of p' y) as Hlt.
  { intros i j x y Hij Hi Hj. rewrite (Hkey _ _ Hi), (Hkey _ _ Hj). apply (reorder_key_lt i j (length order)); [|done].
    split; [done|by eapply lookup_lt_Some]. }
  apply (StronglySorted_unique_strong (key_of_le p')).
  - intros x y Hx%Hsame Hy H1 H2. unfold key_of_le in *.
    apply list_elem_of_lookup in Hx as [i Hi]. apply list_elem_of_lookup in Hy as [j Hj].
    destruct (Nat.lt_trichotomy i j) as [Hij|[->|Hij]]; [|congruence|].
    + pose proof (Hlt _ _ _ _ Hij Hi Hj). lia.
    + pose proof (Hlt _ _ _ _ Hij Hj Hi). lia.
  - apply live_ids_sorted.
  - apply sorted_by_lookup. intros i j x y Hij Hi Hj. unfold key_of_le. pose proof (Hlt _ _ _ _ Hij Hi Hj). lia.
  - apply NoDup_Permutation; [apply liveSteps_NoDup|done|done].
Qed.

Lemma decode_reordered order :
  decode (pl_enc (MkReordered order)) = Ok (MkReordered (utf8_coerce <$> order)).
Proof. unfold pl_enc, Reordered_payload; eval_decode. by rewrite mapM_str_coerce. Qed.

Lemma shaped_ids_utf8 p ids :
  ids_shaped p → Forall (λ id, is_Some (nodes p !! id)) ids → utf8_coerce <$> ids = ids.
Proof.
  intros Hp. induction 1 as [|id ids Hid _ IH]; [done|]. rewrite fmap_cons, IH. by rewrite identity_utf8 by apply Hp, Hid.
Qed.

(** What a successful reorder was asked for, and what it leaves. *)
Lemma ReorderStep_order w fuel actor repo parent order s n s' :
  ReorderStep w fuel actor repo parent order s = Some (Ok n, s') →
  ids_shaped (s_proj s) → Z.of_nat (length order) < 2 ^ 53 →
  ∃ m ids, ResolveNode (s_proj s) repo parent = Ok m
    ∧ resolve_order (s_proj s) repo (n_id <$> liveSteps (s_proj s) (n_id m)) order = Ok ids
    ∧ ids ≡ₚ (n_id <$> liveSteps (s_proj s) (n_id m))
    ∧ (n_id <$> liveSteps (s_proj s') (n_id m)) = ids.
Proof.
  intros H Hids Hlen. unfold ReorderStep in H. inv_cmd. inv_ok. inv_bool.
  match goal with H : resolve _ _ _ _ = Ok ?m |- _ => exists m; rename H into Hres end.
  match goal with H : resolve_order _ _ _ _ = Ok ?ids |- _ =>
    exists ids; rename H into Hord; destruct (resolve_order_live _ _ _ _ _ Hord) as [Hl Hin] end.
  match goal with H : commit _ _ _ _ _ = Some (Ok ?x, _) |- _ =>
    destruct x as [evs u]; apply commit_folded in H as (ds & h & Hd & _ & Hf) end.
  inv_tx. apply folded_one in Hf as (ev & _ & _ & Hst & _ & Hap).
  destruct (stamped_draft _ _ _ _ _ Hst) as (Hty & Hsub & Hpl & _). as_rule Hap Hty.
  unfold applyReorder in Hap. rewrite Hpl, decode_reordered in Hap. cbn [mbind result_bind Reordered_Order] in Hap. inv_ok.
  assert (utf8_coerce <$> a2 = a2) as E.
  { eapply shaped_ids_utf8; [exact Hids|]. eapply Forall_impl; [exact Hin|].
    intros id (m & -> & (r & Hr & _)%elem_of_liveSteps)%list_elem_of_fmap. by eexists. }
  rewrite E in Hap. pose proof (reorder_loop_spec _ _ _ _ _ _ Hap) as (Hnd & _).
  assert (a2 ≡ₚ (n_id <$> liveSteps (s_proj s) (n_id a))) as Hperm.
  { apply NoDup_all; [apply liveSteps_NoDup| |done|done]. rewrite length_fmap. congruence. }
  split_and!; [done|done|done|]. rewrite <-Hsub in *. apply (reorder_event _ _ _ _ _ Hap Hperm). congruence.
Qed.
