(* ===== verification/Waiting.v ===== *)
(** What work waits for (src/internal/readsurface/waiting.go): the stalled Matters
    of a Repo, each with the open gates and the unmet blockers that hold it. *)
From S2P Require Import Prelude GoStd Ulid Taxonomy Json Payloads Tables View Gates Project Store.
From S2P Require Import ReadSurface.

Record WaitingDependency := MkWaitingDependency { wd_blocker : Node; wd_held : list Node }.

Record WaitingMatter := MkWaitingMatter {
  wm_matter : Node; wm_gates : list GateRequirement; wm_dependencies : list WaitingDependency
}.

(** groupState *)
Record groupState := MkGroup {
  g_waiting : WaitingMatter;
  g_gateKeys : gset string;
  g_blockers : gmap string nat;
  g_held : gmap string (gset string)
}.

(** An in-progress node with nothing live below it. *)
Definition leaf (p : Proj) (n : Node) : bool :=
  bool_decide (n_kind n = ScaleStep) || bool_decide (Children p (n_id n) = []).

(** The Matters with something ready or something under way. *)
Definition workable (p : Proj) (repo : string) (inProgress ready : list Node) : gset string :=
  list_to_set (n_matter <$> filter (λ n, n_repo n = repo) ready)
  ∪ list_to_set (n_matter <$> filter (λ n, n_repo n = repo ∧ leaf p n = true) inProgress).

Definition stalled (repo : string) (work : gset string) (n : Node) : bool :=
  bool_decide (n_repo n = repo) && negb (bool_decide (n_matter n ∈ work)).

(** Whether a node above is blocked too. *)
Fixpoint blocked_above (depth : nat) (p : Proj) (ids : gset string) (parentID : string) : result bool :=
  if bool_decide (parentID = "") then Ok false
  else if bool_decide (parentID ∈ ids) then Ok true
  else
    match depth with
    | O => Error EFuel
    | S depth => parent ← view_Node p parentID; blocked_above depth p ids (n_parent parent)
    end.

Fixpoint actionable (p : Proj) (repo : string) (work ids : gset string) (blocked : list Blocked)
    : result (list Blocked) :=
  match blocked with
  | [] => Ok []
  | b :: blocked =>
      if stalled repo work (bk_node b) then
        drop ← blocked_above tree_depth p ids (n_parent (bk_node b));
        rest ← actionable p repo work ids blocked;
        Ok (if drop : bool then rest else b :: rest)
      else actionable p repo work ids blocked
  end.

(** group: the state of a Matter, created at its first mention. *)
Definition group (p : Proj) (matterID : string) (gs : gmap string groupState)
    : result (groupState * gmap string groupState) :=
  match gs !! matterID with
  | Some g => Ok (g, gs)
  | None =>
      matter ← view_Node p matterID;
      let g := MkGroup (MkWaitingMatter matter [] []) ∅ ∅ ∅ in
      Ok (g, <[matterID := g]> gs)
  end.

(** requirement.Gate + "\x00" + requirement.Subject.ID *)
Definition gate_key (r : GateRequirement) : string :=
  gr_gate r +:+ string_of [0%Z] +:+ n_id (gr_subject r).

Definition add_gate (r : GateRequirement) (g : groupState) : groupState :=
  if bool_decide (gate_key r ∈ g_gateKeys g) then g
  else
    let w := g_waiting g in
    MkGroup (MkWaitingMatter (wm_matter w) (wm_gates w ++ [r]) (wm_dependencies w))
      ({[gate_key r]} ∪ g_gateKeys g) (g_blockers g) (g_held g).

Definition holds_done (r : GateRequirement) : bool :=
  bool_decide (gr_state r = GateRequirementOpen) && bool_decide (n_lifecycle (gr_subject r) = Done).

Fixpoint gate_loop (p : Proj) (matterID : string) (pending : list GateRequirement)
    (gs : gmap string groupState) : result (gmap string groupState) :=
  match pending with
  | [] => Ok gs
  | r :: pending =>
      if holds_done r then
        '(g, gs) ← group p matterID gs;
        gate_loop p matterID pending (<[matterID := add_gate r g]> gs)
      else gate_loop p matterID pending gs
  end.

Fixpoint finished_groups (p : Proj) (repo : string) (work : gset string) (finished : list Finished)
    (gs : gmap string groupState) : result (gmap string groupState) :=
  match finished with
  | [] => Ok gs
  | f :: finished =>
      gs ← (if stalled repo work (fin_node f)
            then gate_loop p (n_matter (fin_node f)) (fin_pending f) gs else Ok gs);
      finished_groups p repo work finished gs
  end.

(** One blocker of one held node. *)
Definition add_blocker (held blocker : Node) (g : groupState) : groupState :=
  let w := g_waiting g in
  let g :=
    match g_blockers g !! n_id blocker with
    | Some _ => g
    | None =>
        MkGroup (MkWaitingMatter (wm_matter w) (wm_gates w)
                   (wm_dependencies w ++ [MkWaitingDependency blocker []]))
          (g_gateKeys g) (<[n_id blocker := length (wm_dependencies w)]> (g_blockers g))
          (<[n_id blocker := ∅]> (g_held g))
    end in
  let index := default O (g_blockers g !! n_id blocker) in
  let seen := default ∅ (g_held g !! n_id blocker) in
  if bool_decide (n_id held ∈ seen) then g
  else
    let w := g_waiting g in
    MkGroup (MkWaitingMatter (wm_matter w) (wm_gates w)
               (alter (λ d, MkWaitingDependency (wd_blocker d) (wd_held d ++ [held])) index (wm_dependencies w)))
      (g_gateKeys g) (g_blockers g) (<[n_id blocker := {[n_id held]} ∪ seen]> (g_held g)).

Fixpoint blocked_groups (p : Proj) (blocked : list Blocked) (gs : gmap string groupState)
    : result (gmap string groupState) :=
  match blocked with
  | [] => Ok gs
  | b :: blocked =>
      '(g, gs) ← group p (n_matter (bk_node b)) gs;
      let g := foldl (λ g blocker, add_blocker (bk_node b) blocker g) g (bk_blockers b) in
      blocked_groups p blocked (<[n_matter (bk_node b) := g]> gs)
  end.

(** The groups come out of a map in no particular order and are sorted by the
    identity of the Matter. *)
Definition by_matter (a b : WaitingMatter) : bool := String.leb (n_id (wm_matter a)) (n_id (wm_matter b)).

Definition Waiting (p : Proj) (repo : string) (inProgress ready : list Node) (finished : list Finished)
    (blocked : list Blocked) : result (list WaitingMatter) :=
  let work := workable p repo inProgress ready in
  let ids := list_to_set (n_id <$> filter (λ n, stalled repo work n = true) (bk_node <$> blocked)) in
  act ← actionable p repo work ids blocked;
  gs ← finished_groups p repo work finished ∅;
  gs ← blocked_groups p act gs;
  Ok (order_by by_matter ((λ kg, g_waiting kg.2) <$> map_to_list gs)).
