(* ===== verification/WaitingFacts.v ===== *)
(** What the waiting projection lists (src/internal/readsurface/waiting.go): the
    groups keep their index maps in step with the lists they build, every stalled
    cause is listed once under its Matter, and nothing else is. *)
From stdpp Require Import relations.
From S2P Require Import Prelude GoStd Ulid Taxonomy Json Payloads Tables View Gates Project Store.
From S2P Require Import Steps Invariants Shape Mint Reach Cycle Completion NodeVerbs ReadSurface Removal.
From S2P Require Import ReadFacts Waiting.

Definition w_gates (g : groupState) : list GateRequirement := wm_gates (g_waiting g).
Definition w_deps (g : groupState) : list WaitingDependency := wm_dependencies (g_waiting g).

(** Held node and blocker, by identity. *)
Definition lists_dep (ds : list WaitingDependency) (blocker held : string) : Prop :=
  ∃ d h, d ∈ ds ∧ n_id (wd_blocker d) = blocker ∧ h ∈ wd_held d ∧ n_id h = held.

(** The index maps of a group describe its lists, each entry is there once, and
    what is listed comes from [SG] and [SD]. *)
Record group_ok (SG : GateRequirement → Prop) (SD : string → Node → Prop) (g : groupState) : Prop := MkGroupOk {
  go_keys : g_gateKeys g = list_to_set (gate_key <$> w_gates g);
  go_gates : NoDup (gate_key <$> w_gates g);
  go_from : ∀ r, r ∈ w_gates g → SG r;
  go_index : ∀ id i, g_blockers g !! id = Some i ↔ ∃ d, w_deps g !! i = Some d ∧ n_id (wd_blocker d) = id;
  go_held : ∀ i d, w_deps g !! i = Some d →
    g_held g !! n_id (wd_blocker d) = Some (list_to_set (n_id <$> wd_held d))
    ∧ NoDup (n_id <$> wd_held d) ∧ ∀ h, h ∈ wd_held d → SD (n_id (wd_blocker d)) h
}.

(** A group that lists at least as much. *)
Definition enlarges (g g' : groupState) : Prop :=
  wm_matter (g_waiting g') = wm_matter (g_waiting g)
  ∧ (∀ k, k ∈ gate_key <$> w_gates g → k ∈ gate_key <$> w_gates g')
  ∧ (∀ b h, lists_dep (w_deps g) b h → lists_dep (w_deps g') b h).

#[export] Instance enlarges_preorder : PreOrder enlarges.
Proof.
  split; [by intros g|]. intros a b c (H1 & H2 & H3) (H4 & H5 & H6). split_and!; [congruence|auto..].
Qed.

Lemma group_ok_new SG SD n : group_ok SG SD (MkGroup (MkWaitingMatter n [] []) ∅ ∅ ∅).
Proof.
  split; cbn; [done|constructor|by intros r ?%elem_of_nil| |by intros i d].
  intros id i. rewrite lookup_empty. split; [done|]. by intros (d & ? & _).
Qed.

Lemma group_ok_mono (SG SG' : GateRequirement → Prop) (SD SD' : string → Node → Prop) g :
  (∀ r, SG r → SG' r) → (∀ b h, SD b h → SD' b h) → group_ok SG SD g → group_ok SG' SD' g.
Proof.
  intros HG HD [H1 H2 H3 H4 H5]. split; [done|done|by auto|done|]. intros i d Hd.
  destruct (H5 i d Hd) as (? & ? & ?). split_and!; auto.
Qed.

Lemma alter_inv {A} (f : A → A) (l : list A) (i j : nat) y :
  alter f i l !! j = Some y → (i = j ∧ ∃ x, l !! i = Some x ∧ f x = y) ∨ (i ≠ j ∧ l !! j = Some y).
Proof.
  destruct (decide (i = j)) as [<-|Hne]; [rewrite list_lookup_alter_eq|rewrite list_lookup_alter_ne by done; auto].
  destruct (l !! i) as [x|]; [|done]. cbn. intros [= <-]. eauto.
Qed.

Lemma w_deps_mk m gs ds a b c : w_deps (MkGroup (MkWaitingMatter m gs ds) a b c) = ds.
Proof. reflexivity. Qed.

Section groups.
Context (SG : GateRequirement → Prop) (SD : string → Node → Prop).

Lemma add_gate_ok r g :
  group_ok SG SD g → SG r → group_ok SG SD (add_gate r g) ∧ enlarges g (add_gate r g)
  ∧ gate_key r ∈ gate_key <$> w_gates (add_gate r g).
Proof.
  intros [H1 H2 H3 H4 H5] Hr. unfold add_gate. case_bool_decide as Hin.
  { split_and!; [by split|reflexivity|]. rewrite H1 in Hin. by apply elem_of_list_to_set in Hin. }
  split_and!.
  - split; cbn; [|..]; unfold w_gates in *; cbn; rewrite ?fmap_app; cbn.
    + rewrite H1, list_to_set_app_L. set_solver.
    + apply NoDup_app. split_and!; [done| |apply NoDup_singleton].
      intros x Hx ->%list_elem_of_singleton. apply Hin. rewrite H1. by apply elem_of_list_to_set.
    + intros r' [?| ->%list_elem_of_singleton]%elem_of_app; auto.
    + exact H4.
    + exact H5.
  - split; [done|]. split; [|done]. unfold w_gates. cbn. rewrite fmap_app. intros k Hk. apply elem_of_app. by left.
  - unfold w_gates. cbn. rewrite fmap_app. apply elem_of_app. right. by left.
Qed.

(** The entry of a blocker, created when it is new. *)
Definition with_blocker (blocker : Node) (g : groupState) : groupState :=
  let w := g_waiting g in
  match g_blockers g !! n_id blocker with
  | Some _ => g
  | None =>
      MkGroup (MkWaitingMatter (wm_matter w) (wm_gates w)
                 (wm_dependencies w ++ [MkWaitingDependency blocker []]))
        (g_gateKeys g) (<[n_id blocker := length (wm_dependencies w)]> (g_blockers g))
        (<[n_id blocker := ∅]> (g_held g))
  end.

Lemma with_blocker_ok b g :
  group_ok SG SD g → group_ok SG SD (with_blocker b g) ∧ enlarges g (with_blocker b g)
  ∧ ∃ i d, g_blockers (with_blocker b g) !! n_id b = Some i ∧ w_deps (with_blocker b g) !! i = Some d
      ∧ n_id (wd_blocker d) = n_id b ∧ (wd_blocker d = b ∨ w_deps g !! i = Some d).
Proof.
  intros Hg. pose proof Hg as [H1 H2 H3 H4 H5]. unfold with_blocker. destruct (g_blockers g !! n_id b) as [i|] eqn:E.
  { split_and!; [done|reflexivity|]. pose proof E as (d & Hd & Hid)%H4. exists i, d. auto. }
  assert (∀ i d, w_deps g !! i = Some d → n_id (wd_blocker d) ≠ n_id b) as Hnew.
  { intros i d Hd Hid. assert (g_blockers g !! n_id b = Some i) by (apply H4; eauto). congruence. }
  fold (w_deps g). split_and!.
  - split; cbn; [done..| |].
    + intros id i. unfold w_deps at 2. cbn. fold (w_deps g). rewrite lookup_insert_Some. split.
      * intros [[<- <-]|[Hne (d & Hd & Hid)%H4]].
        -- exists (MkWaitingDependency b []). split; [|done]. by rewrite lookup_app_r, Nat.sub_diag by lia.
        -- exists d. split; [by apply lookup_app_l_Some|done].
      * intros (d & [Hd|[Hle Hd]]%lookup_app_Some & Hid).
        -- right. split; [|apply H4; eauto]. intros <-. by eapply Hnew.
        -- left. apply list_lookup_singleton_Some in Hd as [Hi <-]. cbn in Hid. split; [done|lia].
    + unfold w_deps. cbn. fold (w_deps g). intros i d [Hd|[Hle Hd]]%lookup_app_Some.
      * rewrite lookup_insert_ne by (intros E'; by eapply Hnew). by apply (H5 i).
      * apply list_lookup_singleton_Some in Hd as [_ <-]. cbn. rewrite lookup_insert_eq.
        split_and!; [done|constructor|by intros h ?%elem_of_nil].
  - split; [done|]. split; [done|]. unfold w_deps. cbn. fold (w_deps g). intros x h (d & h' & Hd & ?).
    exists d, h'. split; [apply elem_of_app; by left|done].
  - exists (length (w_deps g)), (MkWaitingDependency b []). cbn. rewrite lookup_insert_eq. split_and!; [done| |done|by left].
    unfold w_deps. cbn. by rewrite lookup_app_r, Nat.sub_diag by lia.
Qed.

(** Marks one more held node at the entry of a blocker. *)
Definition hold (held : Node) (d : WaitingDependency) : WaitingDependency :=
  MkWaitingDependency (wd_blocker d) (wd_held d ++ [held]).

Lemma add_blocker_eq held b g :
  add_blocker held b g =
    let g := with_blocker b g in
    let seen := default ∅ (g_held g !! n_id b) in
    if bool_decide (n_id held ∈ seen) then g
    else MkGroup (MkWaitingMatter (wm_matter (g_waiting g)) (wm_gates (g_waiting g))
                    (alter (hold held) (default O (g_blockers g !! n_id b)) (wm_dependencies (g_waiting g))))
           (g_gateKeys g) (g_blockers g) (<[n_id b := {[n_id held]} ∪ seen]> (g_held g)).
Proof. reflexivity. Qed.

Lemma hold_ok i d b held g :
  group_ok SG SD g → SD (n_id b) held → g_blockers g !! n_id b = Some i → w_deps g !! i = Some d →
  n_id (wd_blocker d) = n_id b → n_id held ∉ n_id <$> wd_held d →
  let g' := MkGroup (MkWaitingMatter (wm_matter (g_waiting g)) (wm_gates (g_waiting g)) (alter (hold held) i (w_deps g)))
    (g_gateKeys g) (g_blockers g) (<[n_id b := {[n_id held]} ∪ list_to_set (n_id <$> wd_held d)]> (g_held g)) in
  group_ok SG SD g' ∧ enlarges g g' ∧ lists_dep (w_deps g') (n_id b) (n_id held).
Proof.
  intros [H1 H2 H3 H4 H5] HS Hi Hd Hid Hnew g'. unfold g'. clear g'.
  assert (∀ j e, w_deps g !! j = Some e → n_id (wd_blocker e) = n_id b → j = i) as Huniq.
  { intros j e He Hj. assert (g_blockers g !! n_id b = Some j) by (apply H4; eauto). congruence. }
  split_and!.
  - split; [done..| |]; cbn [g_blockers g_held].
    + intros id j. rewrite w_deps_mk, H4. split.
      * intros (e & He & Hid'). destruct (decide (i = j)) as [<-|Hne].
        -- exists (hold held e). rewrite list_lookup_alter_eq, He. done.
        -- exists e. by rewrite list_lookup_alter_ne.
      * intros (e & He & Hid'). apply alter_inv in He as [(<- & e' & He' & <-)|[Hne He]]; eauto.
    + intros j e He. rewrite w_deps_mk in He. apply alter_inv in He as [(<- & e' & He' & <-)|[Hne He]]; cbn.
      * rewrite Hd in He'. injection He' as <-. rewrite Hid, lookup_insert_eq, fmap_app, list_to_set_app_L. cbn.
        destruct (H5 i d Hd) as (Hs & Hnd & Hsrc). split_and!; [f_equal; set_solver| |].
        -- apply NoDup_app. split_and!; [done| |apply NoDup_singleton]. by intros x Hx ->%list_elem_of_singleton.
        -- intros h [Hh| ->%list_elem_of_singleton]%elem_of_app; [|done]. rewrite <-Hid. by apply Hsrc.
      * rewrite lookup_insert_ne; [by apply (H5 j)|]. intros E. apply Hne. symmetry. by eapply Huniq.
  - split; [done|]. split; [done|]. intros x y (e & h & He & Hb & Hh & Hy). rewrite w_deps_mk.
    apply list_elem_of_lookup in He as [j He]. destruct (decide (i = j)) as [<-|Hne].
    + exists (hold held e), h. split_and!; [|done|cbn; apply elem_of_app; by left|done].
      apply list_elem_of_lookup. exists i. by rewrite list_lookup_alter_eq, He.
    + exists e, h. split_and!; try done. apply list_elem_of_lookup. exists j. by rewrite list_lookup_alter_ne.
  - rewrite w_deps_mk. exists (hold held d), held. split_and!; [|done|cbn; apply elem_of_app; right; by left|done].
    apply list_elem_of_lookup. exists i. by rewrite list_lookup_alter_eq, Hd.
Qed.

Lemma add_blocker_ok held b g :
  group_ok SG SD g → SD (n_id b) held →
  group_ok SG SD (add_blocker held b g) ∧ enlarges g (add_blocker held b g)
  ∧ lists_dep (w_deps (add_blocker held b g)) (n_id b) (n_id held).
Proof.
  intros Hg HS. rewrite add_blocker_eq. cbv zeta.
  destruct (with_blocker_ok b g Hg) as (Hg' & Hgr & i & d & Hi & Hd & Hid & _).
  pose proof (go_held _ _ _ Hg' i d Hd) as (Hh & Hnd & Hsrc). rewrite Hid in Hh. rewrite Hh, Hi. cbn [default].
  case_bool_decide as Hin.
  - split_and!; [done..|]. apply elem_of_list_to_set, list_elem_of_fmap in Hin as (h & Hhid & Hin).
    exists d, h. split_and!; try done. by eapply list_elem_of_lookup_2.
  - destruct (hold_ok i d b held _ Hg' HS Hi Hd Hid) as (H1 & H2 & H3).
    { intros Hx. apply Hin. by apply elem_of_list_to_set. }
    split_and!; [exact H1| |exact H3]. etrans; [exact Hgr|exact H2].
Qed.
End groups.

(** ** The map of groups *)
Section maps.
Context (p : Proj) (SG : string → GateRequirement → Prop) (SD : string → string → Node → Prop).

Definition group_full (k : string) (g : groupState) : Prop :=
  view_Node p k = Ok (wm_matter (g_waiting g)) ∧ group_ok (SG k) (SD k) g
  ∧ (w_gates g ≠ [] ∨ ∃ b h, lists_dep (w_deps g) b h).

Definition map_ok (gs : gmap string groupState) : Prop := map_Forall group_full gs.

Definition map_enlarges (gs gs' : gmap string groupState) : Prop :=
  ∀ k g, gs !! k = Some g → ∃ g', gs' !! k = Some g' ∧ enlarges g g'.

#[local] Instance map_enlarges_preorder : PreOrder map_enlarges.
Proof.
  split; [intros gs k g Hk; by exists g|]. intros a b c H1 H2 k g Hk.
  destruct (H1 k g Hk) as (g1 & Hg1 & ?). destruct (H2 k g1 Hg1) as (g2 & ? & ?). exists g2. split; [done|by etrans].
Qed.

Definition gate_listed (gs : gmap string groupState) (k key : string) : Prop :=
  ∃ g, gs !! k = Some g ∧ key ∈ gate_key <$> w_gates g.

Definition dep_listed (gs : gmap string groupState) (k b h : string) : Prop :=
  ∃ g, gs !! k = Some g ∧ lists_dep (w_deps g) b h.

Lemma gate_listed_enlarges gs gs' k key : map_enlarges gs gs' → gate_listed gs k key → gate_listed gs' k key.
Proof. intros Hg (g & Hk & Hin). destruct (Hg k g Hk) as (g' & ? & _ & H & _). exists g'. auto. Qed.

Lemma dep_listed_enlarges gs gs' k b h : map_enlarges gs gs' → dep_listed gs k b h → dep_listed gs' k b h.
Proof. intros Hg (g & Hk & Hin). destruct (Hg k g Hk) as (g' & ? & _ & _ & H). exists g'. auto. Qed.

(** The group of a live Matter, and what putting a larger one back does. *)
Lemma group_total k n gs :
  map_ok gs → view_Node p k = Ok n →
  ∃ g gs1, group p k gs = Ok (g, gs1) ∧ group_ok (SG k) (SD k) g
    ∧ ∀ g', enlarges g g' → group_ok (SG k) (SD k) g' → (w_gates g' ≠ [] ∨ ∃ b h, lists_dep (w_deps g') b h) →
        map_ok (<[k := g']> gs1) ∧ map_enlarges gs (<[k := g']> gs1).
Proof.
  intros Hok Hn. unfold group. destruct (gs !! k) as [g|] eqn:E.
  - exists g, gs. destruct (Hok k g E) as (Hv & Hg & Hne). split_and!; [done..|].
    intros g' Hgr Hg' Hne'. split.
    + apply map_Forall_insert_2; [|done]. split_and!; [|done..]. by rewrite (proj1 Hgr).
    + intros k' x Hx. destruct (decide (k = k')) as [<-|Hk].
      * rewrite lookup_insert_eq. rewrite E in Hx. injection Hx as <-. eauto.
      * rewrite lookup_insert_ne by done. exists x. by split.
  - rewrite Hn. cbn [mbind result_bind]. eexists _, _. split_and!; [reflexivity|apply group_ok_new|].
    intros g' Hgr Hg' Hne'. rewrite insert_insert_eq. split.
    + apply map_Forall_insert_2; [|done]. split_and!; [|done..]. by rewrite (proj1 Hgr).
    + intros k' x Hx. destruct (decide (k = k')) as [<-|Hk]; [congruence|].
      rewrite lookup_insert_ne by done. exists x. by split.
Qed.

Lemma gate_loop_total k n rs gs :
  map_ok gs → view_Node p k = Ok n → (∀ r, r ∈ rs → holds_done r = true → SG k r) →
  ∃ gs', gate_loop p k rs gs = Ok gs' ∧ map_ok gs' ∧ map_enlarges gs gs'
    ∧ ∀ r, r ∈ rs → holds_done r = true → gate_listed gs' k (gate_key r).
Proof.
  intros Hok Hn. revert gs Hok. induction rs as [|r rs IH]; intros gs Hok Hsrc; cbn [gate_loop].
  { exists gs. split_and!; [done..|]. by intros r ?%elem_of_nil. }
  destruct (holds_done r) eqn:Hr.
  2: { destruct (IH gs Hok) as (gs' & H1 & H2 & H3 & H4); [intros; apply Hsrc; [by right|done]|].
       exists gs'. split_and!; [done..|]. intros r' [->|Hin]%elem_of_cons Hr'; [congruence|auto]. }
  destruct (group_total k n gs Hok Hn) as (g & gs1 & -> & Hg & Hput). cbn [mbind result_bind].
  destruct (add_gate_ok (SG k) (SD k) r g Hg) as (Hg' & Hgr & Hin); [apply Hsrc; [by left|done]|].
  destruct (Hput _ Hgr Hg') as [Hok1 Hgr1].
  { left. intros E. rewrite E in Hin. by apply elem_of_nil in Hin. }
  destruct (IH _ Hok1) as (gs' & H1 & H2 & H3 & H4); [intros; apply Hsrc; [by right|done]|].
  exists gs'. split_and!; [done..|by etrans|]. intros r' [->|Hr']%elem_of_cons Hd; [|auto].
  eapply gate_listed_enlarges; [exact H3|]. eexists. rewrite lookup_insert_eq. eauto.
Qed.

Lemma finished_groups_total repo work fs gs :
  map_ok gs →
  (∀ f, f ∈ fs → stalled repo work (fin_node f) = true →
     (∃ n, view_Node p (n_matter (fin_node f)) = Ok n)
     ∧ ∀ r, r ∈ fin_pending f → holds_done r = true → SG (n_matter (fin_node f)) r) →
  ∃ gs', finished_groups p repo work fs gs = Ok gs' ∧ map_ok gs' ∧ map_enlarges gs gs'
    ∧ ∀ f r, f ∈ fs → stalled repo work (fin_node f) = true → r ∈ fin_pending f → holds_done r = true →
        gate_listed gs' (n_matter (fin_node f)) (gate_key r).
Proof.
  intros Hok. revert gs Hok. induction fs as [|f fs IH]; intros gs Hok Hsrc; cbn [finished_groups].
  { exists gs. split_and!; [done..|]. by intros f r ?%elem_of_nil. }
  assert (∃ gs1, (if stalled repo work (fin_node f) then gate_loop p (n_matter (fin_node f)) (fin_pending f) gs
      else Ok gs) = Ok gs1 ∧ map_ok gs1 ∧ map_enlarges gs gs1
    ∧ (stalled repo work (fin_node f) = true → ∀ r, r ∈ fin_pending f → holds_done r = true →
         gate_listed gs1 (n_matter (fin_node f)) (gate_key r))) as (gs1 & -> & Hok1 & Hgr1 & Hl1).
  { destruct (stalled repo work (fin_node f)) eqn:E; [|by exists gs].
    destruct (Hsrc f) as ((n & Hn) & Hs); [by left|done|].
    destruct (gate_loop_total _ n (fin_pending f) gs Hok Hn Hs) as (gs1 & ? & ? & ? & ?). eauto. }
  cbn [mbind result_bind]. destruct (IH gs1 Hok1) as (gs' & -> & H2 & H3 & H4).
  { intros f' ? ?. apply Hsrc; [by right|done]. }
  exists gs'. split_and!; [done..|by etrans|]. intros f' r [->|Hf']%elem_of_cons Hst Hr Hd; [|by eapply H4].
  eapply gate_listed_enlarges; [exact H3|]. by apply Hl1.
Qed.

Lemma blockers_total k held bs g :
  group_ok (SG k) (SD k) g → (∀ b, b ∈ bs → SD k (n_id b) held) →
  let g' := foldl (λ g b, add_blocker held b g) g bs in
  group_ok (SG k) (SD k) g' ∧ enlarges g g' ∧ ∀ b, b ∈ bs → lists_dep (w_deps g') (n_id b) (n_id held).
Proof.
  cbv zeta. revert g. induction bs as [|b bs IH]; intros g Hg Hsrc; cbn [foldl].
  { split_and!; [done|reflexivity|]. by intros b ?%elem_of_nil. }
  destruct (add_blocker_ok (SG k) (SD k) held b g Hg) as (H1 & H2 & H3); [apply Hsrc; by left|].
  destruct (IH _ H1) as (H4 & H5 & H6); [intros; apply Hsrc; by right|].
  split_and!; [done|by etrans|]. intros b' [->|Hb]%elem_of_cons; [|auto]. by apply H5.
Qed.

Lemma blocked_groups_total bs gs :
  map_ok gs →
  (∀ b, b ∈ bs → (∃ n, view_Node p (n_matter (bk_node b)) = Ok n) ∧ bk_blockers b ≠ []
     ∧ ∀ x, x ∈ bk_blockers b → SD (n_matter (bk_node b)) (n_id x) (bk_node b)) →
  ∃ gs', blocked_groups p bs gs = Ok gs' ∧ map_ok gs' ∧ map_enlarges gs gs'
    ∧ ∀ b x, b ∈ bs → x ∈ bk_blockers b → dep_listed gs' (n_matter (bk_node b)) (n_id x) (n_id (bk_node b)).
Proof.
  intros Hok. revert gs Hok. induction bs as [|b bs IH]; intros gs Hok Hsrc; cbn [blocked_groups].
  { exists gs. split_and!; [done..|]. by intros b x ?%elem_of_nil. }
  destruct (Hsrc b) as ((n & Hn) & Hne & Hs); [by left|].
  destruct (group_total _ n gs Hok Hn) as (g & gs1 & -> & Hg & Hput). cbn [mbind result_bind].
  destruct (blockers_total _ (bk_node b) (bk_blockers b) g Hg Hs) as (Hg' & Hgr & Hl).
  destruct (Hput _ Hgr Hg') as [Hok1 Hgr1].
  { right. destruct (bk_blockers b) as [|x xs]; [done|]. eexists _, _. apply Hl. by left. }
  destruct (IH _ Hok1) as (gs' & -> & H2 & H3 & H4); [intros; apply Hsrc; by right|].
  exists gs'. split_and!; [done..|by etrans|]. intros b' x [->|Hb]%elem_of_cons Hx; [|by eapply H4].
  eapply dep_listed_enlarges; [exact H3|]. eexists. rewrite lookup_insert_eq. eauto.
Qed.
End maps.

(** ** The projection *)
Section waiting.
Context (log : list Event) (p : Proj) (Hdb : db_ok log p) (Hst : only_steps_removed p).
#[local] Set Default Proof Using "All".

Lemma matter_live n : view_Node p (n_id n) = Ok n → ∃ m, view_Node p (n_matter n) = Ok m.
Proof.
  intros Hn. pose proof (scale_depth n) as Hd. revert n Hn Hd. generalize tree_depth.
  refine (climb_ind log p Hdb Hst (λ _ n, ∃ m, view_Node p (n_matter n) = Ok m) _ _).
  - intros _ n Hn Hp. exists n. pose proof Hn as (r & Hr & _ & E)%view_Node_Ok.
    pose proof (sh_tree p (db_shape _ _ Hdb) _ _ Hr) as Ht. unfold node_ok in Ht.
    rewrite E in Hp. cbn in Hp. destruct (nd_parent r) as [pk|] eqn:Ep.
    + cbn in Hp. subst pk. destruct Ht as (pr & Hpr & _). by pose proof (sh_checked p (db_shape _ _ Hdb) TNodes "" pr Hpr).
    + destruct Ht as [_ Hm]. rewrite E. cbn. rewrite Hm. by rewrite Hn, <-E.
  - intros _ n m _ _ _ _ Hm IH. by rewrite <-Hm.
Qed.

Lemma above_matter n m :
  view_Node p (n_id n) = Ok n → view_Node p (n_id m) = Ok m → above p (n_id n) (n_id m) → n_matter m = n_matter n.
Proof.
  intros Hn Hm Ha. remember (n_id n) as x eqn:Ex. remember (n_id m) as y eqn:Ey. revert n Hn Ex.
  induction Ha as [x y (n' & Hn' & <- & Hy)|x z y (n' & Hn' & <- & Hz) _ IH]; intros n Hn ->;
    rewrite Hn in Hn'; injection Hn' as <-.
  - destruct (parent_live _ _ Hdb Hst _ _ Hn Hy) as (m' & Hm' & Hmat & _). rewrite Hm in Hm'. by injection Hm' as ->.
  - destruct (parent_live _ _ Hdb Hst _ _ Hn Hz) as (m' & Hm' & Hmat & _).
    assert (n_id m' = n_parent n) as Hid by (apply view_Node_Ok in Hm' as (? & _ & _ & ->); done).
    rewrite (IH Ey Hm m' Hm' (eq_sym Hid)). done.
Qed.

Lemma blocked_above_total ids n :
  view_Node p (n_id n) = Ok n →
  ∃ b, blocked_above tree_depth p ids (n_parent n) = Ok b ∧ (b = true ↔ ∃ y, above p (n_id n) y ∧ y ∈ ids).
Proof.
  intros Hn. pose proof (scale_depth n) as Hd. revert n Hn Hd. generalize tree_depth.
  refine (climb_ind log p Hdb Hst (λ depth n, ∃ b, blocked_above depth p ids (n_parent n) = Ok b
    ∧ (b = true ↔ ∃ y, above p (n_id n) y ∧ y ∈ ids)) _ _).
  - intros depth n Hn Hp. exists false. split; [by destruct depth; cbn [blocked_above]; rewrite bool_decide_true|].
    split; [done|]. intros (y & [Ha _]%(above_parent p n _ Hn) & _). by rewrite Hp in Ha.
  - intros depth n m Hn Hp Hm Hid _ (b & Hb & Hiff). cbn [blocked_above]. rewrite bool_decide_false by done.
    case_bool_decide as Hin.
    + exists true. split; [done|]. split; [|done]. intros _. exists (n_parent n). split; [|done].
      apply (above_parent p n _ Hn). auto.
    + rewrite Hm. cbn [mbind result_bind]. exists b. split; [done|]. rewrite Hiff, Hid.
      split; intros (y & Ha & Hy); exists y; (split; [|done]).
      * apply (above_parent p n _ Hn). auto.
      * by apply (above_parent p n _ Hn) in Ha as [_ [->|Ha]].
Qed.

Definition live_blocked (bs : list Blocked) : Prop := ∀ b, b ∈ bs → view_Node p (n_id (bk_node b)) = Ok (bk_node b).

Lemma actionable_total repo work ids bs :
  live_blocked bs → ∃ act, actionable p repo work ids bs = Ok act
    ∧ ∀ b, b ∈ act ↔ b ∈ bs ∧ stalled repo work (bk_node b) = true
        ∧ ∀ y, above p (n_id (bk_node b)) y → y ∉ ids.
Proof.
  induction bs as [|b bs IH]; intros Hl; cbn [actionable].
  { exists []. split; [done|]. intros b. rewrite elem_of_nil. tauto. }
  destruct IH as (act & Hact & Hiff); [intros b' ?; apply Hl; by right|].
  destruct (stalled repo work (bk_node b)) eqn:Est.
  2: { exists act. split; [done|]. intros b'. rewrite Hiff, elem_of_cons. split; [tauto|].
       intros ([->|?] & ? & ?); [congruence|done]. }
  destruct (blocked_above_total ids (bk_node b)) as (d & -> & Hd); [apply Hl; by left|]. cbn [mbind result_bind].
  rewrite Hact. cbn [mbind result_bind]. eexists. split; [reflexivity|]. intros b'. destruct d.
  - rewrite Hiff, elem_of_cons. split; [tauto|]. intros ([->|?] & ? & Hno); [|done].
    destruct (proj1 Hd eq_refl) as (y & Hy & Hin). by destruct (Hno y Hy).
  - rewrite !elem_of_cons, Hiff. split; [|tauto]. intros [->|?]; [|tauto]. split_and!; [by left|done|].
    intros y Hy Hin. assert (false = true); [|done]. apply Hd. eauto.
Qed.

(** ** What is listed, and why *)
Definition gate_cause (repo : string) (work : gset string) (fs : list Finished) (k : string) (r : GateRequirement) : Prop :=
  ∃ f, f ∈ fs ∧ stalled repo work (fin_node f) = true ∧ n_matter (fin_node f) = k
    ∧ r ∈ fin_pending f ∧ holds_done r = true.

(** A blocked node of a stalled Matter with no blocked node above it, and one of
    its blockers. *)
Definition dep_cause (repo : string) (work : gset string) (bs : list Blocked) (k x : string) (h : Node) : Prop :=
  ∃ b, b ∈ bs ∧ bk_node b = h ∧ stalled repo work h = true ∧ n_matter h = k
    ∧ x ∈ n_id <$> bk_blockers b
    ∧ ∀ b', b' ∈ bs → stalled repo work (bk_node b') = true → ¬ above p (n_id h) (n_id (bk_node b')).

(** One line of the projection. *)
Record waiting_ok (repo : string) (work : gset string) (fs : list Finished) (bs : list Blocked) (w : WaitingMatter)
    : Prop := MkWaitingOk {
  wo_matter : view_Node p (n_id (wm_matter w)) = Ok (wm_matter w);
  wo_gates : NoDup (gate_key <$> wm_gates w) ∧ ∀ r, r ∈ wm_gates w → gate_cause repo work fs (n_id (wm_matter w)) r;
  wo_deps : NoDup ((λ d, n_id (wd_blocker d)) <$> wm_dependencies w)
    ∧ ∀ d, d ∈ wm_dependencies w → NoDup (n_id <$> wd_held d)
        ∧ ∀ h, h ∈ wd_held d → dep_cause repo work bs (n_id (wm_matter w)) (n_id (wd_blocker d)) h;
  wo_some : wm_gates w ≠ [] ∨ ∃ b h, lists_dep (wm_dependencies w) b h
}.

Lemma group_waiting repo work fs bs k g :
  group_full p (gate_cause repo work fs) (dep_cause repo work bs) k g →
  n_id (wm_matter (g_waiting g)) = k ∧ waiting_ok repo work fs bs (g_waiting g).
Proof.
  intros (Hv & [H1 H2 H3 H4 H5] & Hne).
  assert (n_id (wm_matter (g_waiting g)) = k) as Hk by (apply view_Node_Ok in Hv as (? & _ & _ & ->); done).
  split; [done|]. split; rewrite ?Hk; [done|done| |done]. split.
  - apply NoDup_alt. intros i j x Hi Hj. rewrite list_lookup_fmap in Hi, Hj.
    destruct (w_deps g !! i) as [d|] eqn:Ei; unfold w_deps in Ei; rewrite Ei in Hi; [|done].
    destruct (w_deps g !! j) as [e|] eqn:Ej; unfold w_deps in Ej; rewrite Ej in Hj; [|done].
    injection Hi as <-. injection Hj as Hid.
    assert (g_blockers g !! n_id (wd_blocker d) = Some i) by (apply H4; eauto).
    assert (g_blockers g !! n_id (wd_blocker d) = Some j) by (apply H4; eauto). congruence.
  - intros d [i Hi]%list_elem_of_lookup. destruct (H5 i d Hi) as (_ & ? & ?). done.
Qed.

Lemma Waiting_total repo inp ready fs bs :
  (∀ f, f ∈ fs → view_Node p (n_id (fin_node f)) = Ok (fin_node f)) → live_blocked bs →
  (∀ b, b ∈ bs → bk_blockers b ≠ []) →
  let work := workable p repo inp ready in
  ∃ ws, Waiting p repo inp ready fs bs = Ok ws
    ∧ StronglySorted slt ((λ w, n_id (wm_matter w)) <$> ws)
    ∧ (∀ w, w ∈ ws → waiting_ok repo work fs bs w)
    ∧ (∀ k r, gate_cause repo work fs k r →
         ∃ w, w ∈ ws ∧ n_id (wm_matter w) = k ∧ gate_key r ∈ gate_key <$> wm_gates w)
    ∧ (∀ k x h, dep_cause repo work bs k x h →
         ∃ w, w ∈ ws ∧ n_id (wm_matter w) = k ∧ lists_dep (wm_dependencies w) x (n_id h)).
Proof.
  intros Hfs Hbs Hne work. unfold Waiting. fold work. set (ids := list_to_set _).
  destruct (actionable_total repo work ids bs Hbs) as (act & -> & Hact). cbn [mbind result_bind].
  assert (∀ b x, b ∈ act → x ∈ n_id <$> bk_blockers b → dep_cause repo work bs (n_matter (bk_node b)) x (bk_node b)) as Hdep.
  { intros b x (Hb & Hstl & Hno)%Hact Hx. exists b. split_and!; try done. intros b' Hb' Hs' Ha. apply (Hno _ Ha).
    apply elem_of_list_to_set, list_elem_of_fmap_2, list_elem_of_filter. split; [done|]. by apply list_elem_of_fmap_2. }
  destruct (finished_groups_total p (gate_cause repo work fs) (dep_cause repo work bs) repo work fs ∅)
    as (gs1 & -> & Hok1 & _ & Hl1); [apply map_Forall_empty| |].
  { intros f Hf Hs. split; [apply matter_live; auto|]. intros r Hr Hd. exists f. done. }
  cbn [mbind result_bind].
  destruct (blocked_groups_total p (gate_cause repo work fs) (dep_cause repo work bs) act gs1 Hok1)
    as (gs2 & -> & Hok2 & Hgr2 & Hl2).
  { intros b Hb. pose proof Hb as (Hin & _)%Hact. split_and!; [apply matter_live; auto|auto|].
    intros x Hx. apply Hdep; [done|]. by apply list_elem_of_fmap_2. }
  cbn [mbind result_bind]. eexists. split; [reflexivity|].
  assert (∀ w, w ∈ order_by by_matter ((λ kg : string * groupState, g_waiting kg.2) <$> map_to_list gs2)
    ↔ ∃ k g, gs2 !! k = Some g ∧ w = g_waiting g) as Hin.
  { intros w. rewrite elem_of_order_by, list_elem_of_fmap. split.
    - intros ([k g] & -> & Hk%elem_of_map_to_list). eauto.
    - intros (k & g & Hk & ->). exists (k, g). split; [done|]. by apply elem_of_map_to_list. }
  assert (∀ k g, gs2 !! k = Some g → n_id (wm_matter (g_waiting g)) = k ∧ waiting_ok repo work fs bs (g_waiting g)) as Hg.
  { intros k g Hk. by apply group_waiting, Hok2. }
  split_and!.
  - apply (order_by_strict (λ w, n_id (wm_matter w))). rewrite <-list_fmap_compose.
    assert (((λ w, n_id (wm_matter w)) ∘ λ kg : string * groupState, g_waiting kg.2) <$> map_to_list gs2
      = (map_to_list gs2).*1) as ->; [|apply NoDup_fst_map_to_list].
    apply list_fmap_ext. intros i [k g] Hi. apply list_elem_of_lookup_2, elem_of_map_to_list in Hi. cbn. by apply Hg.
  - intros w (k & g & Hk & ->)%Hin. by apply Hg in Hk as [_ ?].
  - intros k r (f & Hf & Hs & <- & Hr & Hd).
    destruct (gate_listed_enlarges _ _ _ _ Hgr2 (Hl1 f r Hf Hs Hr Hd)) as (g & Hgk & Hin').
    exists (g_waiting g). split_and!; [apply Hin; eauto|by apply Hg|done].
  - intros k x h (b & Hb & <- & Hs & <- & (m & -> & Hm)%list_elem_of_fmap & Hno).
    destruct (Hl2 b m) as (g & Hgk & Hdl); [|done|].
    { apply Hact. split_and!; try done. intros y Ha (n & -> & [Hsn (b' & -> & Hb')%list_elem_of_fmap]%list_elem_of_filter)%elem_of_list_to_set%list_elem_of_fmap.
      by apply (Hno b'). }
    exists (g_waiting g). split_and!; [apply Hin; eauto|by apply Hg|done].
Qed.
End waiting.
