(* ===== verification/Next.v ===== *)
(** What comes next (src/internal/readsurface: next.go, status.go, handoff.go): the
    cursor fused with the frontier, one Repo's status, and the hand-off a write
    verb prints when the work under the cursor has ended. *)
From S2P Require Import Prelude GoStd Ulid Taxonomy Json Payloads Tables View Gates Project Store.
From S2P Require Import ReadSurface Waiting.

(** ** next.go *)
Inductive Kind :=
| BareMatter | Positioned | NothingUnblocked | NoCursor | EverythingSealed | InProgressNoCursor | ChooseNext.

#[global] Instance Kind_eq_dec : EqDecision Kind.
Proof. solve_decision. Defined.

(** The zero value of a field is [None], [""], [[]] or [0]. *)
Record NextView := MkNextView {
  nv_kind : Kind;
  nv_node : option Node;
  nv_address : string;
  nv_stage : option StagePosition;
  nv_unmet : list Node;
  nv_met : list Node;
  nv_pending : list GateRequirement;
  nv_ended : string;
  nv_candidates : list Node;
  nv_blocked : list Blocked;
  nv_waiting : list WaitingMatter;
  nv_backlog : nat;
  nv_in_progress : list Node
}.

(** View{Kind: kind, Candidates: ..., Blocked: ..., Waiting: ..., BacklogCount: ...,
    InProgress: ...} *)
Definition plain_view (kind : Kind) (candidates : list Node) (blocked : list Blocked)
    (waiting : list WaitingMatter) (backlog : nat) (inProgress : list Node) : NextView :=
  MkNextView kind None "" None [] [] [] "" candidates blocked waiting backlog inProgress.

Definition filterByRepo (nodes : list Node) (repo : string) : list Node :=
  filter (λ n, n_repo n = repo) nodes.

Definition filterBlockedByRepo (blocked : list Blocked) (repo : string) : list Blocked :=
  filter (λ b, n_repo (bk_node b) = repo) blocked.

Definition waitingForRepo (log : list Event) (p : Proj) (repo : string) (blocked : list Blocked)
    : result (list WaitingMatter) :=
  finished ← FinishedNodes log p;
  frontier ← Frontier log p;
  Waiting p repo (view_InProgress p) frontier.1 finished blocked.

Definition chooseNextView (log : list Event) (p : Proj) (repo : string) (node : option Node) (reason : string)
    (candidates : list Node) (blocked : list Blocked) : result NextView :=
  let inProgress := filterByRepo (view_InProgress p) repo in
  waiting ← (if bool_decide (candidates = []) && bool_decide (inProgress = [])
             then waitingForRepo log p repo blocked else Ok []);
  Ok (MkNextView ChooseNext node "" None [] [] [] reason candidates [] waiting 0 inProgress).

(** Entries of the backlog that nobody has triaged. *)
Definition unprocessed (p : Proj) (repo : string) : nat :=
  length (filter (λ kr : string * BacklogRow, bl_state kr.2 = BacklogEnteredState) (Backlog p repo)).

Definition noCursorView (log : list Event) (p : Proj) (repo : string) (ready : list Node) (blocked : list Blocked)
    : result NextView :=
  if negb (bool_decide (ready = [])) then Ok (plain_view NoCursor ready [] [] 0 [])
  else
    waiting ← (if negb (bool_decide (length blocked = O)) then waitingForRepo log p repo blocked else Ok []);
    if negb (bool_decide (length waiting = O)) then Ok (plain_view NothingUnblocked [] blocked waiting 0 [])
    else
      let inRepo := filterByRepo (view_InProgress p) repo in
      if negb (bool_decide (inRepo = [])) then Ok (plain_view InProgressNoCursor [] [] [] 0 inRepo)
      else
        waiting ← waitingForRepo log p repo [];
        if negb (bool_decide (length waiting = O)) then Ok (plain_view NothingUnblocked [] [] waiting 0 [])
        else Ok (plain_view EverythingSealed [] [] [] (unprocessed p repo) []).

Definition positionedView (log : list Event) (p : Proj) (target : Node) : result NextView :=
  address ← Address p target;
  blockers ← split_blockers log p (BlockedBy p (n_id target));
  let kind := if bool_decide (n_kind target = ScaleMatter) && bool_decide (Children p (n_id target) = [])
              then BareMatter else Positioned in
  completion ← view_NodeCompletion log p target;
  Ok (MkNextView kind (Some target) address.1 address.2 blockers.2 blockers.1 (Pending completion) "" [] [] [] 0 []).

Definition next (log : list Event) (p : Proj) (cur : Current) : result NextView :=
  let repo := cur_repo cur in
  frontier ← Frontier log p;
  readyInRepo ← CollapseReady p (filterByRepo frontier.1 repo);
  let blockedInRepo := filterBlockedByRepo frontier.2 repo in
  match read_Cursor p cur with
  | None => noCursorView log p repo readyInRepo blockedInRepo
  | Some node =>
      match view_Node p node with
      | Error _ => chooseNextView log p repo None "removed" readyInRepo blockedInRepo
      | Ok target =>
          if bool_decide (n_lifecycle target = Canceled)
          then chooseNextView log p repo (Some target) "canceled" readyInRepo blockedInRepo
          else
            sealed ← read_Sealed log p target;
            if sealed : bool then chooseNextView log p repo (Some target) "sealed" readyInRepo blockedInRepo
            else positionedView log p target
      end
  end.

(** ** handoff.go *)
Record CursorEnded := MkCursorEnded { ce_reason : string; ce_target : option Node; ce_suggested : option Node }.

Definition readySiblingStep (log : list Event) (p : Proj) (target : Node) : result (option Node) :=
  frontier ← Frontier log p;
  Ok (find (λ n, bool_decide (n_kind n = ScaleStep) && bool_decide (n_parent n = n_parent target)) frontier.1).

Definition EndedCursor (log : list Event) (p : Proj) (clone worktree : string) : result (option CursorEnded) :=
  match view_Cursor p clone worktree with
  | None => Ok None
  | Some node =>
      match view_Node p node with
      | Error _ => Ok (Some (MkCursorEnded "removed" None None))
      | Ok target =>
          if bool_decide (n_lifecycle target = Canceled) then Ok (Some (MkCursorEnded "canceled" (Some target) None))
          else
            sealed ← read_Sealed log p target;
            if negb sealed then Ok None
            else
              suggested ← (if bool_decide (n_kind target = ScaleStep) && negb (bool_decide (n_parent target = ""))
                           then readySiblingStep log p target else Ok None);
              Ok (Some (MkCursorEnded "sealed" (Some target) suggested))
      end
  end.

Definition done_line : string :=
  "the cursor's work is done — wip next to choose what's next, or wip next --clear".

Definition HandoffLine (p : Proj) (ended : option CursorEnded) : result string :=
  match ended with
  | None => Ok ""
  | Some e =>
      match ce_suggested e with
      | None => Ok done_line
      | Some n =>
          matter ← view_Node p (n_matter n);
          Ok (n_locator n +:+ " is next in " +:+ n_locator matter +:+ ": wip next --set " +:+ n_locator n
              +:+ " — or wip next / wip next --clear")
      end
  end.

Definition Handoff (log : list Event) (p : Proj) (clone worktree : string)
    : option (CursorEnded * string * string) :=
  match EndedCursor log p clone worktree with
  | Ok (Some e) =>
      match HandoffLine p (Some e) with
      | Ok l =>
          match ce_target e with
          | None => Some (e, l, "")
          | Some t => match Address p t with Ok a => Some (e, l, a.1) | Error _ => None end
          end
      | Error _ => None
      end
  | _ => None
  end.

(** ** status.go *)

(** Times are milliseconds in the log; a duration and an instant of the clock are
    nanoseconds. *)
Definition nanoseconds (ms : Z) : Z := ms * 1000000.

Definition recentSealedWindow : Z := nanoseconds (14 * 24 * 3600 * 1000).

(** [co_now] is the caller's Now, or the clock's reading when Now is left zero. *)
Record ContentOptions := MkContentOptions { co_all : bool; co_now : Z; co_cursor : string }.

Record RepoContent := MkRepoContent {
  rc_in_progress : list Node; rc_finished : list Finished; rc_ready : list Node;
  rc_blocked : list Blocked; rc_waiting : list WaitingMatter; rc_hidden : nat
}.

Fixpoint chain_ids (depth : nat) (p : Proj) (n : Node) : result (gset string) :=
  if bool_decide (n_parent n = "") then Ok {[n_id n]}
  else
    match depth with
    | O => Error EFuel
    | S depth => parent ← view_Node p (n_parent n); rest ← chain_ids depth p parent; Ok ({[n_id n]} ∪ rest)
    end.

Definition cursorExemptions (p : Proj) (cursor : string) : result (gset string) :=
  if bool_decide (cursor = "") then Ok ∅
  else match view_Node p cursor with Error _ => Ok ∅ | Ok n => chain_ids tree_depth p n end.

(** The entries the window keeps, and how many it hides. *)
Fixpoint recent (log : list Event) (p : Proj) (exempt : gset string) (cutoff : Z) (finished : list Finished)
    : result (list Finished * nat) :=
  match finished with
  | [] => Ok ([], O)
  | f :: finished =>
      hidden ← (if bool_decide (n_kind (fin_node f) = ScaleMatter) && fin_sealed f
                   && negb (bool_decide (n_id (fin_node f) ∈ exempt))
                then at_ ← SealedAt log p (fin_node f);
                     Ok (match at_ with Some t => (nanoseconds t <? cutoff)%Z | None => false end)
                else Ok false);
      rest ← recent log p exempt cutoff finished;
      Ok (if hidden : bool then (rest.1, S rest.2) else (f :: rest.1, rest.2))
  end.

Definition status_Content (log : list Event) (p : Proj) (repo : string) (opts : ContentOptions)
    : result RepoContent :=
  finished ← FinishedNodes log p;
  frontier ← Frontier log p;
  waiting ← Waiting p repo (view_InProgress p) frontier.1 finished frontier.2;
  let mine := filter (λ f, n_repo (fin_node f) = repo) finished in
  shown ← (if co_all opts then Ok (mine, O)
           else
             exempt ← cursorExemptions p (co_cursor opts);
             collapsed ← CollapseFinished p mine exempt;
             recent log p exempt (co_now opts - recentSealedWindow)%Z collapsed);
  ready ← CollapseReady p (filterByRepo frontier.1 repo);
  Ok (MkRepoContent (filterByRepo (view_InProgress p) repo) shown.1 ready
        (filterBlockedByRepo frontier.2 repo) waiting shown.2).
