(* ===== verification/NextFacts.v ===== *)
(** What next and status answer (src/internal/readsurface: next.go, status.go,
    handoff.go) on a store the fold built in which only Steps were removed. *)
From stdpp Require Import relations.
From S2P Require Import Prelude GoStd Ulid Taxonomy Json Payloads Tables View Gates Project Store.
From S2P Require Import Steps Invariants Shape Mint Reach Cycle Completion NodeVerbs ReadSurface Removal.
From S2P Require Import ReadFacts Waiting WaitingFacts Next.

Section next.
Context (log : list Event) (p : Proj) (Hdb : db_ok log p) (Hst : only_steps_removed p).
#[local] Set Default Proof Using "All".

(** ** Finished work *)
Lemma finished_loop_total ns :
  live_all p ns → ∃ fs, finished_loop log p ns = Ok fs ∧ (fin_node <$> fs) = ns
    ∧ ∀ f, f ∈ fs → ∃ c, view_NodeCompletion log p (fin_node f) = Ok c
        ∧ f = MkFinished (fin_node f) (LocallyComplete c) (Sealed c) (Pending c).
Proof.
  induction ns as [|n ns IH]; intros Hl; cbn [finished_loop].
  { exists []. split_and!; [done..|]. by intros f ?%elem_of_nil. }
  destruct (completion_total log p Hdb Hst n) as (c & Hc); [apply Hl; by left|]. rewrite Hc. cbn [mbind result_bind].
  destruct IH as (fs & -> & Hmap & Hall); [intros m ?; apply Hl; by right|]. cbn [mbind result_bind].
  eexists. split; [reflexivity|]. rewrite fmap_cons, Hmap. split; [done|].
  intros f [->|Hf]%elem_of_cons; [exists c; done|auto].
Qed.

Lemma FinishedNodes_total :
  ∃ fs, FinishedNodes log p = Ok fs ∧ (fin_node <$> fs) = view_Done p
    ∧ ∀ f, f ∈ fs → view_Node p (n_id (fin_node f)) = Ok (fin_node f) ∧ n_lifecycle (fin_node f) = Done
        ∧ ∃ c, view_NodeCompletion log p (fin_node f) = Ok c
          ∧ f = MkFinished (fin_node f) (LocallyComplete c) (Sealed c) (Pending c).
Proof.
  destruct (finished_loop_total (view_Done p)) as (fs & Hfs & Hmap & Hall).
  { intros n [Hn _]%elem_of_lifecycle. done. }
  exists fs. split_and!; [done..|]. intros f Hf. assert (fin_node f ∈ view_Done p) as [Hn Hd]%elem_of_lifecycle.
  { rewrite <-Hmap. by apply list_elem_of_fmap_2. }
  auto.
Qed.

(** ** Addresses *)
Lemma Address_total n : view_Node p (n_id n) = Ok n → ∃ a, Address p n = Ok a.
Proof.
  intros Hn. unfold Address. destruct (n_kind n) eqn:Hk; [eauto|..];
    (destruct (matter_live log p Hdb Hst n Hn) as (m & Hm); rewrite Hm; cbn [mbind result_bind]).
  - rewrite bool_decide_true by done. eauto.
  - rewrite bool_decide_false by done. case_bool_decide; [eauto|].
    assert (n_parent n ≠ "") as Hp.
    { intros Hp. pose proof Hn as (r & Hr & _ & E)%view_Node_Ok. rewrite E in Hp, Hk. cbn in Hp, Hk.
      pose proof (sh_tree p (db_shape _ _ Hdb) _ _ Hr) as Ht. unfold node_ok in Ht.
      destruct (nd_parent r) as [pk|] eqn:Ep; [|destruct Ht; congruence]. cbn in Hp. subst pk.
      destruct Ht as (pr & Hpr & _). by pose proof (sh_checked p (db_shape _ _ Hdb) TNodes "" pr Hpr). }
    destruct (parent_live _ _ Hdb Hst _ _ Hn Hp) as (s & Hs & _). rewrite Hs. cbn [mbind result_bind]. eauto.
Qed.

(** ** Waiting for a Repo *)
Definition ready_nodes : list Node := filter (λ n, unmet log p (n_id n) = []) (view_Planned p).
Definition blocked_nodes : list Blocked :=
  (λ n, MkBlocked n (unmet log p (n_id n))) <$> filter (λ n, unmet log p (n_id n) ≠ []) (view_Planned p).

Lemma blocked_nodes_live : live_blocked p blocked_nodes.
Proof. intros b (n & -> & [_ [Hn _]%elem_of_lifecycle]%list_elem_of_filter)%list_elem_of_fmap. done. Qed.

Lemma blocked_nodes_unmet b : b ∈ blocked_nodes → bk_blockers b ≠ [].
Proof. by intros (n & -> & [Hu _]%list_elem_of_filter)%list_elem_of_fmap. Qed.

Lemma ready_nodes_live : live_all p ready_nodes.
Proof. intros n [_ [Hn _]%elem_of_lifecycle]%list_elem_of_filter. done. Qed.

Lemma waitingForRepo_total repo bs :
  live_blocked p bs → (∀ b, b ∈ bs → bk_blockers b ≠ []) →
  ∃ fs ws, FinishedNodes log p = Ok fs ∧ waitingForRepo log p repo bs = Ok ws
    ∧ Waiting p repo (view_InProgress p) ready_nodes fs bs = Ok ws.
Proof.
  intros Hb Hne. destruct FinishedNodes_total as (fs & Hfs & _ & Hall). unfold waitingForRepo. rewrite Hfs.
  cbn [mbind result_bind]. rewrite (Frontier_total log p Hdb Hst). cbn [mbind result_bind fst].
  destruct (Waiting_total log p Hdb Hst repo (view_InProgress p) ready_nodes fs bs) as (ws & Hws & _);
    [intros f Hf; by apply Hall|done..|].
  exists fs, ws. split_and!; done.
Qed.

(** ** The parts of next *)
Lemma in_repo_blocked repo :
  live_blocked p (filterBlockedByRepo blocked_nodes repo)
  ∧ ∀ b, b ∈ filterBlockedByRepo blocked_nodes repo → bk_blockers b ≠ [].
Proof.
  split; intros b [_ Hb]%list_elem_of_filter; [by apply blocked_nodes_live|by apply blocked_nodes_unmet].
Qed.

Lemma chooseNextView_total repo node reason candidates bs :
  live_blocked p bs → (∀ b, b ∈ bs → bk_blockers b ≠ []) →
  ∃ v, chooseNextView log p repo node reason candidates bs = Ok v
    ∧ nv_kind v = ChooseNext ∧ nv_ended v = reason ∧ nv_node v = node ∧ nv_candidates v = candidates
    ∧ nv_in_progress v = filterByRepo (view_InProgress p) repo.
Proof.
  intros Hb Hne. unfold chooseNextView. destruct (waitingForRepo_total repo bs Hb Hne) as (_ & ws & _ & Hws & _).
  case_match; [rewrite Hws|]; cbn [mbind result_bind]; eexists; (split; [reflexivity|done]).
Qed.

Lemma positionedView_total target :
  view_Node p (n_id target) = Ok target →
  ∃ v, positionedView log p target = Ok v ∧ nv_node v = Some target
    ∧ (nv_kind v = BareMatter ↔ n_kind target = ScaleMatter ∧ Children p (n_id target) = [])
    ∧ (nv_kind v = Positioned ∨ nv_kind v = BareMatter)
    ∧ nv_unmet v = unmet log p (n_id target) ∧ nv_met v = met log p (n_id target).
Proof.
  intros Ht. unfold positionedView. destruct (Address_total target Ht) as (a & ->). cbn [mbind result_bind].
  rewrite (split_blockers_of log p Hdb Hst). cbn [mbind result_bind].
  destruct (completion_total log p Hdb Hst target Ht) as (c & ->). cbn [mbind result_bind].
  eexists. split; [reflexivity|]. cbn. split; [done|].
  case_bool_decide as H1; case_bool_decide as H2; cbn; naive_solver.
Qed.

(** The shapes of an answer without a cursor. *)
Definition cursorless (k : Kind) : Prop :=
  k = NoCursor ∨ k = NothingUnblocked ∨ k = InProgressNoCursor ∨ k = EverythingSealed.

Lemma noCursorView_total repo ready bs :
  live_blocked p bs → (∀ b, b ∈ bs → bk_blockers b ≠ []) →
  ∃ v, noCursorView log p repo ready bs = Ok v ∧ cursorless (nv_kind v)
    ∧ (nv_kind v = NoCursor ↔ ready ≠ []) ∧ (nv_kind v = NoCursor → nv_candidates v = ready)
    ∧ (nv_kind v = EverythingSealed → ready = [] ∧ filterByRepo (view_InProgress p) repo = []
       ∧ nv_backlog v = unprocessed p repo
       ∧ (bs ≠ [] → waitingForRepo log p repo bs = Ok []) ∧ waitingForRepo log p repo [] = Ok []).
Proof.
  intros Hb Hne. unfold noCursorView, cursorless. case_bool_decide as Hr; cbn [negb].
  2: { eexists. split; [reflexivity|]. cbn. naive_solver. }
  destruct (waitingForRepo_total repo bs Hb Hne) as (_ & ws & _ & Hws & _).
  destruct (waitingForRepo_total repo []) as (_ & ws0 & _ & Hws0 & _); [by intros b ?%elem_of_nil..|].
  rewrite Hws, Hws0.
  assert (∃ w1, (if negb (bool_decide (length bs = O)) then Ok ws else Ok []) = Ok w1 ∧ (bs ≠ [] → w1 = ws)) as (w1 & -> & Hw1).
  { destruct bs; cbn; eauto. exists []. split; done. }
  cbn [mbind result_bind]. case_bool_decide as Hl; cbn [negb]; [|eexists; split; [reflexivity|]; cbn; naive_solver].
  apply nil_length_inv in Hl. subst w1. case_bool_decide as Hi; cbn [negb]; [|eexists; split; [reflexivity|]; cbn; naive_solver].
  case_bool_decide as Hl0; cbn [negb]; [|eexists; split; [reflexivity|]; cbn; naive_solver].
  apply nil_length_inv in Hl0. subst ws0. eexists. split; [reflexivity|]. cbn. naive_solver.
Qed.

(** ** Nothing left *)
Section nothing_left.
Context (repo : string) (Hready : filterByRepo ready_nodes repo = [])
  (Hprog : filterByRepo (view_InProgress p) repo = []).

Lemma nothing_workable : workable p repo (view_InProgress p) ready_nodes = ∅.
Proof.
  unfold workable. apply leibniz_equiv. apply elem_of_equiv_empty. intros k [H|H]%elem_of_union;
    apply elem_of_list_to_set, list_elem_of_fmap in H as (n & _ & [Hn Hin]%list_elem_of_filter).
  - assert (n ∈ filterByRepo ready_nodes repo) as Hx by (by apply list_elem_of_filter). rewrite Hready in Hx. by apply elem_of_nil in Hx.
  - assert (n ∈ filterByRepo (view_InProgress p) repo) as Hx by (by apply list_elem_of_filter; destruct Hn).
    rewrite Hprog in Hx. by apply elem_of_nil in Hx.
Qed.

Lemma all_stalled n : n_repo n = repo → stalled repo (workable p repo (view_InProgress p) ready_nodes) n = true.
Proof.
  intros Hn. unfold stalled. rewrite nothing_workable, bool_decide_true by done. cbn.
  apply negb_true_iff, bool_decide_eq_false. set_solver.
Qed.

Lemma no_planned_left n :
  (filterBlockedByRepo blocked_nodes repo ≠ [] →
   waitingForRepo log p repo (filterBlockedByRepo blocked_nodes repo) = Ok []) →
  view_Node p (n_id n) = Ok n → n_repo n = repo → n_lifecycle n ≠ Planned.
Proof.
  intros Hw Hn Hr Hp. set (bs := filterBlockedByRepo blocked_nodes repo) in *.
  destruct (in_repo_blocked repo) as [Hlive Hne]. fold bs in Hlive, Hne.
  assert (MkBlocked n (unmet log p (n_id n)) ∈ bs) as Hb.
  { apply list_elem_of_filter. split; [done|]. apply list_elem_of_fmap. exists n. split; [done|].
    apply list_elem_of_filter. split; [|by apply elem_of_lifecycle]. intros Hu.
    assert (n ∈ filterByRepo ready_nodes repo) as Hx; [|rewrite Hready in Hx; by apply elem_of_nil in Hx].
    apply list_elem_of_filter. split; [done|]. apply list_elem_of_filter. split; [done|by apply elem_of_lifecycle]. }
  destruct (CollapseReady_total log p Hdb Hst (bk_node <$> bs)) as (out & _ & _ & Hout & Hcov).
  { intros m (b & -> & Hbs)%list_elem_of_fmap. by apply Hlive. }
  destruct (Hcov n) as (m & Hm & _); [apply (list_elem_of_fmap_2 bk_node) in Hb; exact Hb|].
  apply Hout in Hm as [(b & -> & Hbs)%list_elem_of_fmap Htop].
  destruct (waitingForRepo_total repo bs Hlive Hne) as (fs & ws & Hfs & Hws & Hwait).
  rewrite Hws in Hw. injection Hw as ->; [|intros E; rewrite E in Hb; by apply elem_of_nil in Hb].
  destruct (FinishedNodes_total) as (fs' & Hfs' & _ & Hall). rewrite Hfs in Hfs'. injection Hfs' as <-.
  destruct (Waiting_total log p Hdb Hst repo (view_InProgress p) ready_nodes fs bs) as (ws' & Hws' & _ & _ & _ & Hdeps);
    [intros f Hf; by apply Hall|done..|]. rewrite Hwait in Hws'. injection Hws' as <-.
  pose proof (Hne b Hbs) as Hbk. destruct (bk_blockers b) as [|x xs] eqn:Ebk; [done|].
  assert (n_repo (bk_node b) = repo) as Hbr by (by apply list_elem_of_filter in Hbs as [? _]).
  edestruct (Hdeps (n_matter (bk_node b)) (n_id x) (bk_node b)) as (w & Hin & _); [|by apply elem_of_nil in Hin].
  exists b. split_and!; [done|done|by apply all_stalled|done|rewrite Ebk; by left|].
  intros b' Hb' _. apply Htop. by apply list_elem_of_fmap_2.
Qed.

Lemma matters_sealed_left n :
  waitingForRepo log p repo [] = Ok [] →
  view_Node p (n_id n) = Ok n → n_repo n = repo → n_kind n = ScaleMatter → n_lifecycle n = Done → sealed log p n = true.
Proof.
  intros Hw Hn Hr Hk Hd. destruct (waitingForRepo_total repo []) as (fs & ws & Hfs & Hws & Hwait); [by intros b ?%elem_of_nil..|].
  rewrite Hws in Hw. injection Hw as ->.
  destruct (FinishedNodes_total) as (fs' & Hfs' & Hmap & Hall). rewrite Hfs in Hfs'. injection Hfs' as <-.
  destruct (Waiting_total log p Hdb Hst repo (view_InProgress p) ready_nodes fs []) as (ws' & Hws' & _ & _ & Hg & _);
    [intros f Hf; by apply Hall|by intros b ?%elem_of_nil..|]. rewrite Hwait in Hws'. injection Hws' as <-.
  assert (∃ f, f ∈ fs ∧ fin_node f = n) as (f & Hf & Ef).
  { assert (n ∈ fin_node <$> fs) as (f & -> & ?)%list_elem_of_fmap by (rewrite Hmap; by apply elem_of_lifecycle). eauto. }
  destruct (Hall f Hf) as (_ & _ & c & Hc & Hfin). rewrite Ef in Hc, Hfin. unfold sealed. rewrite Hc.
  destruct (Sealed c) eqn:Es; [done|]. exfalso.
  destruct (completion_Ok _ _ _ _ _ Hc) as (Hreq & _ & Hsl & Hpend).
  pose proof Hn as (r & Hrow & Htb & En)%view_Node_Ok.
  destruct (matter_requirements log p (n_id n) r (db_gates _ _ Hdb) (sh_tree _ (db_shape _ _ Hdb)) Hrow) as (m & _ & He);
    [by rewrite En in Hk|done|]. rewrite <-En in He. rewrite He in Hreq. injection Hreq as Hreq.
  rewrite Hd, (bool_decide_true (Done = Done)) in Hsl by done. cbn [orb andb] in Hsl. rewrite Es in Hsl. symmetry in Hsl.
  assert (∃ q, q ∈ Requirements c ∧ satisfied no_overlay q = false) as (q & Hq & Hun).
  { apply not_true_iff_false in Hsl. destruct (decide (Exists (λ q, satisfied no_overlay q = false) (Requirements c))) as [H|H].
    - apply Exists_exists in H as (q & ? & ?). eauto.
    - destruct Hsl. apply forallb_forall. intros q Hq%list_elem_of_In. destruct (satisfied no_overlay q) eqn:E; [done|].
      destruct H. apply Exists_exists. eauto. }
  destruct (Hg (n_matter n) q) as (w & Hin & _); [|by apply elem_of_nil in Hin].
  exists f. rewrite Hfin. cbn. split_and!; [by rewrite <-Hfin|by apply all_stalled|done| |].
  - rewrite Hpend. rewrite Hd, (bool_decide_true (Done = Done)) by done. cbn [orb]. by apply list_elem_of_filter.
  - rewrite <-Hreq in Hq. apply list_elem_of_fmap in Hq as (d & -> & _). unfold holds_done.
    unfold satisfied in Hun. apply orb_false_iff in Hun as [Hun _].
    assert (gr_subject (requirement p m n n d) = n) as -> by (unfold requirement; repeat case_match; done).
    rewrite Hd, (bool_decide_true (Done = Done)), andb_true_r by done. apply bool_decide_eq_true.
    by destruct (gr_state (requirement p m n n d)).
Qed.
End nothing_left.
End next.
