(* ===== verification/StatusFacts.v ===== *)
(** What status shows of one Repo and what it leaves out (src/internal/readsurface:
    status.go, Content; frontier.go, CollapseFinished and SealedAt), and the cursor a
    Worktree's person stands at (next.go, the writes of --set and --clear). *)
From stdpp Require Import relations.
From S2P Require Import Prelude Ulid GoStd Taxonomy Json Payloads Tables View Gates Project Store Steps.
From S2P Require Import Invariants Shape Replay Mint Reach Cycle Completion Content Command Resolve Config.
From S2P Require Import NodeVerbs WorkVerbs ReadSurface Effects Outcome Removal ReadFacts Waiting.
From S2P Require Import WaitingFacts Next NextFacts.

(** The last entry of an identity decides, and the entries' identities are distinct. *)
Lemma sealedByID_lookup fs id :
  NoDup ((λ f, n_id (fin_node f)) <$> fs) →
  sealedByID fs !! id = Some true ↔ ∃ f, f ∈ fs ∧ n_id (fin_node f) = id ∧ fin_sealed f = true.
Proof.
  unfold sealedByID. induction fs as [|f fs IH] using rev_ind; intros Hnd.
  { split; [done|]. by intros (f & ?%elem_of_nil & _). }
  rewrite fmap_app, NoDup_app in Hnd. destruct Hnd as (Hnd & Hf & _). rewrite foldl_app. cbn [foldl].
  assert (∀ g, g ∈ fs → n_id (fin_node g) ≠ n_id (fin_node f)) as Hne.
  { intros g Hg E. apply (Hf (n_id (fin_node g))); [by apply (list_elem_of_fmap_2 (λ f, n_id (fin_node f)))|].
    rewrite E. by apply list_elem_of_singleton. }
  setoid_rewrite elem_of_app. setoid_rewrite list_elem_of_singleton.
  destruct (decide (n_id (fin_node f) = id)) as [<-|Hid].
  - rewrite lookup_insert_eq. split.
    + intros [= Hs]. exists f. auto.
    + intros (g & [Hg| ->] & E & Hs); [by apply Hne in Hg|congruence].
  - rewrite lookup_insert_ne, IH by done. split; intros (g & Hg & E & Hs); exists g; [auto|].
    destruct Hg as [Hg| ->]; done.
Qed.

Section status.
Context (log : list Event) (p : Proj) (Hdb : db_ok log p) (Hst : only_steps_removed p).
#[local] Set Default Proof Using "All".

Lemma collapse_finished_total mark exempt fs :
  (∀ f, f ∈ fs → view_Node p (n_id (fin_node f)) = Ok (fin_node f)) →
  ∃ out, collapse_finished p mark exempt fs = Ok out ∧ out `sublist_of` fs
    ∧ ∀ f, f ∈ fs → f ∈ out ∨ (fin_sealed f = true ∧ n_id (fin_node f) ∉ exempt
                               ∧ ∃ y, above p (n_id (fin_node f)) y ∧ mark y = true).
Proof.
  induction fs as [|f fs IH]; intros Hl; cbn [collapse_finished].
  { exists []. split_and!; [done..|]. by intros f ?%elem_of_nil. }
  destruct IH as (out & Hout & Hsub & Hall); [intros g ?; apply Hl; by right|].
  destruct (marked_total log p Hdb Hst mark (fin_node f)) as (b & Hb & Hiff); [apply Hl; by left|].
  destruct (fin_sealed f && negb (bool_decide (n_id (fin_node f) ∈ exempt))) eqn:E; rewrite ?Hb;
    cbn [mbind result_bind]; rewrite Hout; cbn [mbind result_bind].
  - inv_bool. destruct b; eexists; (split; [reflexivity|]).
    + split; [by apply sublist_cons|]. intros g [->|Hg]%elem_of_cons; [|auto]. right. split_and!; [done..|]. by apply Hiff.
    + split; [by apply sublist_skip|]. intros g. rewrite !elem_of_cons. intros [->|Hg]; [auto|].
      destruct (Hall g Hg); auto.
  - eexists. split; [reflexivity|]. split; [by apply sublist_skip|]. intros g. rewrite !elem_of_cons.
    intros [->|Hg]; [auto|]. destruct (Hall g Hg); auto.
Qed.

Lemma chain_ids_total depth n :
  view_Node p (n_id n) = Ok n → (scale_rank (n_kind n) ≤ S depth)%nat →
  ∃ X, chain_ids depth p n = Ok X ∧ ∀ id, id ∈ X ↔ id = n_id n ∨ above p (n_id n) id.
Proof.
  revert depth n. refine (climb_ind log p Hdb Hst (λ depth n,
    ∃ X, chain_ids depth p n = Ok X ∧ ∀ id, id ∈ X ↔ id = n_id n ∨ above p (n_id n) id) _ _).
  - intros depth n Hn Hp. exists {[n_id n]}. split; [by destruct depth; cbn [chain_ids]; rewrite bool_decide_true|].
    intros id. rewrite elem_of_singleton, (above_parent p n _ Hn). tauto.
  - intros depth n m Hn Hp Hm Hid _ (X & HX & Hiff). cbn [chain_ids]. rewrite bool_decide_false, Hm by done.
    cbn [mbind result_bind]. rewrite HX. cbn [mbind result_bind]. eexists. split; [reflexivity|].
    intros id. rewrite elem_of_union, elem_of_singleton, Hiff, (above_parent p n _ Hn), Hid. tauto.
Qed.

(** The nodes the cursor's chain keeps on display. *)
Definition on_chain (cursor id : string) : Prop :=
  ∃ n, view_Node p cursor = Ok n ∧ (id = n_id n ∨ above p (n_id n) id).

Lemma cursorExemptions_total cursor :
  ∃ X, cursorExemptions p cursor = Ok X ∧ ∀ id, id ∈ X ↔ cursor ≠ "" ∧ on_chain cursor id.
Proof.
  unfold cursorExemptions, on_chain. case_bool_decide as Hc; [exists ∅; split; [done|]; set_solver|].
  destruct (view_Node p cursor) as [n|] eqn:Hn; [|exists ∅; split; [done|]; set_solver].
  assert (view_Node p (n_id n) = Ok n) as Hn' by (pose proof Hn as (? & _ & _ & ->)%view_Node_Ok; done).
  destruct (chain_ids_total tree_depth n Hn' (scale_depth n)) as (X & HX & Hiff). exists X. split; [done|].
  intros id. rewrite Hiff. split; [intros H; split; [done|]; eauto|]. by intros (_ & m & [= <-] & H).
Qed.

Lemma SealedAt_total n : view_Node p (n_id n) = Ok n → ∃ t, SealedAt log p n = Ok t.
Proof.
  intros Hn. unfold SealedAt, EffectiveGateRequirements, tree_depth.
  destruct (walk_total log p Hdb Hst (GateDeclarations p (n_repo n)) n 2 n Hn) as (l & Hl).
  { destruct (n_kind n); cbn; lia. }
  rewrite Hl. cbn [mbind result_bind]. eauto.
Qed.

(** A Matter sealed before the window opened. *)
Definition long_sealed (cutoff : Z) (n : Node) : Prop :=
  n_kind n = ScaleMatter ∧ ∃ t, SealedAt log p n = Ok (Some t) ∧ (nanoseconds t < cutoff)%Z.

Lemma recent_total exempt cutoff fs :
  (∀ f, f ∈ fs → view_Node p (n_id (fin_node f)) = Ok (fin_node f)) →
  ∃ out hidden, recent log p exempt cutoff fs = Ok (out, hidden) ∧ out `sublist_of` fs
    ∧ (length out + hidden = length fs)%nat
    ∧ ∀ f, f ∈ fs → f ∈ out ∨ (fin_sealed f = true ∧ n_id (fin_node f) ∉ exempt ∧ long_sealed cutoff (fin_node f)).
Proof.
  induction fs as [|f fs IH]; intros Hl; cbn [recent].
  { exists [], O. split_and!; [done..|]. by intros f ?%elem_of_nil. }
  destruct IH as (out & hidden & Hr & Hsub & Hlen & Hall); [intros g ?; apply Hl; by right|].
  assert (∃ b, (if bool_decide (n_kind (fin_node f) = ScaleMatter) && fin_sealed f
      && negb (bool_decide (n_id (fin_node f) ∈ exempt))
    then at_ ← SealedAt log p (fin_node f);
         Ok (match at_ with Some t => (nanoseconds t <? cutoff)%Z | None => false end)
    else Ok false) = Ok b ∧ (b = true → fin_sealed f = true ∧ n_id (fin_node f) ∉ exempt ∧ long_sealed cutoff (fin_node f)))
    as (b & -> & Hb).
  { destruct (bool_decide _ && _ && _) eqn:E; [|exists false; done]. inv_bool. destruct (SealedAt_total (fin_node f)) as (t & Ht); [apply Hl; by left|].
    rewrite Ht. cbn [mbind result_bind]. eexists. split; [reflexivity|]. destruct t as [t|]; [|done].
    intros Hlt%Z.ltb_lt. split_and!; [done..|]. split; [done|]. eauto. }
  cbn [mbind result_bind]. rewrite Hr. cbn [mbind result_bind fst snd].
  destruct b; eexists _, _; (split; [reflexivity|]).
  - split_and!; [by apply sublist_cons|cbn; lia|]. intros g [->|Hg]%elem_of_cons; [right; by apply Hb|auto].
  - split_and!; [by apply sublist_skip|cbn; lia|]. intros g. rewrite !elem_of_cons. intros [->|Hg]; [auto|].
    destruct (Hall g Hg); auto.
Qed.

(** A finished node of the Repo that status need not show. *)
Definition may_hide (repo : string) (opts : ContentOptions) (n : Node) : Prop :=
  co_all opts = false ∧ sealed log p n = true ∧ (co_cursor opts ≠ "" → ¬ on_chain (co_cursor opts) (n_id n))
  ∧ ((∃ m, view_Node p (n_id m) = Ok m ∧ n_repo m = repo ∧ above p (n_id n) (n_id m) ∧ sealed log p m = true)
     ∨ long_sealed (co_now opts - recentSealedWindow)%Z n).

Lemma finished_ids_NoDup (fs : list Finished) repo :
  fin_node <$> fs = view_Done p →
  NoDup ((λ f, n_id (fin_node f)) <$> filter (λ f, n_repo (fin_node f) = repo) fs).
Proof.
  intros E. eapply sublist_NoDup; [|apply fmap_sublist, sublist_filter].
  pose proof (nodeList_NoDup p (λ r, bool_decide (nd_lifecycle r = Done)) by_birth) as H.
  change (NoDup (n_id <$> view_Done p)) in H. by rewrite <-E, <-list_fmap_compose in H.
Qed.

Lemma status_total repo opts :
  ∃ c, status_Content log p repo opts = Ok c
    ∧ rc_in_progress c = filterByRepo (view_InProgress p) repo
    ∧ CollapseReady p (filterByRepo (ready_nodes log p) repo) = Ok (rc_ready c)
    ∧ rc_blocked c = filterBlockedByRepo (blocked_nodes log p) repo
    ∧ (co_all opts = true → rc_hidden c = O)
    ∧ (∀ f, f ∈ rc_finished c → view_Node p (n_id (fin_node f)) = Ok (fin_node f) ∧ n_repo (fin_node f) = repo
         ∧ n_lifecycle (fin_node f) = Done ∧ fin_sealed f = sealed log p (fin_node f))
    ∧ (∀ n, view_Node p (n_id n) = Ok n → n_lifecycle n = Done → n_repo n = repo →
         n ∈ fin_node <$> rc_finished c ∨ may_hide repo opts n).
Proof.
  unfold status_Content. destruct (FinishedNodes_total log p Hdb Hst) as (fs & -> & Hmap & Hall). cbn [mbind result_bind].
  rewrite (Frontier_total log p Hdb Hst). cbn [mbind result_bind fst snd]. fold (ready_nodes log p). fold (blocked_nodes log p).
  destruct (Waiting_total log p Hdb Hst repo (view_InProgress p) (ready_nodes log p) fs (blocked_nodes log p)) as (ws & -> & _).
  { intros f Hf. by apply Hall. } { apply (blocked_nodes_live log p Hdb Hst). } { apply (blocked_nodes_unmet log p Hdb Hst). }
  cbn [mbind result_bind]. destruct (CollapseReady_total log p Hdb Hst (filterByRepo (ready_nodes log p) repo)) as (rs & Hrs & _).
  { intros n [_ Hn]%list_elem_of_filter. by apply (ready_nodes_live log p Hdb Hst). }
  set (mine := filter (λ f, n_repo (fin_node f) = repo) fs).
  assert (∀ f, f ∈ mine → view_Node p (n_id (fin_node f)) = Ok (fin_node f) ∧ n_repo (fin_node f) = repo
    ∧ n_lifecycle (fin_node f) = Done ∧ fin_sealed f = sealed log p (fin_node f)) as Hmine.
  { intros f [Hr Hf]%list_elem_of_filter. destruct (Hall f Hf) as (Hn & Hd & c & Hc & E). split_and!; [done..|].
    unfold sealed. rewrite Hc. by rewrite E. }
  assert (∃ shown hidden, (if co_all opts then Ok (mine, O)
           else
             exempt ← cursorExemptions p (co_cursor opts);
             collapsed ← CollapseFinished p mine exempt;
             recent log p exempt (co_now opts - recentSealedWindow)%Z collapsed) = Ok (shown, hidden)
    ∧ shown `sublist_of` mine ∧ (co_all opts = true → hidden = O)
    ∧ ∀ f, f ∈ mine → f ∈ shown ∨ may_hide repo opts (fin_node f)) as (shown & hidden & -> & Hsub & Hzero & Hhide).
  { destruct (co_all opts) eqn:Eall; [exists mine, O; auto|].
    destruct (cursorExemptions_total (co_cursor opts)) as (X & -> & HX). cbn [mbind result_bind].
    unfold CollapseFinished.
    destruct (collapse_finished_total (λ id, default false (sealedByID mine !! id)) X mine) as (col & -> & Hcol & Hdrop).
    { intros f Hf. by apply Hmine. }
    cbn [mbind result_bind]. destruct (recent_total X (co_now opts - recentSealedWindow)%Z col) as (out & hid & -> & Hout & _ & Hrec).
    { intros f Hf. apply Hmine. by eapply elem_of_sublist. }
    exists out, hid. split_and!; [done|by trans col|done|].
    assert (∀ f, n_id (fin_node f) ∉ X → co_cursor opts ≠ "" → ¬ on_chain (co_cursor opts) (n_id (fin_node f))) as HnX.
    { intros f Hn Hc Ho. apply Hn, HX. done. }
    intros f Hf. destruct (Hmine f Hf) as (_ & _ & _ & Hs). destruct (Hdrop f Hf) as [Hk|(Hsl & Hx & y & Hy & Hmark)].
    - destruct (Hrec f Hk) as [?|(Hsl & Hx & Hlong)]; [auto|]. right. split_and!; [done|congruence|by apply HnX|by right].
    - right. split_and!; [done|congruence|by apply HnX|left].
      destruct (sealedByID mine !! y) as [[]|] eqn:Em; try done.
      apply sealedByID_lookup in Em as (g & Hg & <- & Hgs); [|by apply finished_ids_NoDup].
      destruct (Hmine g Hg) as (? & ? & _ & ?). exists (fin_node g). split_and!; congruence. }
  cbn [mbind result_bind]. rewrite Hrs. cbn [mbind result_bind fst snd]. eexists. split; [reflexivity|]. cbn.
  split_and!; try done.
  - intros f Hf. apply Hmine. by eapply elem_of_sublist.
  - intros n Hn Hd Hr. assert (n ∈ fin_node <$> fs) as (f & -> & Hf)%list_elem_of_fmap by (rewrite Hmap; by apply elem_of_lifecycle).
    destruct (Hhide f) as [?|?]; [by apply list_elem_of_filter|left; by apply list_elem_of_fmap_2|by right].
Qed.
End status.

#[local] Opaque appendEvent stamp Commit.

(** An unconditional upsert writes its row and leaves the other tables alone. *)
Lemma upsert_put c t k r p p' b :
  upsert c t k r (λ _, true) (λ _, r) p = Ok (p', b) →
  tget t p' = <[k := r]> (tget t p) ∧ ∀ t', t ≠ t' → tget t' p' = tget t' p.
Proof.
  unfold upsert. destruct (tget t p !! k) as [o|].
  - intros (q & [_ H]%sql_set_Ok & [= -> _])%bind_Ok.
    split; [by eapply put_tget_eq|intros t' Ht; by eapply put_tget_ne].
  - intros (q & (_ & _ & H)%sql_insert_Ok & [= -> _])%bind_Ok.
    split; [by eapply put_tget_eq|intros t' Ht; by eapply put_tget_ne].
Qed.

Lemma decode_cursor node previous :
  decode (pl_enc (MkCursorMoved node previous)) = Ok (MkCursorMoved (utf8_coerce node) (utf8_coerce previous)).
Proof. unfold pl_enc, CursorMoved_payload; eval_decode; reflexivity. Qed.

Definition place_typed (t : EType) : bool :=
  match requiredDimensions (enum_str t) with Ok rule => et_clone rule && et_worktree rule | Error _ => false end.

Lemma cursor_typed : place_typed TypeCursorMoved = true.
Proof. vm_compute. reflexivity. Qed.

(** The projection after a cursor.moved: one row of one table. *)
Definition cursor_at (p p' : Proj) (cur : Current) (node : option string) : Prop :=
  read_Cursor p' cur = node
  ∧ (∀ clone worktree, (clone, worktree) ≠ (cur_clone cur, cur_worktree cur) →
       view_Cursor p' clone worktree = view_Cursor p clone worktree)
  ∧ ∀ t, t ≠ TCursors → tget t p' = tget t p.

Lemma cursor_moved actor cur node previous log p evs log' p' :
  folded (MkRequest actor (current_env cur)) [draft TypeCursorMoved (cur_worktree cur) (MkCursorMoved node previous)] []
    log p evs log' p' →
  cursor_at p p' cur (nullable (utf8_coerce node)).
Proof.
  intros (ev & _ & _ & Hst & _ & Ha)%folded_one. pose proof (stamped_draft _ _ _ _ _ Hst) as (Hty & _ & Hpl & _).
  assert (ev_clone ev = cur_clone cur ∧ ev_worktree ev = cur_worktree cur) as [Hc Hw].
  { destruct Hst as (rule & Hr & _ & _ & _ & _ & _ & _ & Hc & Hw). cbn [draft d_type d_env default] in *.
    pose proof cursor_typed as Ht. unfold place_typed in Ht. rewrite Hr in Ht. apply andb_true_iff in Ht as [H1 H2].
    by rewrite Hc, Hw, H1, H2. }
  as_rule Ha Hty. unfold moveCursor in Ha. rewrite Hpl, decode_cursor in Ha. cbn [mbind result_bind] in Ha.
  apply bind_Ok in Ha as (_ & _ & ([q b] & Hu & Hp)%bind_Ok). injection Hp as <-. apply upsert_put in Hu as [He Hne].
  cbn [tget CursorMoved_Node fst] in *. rewrite Hc, Hw in He.
  unfold cursor_at, read_Cursor, view_Cursor. rewrite He. split_and!.
  - by rewrite lookup_insert_eq.
  - intros clone worktree Hd. by rewrite lookup_insert_ne by congruence.
  - intros t Ht. by apply Hne.
Qed.
