(* ===== verification/Session.v ===== *)
(** Working periods (src/internal/readsurface/session.go): the event log split
    wherever the idle gap is reached, administrative closes of a Dispatch left out
    of the boundaries; and what each role did in one period. *)
From S2P Require Import Prelude GoStd Ulid Taxonomy Json Payloads Tables View Gates Project Store.
From S2P Require Import ReadSurface Next.
Local Open Scope Z_scope.

Record Session := MkSession { se_start : Z; se_end : Z; se_events : list Event }.

Definition isDiscountedClose (ev : Event) : bool :=
  bool_decide (ev_type ev = enum_str TypeDispatchClosed) &&
  match decode (S := DispatchClosed) (ev_payload ev) with
  | Ok p => bool_decide (DispatchClosed_Reason p = enum_str CloseSuperseded)
            || bool_decide (DispatchClosed_Reason p = enum_str CloseReaped)
  | Error _ => false
  end.

(** time.Time.Sub: nanoseconds, saturating at the ends of int64. *)
Definition time_Sub (a b : Z) : Z := Z.max (- 2 ^ 63) (Z.min (2 ^ 63 - 1) (nanoseconds a - nanoseconds b)).

(** The boundaries: [prev] is the last evidence event, [start] the first of the
    period under way. *)
Fixpoint bounds_loop (idleGap start prev : Z) (times : list Z) : list (Z * Z) :=
  match times with
  | [] => [(start, prev)]
  | t :: times =>
      if idleGap <=? time_Sub t prev then (start, prev) :: bounds_loop idleGap t t times
      else bounds_loop idleGap start t times
  end.

(** The events up to the first that is not before [start], and the events from
    there to the first after [end]. *)
Fixpoint skip_before (start : Z) (events : list Event) : list Event :=
  match events with
  | [] => []
  | ev :: rest => if ev_occurred ev <? start then skip_before start rest else events
  end.

Fixpoint take_until (stop : Z) (events : list Event) : list Event * list Event :=
  match events with
  | [] => ([], [])
  | ev :: rest =>
      if stop <? ev_occurred ev then ([], events)
      else let '(inside, after) := take_until stop rest in (ev :: inside, after)
  end.

(** The second pass, one pointer over the log. *)
Fixpoint attach (bounds : list (Z * Z)) (events : list Event) : list Session :=
  match bounds with
  | [] => []
  | (start, stop) :: bounds =>
      let '(inside, rest) := take_until stop (skip_before start events) in
      MkSession start stop inside :: attach bounds rest
  end.

Definition Derive (log : list Event) (idleGap : Z) : list Session :=
  match ev_occurred <$> filter (λ ev, isDiscountedClose ev = false) log with
  | [] => []
  | t :: times => attach (bounds_loop idleGap t t times) log
  end.

(** ** What each role did *)
Record RoleSummary := MkRoleSummary { rs_name : string; rs_events : nat; rs_spawned : nat; rs_closed : nat }.

(** at(name): the summary of a role, appended at its first mention, updated. *)
Fixpoint at_role (name : string) (f : RoleSummary → RoleSummary) (out : list RoleSummary) : list RoleSummary :=
  match out with
  | [] => [f (MkRoleSummary name 0 0 0)]
  | r :: out => if bool_decide (rs_name r = name) then f r :: out else r :: at_role name f out
  end.

Definition bump_events (r : RoleSummary) : RoleSummary :=
  MkRoleSummary (rs_name r) (S (rs_events r)) (rs_spawned r) (rs_closed r).
Definition bump_spawned (r : RoleSummary) : RoleSummary :=
  MkRoleSummary (rs_name r) (rs_events r) (S (rs_spawned r)) (rs_closed r).
Definition bump_closed (r : RoleSummary) : RoleSummary :=
  MkRoleSummary (rs_name r) (rs_events r) (rs_spawned r) (S (rs_closed r)).

Definition role_step (out : list RoleSummary) (ev : Event) : list RoleSummary :=
  let out := match actor_role (ev_actor ev) with Some name => at_role name bump_events out | None => out end in
  if bool_decide (ev_type ev = enum_str TypeRoleSpawned) then
    match decode (S := RoleSpawned) (ev_payload ev) with
    | Ok p => at_role (RoleSpawned_Name p) bump_spawned out
    | Error _ => out
    end
  else if bool_decide (ev_type ev = enum_str TypeRoleClosed) then
    match actor_role (ev_actor ev) with Some name => at_role name bump_closed out | None => out end
  else out.

Definition RoleActivity (s : Session) : list RoleSummary := foldl role_step [] (se_events s).
