(* ===== verification/SessionFacts.v ===== *)
(** Working periods partition the evidence (src/internal/readsurface/session.go):
    the log of a reachable store is in time order, so the single pointer of the
    second pass gives each period exactly its own events. *)
From stdpp Require Import relations.
From S2P Require Import Prelude GoStd Ulid Taxonomy Json Payloads Tables View Gates Project Store.
From S2P Require Import Steps Invariants Shape Replay Mint Reach Command Effects ReadSurface Next Session.
Local Open Scope Z_scope.

#[local] Opaque appendEvent applyEvent NewID stamp write_drafts.

(** ** The log is in time order *)
Definition log_timed (log : list Event) : Prop := Forall (λ e, timeOfID (ev_id e) = Ok (ev_occurred e)) log.

Lemma folded_timed req ds events log p new log' p' :
  folded req ds events log p new log' p' → log_timed log → log_timed log'.
Proof.
  intros Hf. eapply (folded_ind_db (λ log _, log_timed log) (λ _, True)); [|by apply Forall_true|exact Hf].
  intros d ev l q q' _ (rule & _ & _ & _ & _ & _ & Ht & _) Hl _ _. apply Forall_app_2; [done|]. by constructor.
Qed.

Lemma reach_timed w s : world_ok w → reach w s → log_timed (s_log s).
Proof.
  intros Hw Hs. unfold reach, future in Hs. remember fresh_store as s0 eqn:E.
  assert (log_timed (s_log s0) ∧ store_ok s0) as [Ht Hok].
  { subst s0. split; [constructor|]. apply (reach_ok w _ Hw). apply rtc_refl. }
  clear E. induction Hs as [s|s s1 s2 Hstep _ IH]; [done|].
  assert (reach_step : store_ok s1) by (by eapply store_step_ok).
  apply IH; [|done]. destruct Hstep as [fuel req decide r s1 _ Hc|s1 Hr|]; [|..].
  - apply Commit_cases in Hc as [(e & _ & -> & _)|(ds & h1 & evs & _ & _ & _ & Hwr)]; [done|].
    apply write_drafts_folded in Hwr as (new & _ & Hf). by eapply folded_timed.
  - rewrite Rebuild_db in Hr by apply Hok. by injection Hr as <-.
  - done.
Qed.

Lemma be_take_mono raw1 raw2 :
  Forall is_byte raw1 → Forall is_byte raw2 → length raw1 = 16%nat → length raw2 = 16%nat →
  be raw1 <= be raw2 → be (take 6 raw1) <= be (take 6 raw2).
Proof.
  intros H1 H2 L1 L2 Hle. rewrite <-(take_drop 6 raw1), <-(take_drop 6 raw2), !be_app, !length_drop, L1, L2 in Hle.
  pose proof (be_bound (drop 6 raw1) ltac:(by apply Forall_drop)) as B1.
  pose proof (be_bound (drop 6 raw2) ltac:(by apply Forall_drop)) as B2. rewrite !length_drop, L1, L2 in *.
  set (P := 2 ^ (8 * Z.of_nat (16 - 6))) in *. nia.
Qed.

Lemma minted_time_mono id1 id2 t1 t2 :
  minted id1 → minted id2 → timeOfID id1 = Ok t1 → timeOfID id2 = Ok t2 → id1 <s id2 → t1 <= t2.
Proof.
  intros (r1 & B1 & L1 & ->) (r2 & B2 & L2 & ->). rewrite !timeOfID_encode by done. intros [= <-] [= <-] Hlt.
  apply encodeCrockford_lt in Hlt; [|done..]. apply be_take_mono; [done..|lia].
Qed.

Definition in_time (a b : Event) : Prop := ev_occurred a <= ev_occurred b.

Lemma reach_in_time w s : world_ok w → reach w s → StronglySorted in_time (s_log s).
Proof.
  intros Hw Hs. pose proof (reach_timed w s Hw Hs) as Ht.
  destruct (reach_ok w s Hw Hs) as [[Hl _ _ _ _] _ Hm]. apply legal_sorted in Hl. unfold log_minted, log_timed in *.
  unfold ids in Hl. induction (s_log s) as [|e log IH]; [constructor|]. rewrite fmap_cons in Hl.
  apply StronglySorted_inv in Hl as [Hl He]. apply Forall_cons in Ht as [Hte Ht], Hm as [[Hme _] Hm].
  constructor; [by apply IH|]. apply Forall_forall. intros e' He'.
  rewrite Forall_forall in Ht; rewrite Forall_forall in Hm; rewrite Forall_forall in He.
  eapply (minted_time_mono (ev_id e) (ev_id e')); [done|by apply Hm|done|by apply Ht|]. apply He. by apply list_elem_of_fmap_2.
Qed.

(** ** The two pointers *)
Lemma filter_all {A} (P : A → Prop) `{∀ x, Decision (P x)} l : Forall P l → filter P l = l.
Proof. induction 1 as [|x l Hx _ IH]; [done|]. by rewrite filter_cons, decide_True, IH by done. Qed.

Lemma filter_none {A} (P : A → Prop) `{∀ x, Decision (P x)} l : Forall (λ x, ¬ P x) l → filter P l = [].
Proof. induction 1 as [|x l Hx _ IH]; [done|]. by rewrite filter_cons, decide_False, IH by done. Qed.

Lemma skip_before_filter start log :
  StronglySorted in_time log → skip_before start log = filter (λ e, start <= ev_occurred e) log.
Proof.
  induction 1 as [|e l _ IH Hall]; [done|]. cbn [skip_before]. rewrite filter_cons.
  destruct (Z.ltb_spec (ev_occurred e) start); [rewrite decide_False by lia; apply IH|rewrite decide_True by lia].
  rewrite filter_all; [done|]. eapply Forall_impl; [exact Hall|]. intros e'. unfold in_time. lia.
Qed.

Lemma take_until_filter stop log :
  StronglySorted in_time log →
  take_until stop log = (filter (λ e, ev_occurred e <= stop) log, filter (λ e, stop < ev_occurred e) log).
Proof.
  induction 1 as [|e l _ IH Hall]; [done|]. cbn [take_until]. rewrite !filter_cons.
  destruct (Z.ltb_spec stop (ev_occurred e)).
  - rewrite decide_False, decide_True by lia.
    rewrite filter_none, filter_all; [done|..]; (eapply Forall_impl; [exact Hall|]); intros e'; unfold in_time; lia.
  - rewrite decide_True, decide_False, IH by lia. done.
Qed.

Lemma filter_sorted (P : Event → Prop) `{∀ e, Decision (P e)} log :
  StronglySorted in_time log → StronglySorted in_time (filter P log).
Proof.
  induction 1 as [|e l _ IH Hall]; [constructor|]. rewrite filter_cons. case_decide; [|done].
  constructor; [done|]. apply Forall_forall. intros e' [_ He']%list_elem_of_filter. rewrite Forall_forall in Hall. auto.
Qed.

(** ** The reference: cut the evidence at every idle gap *)
Definition evidence (log : list Event) : list Event := filter (λ ev, isDiscountedClose ev = false) log.

Fixpoint cut (idleGap : Z) (e : Event) (es : list Event) : list (list Event) :=
  match es with
  | [] => [[e]]
  | e' :: es =>
      if idleGap <=? time_Sub (ev_occurred e') (ev_occurred e) then [e] :: cut idleGap e' es
      else match cut idleGap e' es with
           | piece :: pieces => (e :: piece) :: pieces
           | [] => []
           end
  end.

Definition pieces_of (idleGap : Z) (es : list Event) : list (list Event) :=
  match es with [] => [] | e :: es => cut idleGap e es end.

Lemma cut_head idleGap e es : ∃ piece pieces, cut idleGap e es = (e :: piece) :: pieces.
Proof.
  revert e. induction es as [|e' es IH]; intros e; cbn [cut]; [by eexists _, _|].
  destruct (_ <=? _); [by eexists _, _|]. destruct (IH e') as (piece & pieces & ->). by eexists _, _.
Qed.

Lemma cut_concat idleGap e es : concat (cut idleGap e es) = e :: es.
Proof.
  revert e. induction es as [|e' es IH]; intros e; cbn [cut]; [done|]. specialize (IH e').
  destruct (_ <=? _); [cbn; by rewrite IH|]. destruct (cut idleGap e' es) as [|piece pieces]; [done|].
  cbn in *. by rewrite IH.
Qed.

(** The times of a piece's first and last event. *)
Definition ends_of (l : list Event) : Z * Z :=
  match head l, last l with Some a, Some b => (ev_occurred a, ev_occurred b) | _, _ => (0, 0) end.

Lemma bounds_cut idleGap start e es :
  bounds_loop idleGap start (ev_occurred e) (ev_occurred <$> es) =
    match cut idleGap e es with
    | piece :: pieces => (start, (ends_of piece).2) :: (ends_of <$> pieces)
    | [] => []
    end.
Proof.
  revert start e. induction es as [|e' es IH]; intros start e; [done|]. rewrite fmap_cons. cbn [bounds_loop cut].
  destruct (cut_head idleGap e' es) as (piece & pieces & Hc). pose proof (IH (ev_occurred e') e') as IH0.
  specialize (IH start e'). rewrite Hc in IH, IH0 |- *. destruct (_ <=? _).
  - rewrite IH0. cbn. f_equal. unfold ends_of. cbn. destruct (last (e' :: piece)) eqn:E; [done|]. by apply last_None in E.
  - rewrite IH. do 2 f_equal. unfold ends_of. cbn. by destruct (last (e' :: piece)) eqn:E.
Qed.

(** Everything in a piece is before everything in the pieces after it. *)
Fixpoint apart (pieces : list (list Event)) : Prop :=
  match pieces with
  | [] => True
  | piece :: pieces =>
      piece ≠ [] ∧ (∀ x y, x ∈ piece → y ∈ concat pieces → ev_occurred x < ev_occurred y) ∧ apart pieces
  end.

Lemma time_Sub_pos a b g : 0 < g → g <= time_Sub a b → b < a.
Proof. unfold time_Sub, nanoseconds. lia. Qed.

Lemma cut_apart idleGap e es : 0 < idleGap → StronglySorted in_time (e :: es) → apart (cut idleGap e es).
Proof.
  intros Hg. revert e. induction es as [|e' es IH]; intros e Hs; cbn [cut].
  { cbn. split_and!; [done| |done]. intros x y _ Hy. by apply elem_of_nil in Hy. }
  apply StronglySorted_inv in Hs as [Hs Hall]. pose proof (IH e' Hs) as Hap.
  pose proof (StronglySorted_inv Hs) as [_ Hall']. rewrite Forall_cons in Hall. destruct Hall as [Hee' Hall].
  destruct (Z.leb_spec idleGap (time_Sub (ev_occurred e') (ev_occurred e))) as [Hgap|Hgap].
  - cbn [apart]. split_and!; [done| |done]. intros x y ->%list_elem_of_singleton Hy. rewrite cut_concat in Hy.
    pose proof (time_Sub_pos _ _ _ Hg Hgap). apply elem_of_cons in Hy as [->|Hy]; [done|].
    rewrite Forall_forall in Hall'. specialize (Hall' _ Hy). unfold in_time in Hall'. lia.
  - destruct (cut_head idleGap e' es) as (piece & pieces & Hc). rewrite Hc in Hap |- *.
    destruct Hap as (_ & Hlt & Hap). split_and!; [done| |done]. intros x y [->|Hx]%elem_of_cons Hy; [|auto].
    pose proof (Hlt e' y ltac:(by left) Hy). unfold in_time in Hee'. lia.
Qed.

Lemma ends_of_first e piece : (ends_of (e :: piece)).1 = ev_occurred e.
Proof. unfold ends_of. cbn [head]. destruct (last (e :: piece)) eqn:E; [done|]. by apply last_None in E. Qed.

(** Neighbours inside a piece are closer than the gap; pieces are not. *)
Lemma cut_dense idleGap e es :
  Forall (Sorted (λ x y, time_Sub (ev_occurred y) (ev_occurred x) < idleGap)) (cut idleGap e es)
  ∧ Sorted (λ a b, idleGap <= time_Sub (ends_of b).1 (ends_of a).2) (cut idleGap e es).
Proof.
  revert e. induction es as [|e' es IH]; intros e; cbn [cut]; [split; repeat constructor|].
  destruct (IH e') as [Hin Hout]. destruct (cut_head idleGap e' es) as (piece & pieces & Hc). rewrite Hc in *.
  destruct (Z.leb_spec idleGap (time_Sub (ev_occurred e') (ev_occurred e))) as [Hgap|Hgap].
  - split; [constructor; [repeat constructor|done]|]. constructor; [done|]. constructor.
    rewrite ends_of_first. done.
  - apply Forall_cons in Hin as [Hp Hin]. split; [constructor; [constructor; [exact Hp|by constructor]|exact Hin]|].
    apply Sorted_inv in Hout as [Hout Hd]. constructor; [done|]. destruct Hd as [|b pieces' Hb]; constructor.
    revert Hb. unfold ends_of. cbn. by destruct (last (e' :: piece)) eqn:E.
Qed.

(** ** The second pass *)
Definition within (s : Session) (e : Event) : Prop := se_start s <= ev_occurred e <= se_end s.

#[export] Instance within_dec s e : Decision (within s e).
Proof. unfold within. apply _. Defined.

(** A period of the log for one piece of the evidence. *)
Definition period (log : list Event) (s : Session) (piece : list Event) : Prop :=
  piece ≠ [] ∧ (se_start s, se_end s) = ends_of piece ∧ se_events s = filter (within s) log
  ∧ evidence (se_events s) = piece.

Lemma filter_comm {A} (P Q : A → Prop) `{∀ x, Decision (P x)} `{∀ x, Decision (Q x)} (l : list A) :
  filter P (filter Q l) = filter Q (filter P l).
Proof. rewrite !list_filter_filter. apply list_filter_iff. tauto. Qed.

Lemma piece_bounds piece x :
  StronglySorted in_time piece → x ∈ piece → (ends_of piece).1 <= ev_occurred x <= (ends_of piece).2.
Proof.
  intros Hs Hx. destruct piece as [|a piece]; [by apply elem_of_nil in Hx|]. rewrite ends_of_first. split.
  - apply StronglySorted_inv in Hs as [_ Hall]. apply elem_of_cons in Hx as [->|Hx]; [lia|].
    rewrite Forall_forall in Hall. by apply Hall.
  - unfold ends_of. cbn [head]. destruct (last (a :: piece)) as [b|] eqn:E; [|by apply last_None in E]. cbn [snd].
    apply last_Some in E as [l E]. rewrite E in *. apply elem_of_app in Hx as [Hx|Hx].
    + apply (StronglySorted_app_1_elem_of in_time l [b]); [done|done|by left].
    + apply list_elem_of_singleton in Hx as ->. lia.
Qed.

Lemma apart_after piece pieces x :
  apart (piece :: pieces) → x ∈ concat pieces → (ends_of piece).2 < ev_occurred x.
Proof.
  intros (Hne & Hlt & _) Hx. destruct piece as [|a piece]; [done|]. unfold ends_of. cbn [head].
  destruct (last (a :: piece)) as [b|] eqn:E; [|by apply last_None in E]. apply Hlt; [|done].
  by apply last_Some_elem_of.
Qed.

(** The first period takes its piece and leaves the others theirs. *)
Lemma evidence_split piece pieces log a b :
  ends_of piece = (a, b) → StronglySorted in_time log → evidence log = piece ++ concat pieces → apart (piece :: pieces) →
  evidence (filter (λ e, ev_occurred e <= b) (filter (λ e, a <= ev_occurred e) log)) = piece
  ∧ evidence (filter (λ e, b < ev_occurred e) (filter (λ e, a <= ev_occurred e) log)) = concat pieces.
Proof.
  intros Eab Hs He Hap.
  assert (Forall (λ e, a <= ev_occurred e <= b) piece) as Hin.
  { apply Forall_forall. intros x Hx. pose proof (piece_bounds piece x) as Hb. rewrite Eab in Hb. apply Hb; [|done].
    eapply (StronglySorted_app_1_l _ _ (concat pieces)). rewrite <-He. by apply filter_sorted. }
  assert (Forall (λ e, b < ev_occurred e ∧ a <= ev_occurred e) (concat pieces)) as Hlater.
  { apply Forall_forall. intros x Hx. pose proof (apart_after piece pieces x Hap Hx) as Hb. rewrite Eab in Hb.
    destruct Hap as (Hne & _). destruct piece as [|y piece]; [done|]. apply Forall_cons in Hin as [? _]. cbn in Hb. lia. }
  unfold evidence in *. rewrite !(filter_comm (λ ev, isDiscountedClose ev = false)), !He, !filter_app.
  rewrite !(filter_all (λ e, a <= ev_occurred e)).
  2, 3: eapply Forall_impl; [eassumption|]; intros e ?; cbn in *; lia.
  rewrite ?filter_app. split.
  - rewrite filter_all, filter_none, app_nil_r; [done|..]; (eapply Forall_impl; [eassumption|]); intros e ?; cbn in *; lia.
  - rewrite filter_none, filter_all; [done|..]; (eapply Forall_impl; [eassumption|]); intros e ?; cbn in *; lia.
Qed.

Lemma attach_pieces pieces log :
  StronglySorted in_time log → evidence log = concat pieces → apart pieces →
  Forall2 (period log) (attach (ends_of <$> pieces) log) pieces.
Proof.
  revert log. induction pieces as [|piece pieces IH]; intros log Hs He Hap; [constructor|].
  rewrite fmap_cons. destruct (ends_of piece) as [a b] eqn:Eab. cbn [attach]. cbn [concat] in He.
  rewrite skip_before_filter by done. rewrite take_until_filter by (by apply filter_sorted).
  destruct (evidence_split piece pieces log a b Eab Hs He Hap) as [Hin Hrest]. constructor.
  - split; [apply Hap|]. split; [done|]. split; [|exact Hin]. cbn [se_events]. rewrite list_filter_filter.
    apply list_filter_iff. intros e. unfold within. cbn. lia.
  - set (rest := filter (λ e, b < ev_occurred e) _) in *.
    eapply Forall2_impl; [apply IH; [by do 2 apply filter_sorted|exact Hrest|apply Hap]|].
    intros s q (Hne & H1 & H2 & H3). split_and!; [done..| |done].
    assert (b < se_start s ∧ a <= se_start s) as Hlt.
    { destruct q as [|x q]; [done|]. assert (x ∈ rest) as Hx.
      { assert (x ∈ evidence (se_events s)) as [_ Hx]%list_elem_of_filter by (rewrite H3; by left).
        rewrite H2 in Hx. by apply list_elem_of_filter in Hx as [_ ?]. }
      apply list_elem_of_filter in Hx as [? [? _]%list_elem_of_filter].
      pose proof (ends_of_first x q) as Hf. rewrite <-H1 in Hf. cbn in Hf. lia. }
    rewrite H2. unfold rest. rewrite !list_filter_filter. apply list_filter_iff. intros e. unfold within. lia.
Qed.

Lemma Derive_pieces log idleGap :
  0 < idleGap → StronglySorted in_time log →
  Forall2 (period log) (Derive log idleGap) (pieces_of idleGap (evidence log)).
Proof.
  intros Hg Hs. unfold Derive. fold (evidence log). destruct (evidence log) as [|e es] eqn:He; [constructor|].
  rewrite fmap_cons. cbn [pieces_of]. rewrite bounds_cut. destruct (cut_head idleGap e es) as (piece & pieces & Hc).
  rewrite Hc, <-(ends_of_first e piece), <-surjective_pairing, <-fmap_cons, <-Hc. apply attach_pieces; [done| |].
  - by rewrite cut_concat.
  - apply cut_apart; [done|]. rewrite <-He. by apply filter_sorted.
Qed.
