(* ===== verification/SchedFrontier.v ===== *)
(** The frontier of a Run (src/internal/scheduler/frontier.go): over the Run's
    frozen Matters, what may be engaged now, what is engaged, and how many slots
    the cap leaves. *)
From S2P Require Import Prelude GoStd Ulid Taxonomy Json Payloads Tables View Gates Project Store.
From S2P Require Import ReadSurface.

Module Sched.
(** The Run itself is the caller's, named by its identity in [Derive]. *)
Record Frontier := MkFrontier {
  f_members : list Node; f_ready : list Node; f_engaged : list Node; f_cap : Z; f_slots : Z
}.

(** edgesSatisfied: stops at the first blocker that is not locally complete. *)
Fixpoint edges_loop (log : list Event) (p : Proj) (edges : list Edge) : result bool :=
  match edges with
  | [] => Ok true
  | e :: edges =>
      blocker ← view_Node p (e_blocker e);
      ok ← read_LocallyComplete log p blocker;
      if ok : bool then edges_loop log p edges else Ok false
  end.

Definition edgesSatisfied (log : list Event) (p : Proj) (node : string) : result bool :=
  edges_loop log p (BlockedBy p node).

(** live: the nodes of one Matter by identity. *)
Definition live_of (nodes : list Node) (id : string) : option Node := find (λ n, bool_decide (n_id n = id)) nodes.

Definition hasLiveChild (nodes : list Node) (id : string) : bool :=
  negb (bool_decide (id = "")) && existsb (λ n, bool_decide (n_parent n = id)) nodes.

Fixpoint satisfied_ids (log : list Event) (p : Proj) (nodes : list Node) : result (gset string) :=
  match nodes with
  | [] => Ok ∅
  | n :: nodes =>
      ok ← edgesSatisfied log p (n_id n);
      rest ← satisfied_ids log p nodes;
      Ok (if ok : bool then {[n_id n]} ∪ rest else rest)
  end.

(** chainClear: the node's edges and every ancestor's, inside the Matter. *)
Fixpoint chainClear (depth : nat) (nodes : list Node) (sat : gset string) (n : Node) : bool :=
  bool_decide (n_id n ∈ sat) &&
  (bool_decide (n_parent n = "") ||
   match depth with
   | O => false
   | S depth =>
       match live_of nodes (n_parent n) with
       | None => false
       | Some parent => chainClear depth nodes sat parent
       end
   end).

Fixpoint ancestorsEngageable (depth : nat) (nodes : list Node) (n : Node) : bool :=
  bool_decide (n_parent n = "") ||
  match depth with
  | O => false
  | S depth =>
      match live_of nodes (n_parent n) with
      | None => false
      | Some parent =>
          (bool_decide (n_lifecycle parent = Planned) || bool_decide (n_lifecycle parent = InProgress))
          && ancestorsEngageable depth nodes parent
      end
  end.

(** The workable nodes of one Matter: engaged, and ready. *)
Definition engaged_in (nodes : list Node) : list Node :=
  filter (λ n, hasLiveChild nodes (n_id n) = false ∧ n_lifecycle n = InProgress) nodes.

Definition ready_in (nodes : list Node) (sat : gset string) : list Node :=
  filter (λ n, hasLiveChild nodes (n_id n) = false ∧ n_lifecycle n = Planned
               ∧ chainClear tree_depth nodes sat n = true
               ∧ ancestorsEngageable tree_depth nodes n = true) nodes.

(** Members, Ready and Engaged, Matter by Matter. *)
Fixpoint member_loop (log : list Event) (p : Proj) (ids : list string)
    : result (list Node * list Node * list Node) :=
  match ids with
  | [] => Ok ([], [], [])
  | id :: ids =>
      matter ← view_Node p id;
      let nodes := MatterNodes p id in
      sat ← satisfied_ids log p nodes;
      '(members, ready, engaged) ← member_loop log p ids;
      Ok (matter :: members, ready_in nodes sat ++ ready, engaged_in nodes ++ engaged)
  end.

Definition by_identity (a b : Node) : bool := String.leb (n_id a) (n_id b).

(** [runCap] is an int. *)
Definition Derive (log : list Event) (p : Proj) (run : string) (runCap : Z) : result Frontier :=
  '(members, ready, engaged) ← member_loop log p (RunMatters p run);
  let slots := wrap64 (runCap - Z.of_nat (length engaged)) in
  Ok (MkFrontier members (order_by by_identity ready) (order_by by_identity engaged) runCap
        (if (slots <? 0)%Z then 0%Z else slots)).

Definition Select (ready : list Node) (slots : Z) : list Node :=
  if (slots <=? 0)%Z then []
  else if (Z.of_nat (length ready) <=? slots)%Z then ready
  else take (Z.to_nat slots) ready.
End Sched.
