(* ===== verification/SchedFacts.v ===== *)
(** The frontier of a Run against the reads (src/internal/scheduler/frontier.go and
    readsurface/frontier.go): the derivation never fails on live members, and what
    it offers is what the read surface calls ready, under ancestors that are ready
    too or under way. *)
From stdpp Require Import relations.
From S2P Require Import Prelude GoStd Ulid Taxonomy Json Payloads Tables View Gates Project Store.
From S2P Require Import Steps Invariants Shape Mint Reach Cycle Completion NodeVerbs ReadSurface Removal.
From S2P Require Import ReadFacts SchedFrontier.
Import Sched.

Lemma elem_of_MatterNodes p k n : n ∈ MatterNodes p k ↔ view_Node p (n_id n) = Ok n ∧ n_matter n = k.
Proof.
  unfold MatterNodes. rewrite elem_of_nodeList, view_Node_Ok. split.
  - intros (r & Hr & Hg & Ht & E). inv_bool. split; [eauto|]. by rewrite E.
  - intros [(r & Hr & Ht & E) Hl]. exists r. split_and!; try done. rewrite E in Hl. by apply bool_decide_eq_true.
Qed.

Lemma live_of_MatterNodes p k id m :
  live_of (MatterNodes p k) id = Some m ↔ view_Node p id = Ok m ∧ n_matter m = k.
Proof.
  unfold live_of. split.
  - intros [Hm Hid]%find_some. apply list_elem_of_In, elem_of_MatterNodes in Hm as [Hm Hk].
    apply bool_decide_eq_true in Hid as <-. done.
  - intros [Hm Hk]. assert (n_id m = id) as <- by (apply view_Node_Ok in Hm as (? & _ & _ & ->); done).
    destruct (find _ _) as [m'|] eqn:E.
    + apply find_some in E as [Hm' Hid%bool_decide_eq_true]. apply list_elem_of_In, elem_of_MatterNodes in Hm' as [Hm' _].
      rewrite Hid, Hm in Hm'. by injection Hm' as ->.
    + assert (m ∈ MatterNodes p k) as Hin%list_elem_of_In by (by apply elem_of_MatterNodes).
      pose proof (find_none _ _ E m Hin) as Hf. cbn in Hf. by rewrite bool_decide_true in Hf.
Qed.

Section sched.
Context (log : list Event) (p : Proj) (Hdb : db_ok log p) (Hst : only_steps_removed p).
#[local] Set Default Proof Using "All".

Lemma edges_loop_total es :
  (∀ e, e ∈ es → ∃ m, view_Node p (e_blocker e) = Ok m) →
  edges_loop log p es = Ok (bool_decide (filter (λ m, local log p m = false) (ends p es) = [])).
Proof.
  induction es as [|e es IH]; intros H; [done|]. cbn [edges_loop ends omap list_omap].
  destruct (H e) as (m & Hm); [by left|]. rewrite Hm. cbn [mbind result_bind].
  assert (view_Node p (n_id m) = Ok m) as Hm' by (apply view_Node_Ok in Hm as (? & ? & ? & ->); by apply view_Node_Ok; eauto).
  rewrite (read_local log p Hdb Hst _ Hm'). cbn [mbind result_bind]. fold (ends p es). rewrite filter_cons.
  destruct (local log p m); [|done]. rewrite decide_False by done. apply IH. intros; apply H; by right.
Qed.

Lemma edgesSatisfied_total x : edgesSatisfied log p x = Ok (bool_decide (unmet log p x = [])).
Proof. apply edges_loop_total. intros e (_ & m & _ & Hm)%elem_of_BlockedBy%waits_ends. eauto. Qed.

Lemma satisfied_ids_total ns :
  ∃ sat, satisfied_ids log p ns = Ok sat ∧ ∀ n, n ∈ ns → n_id n ∈ sat ↔ unmet log p (n_id n) = [].
Proof.
  assert (∃ sat, satisfied_ids log p ns = Ok sat
    ∧ ∀ id, id ∈ sat ↔ id ∈ n_id <$> ns ∧ unmet log p id = []) as (sat & H & Hiff).
  { induction ns as [|n ns IH]; cbn [satisfied_ids].
    { exists ∅. split; [done|]. intros id. rewrite fmap_nil, elem_of_nil. set_solver. }
    rewrite edgesSatisfied_total. cbn [mbind result_bind]. destruct IH as (sat & -> & Hiff). cbn [mbind result_bind].
    eexists. split; [reflexivity|]. intros id. rewrite fmap_cons, elem_of_cons. case_bool_decide as Hu.
    - rewrite elem_of_union, elem_of_singleton, Hiff. naive_solver.
    - rewrite Hiff. naive_solver. }
  exists sat. split; [done|]. intros n Hn. rewrite Hiff. split; [by intros [_ ?]|]. intros Hu.
  split; [by apply list_elem_of_fmap_2|done].
Qed.

(** A condition on a node and on everything above it. *)
Definition chain_all (P : Node → Prop) (n : Node) : Prop :=
  P n ∧ ∀ m, view_Node p (n_id m) = Ok m → above p (n_id n) (n_id m) → P m.

Lemma chain_all_parent P n m :
  view_Node p (n_id n) = Ok n → n_parent n ≠ "" → view_Node p (n_parent n) = Ok m → n_id m = n_parent n →
  (∀ x, view_Node p (n_id x) = Ok x → above p (n_id n) (n_id x) → P x) ↔ chain_all P m.
Proof.
  intros Hn Hp Hm Hid. unfold chain_all. split.
  - intros H. split; [|intros x Hx Ha]; apply H; try done; [by rewrite Hid|..];
      apply (above_parent p n _ Hn); rewrite Hid in *; auto.
  - intros [H1 H2] x Hx Ha. apply (above_parent p n _ Hn) in Ha as [_ [Ex|Ha]].
    + rewrite Ex, Hm in Hx. by injection Hx as <-.
    + apply H2; [done|]. by rewrite Hid.
Qed.

Lemma chainClear_spec k sat n depth :
  (∀ m, m ∈ MatterNodes p k → n_id m ∈ sat ↔ unmet log p (n_id m) = []) →
  view_Node p (n_id n) = Ok n → (scale_rank (n_kind n) ≤ S depth)%nat → n_matter n = k →
  chainClear depth (MatterNodes p k) sat n = true ↔ chain_all (λ m, unmet log p (n_id m) = []) n.
Proof.
  intros Hsat. revert depth n. refine (climb_ind log p Hdb Hst (λ depth n, n_matter n = k →
    chainClear depth (MatterNodes p k) sat n = true ↔ chain_all (λ m, unmet log p (n_id m) = []) n) _ _).
  - intros depth n Hn Hp Hk. unfold chain_all.
    assert (chainClear depth (MatterNodes p k) sat n = bool_decide (n_id n ∈ sat)) as ->.
    { destruct depth; cbn [chainClear]; rewrite (bool_decide_true (n_parent n = "")) by done; by rewrite andb_true_r. }
    rewrite bool_decide_eq_true, Hsat by (by apply elem_of_MatterNodes). split; [|tauto]. intros Hu. split; [done|].
    intros m _ [Hx _]%(above_parent p n _ Hn). by rewrite Hp in Hx.
  - intros depth n m Hn Hp Hm Hid Hmat IH Hk. cbn [chainClear]. rewrite (bool_decide_false (n_parent n = "")) by done.
    assert (live_of (MatterNodes p k) (n_parent n) = Some m) as -> by (apply live_of_MatterNodes; split; congruence).
    cbn [orb]. rewrite andb_true_iff, bool_decide_eq_true, Hsat, IH by (try congruence; by apply elem_of_MatterNodes).
    unfold chain_all at 2. by rewrite (chain_all_parent _ n m Hn Hp Hm Hid).
Qed.

Definition engageable (m : Node) : Prop := n_lifecycle m = Planned ∨ n_lifecycle m = InProgress.

Lemma ancestorsEngageable_spec k n depth :
  view_Node p (n_id n) = Ok n → (scale_rank (n_kind n) ≤ S depth)%nat → n_matter n = k →
  ancestorsEngageable depth (MatterNodes p k) n = true
  ↔ ∀ m, view_Node p (n_id m) = Ok m → above p (n_id n) (n_id m) → engageable m.
Proof.
  revert depth n. refine (climb_ind log p Hdb Hst (λ depth n, n_matter n = k →
    ancestorsEngageable depth (MatterNodes p k) n = true
    ↔ ∀ m, view_Node p (n_id m) = Ok m → above p (n_id n) (n_id m) → engageable m) _ _).
  - intros depth n Hn Hp Hk.
    assert (ancestorsEngageable depth (MatterNodes p k) n = true) as ->.
    { destruct depth; cbn [ancestorsEngageable]; by rewrite (bool_decide_true (n_parent n = "")). }
    split; [|done]. intros _ m _ [Hx _]%(above_parent p n _ Hn). by rewrite Hp in Hx.
  - intros depth n m Hn Hp Hm Hid Hmat IH Hk. cbn [ancestorsEngageable]. rewrite (bool_decide_false (n_parent n = "")) by done.
    assert (live_of (MatterNodes p k) (n_parent n) = Some m) as -> by (apply live_of_MatterNodes; split; congruence).
    cbn [orb]. rewrite andb_true_iff, orb_true_iff, !bool_decide_eq_true, IH by congruence.
    rewrite (chain_all_parent engageable n m Hn Hp Hm Hid). done.
Qed.

Lemma hasLiveChild_spec n :
  view_Node p (n_id n) = Ok n → hasLiveChild (MatterNodes p (n_matter n)) (n_id n) = false ↔ Children p (n_id n) = [].
Proof.
  intros Hn. unfold hasLiveChild. rewrite bool_decide_false; cbn [negb andb].
  2: { intros E. pose proof Hn as (r & Hr & _)%view_Node_Ok. rewrite E in Hr.
       by pose proof (sh_checked p (db_shape _ _ Hdb) TNodes "" r Hr). }
  split.
  - intros H. apply elem_of_nil_inv. intros m (r & Hr & Hp & Ht & E)%elem_of_Children.
    assert (view_Node p (n_id m) = Ok m) as Hm by (apply view_Node_Ok; eauto).
    assert (n_parent m = n_id n) as Hpm by (rewrite E; cbn; by rewrite Hp).
    apply not_true_iff_false in H. apply H, existsb_exists. exists m. split; [|by rewrite bool_decide_true].
    apply list_elem_of_In, elem_of_MatterNodes. split; [done|].
    destruct (parent_live log p Hdb Hst (n_id m) m Hm) as (n' & Hn' & Hmat & _).
    { rewrite Hpm. intros E'. pose proof Hn as (r' & Hr' & _)%view_Node_Ok. rewrite E' in Hr'.
      by pose proof (sh_checked p (db_shape _ _ Hdb) TNodes "" r' Hr'). }
    rewrite Hpm, Hn in Hn'. injection Hn' as <-. done.
  - intros H. apply not_true_iff_false. intros (m & Hm & Hp%bool_decide_eq_true)%existsb_exists.
    apply list_elem_of_In, elem_of_MatterNodes in Hm as [(r & Hr & Ht & E)%view_Node_Ok _].
    assert (m ∈ Children p (n_id n)) as Hin; [|rewrite H in Hin; by apply elem_of_nil in Hin].
    apply elem_of_Children. exists r. split_and!; try done. rewrite E in Hp. cbn in Hp.
    destruct (nd_parent r) as [pk|]; cbn in Hp; [by subst|]. exfalso.
    pose proof Hn as (r' & Hr' & _)%view_Node_Ok. rewrite <-Hp in Hr'.
    by pose proof (sh_checked p (db_shape _ _ Hdb) TNodes "" r' Hr').
Qed.
(** ** A Run's frozen set *)
Lemma RunMatters_live run id :
  id ∈ RunMatters p run → ∃ m, view_Node p id = Ok m ∧ n_kind m = ScaleMatter ∧ n_id m = id.
Proof.
  unfold RunMatters. intros ([[run' k] i] & -> & Hin)%list_elem_of_fmap.
  apply (elem_of_select TRunMatters) in Hin as [Hr _]. cbn.
  destruct (sh_frozen p (db_shape _ _ Hdb) _ _ Hr) as (n & Hn & Hk). exists (scanNode k n). split; [|done].
  apply view_Node_Ok. exists n. split_and!; try done. destruct (nd_tombstone n) eqn:E; [|done].
  assert (nd_kind n = ScaleStep) by (eapply Hst; [done|by rewrite E]). cbn in *. congruence.
Qed.

Lemma RunMatters_NoDup run : NoDup (RunMatters p run).
Proof.
  unfold RunMatters, select. apply (NoDup_fmap_2_strong _).
  - intros [[k1 k2] r] [[k1' k2'] r'] H1 H2 E. cbn in E. subst k2'.
    rewrite !elem_of_order_by, !list_elem_of_filter, !elem_of_map_to_list in *.
    destruct H1 as [E1 H1], H2 as [E2 H2]. cbn in E1, E2. inv_bool. subst k1 k1'.
    pose proof (eq_trans (eq_sym H1) H2) as E. by injection E as ->.
  - rewrite order_by_perm. apply NoDup_filter, NoDup_map_to_list.
Qed.

(** What a Run may engage, and what occupies a slot. *)
Definition ready_leaf (n : Node) : Prop :=
  view_Node p (n_id n) = Ok n ∧ n_lifecycle n = Planned ∧ Children p (n_id n) = []
  ∧ chain_all (λ m, unmet log p (n_id m) = []) n
  ∧ ∀ m, view_Node p (n_id m) = Ok m → above p (n_id n) (n_id m) → engageable m.

Definition engaged_leaf (n : Node) : Prop :=
  view_Node p (n_id n) = Ok n ∧ n_lifecycle n = InProgress ∧ Children p (n_id n) = [].

Lemma elem_of_ready_in k sat n :
  (∀ m, m ∈ MatterNodes p k → n_id m ∈ sat ↔ unmet log p (n_id m) = []) →
  n ∈ ready_in (MatterNodes p k) sat ↔ n_matter n = k ∧ ready_leaf n.
Proof.
  intros Hsat. unfold ready_in, ready_leaf. rewrite list_elem_of_filter, elem_of_MatterNodes.
  split; [intros [H [Hn Hk]]|intros [Hk (Hn & H)]]; subst k;
    rewrite ?(hasLiveChild_spec n Hn), ?(chainClear_spec _ sat n tree_depth Hsat Hn (scale_depth n) eq_refl),
      ?(ancestorsEngageable_spec _ n tree_depth Hn (scale_depth n) eq_refl) in *; tauto.
Qed.

Lemma elem_of_engaged_in k n : n ∈ engaged_in (MatterNodes p k) ↔ n_matter n = k ∧ engaged_leaf n.
Proof.
  unfold engaged_in, engaged_leaf. rewrite list_elem_of_filter, elem_of_MatterNodes.
  split; [intros [H [Hn Hk]]|intros [Hk (Hn & H)]]; subst k; rewrite (hasLiveChild_spec n Hn) in *; tauto.
Qed.

Lemma filter_ids_NoDup (P : Node → Prop) `{∀ n, Decision (P n)} (l : list Node) :
  NoDup (n_id <$> l) → NoDup (n_id <$> filter P l).
Proof. intros Hl. eapply sublist_NoDup; [exact Hl|]. apply fmap_sublist, sublist_filter. Qed.

Lemma app_ids_NoDup (l1 l2 : list Node) :
  NoDup (n_id <$> l1) → NoDup (n_id <$> l2) →
  (∀ a b, a ∈ l1 → b ∈ l2 → n_id a ≠ n_id b) → NoDup (n_id <$> l1 ++ l2).
Proof.
  intros H1 H2 Hd. rewrite fmap_app. apply NoDup_app. split_and!; try done.
  intros x (a & -> & Ha)%list_elem_of_fmap (b & E & Hb)%list_elem_of_fmap. by apply (Hd a b).
Qed.

(** Nodes of different Matters differ. *)
Lemma other_matter (P : Node → Prop) (l1 l2 : list Node) (k : string) (ks : list string) :
  (∀ n, P n → view_Node p (n_id n) = Ok n) → k ∉ ks →
  (∀ n, n ∈ l1 ↔ n_matter n = k ∧ P n) → (∀ n, n ∈ l2 ↔ n_matter n ∈ ks ∧ P n) →
  ∀ a b, a ∈ l1 → b ∈ l2 → n_id a ≠ n_id b.
Proof.
  intros HP Hk H1 H2 a b [Ha1 Ha2]%H1 [Hb1 Hb2]%H2 E. apply HP in Ha2, Hb2. rewrite E, Hb2 in Ha2.
  injection Ha2 as ->. by subst k.
Qed.

Lemma member_loop_total ids :
  (∀ id, id ∈ ids → ∃ m, view_Node p id = Ok m ∧ n_id m = id) → NoDup ids →
  ∃ members ready engaged, member_loop log p ids = Ok (members, ready, engaged)
    ∧ n_id <$> members = ids ∧ NoDup (n_id <$> ready) ∧ NoDup (n_id <$> engaged)
    ∧ (∀ n, n ∈ ready ↔ n_matter n ∈ ids ∧ ready_leaf n)
    ∧ (∀ n, n ∈ engaged ↔ n_matter n ∈ ids ∧ engaged_leaf n).
Proof.
  induction ids as [|id ids IH]; intros Hl Hnd; cbn [member_loop].
  { exists [], [], []. split_and!; [done|done|constructor|constructor|..]; intros n; rewrite !elem_of_nil; tauto. }
  apply NoDup_cons in Hnd as [Hid Hnd]. destruct (Hl id) as (m & Hm & Em); [by left|]. rewrite Hm. cbn [mbind result_bind].
  destruct (satisfied_ids_total (MatterNodes p id)) as (sat & -> & Hsat). cbn [mbind result_bind].
  destruct IH as (ms & ready & engaged & -> & Ems & Hr & He & Hready & Hengaged); [intros; apply Hl; by right|done|].
  cbn [mbind result_bind]. eexists _, _, _. split; [reflexivity|].
  pose proof (elem_of_ready_in id sat) as Hri. pose proof (elem_of_engaged_in id) as Hei.
  split_and!; [by rewrite fmap_cons, Em, Ems|..].
  - apply app_ids_NoDup; [apply filter_ids_NoDup, nodeList_NoDup|done|].
    apply (other_matter ready_leaf _ _ id ids); try done; [by intros n [? _]|by intros n; apply Hri].
  - apply app_ids_NoDup; [apply filter_ids_NoDup, nodeList_NoDup|done|].
    apply (other_matter engaged_leaf _ _ id ids); try done. by intros n [? _].
  - intros n. rewrite elem_of_app, elem_of_cons, Hready, (Hri n Hsat). tauto.
  - intros n. rewrite elem_of_app, elem_of_cons, Hengaged, Hei. tauto.
Qed.

Lemma Derive_total run runCap :
  ∃ f, Derive log p run runCap = Ok f
    ∧ n_id <$> f_members f = RunMatters p run
    ∧ StronglySorted slt (n_id <$> f_ready f) ∧ StronglySorted slt (n_id <$> f_engaged f)
    ∧ (∀ n, n ∈ f_ready f ↔ n_matter n ∈ RunMatters p run ∧ ready_leaf n)
    ∧ (∀ n, n ∈ f_engaged f ↔ n_matter n ∈ RunMatters p run ∧ engaged_leaf n)
    ∧ f_slots f = Z.max 0 (wrap64 (runCap - Z.of_nat (length (f_engaged f)))).
Proof.
  destruct (member_loop_total (RunMatters p run)) as (ms & ready & engaged & H & Ems & Hr & He & Hready & Hengaged).
  { intros id (m & Hm & _ & Hid)%RunMatters_live. eauto. }
  { apply RunMatters_NoDup. }
  unfold Derive. rewrite H. cbn [mbind result_bind]. eexists. split; [reflexivity|]. cbn [f_members f_ready f_engaged f_slots].
  split_and!; [done|by apply order_by_strict|by apply order_by_strict|..].
  - intros n. by rewrite elem_of_order_by.
  - intros n. by rewrite elem_of_order_by.
  - rewrite (Permutation_length (order_by_perm by_identity engaged)). destruct (Z.ltb_spec (wrap64 (runCap - Z.of_nat (length engaged))) 0); lia.
Qed.
End sched.

(** ** Choosing *)
Lemma Select_prefix ready slots :
  ∃ rest, ready = Select ready slots ++ rest
    ∧ Z.of_nat (length (Select ready slots)) = Z.min (Z.of_nat (length ready)) (Z.max 0 slots).
Proof.
  unfold Select. destruct (Z.leb_spec slots 0); [exists ready; split; [done|]; cbn; lia|].
  destruct (Z.leb_spec (Z.of_nat (length ready)) slots); [exists []; split; [by rewrite app_nil_r|]; lia|].
  exists (drop (Z.to_nat slots) ready). split; [by rewrite take_drop|]. rewrite length_take. lia.
Qed.
