(* ===== verification/Cbor.v ===== *)
(** The deterministic CBOR of command identities (src/internal/operation/
    canonical_cbor.go).  A []byte is a list of bytes; whether a text is in Unicode
    normal form C is asked of golang.org/x/text and is a parameter, [nfc]. *)
From S2P Require Import Prelude GoStd Ulid View.
Local Open Scope Z_scope.

(** A Go [any] as the codec tells values apart: nil, bool, string, uint64, int64,
    canonicalArray, canonicalMap, and [COther] for a value of any other type, which
    the encoder refuses.  A map is listed in the order a range over it visits its
    keys. *)
Inductive CVal :=
| CNil
| CBool (b : bool)
| CText (s : string)
| CUint (n : Z)
| CInt (n : Z)
| CArray (l : list CVal)
| CMap (m : list (string * CVal))
| COther.

(** appendCBORHead *)
Definition appendCBORHead (major value : Z) : list Z :=
  let prefix := Z.shiftl major 5 in
  if value <? 24 then [Z.lor prefix value]
  else if value <=? 0xff then [Z.lor prefix 24; value]
  else if value <=? 0xffff then Z.lor prefix 25 :: Sha256.be_bytes 2 value
  else if value <=? 0xffffffff then Z.lor prefix 26 :: Sha256.be_bytes 4 value
  else Z.lor prefix 27 :: Sha256.be_bytes 8 value.

(** The order of map entries: by length, then by bytes. *)
Definition entry_leb (a b : list Z) : bool :=
  (length a <? length b)%nat
  || ((length a =? length b)%nat && String.leb (string_of a) (string_of b)).

(** The entries in their order, up to the first whose value does not encode. *)
Fixpoint append_entries (entries : list (list Z * result (list Z))) : result (list Z) :=
  match entries with
  | [] => Ok []
  | (key, value) :: entries => v ← value; rest ← append_entries entries; Ok (key ++ v ++ rest)
  end.

Section encoder.
Context (nfc : string → bool).

Definition validateCanonicalText (value : string) : result () :=
  ensure (utf8_valid value) (ERefuse "text is not valid UTF-8") ;;
  ensure (nfc value) (ERefuse "text is not Unicode NFC").

Definition append_text (s : string) : list Z :=
  appendCBORHead 3 (Z.of_nat (String.length s)) ++ bytes_of s.

Fixpoint appendCanonical (value : CVal) : result (list Z) :=
  match value with
  | CNil => Ok [0xf6]
  | CBool b => Ok [if b then 0xf5 else 0xf4]
  | CText s => validateCanonicalText s ;; Ok (append_text s)
  | CUint n => Ok (appendCBORHead 0 n)
  | CInt n => Ok (if 0 <=? n then appendCBORHead 0 n else appendCBORHead 1 (- (n + 1)))
  | CArray l =>
      body ← (fix elements l :=
                match l with
                | [] => Ok []
                | x :: l => a ← appendCanonical x; rest ← elements l; Ok (a ++ rest)
                end) l;
      Ok (appendCBORHead 4 (Z.of_nat (length l)) ++ body)
  | CMap m =>
      entries ← (fix keys m :=
                   match m with
                   | [] => Ok []
                   | (k, x) :: m =>
                       validateCanonicalText k ;;
                       rest ← keys m; Ok ((append_text k, appendCanonical x) :: rest)
                   end) m;
      body ← append_entries (order_by (λ a b, entry_leb a.1 b.1) entries);
      Ok (appendCBORHead 5 (Z.of_nat (length entries)) ++ body)
  | COther => Error (ERefuse "canonical CBOR does not support the value")
  end.

Definition marshalCanonical (value : CVal) : result (list Z) := appendCanonical value.
End encoder.
