(* ===== verification/CborFacts.v ===== *)
(** The deterministic encoding is faithful and canonical: a reference decoder reads
    back what was encoded, whatever order a map was visited in, and two values have
    the same bytes exactly when they hold the same data. *)
From S2P Require Import Prelude GoStd Ulid View Cbor.
From stdpp Require Import sorting.
Local Open Scope Z_scope.

(** ** Values *)
Section cval_ind.
Context (P : CVal → Prop).
Context (Hnil : P CNil) (Hbool : ∀ b, P (CBool b)) (Htext : ∀ s, P (CText s)) (Huint : ∀ n, P (CUint n))
  (Hint : ∀ n, P (CInt n)) (Harray : ∀ l, Forall P l → P (CArray l)) (Hmap : ∀ m, Forall (λ kx, P kx.2) m → P (CMap m)) (Hother : P COther).

Fixpoint CVal_nested (v : CVal) : P v :=
  match v with
  | CNil => Hnil
  | CBool b => Hbool b
  | CText s => Htext s
  | CUint n => Huint n
  | CInt n => Hint n
  | CArray l =>
      Harray l ((fix go l := match l return Forall P l with
                             | [] => Forall_nil_2 _
                             | x :: l => Forall_cons_2 _ _ _ (CVal_nested x) (go l)
                             end) l)
  | CMap m =>
      Hmap m ((fix go m := match m return Forall (λ kx : string * CVal, P kx.2) m with
                           | [] => Forall_nil_2 _
                           | kx :: m => Forall_cons_2 _ _ _ (CVal_nested kx.2) (go m)
                           end) m)
  | COther => Hother
  end.
End cval_ind.

(** The data of a value: an int64 that is not negative is the same as a uint64, and a
    map is its entries in the order they are written. *)
Definition key_leb {A} (a b : string * A) : bool := entry_leb (append_text a.1) (append_text b.1).

Fixpoint plain (v : CVal) : CVal :=
  match v with
  | CInt n => if 0 <=? n then CUint n else CInt n
  | CArray l => CArray (map plain l)
  | CMap m => CMap (order_by key_leb (map (λ kx, (kx.1, plain kx.2)) m))
  | v => v
  end.

(** Widths and lengths a Go value has, and distinct keys. *)
Definition length_ok {A} (l : list A) : Prop := Z.of_nat (length l) < 2 ^ 64.
Definition text_ok (s : string) : Prop := Z.of_nat (String.length s) < 2 ^ 64.

Fixpoint cval_ok (v : CVal) : Prop :=
  match v with
  | CNil | CBool _ | COther => True
  | CText s => text_ok s
  | CUint n => 0 <= n < 2 ^ 64
  | CInt n => - 2 ^ 63 <= n < 2 ^ 63
  | CArray l => length_ok l ∧ foldr (λ x P, cval_ok x ∧ P) True l
  | CMap m => length_ok m ∧ NoDup m.*1 ∧ Forall text_ok m.*1 ∧ foldr (λ kx P, cval_ok kx.2 ∧ P) True m
  end.

Fixpoint csize (v : CVal) : nat :=
  match v with
  | CArray l => S (foldr (λ x n, csize x + n)%nat O l)
  | CMap m => S (foldr (λ kx n, csize kx.2 + n)%nat O m)
  | _ => 1
  end.

Fixpoint cbound (v : CVal) : nat :=
  match v with
  | CText s => 9 + String.length s
  | CArray l => 9 + foldr (λ x n, cbound x + n)%nat O l
  | CMap m => 9 + foldr (λ kx n, 9 + String.length kx.1 + cbound kx.2 + n)%nat O m
  | _ => 9
  end.

Lemma csize_pos v : (1 ≤ csize v)%nat.
Proof. destruct v; cbn; lia. Qed.

(** ** The reference decoder *)
Definition take_word (n : nat) (bs : list Z) : option (Z * list Z) :=
  if (length bs <? n)%nat then None else Some (Sha256.be_word (take n bs), drop n bs).

Definition head_arg (info : Z) (bs : list Z) : option (Z * list Z) :=
  if info <? 24 then Some (info, bs)
  else if info =? 24 then take_word 1 bs
  else if info =? 25 then take_word 2 bs
  else if info =? 26 then take_word 4 bs
  else if info =? 27 then take_word 8 bs
  else None.

Definition dec_head (bs : list Z) : option (Z * Z * list Z) :=
  match bs with
  | [] => None
  | b :: bs => '(v, rest) ← head_arg (b mod 32) bs; Some (b / 32, v, rest)
  end.

Definition dec_text (bs : list Z) : option (string * list Z) :=
  '(major, v, rest) ← dec_head bs;
  if (major =? 3) && (v <=? Z.of_nat (length rest))
  then Some (string_of (take (Z.to_nat v) rest), drop (Z.to_nat v) rest) else None.

Section items.
Context (dec : list Z → option (CVal * list Z)).

Fixpoint dec_items (fuel : nat) (n : Z) (bs : list Z) : option (list CVal * list Z) :=
  if n <=? 0 then Some ([], bs)
  else match fuel with
       | O => None
       | S fuel => '(x, bs) ← dec bs; '(l, bs) ← dec_items fuel (n - 1) bs; Some (x :: l, bs)
       end.

Fixpoint dec_pairs (fuel : nat) (n : Z) (bs : list Z) : option (list (string * CVal) * list Z) :=
  if n <=? 0 then Some ([], bs)
  else match fuel with
       | O => None
       | S fuel =>
           '(k, bs) ← dec_text bs; '(x, bs) ← dec bs; '(m, bs) ← dec_pairs fuel (n - 1) bs;
           if bool_decide (k ∈ m.*1) then None else Some ((k, x) :: m, bs)
       end.
End items.

Fixpoint dec (fuel : nat) (bs : list Z) : option (CVal * list Z) :=
  match fuel with
  | O => None
  | S fuel =>
      '(major, v, rest) ← dec_head bs;
      if major =? 0 then Some (CUint v, rest)
      else if major =? 1 then Some (CInt (- (v + 1)), rest)
      else if major =? 3 then '(s, rest) ← dec_text bs; Some (CText s, rest)
      else if major =? 4 then '(l, rest) ← dec_items (dec fuel) fuel v rest; Some (CArray l, rest)
      else if major =? 5 then '(m, rest) ← dec_pairs (dec fuel) fuel v rest; Some (CMap m, rest)
      else if (major =? 7) && (v =? 20) then Some (CBool false, rest)
      else if (major =? 7) && (v =? 21) then Some (CBool true, rest)
      else if (major =? 7) && (v =? 22) then Some (CNil, rest)
      else None
  end.

(** The whole input, one value and nothing after it. *)
Definition dec_all (bs : list Z) : option CVal :=
  match dec (length bs) bs with Some (v, []) => Some v | _ => None end.

(** ** Heads *)
Lemma be_word_snoc bs b : Sha256.be_word (bs ++ [b]) = Sha256.be_word bs * 256 + b.
Proof. unfold Sha256.be_word. by rewrite fold_left_app. Qed.

Lemma be_word_cons b bs : Sha256.be_word (b :: bs) = b * 256 ^ Z.of_nat (length bs) + Sha256.be_word bs.
Proof.
  induction bs as [|x bs IH] using rev_ind; [cbn; lia|].
  rewrite app_comm_cons, !be_word_snoc, IH, length_app. cbn [length].
  rewrite Nat.add_1_r, Nat2Z.inj_succ, Z.pow_succ_r by lia. lia.
Qed.

Lemma be_word_bytes n z : Sha256.be_word (Sha256.be_bytes n z) = z mod 256 ^ Z.of_nat n.
Proof.
  induction n as [|n IH]; [cbn; by rewrite Z.mod_1_r|]. cbn [Sha256.be_bytes].
  rewrite be_word_cons, Sha256.be_bytes_length, IH.
  change 255 with (Z.ones 8). rewrite Z.land_ones, Z.shiftr_div_pow2 by lia.
  rewrite Nat2Z.inj_succ, Z.pow_succ_r by lia.
  replace (2 ^ (8 * Z.of_nat n)) with (256 ^ Z.of_nat n) by (by rewrite Z.pow_mul_r by lia).
  rewrite (Z.mul_comm 256), Z.rem_mul_r by lia. change (2 ^ 8) with 256. lia.
Qed.

Lemma prefix_add major info : 0 <= major → 0 <= info < 32 → Z.lor (Z.shiftl major 5) info = major * 32 + info.
Proof. intros. rewrite Z.shiftl_mul_pow2 by lia. change (2 ^ 5) with 32. by apply (lor_add_low _ _ 5). Qed.

Lemma take_word_bytes n z rest : 0 <= z < 256 ^ Z.of_nat n → take_word n (Sha256.be_bytes n z ++ rest) = Some (z, rest).
Proof.
  intros Hz. unfold take_word. rewrite length_app, Sha256.be_bytes_length.
  destruct (Nat.ltb_spec (n + length rest) n); [lia|].
  rewrite take_app_length', drop_app_length' by (by rewrite Sha256.be_bytes_length).
  by rewrite be_word_bytes, Z.mod_small by lia.
Qed.

Lemma dec_head_app major v rest :
  0 <= major < 8 → 0 <= v < 2 ^ 64 → dec_head (appendCBORHead major v ++ rest) = Some (major, v, rest).
Proof.
  intros Hm Hv.
  assert (∀ info tail, 0 <= info < 32 → head_arg info tail = Some (v, rest) →
    dec_head (Z.lor (Z.shiftl major 5) info :: tail) = Some (major, v, rest)) as Hall.
  { intros info tail Hi Ht. rewrite prefix_add by lia. unfold dec_head.
    rewrite Z.add_comm, Z.mod_add, Z.mod_small, Ht, Z.div_add, Z.div_small by lia. done. }
  unfold appendCBORHead.
  destruct (Z.ltb_spec v 24); [apply Hall; [lia|]; unfold head_arg; by destruct (Z.ltb_spec v 24); [|lia]|].
  assert (∀ info n, 0 <= info < 32 → head_arg info (Sha256.be_bytes n v ++ rest) = take_word n (Sha256.be_bytes n v ++ rest) →
    v < 256 ^ Z.of_nat n →
    dec_head ((Z.lor (Z.shiftl major 5) info :: Sha256.be_bytes n v) ++ rest) = Some (major, v, rest)) as Hword.
  { intros info n Hi Ha Hn. cbn [app]. apply Hall; [done|]. rewrite Ha. apply take_word_bytes. lia. }
  destruct (Z.leb_spec v 0xff).
  { assert ([Z.lor (Z.shiftl major 5) 24; v] = Z.lor (Z.shiftl major 5) 24 :: Sha256.be_bytes 1 v) as ->.
    { cbn [Sha256.be_bytes]. rewrite Z.shiftr_0_r. change 255 with (Z.ones 8). rewrite Z.land_ones, Z.mod_small by lia. done. }
    apply Hword; [lia|done|lia]. }
  destruct (Z.leb_spec v 0xffff); [apply Hword; [lia|done|lia]|].
  destruct (Z.leb_spec v 0xffffffff); apply Hword; try lia; done.
Qed.

Lemma head_bytes major v : 0 <= major < 8 → (1 <= length (appendCBORHead major v))%nat.
Proof. intros _. unfold appendCBORHead. repeat case_match; cbn; lia. Qed.

Lemma head_bound major v : (length (appendCBORHead major v) ≤ 9)%nat.
Proof. unfold appendCBORHead. repeat case_match; cbn [length]; rewrite ?Sha256.be_bytes_length; lia. Qed.

Lemma append_text_bound s : (length (append_text s) ≤ 9 + String.length s)%nat.
Proof. unfold append_text. rewrite length_app, bytes_of_length. pose proof (head_bound 3 (Z.of_nat (String.length s))). lia. Qed.

Lemma dec_text_app s rest : text_ok s → dec_text (append_text s ++ rest) = Some (s, rest).
Proof.
  intros Hs. unfold dec_text, append_text. rewrite <-app_assoc, dec_head_app by (unfold text_ok in Hs; lia). cbn.
  rewrite length_app, bytes_of_length, Nat2Z.id.
  destruct (Z.leb_spec (Z.of_nat (String.length s)) (Z.of_nat (String.length s + length rest))); [|lia].
  by rewrite take_app_length', drop_app_length', string_bytes by (by rewrite bytes_of_length).
Qed.

(** ** The order of entries *)
Lemma entry_leb_spec a b :
  entry_leb a b = true ↔ (length a < length b)%nat ∨ (length a = length b ∧ String.le (string_of a) (string_of b)).
Proof.
  unfold entry_leb. rewrite orb_true_iff, andb_true_iff, Nat.ltb_lt, Nat.eqb_eq.
  split; (intros [?|[? H]]; [by left|right; split; [done|]]); [by apply Is_true_eq_left|by apply Is_true_eq_true].
Qed.

Lemma entry_leb_total a b : entry_leb a b = true ∨ entry_leb b a = true.
Proof.
  rewrite !entry_leb_spec. destruct (Nat.lt_total (length a) (length b)) as [?|[E|?]]; [by left; left| |by right; left].
  destruct (total String.le (string_of a) (string_of b)); [left|right]; by right.
Qed.

Lemma entry_leb_trans a b c : entry_leb a b = true → entry_leb b c = true → entry_leb a c = true.
Proof.
  rewrite !entry_leb_spec. intros [H1|[E1 H1]] [H2|[E2 H2]]; [left; lia..|]. right. split; [lia|by etrans].
Qed.

Lemma append_text_string s : string_of (append_text s) = string_of (appendCBORHead 3 (Z.of_nat (String.length s))) +:+ s.
Proof.
  unfold append_text. induction (appendCBORHead _ _) as [|b bs IH]; [apply string_bytes|].
  cbn [app string_of]. rewrite IH. done.
Qed.

Lemma append_text_inj s t : text_ok s → text_ok t → append_text s = append_text t → s = t.
Proof.
  intros Hs Ht E. pose proof (dec_text_app s [] Hs) as H1. pose proof (dec_text_app t [] Ht) as H2.
  rewrite E, H2 in H1. by injection H1 as <-.
Qed.

(** Sorting and mapping commute when the order is asked of the images. *)
Lemma order_by_fmap {A B} (f : A → B) (leb : B → B → bool) (l : list A) :
  order_by leb (f <$> l) = f <$> order_by (λ a b, leb (f a) (f b)) l.
Proof.
  assert (∀ x (l : list A), ord_insert leb (f x) (f <$> l) = f <$> ord_insert (λ a b, leb (f a) (f b)) x l) as Hins.
  { intros x k. induction k as [|y k IH]; [done|]. cbn [fmap list_fmap ord_insert]. destruct (leb (f x) (f y)); [done|].
    cbn [fmap list_fmap]. by rewrite IH. }
  induction l as [|x l IH]; [done|]. rewrite fmap_cons. cbn [order_by]. by rewrite IH, Hins.
Qed.

(** The order asks the keys alone. *)
Lemma order_by_leb_ext {A} (f g : A → A → bool) (l : list A) : (∀ a b, f a b = g a b) → order_by f l = order_by g l.
Proof.
  intros E. assert (∀ x (k : list A), ord_insert f x k = ord_insert g x k) as Hins.
  { intros x k. induction k as [|y k IH]; [done|]. cbn [ord_insert]. by rewrite E, IH. }
  induction l as [|x l IH]; [done|]. cbn [order_by]. by rewrite IH, Hins.
Qed.

Lemma key_sorted {A} (m : list (string * A)) : StronglySorted (λ a b, key_leb a b = true) (order_by key_leb m).
Proof.
  apply Sorted_StronglySorted; [intros a b c; apply entry_leb_trans|].
  apply order_by_sorted; [intros a b; apply entry_leb_total|intros a b c; apply entry_leb_trans].
Qed.

Lemma bytes_le_antisym (a b : list Z) :
  Forall (λ x, 0 <= x < 256) a → Forall (λ x, 0 <= x < 256) b →
  entry_leb a b = true → entry_leb b a = true → a = b.
Proof.
  intros Ha Hb. rewrite !entry_leb_spec. intros [H1|[E1 H1]] [H2|[E2 H2]]; [lia..|].
  assert (string_of a = string_of b) as E by (by apply (anti_symm String.le)). clear E1 E2 H1 H2.
  revert b Hb E. induction Ha as [|x a Hx Ha IH]; intros b Hb E; destruct Hb as [|y b Hy Hb]; try done.
  cbn in E. injection E as Exy Eab. f_equal; [|by apply IH]. by rewrite <-(byte_ascii x), <-(byte_ascii y), Exy.
Qed.

Lemma append_head_bytes major v : 0 <= major < 8 → 0 <= v < 2 ^ 64 → Forall (λ x, 0 <= x < 256) (appendCBORHead major v).
Proof.
  intros Hm Hv. assert (∀ info, 0 <= info < 32 → 0 <= Z.lor (Z.shiftl major 5) info < 256) as Hp.
  { intros info Hi. rewrite prefix_add by lia. lia. }
  unfold appendCBORHead. destruct (Z.ltb_spec v 24); [apply Forall_singleton, Hp; lia|].
  destruct (Z.leb_spec v 0xff); [apply Forall_cons; split; [apply Hp; lia|apply Forall_singleton; lia]|].
  destruct (Z.leb_spec v 0xffff); [|destruct (Z.leb_spec v 0xffffffff)];
    (apply Forall_cons; split; [apply Hp; lia|apply Sha256.be_bytes_byte]).
Qed.

Lemma append_text_bytes s : text_ok s → Forall (λ x, 0 <= x < 256) (append_text s).
Proof.
  intros Hs. unfold append_text. apply Forall_app. split; [|apply bytes_of_bound].
  apply append_head_bytes; unfold text_ok in Hs; lia.
Qed.

(** However a map is visited, its entries come out in one order. *)
Lemma order_by_key_perm {A} (m m' : list (string * A)) :
  NoDup m.*1 → Forall text_ok m.*1 → m ≡ₚ m' → order_by key_leb m = order_by key_leb m'.
Proof.
  intros Hnd Ht Hp. apply (StronglySorted_unique_strong (λ a b, key_leb a b = true)); [|apply key_sorted..|].
  - intros [k x] [k' x'] H1 H2 L1 L2. rewrite !elem_of_order_by in *. rewrite <-Hp in H2. unfold key_leb in L1, L2. cbn in L1, L2.
    rewrite Forall_forall in Ht. assert (text_ok k ∧ text_ok k') as [Hk Hk'].
    { split; apply Ht; [by apply (list_elem_of_fmap_2 fst) in H1|by apply (list_elem_of_fmap_2 fst) in H2]. }
    assert (k = k') as <-. { apply append_text_inj; [done..|]. apply bytes_le_antisym; by try apply append_text_bytes. }
    assert ((k, x) = (k, x')); [|done]. by apply (elem_of_NoDup_map_inj fst m).
  - by rewrite !order_by_perm.
Qed.

Lemma order_by_sorted_id {A} (leb : A → A → bool) (m : list A) :
  StronglySorted (λ a b, leb a b = true) m → order_by leb m = m.
Proof.
  induction 1 as [|x m _ IH Hall]; [done|]. cbn [order_by]. rewrite IH. destruct Hall as [|y m Hxy _]; [done|].
  cbn [ord_insert]. by rewrite Hxy.
Qed.

(** ** The encoder, unfolded *)
Section encoded.
Context (nfc : string → bool).
#[local] Abbreviation enc := (appendCanonical nfc).
#[local] Abbreviation text_valid := (λ s, validateCanonicalText nfc s = Ok ()).

Lemma valid_unit s u : validateCanonicalText nfc s = Ok u → text_valid s.
Proof. by destruct u. Qed.

(** Elements and entries, each encoded. *)
Inductive enc_items : list CVal → list Z → Prop :=
| enc_items_nil : enc_items [] []
| enc_items_cons x l a b : enc x = Ok a → enc_items l b → enc_items (x :: l) (a ++ b).

Inductive enc_pairs : list (string * CVal) → list Z → Prop :=
| enc_pairs_nil : enc_pairs [] []
| enc_pairs_cons k x m a b :
    text_valid k → enc x = Ok a → enc_pairs m b → enc_pairs ((k, x) :: m) (append_text k ++ a ++ b).

Lemma enc_array l b :
  enc (CArray l) = Ok b ↔ ∃ body, enc_items l body ∧ b = appendCBORHead 4 (Z.of_nat (length l)) ++ body.
Proof.
  cbn [appendCanonical]. set (go := fix elements l := match l with [] => Ok [] | _ => _ end).
  assert (∀ l body, go l = Ok body ↔ enc_items l body) as Hgo.
  { induction l0 as [|x l0 IH]; intros body; cbn [go].
    - split; [intros [= <-]; constructor|]. by inversion 1.
    - split.
      + intros (a & Ha & (rest & Hrest & [= <-])%bind_Ok)%bind_Ok. constructor; [done|by apply IH].
      + inversion 1 as [|? ? a rest Ha Hrest]; subst. rewrite Ha. cbn [mbind result_bind]. apply IH in Hrest. rewrite Hrest. done. }
  split.
  - intros (body & Hb & [= <-])%bind_Ok. exists body. split; [by apply Hgo|done].
  - intros (body & Hb & ->). apply Hgo in Hb. rewrite Hb. done.
Qed.

Definition entry (kx : string * CVal) : list Z * result (list Z) := (append_text kx.1, enc kx.2).

Lemma append_entries_pairs m b :
  Forall text_valid m.*1 → append_entries (entry <$> m) = Ok b ↔ enc_pairs m b.
Proof.
  revert b. induction m as [|[k x] m IH]; intros b Hv; cbn [fmap list_fmap append_entries entry fst snd].
  - split; [intros [= <-]; constructor|]. by inversion 1.
  - apply Forall_cons in Hv as [Hk Hv]. split.
    + intros (a & Ha & (rest & Hrest & [= <-])%bind_Ok)%bind_Ok. constructor; [done..|by apply IH].
    + inversion 1 as [|? ? ? a rest Hk' Ha Hrest]; subst. rewrite Ha. cbn [mbind result_bind].
      apply (IH _ Hv) in Hrest. rewrite Hrest. done.
Qed.

Lemma enc_pairs_valid m b : enc_pairs m b → Forall text_valid m.*1.
Proof. induction 1; constructor; done. Qed.

Lemma enc_map m b :
  enc (CMap m) = Ok b ↔ Forall text_valid m.*1
    ∧ ∃ body, enc_pairs (order_by key_leb m) body ∧ b = appendCBORHead 5 (Z.of_nat (length m)) ++ body.
Proof.
  cbn [appendCanonical]. set (go := fix keys m := match m with [] => Ok [] | _ => _ end).
  assert (∀ m es, go m = Ok es ↔ Forall text_valid m.*1 ∧ es = entry <$> m) as Hgo.
  { induction m0 as [|[k x] m0 IH]; intros es; cbn [go].
    - split; [by intros [= <-]|by intros [_ ->]].
    - rewrite fmap_cons, Forall_cons. split.
      + intros (u & Hk%valid_unit & (rest & [Hv ->]%IH & [= <-])%bind_Ok)%bind_Ok. done.
      + intros [[Hk Hv] ->]. cbn [fst] in Hk. rewrite Hk. cbn [mbind result_bind].
        rewrite (proj2 (IH _) (conj Hv eq_refl)). done. }
  assert (order_by (λ a b, entry_leb a.1 b.1) (entry <$> m) = entry <$> order_by key_leb m) as Hord
    by (by rewrite order_by_fmap).
  assert (Forall text_valid m.*1 → Forall text_valid (order_by key_leb m).*1) as Hv by (by rewrite order_by_perm).
  split.
  - intros (es & [Hval ->]%Hgo & (body & Hb & [= <-])%bind_Ok)%bind_Ok. split; [done|]. exists body.
    rewrite Hord, append_entries_pairs in Hb by auto. rewrite length_fmap. done.
  - intros (Hval & body & Hb & ->). rewrite (proj2 (Hgo m _) (conj Hval eq_refl)). cbn [mbind result_bind].
    rewrite Hord, (proj2 (append_entries_pairs _ _ (Hv Hval)) Hb), length_fmap. done.
Qed.

(** ** Reading back *)
Definition reads (v : CVal) : Prop :=
  ∀ b, cval_ok v → enc v = Ok b → ∀ fuel rest, (csize v ≤ fuel)%nat → dec fuel (b ++ rest) = Some (plain v, rest).

Lemma foldr_Forall {A} (P : A → Prop) (l : list A) : foldr (λ x Q, P x ∧ Q) True l ↔ Forall P l.
Proof.
  induction l as [|x l IH]; cbn; [by split; [constructor|]|]. rewrite IH, Forall_cons. done.
Qed.

Lemma dec_items_enc l body fuel depth rest :
  Forall reads l → Forall cval_ok l → enc_items l body →
  (foldr (λ x n, csize x + n)%nat O l ≤ fuel)%nat → (foldr (λ x n, csize x + n)%nat O l ≤ depth)%nat →
  dec_items (dec depth) fuel (Z.of_nat (length l)) (body ++ rest) = Some (map plain l, rest).
Proof.
  intros Hr Hok He. revert fuel rest. induction He as [|x l a b Ha He IH]; intros fuel rest Hf Hd.
  { destruct fuel; done. }
  apply Forall_cons in Hr as [Hx Hr], Hok as [Hxok Hok]. cbn [foldr] in Hf, Hd. pose proof (csize_pos x).
  destruct fuel as [|fuel]; [lia|]. cbn [dec_items length].
  destruct (Z.leb_spec (Z.of_nat (S (length l))) 0); [lia|].
  rewrite <-app_assoc, (Hx a Hxok Ha depth) by lia. cbn [mbind option_bind].
  replace (Z.of_nat (S (length l)) - 1) with (Z.of_nat (length l)) by lia.
  rewrite IH by (done || lia). done.
Qed.

Lemma dec_pairs_enc m body fuel depth rest :
  Forall (λ kx, reads kx.2) m → Forall (λ kx, cval_ok kx.2) m → Forall text_ok m.*1 → NoDup m.*1 → enc_pairs m body →
  (foldr (λ kx n, csize kx.2 + n)%nat O m ≤ fuel)%nat → (foldr (λ kx n, csize kx.2 + n)%nat O m ≤ depth)%nat →
  dec_pairs (dec depth) fuel (Z.of_nat (length m)) (body ++ rest) = Some (map (λ kx, (kx.1, plain kx.2)) m, rest).
Proof.
  intros Hr Hok Ht Hnd He. revert fuel rest. induction He as [|k x m a b Hk Ha He IH]; intros fuel rest Hf Hd.
  { destruct fuel; done. }
  apply Forall_cons in Hr as [Hx Hr], Hok as [Hxok Hok], Ht as [Htk Ht]. rewrite fmap_cons in Hnd.
  apply NoDup_cons in Hnd as [Hnew Hnd]. cbn [foldr fst snd] in *. pose proof (csize_pos x).
  destruct fuel as [|fuel]; [lia|]. cbn [dec_pairs length].
  destruct (Z.leb_spec (Z.of_nat (S (length m))) 0); [lia|].
  rewrite <-!app_assoc, dec_text_app by done. cbn [mbind option_bind].
  rewrite (Hx a Hxok Ha depth) by lia. cbn [mbind option_bind].
  replace (Z.of_nat (S (length m)) - 1) with (Z.of_nat (length m)) by lia.
  rewrite IH by (done || lia). cbn [mbind option_bind].
  assert ((map (λ kx : string * CVal, (kx.1, plain kx.2)) m).*1 = m.*1) as ->.
  { clear. induction m as [|[k x] m IH]; [done|]. cbn. by rewrite <-IH. }
  by rewrite bool_decide_false.
Qed.

Lemma foldr_perm {A} (f : A → nat) (l l' : list A) : l ≡ₚ l' → foldr (λ x n, f x + n)%nat O l = foldr (λ x n, f x + n)%nat O l'.
Proof. induction 1; cbn; lia. Qed.

Lemma plain_sorted (m : list (string * CVal)) :
  map (λ kx, (kx.1, plain kx.2)) (order_by key_leb m) = order_by key_leb (map (λ kx, (kx.1, plain kx.2)) m).
Proof.
  symmetry. change (map (λ kx : string * CVal, (kx.1, plain kx.2)) m) with ((λ kx : string * CVal, (kx.1, plain kx.2)) <$> m).
  rewrite order_by_fmap. reflexivity.
Qed.

Lemma dec_step fuel major v bs rest :
  0 <= major < 8 → 0 <= v < 2 ^ 64 → bs = appendCBORHead major v ++ rest →
  dec (S fuel) bs =
    (if major =? 0 then Some (CUint v, rest)
     else if major =? 1 then Some (CInt (- (v + 1)), rest)
     else if major =? 3 then '(s, rest) ← dec_text bs; Some (CText s, rest)
     else if major =? 4 then '(l, rest) ← dec_items (dec fuel) fuel v rest; Some (CArray l, rest)
     else if major =? 5 then '(m, rest) ← dec_pairs (dec fuel) fuel v rest; Some (CMap m, rest)
     else if (major =? 7) && (v =? 20) then Some (CBool false, rest)
     else if (major =? 7) && (v =? 21) then Some (CBool true, rest)
     else if (major =? 7) && (v =? 22) then Some (CNil, rest)
     else None).
Proof. intros Hm Hv ->. cbn [dec]. by rewrite dec_head_app. Qed.

Lemma enc_reads v : reads v.
Proof.
  induction v as [|b|s|n|n|l IH|m IH|] using CVal_nested; intros bs Hok He fuel rest Hf;
    (destruct fuel as [|fuel]; [cbn in Hf; lia|]).
  - injection He as <-. by rewrite (dec_step fuel 7 22 _ rest) by (done || lia).
  - injection He as <-. destruct b; [rewrite (dec_step fuel 7 21 _ rest)|rewrite (dec_step fuel 7 20 _ rest)]; (done || lia).
  - cbn [appendCanonical] in He. apply bind_Ok in He as (u & _ & [= <-]). cbn in Hok. unfold text_ok in Hok.
    rewrite (dec_step fuel 3 (Z.of_nat (String.length s)) _ (bytes_of s ++ rest)); [|lia|lia|by unfold append_text; rewrite <-app_assoc].
    cbn [Z.eqb]. by rewrite dec_text_app.
  - injection He as <-. cbn in Hok. by rewrite (dec_step fuel 0 n _ rest) by (done || lia).
  - cbn [appendCanonical plain cval_ok] in *. injection He as <-. destruct (Z.leb_spec 0 n).
    + by rewrite (dec_step fuel 0 n _ rest) by (done || lia).
    + rewrite (dec_step fuel 1 (- (n + 1)) _ rest) by (done || lia). cbn. do 3 f_equal. lia.
  - apply enc_array in He as (body & He & ->). cbn [cval_ok] in Hok. destruct Hok as [Hlen Hok].
    unfold length_ok in Hlen. apply foldr_Forall in Hok. cbn [csize] in Hf.
    rewrite (dec_step fuel 4 (Z.of_nat (length l)) _ (body ++ rest)); [|lia|lia|by rewrite <-app_assoc].
    cbn [Z.eqb]. rewrite dec_items_enc by (done || lia). done.
  - apply enc_map in He as (_ & body & He & ->). cbn [cval_ok] in Hok. destruct Hok as (Hlen & Hnd & Ht & Hok).
    unfold length_ok in Hlen. apply (foldr_Forall (λ kx : string * CVal, cval_ok kx.2)) in Hok. cbn [csize] in Hf.
    rewrite (foldr_perm (λ kx : string * CVal, csize kx.2) m (order_by key_leb m)) in Hf by (by rewrite order_by_perm).
    rewrite (dec_step fuel 5 (Z.of_nat (length m)) _ (body ++ rest)); [|lia|lia|by rewrite <-app_assoc].
    cbn [Z.eqb]. rewrite <-(Permutation_length (order_by_perm key_leb m)).
    rewrite dec_pairs_enc; [|by rewrite order_by_perm..|done|lia|lia].
    cbn [mbind option_bind plain]. by rewrite plain_sorted.
  - done.
Qed.

(** A value's bytes are at least as many as its parts. *)
Lemma enc_length v b : enc v = Ok b → (csize v ≤ length b)%nat.
Proof.
  revert b. induction v as [|b0|s|n|n|l IH|m IH|] using CVal_nested; intros b He.
  - injection He as <-. done.
  - injection He as <-. done.
  - cbn [appendCanonical] in He. apply bind_Ok in He as (u & _ & [= <-]). unfold append_text. rewrite length_app. cbn.
    pose proof (head_bytes 3 (Z.of_nat (String.length s)) ltac:(lia)). lia.
  - injection He as <-. cbn. apply (head_bytes 0); lia.
  - injection He as <-. cbn. destruct (0 <=? n); apply head_bytes; lia.
  - apply enc_array in He as (body & He & ->). cbn [csize]. rewrite length_app.
    pose proof (head_bytes 4 (Z.of_nat (length l)) ltac:(lia)).
    enough (foldr (λ x n, csize x + n)%nat O l ≤ length body)%nat by lia.
    clear -IH He. induction He as [|x l a b Ha He IHe]; [done|]. apply Forall_cons in IH as [Hx IH].
    cbn [foldr]. rewrite length_app. specialize (Hx a Ha). specialize (IHe IH). lia.
  - apply enc_map in He as (_ & body & He & ->). cbn [csize]. rewrite length_app.
    pose proof (head_bytes 5 (Z.of_nat (length m)) ltac:(lia)).
    rewrite (foldr_perm (λ kx : string * CVal, csize kx.2) m (order_by key_leb m)) by (by rewrite order_by_perm).
    rewrite <-(order_by_perm key_leb m) in IH. revert IH He. generalize (order_by key_leb m) as m'. intros m' IH He.
    enough (foldr (λ kx n, csize kx.2 + n)%nat O m' ≤ length body)%nat by lia.
    clear -IH He. induction He as [|k x m' a b Hk Ha He IHe]; [done|]. apply Forall_cons in IH as [Hx IH].
    cbn [foldr fst snd] in *. rewrite !length_app. specialize (Hx a Ha). specialize (IHe IH). lia.
  - done.
Qed.

(** And at most nine for each head besides the texts. *)
Lemma enc_bound v b : enc v = Ok b → (length b ≤ cbound v)%nat.
Proof.
  revert b. induction v as [|b0|s|n|n|l IH|m IH|] using CVal_nested; intros b He.
  - injection He as <-. cbn. lia.
  - injection He as <-. cbn. lia.
  - cbn [appendCanonical] in He. apply bind_Ok in He as (u & _ & [= <-]). cbn [cbound]. apply append_text_bound.
  - injection He as <-. apply (head_bound 0).
  - injection He as <-. cbn [cbound]. destruct (0 <=? n); apply head_bound.
  - apply enc_array in He as (body & He & ->). cbn [cbound]. rewrite length_app. pose proof (head_bound 4 (Z.of_nat (length l))).
    enough (length body ≤ foldr (λ x n, cbound x + n)%nat O l)%nat by lia.
    clear -IH He. induction He as [|x l a b Ha He IHe]; [done|]. apply Forall_cons in IH as [Hx IH].
    cbn [foldr]. rewrite length_app. specialize (Hx a Ha). specialize (IHe IH). lia.
  - apply enc_map in He as (_ & body & He & ->). cbn [cbound]. rewrite length_app. pose proof (head_bound 5 (Z.of_nat (length m))).
    rewrite (foldr_perm (λ kx : string * CVal, 9 + String.length kx.1 + cbound kx.2)%nat m (order_by key_leb m)) by (by rewrite order_by_perm).
    rewrite <-(order_by_perm key_leb m) in IH. revert IH He. generalize (order_by key_leb m) as m'. intros m' IH He.
    enough (length body ≤ foldr (λ kx n, 9 + String.length kx.1 + cbound kx.2 + n)%nat O m')%nat by lia.
    clear -IH He. induction He as [|k x m' a b Hk Ha He IHe]; [done|]. apply Forall_cons in IH as [Hx IH].
    cbn [foldr fst snd] in *. rewrite !length_app. specialize (Hx a Ha). specialize (IHe IH). pose proof (append_text_bound k). lia.
  - done.
Qed.

(** Decoding inverts encoding. *)
Lemma dec_enc v b : cval_ok v → enc v = Ok b → dec_all b = Some (plain v).
Proof.
  intros Hok He. unfold dec_all. pose proof (enc_reads v b Hok He (length b) [] (enc_length v b He)) as H.
  rewrite app_nil_r in H. by rewrite H.
Qed.

(** ** One encoding per datum *)
Lemma plain_enc v : ∀ b, cval_ok v → enc v = Ok b → enc (plain v) = Ok b.
Proof.
  induction v as [|b0|s|n|n|l IH|m IH|] using CVal_nested; intros b Hok He; try exact He.
  - cbn [plain]. cbn [appendCanonical] in He. destruct (0 <=? n) eqn:E; [done|]. cbn [appendCanonical]. by rewrite E.
  - cbn [plain]. apply enc_array in He as (body & He & ->). apply enc_array. exists body. rewrite length_map.
    split; [|done]. destruct Hok as [_ Hok]. apply foldr_Forall in Hok.
    induction He as [|x l a b Ha He IHe]; [constructor|]. apply Forall_cons in IH as [Hx IH], Hok as [Hxok Hok].
    cbn [map]. constructor; auto.
  - cbn [plain]. apply enc_map in He as (Hv & body & He & ->). destruct Hok as (_ & Hnd & Ht & Hok).
    apply (foldr_Forall (λ kx : string * CVal, cval_ok kx.2)) in Hok. rewrite <-plain_sorted.
    rewrite <-(order_by_perm key_leb m) in IH, Hok, Hv. pose proof (Permutation_length (order_by_perm key_leb m)) as Hlen.
    pose proof (key_sorted m) as Hs. revert Hlen Hv IH Hok He Hs. generalize (order_by key_leb m) as m'. intros m' Hlen Hv IH Hok He Hs.
    assert ((map (λ kx : string * CVal, (kx.1, plain kx.2)) m').*1 = m'.*1) as Hkeys.
    { clear. induction m' as [|[k x] m' IH]; [done|]. cbn. by rewrite <-IH. }
    apply enc_map. rewrite Hkeys. split; [done|]. exists body. rewrite length_map, Hlen. split; [|done].
    rewrite order_by_sorted_id.
    + clear -IH Hok He. induction He as [|k x m' a b Hk Ha He IHe]; [constructor|].
      apply Forall_cons in IH as [Hx IH], Hok as [Hxok Hok]. cbn [map fst snd] in *. constructor; auto.
    + clear -Hs. induction Hs as [|x m' _ IH Hall]; [constructor|]. cbn [map]. constructor; [done|].
      change (map ?f m') with (f <$> m'). apply Forall_fmap. eapply Forall_impl; [exact Hall|]. done.
Qed.

Lemma enc_canonical v1 v2 b1 b2 :
  cval_ok v1 → cval_ok v2 → enc v1 = Ok b1 → enc v2 = Ok b2 → b1 = b2 ↔ plain v1 = plain v2.
Proof.
  intros H1 H2 E1 E2. split.
  - intros <-. pose proof (dec_enc v1 b1 H1 E1) as D1. pose proof (dec_enc v2 b1 H2 E2) as D2.
    rewrite D1 in D2. by injection D2.
  - intros Hp. pose proof (plain_enc v1 b1 H1 E1) as P1. pose proof (plain_enc v2 b2 H2 E2) as P2.
    rewrite Hp, P2 in P1. by injection P1.
Qed.

(** A map visited in another order encodes to the same bytes. *)
Lemma enc_perm m m' b :
  NoDup m.*1 → Forall text_ok m.*1 → m ≡ₚ m' → enc (CMap m) = Ok b → enc (CMap m') = Ok b.
Proof.
  intros Hnd Ht Hp (Hv & body & He & ->)%enc_map. apply enc_map. rewrite <-Hp. split; [done|]. exists body.
  by rewrite <-(order_by_key_perm m m' Hnd Ht Hp), (Permutation_length Hp).
Qed.
End encoded.
