(* ===== verification/OpText.v ===== *)
(** The texts a command may carry (src/internal/operation: the regular expressions of
    command_identity.go, validate.go and metadata.go, validActor, the canonical
    timestamp, strconv's unsigned decimals).  A regular expression is a predicate on
    the bytes. *)
From S2P Require Import Prelude GoStd Ulid View.
Local Open Scope Z_scope.

Definition is_lower (b : Z) : bool := between 97 b 122.
Definition is_digit_byte (b : Z) : bool := between 48 b 57.
Definition is_lower_alnum (b : Z) : bool := is_lower b || is_digit_byte b.
Definition is_lower_hex (b : Z) : bool := is_digit_byte b || between 97 b 102.

(** ^[0-7][0-9A-HJKMNP-TV-Z]{25}$ *)
Definition ulidPattern (s : string) : bool :=
  IsIdentityShaped s && match bytes_of s with b :: _ => between 48 b 55 | [] => false end.

(** ^sha256:[0-9a-f]{64}$ *)
Definition digestPrefix : string := "sha256:".

Definition digestPattern (s : string) : bool :=
  is_prefix digestPrefix s && (String.length s =? 71)%nat && forallb is_lower_hex (drop 7 (bytes_of s)).

(** Non-empty segments of lower-case letters and digits, joined by single hyphens;
    [open] says that a segment has not started. *)
Fixpoint locator_loop (open : bool) (bs : list Z) : bool :=
  match bs with
  | [] => negb open
  | b :: bs => if is_lower_alnum b then locator_loop false bs
               else (b =? 45) && negb open && locator_loop true bs
  end.

Definition locatorPattern (s : string) : bool := locator_loop true (bytes_of s).

(** Segments that begin with a lower-case letter and go on with lower-case letters,
    digits and hyphens, joined by points: the number of segments, when it matches. *)
Fixpoint token_loop (open : bool) (segments : nat) (bs : list Z) : option nat :=
  match bs with
  | [] => if open then None else Some segments
  | b :: bs =>
      if open then (if is_lower b then token_loop false (S segments) bs else None)
      else if is_lower_alnum b || (b =? 45) then token_loop false segments bs
      else if b =? 46 then token_loop true segments bs
      else None
  end.

Definition tokenPattern (s : string) : bool :=
  match token_loop true 0 (bytes_of s) with Some _ => true | None => false end.

(** The same with at least two segments. *)
Definition semanticNamePattern (s : string) : bool :=
  match token_loop true 0 (bytes_of s) with Some n => (2 <=? n)%nat | None => false end.

Definition validActor (actor : string) : bool :=
  let named prefix :=
    let name := drop_str (String.length prefix) actor in
    negb (bool_decide (name = ""))
    && forallb (λ b, negb (bool_decide (b ∈ [32; 9; 13; 10]))) (bytes_of name) in
  bool_decide (actor = "human")
  || (if is_prefix "role:" actor then named "role:"
      else if is_prefix "system:" actor then named "system:" else false).

Definition validateULID (value : string) : result () :=
  ensure (ulidPattern value) (ERefuse "not a canonical ULID").

(** ** time.Parse(time.RFC3339Nano), rendered again in UTC *)
Definition number (bs : list Z) : Z := fold_left (λ acc b, acc * 10 + (b - 48)) bs 0.

Definition leap_year (y : Z) : bool := (y mod 4 =? 0) && (negb (y mod 100 =? 0) || (y mod 400 =? 0)).

Definition days_in (y m : Z) : Z :=
  if m =? 2 then (if leap_year y then 29 else 28)
  else if bool_decide (m ∈ [4; 6; 9; 11]) then 30 else 31.

(** A fraction as Format writes it: a point, one to nine digits, no trailing zero. *)
Definition fraction_ok (bs : list Z) : bool :=
  match bs with
  | [] => true
  | p :: ds => (p =? 46) && (1 <=? length ds)%nat && (length ds <=? 9)%nat && forallb is_digit_byte ds
               && negb (List.last ds 48 =? 48)
  end.

(** YYYY-MM-DDTHH:MM:SS, a fraction, Z: the strings that parse and that
    Format(RFC3339Nano) of the parsed instant in UTC gives back. *)
Definition validateCanonicalTimestamp (value : string) : result () :=
  let bs := bytes_of value in
  let part i n := take n (drop i bs) in
  let at_ i := default 0 (bs !! i) in
  let year := number (part 0%nat 4%nat) in let month := number (part 5%nat 2%nat) in
  let day := number (part 8%nat 2%nat) in
  ensure ((20 <=? length bs)%nat
    && forallb is_digit_byte (part 0%nat 4%nat ++ part 5%nat 2%nat ++ part 8%nat 2%nat
         ++ part 11%nat 2%nat ++ part 14%nat 2%nat ++ part 17%nat 2%nat)
    && (at_ 4%nat =? 45) && (at_ 7%nat =? 45) && (at_ 10%nat =? 84) && (at_ 13%nat =? 58) && (at_ 16%nat =? 58)
    && between 1 month 12 && between 1 day (days_in year month)
    && (number (part 11%nat 2%nat) <? 24) && (number (part 14%nat 2%nat) <? 60) && (number (part 17%nat 2%nat) <? 60)
    && (List.last bs 0 =? 90)
    && fraction_ok (part 19%nat (length bs - 20)%nat)) (ERefuse "not canonical UTC RFC3339Nano").

(** ** strconv *)
Definition ParseUint (s : string) : option Z :=
  let bs := bytes_of s in
  if bool_decide (bs = []) || negb (forallb is_digit_byte bs) then None
  else if number bs <? 2 ^ 64 then Some (number bs) else None.

Definition FormatUint (n : Z) : string := itoa n.

Example timestamps :
  validateCanonicalTimestamp "2024-02-29T23:59:59.25Z" = Ok () ∧ is_ok (validateCanonicalTimestamp "2023-02-29T23:59:59Z") = false
  ∧ is_ok (validateCanonicalTimestamp "2024-02-29T23:59:59.250Z") = false ∧ is_ok (validateCanonicalTimestamp "2024-02-29T24:00:00Z") = false
  ∧ is_ok (validateCanonicalTimestamp "2024-01-01T00:00:00Z") = true.
Proof. vm_compute. done. Qed.

Example patterns :
  locatorPattern "run-07" = true ∧ locatorPattern "a--b" = false ∧ locatorPattern "" = false ∧ locatorPattern "a-" = false
  ∧ semanticNamePattern "step.create" = true ∧ semanticNamePattern "step" = false ∧ tokenPattern "step" = true
  ∧ tokenPattern "step..x" = false ∧ validActor "role:builder" = true ∧ validActor "role:" = false
  ∧ ParseUint "18446744073709551615" = Some (2 ^ 64 - 1) ∧ ParseUint "18446744073709551616" = None ∧ FormatUint 120 = "120".
Proof. vm_compute. done. Qed.
