(* ===== verification/Operation.v ===== *)
(** The semantic operation boundary (src/internal/operation: contract.go, the inputs
    and outputs of catalog.go, step4.go, step8.go, step10.go, gates.go,
    lifecycle_variants.go and gate_repair.go, and metadata.go).  Every Go string type
    is a string; uint64, int64 and uint16 fields are Z; a slice is an option of a list
    where the code tells nil from empty and a list elsewhere; a *string is an option.
    The operations themselves are in OpCatalog. *)
From S2P Require Import Prelude GoStd Ulid View OpText.
Local Open Scope Z_scope.

(** ** contract.go *)
Record ID := mkID { id_Name : string; id_Version : Z }.
#[export] Instance ID_eq : EqDecision ID.
Proof. solve_decision. Defined.

Record OpContext := mkOpContext { cx_Repo : string; cx_Clone : string; cx_Worktree : string }.
Record ClaimContext := mkClaimContext { cl_ID : string; cl_Epoch : string }.
Record BlobInput := mkBlobInput { bi_Name : string; bi_Digest : string; bi_Size : Z }.

(** ** Inputs *)
Record TargetClaim := mkTargetClaim { tc_MatterID : string; tc_ClaimID : string; tc_ClaimEpoch : Z }.
Record ClaimClosePrefix := mkClaimClosePrefix { cp_EventCount : Z; cp_EventID : option string; cp_Digest : string }.
Record ClaimCloseReference := mkClaimCloseReference {
  cc_ClaimID : string; cc_ClaimEpoch : Z; cc_ReleaseCommandID : string; cc_ReleaseRequestHash : string;
  cc_TerminalReceiptDigest : string; cc_InstalledPrefixAnchor : ClaimClosePrefix }.
Record SchedulerPrefixAnchor := mkSchedulerPrefixAnchor { sp_EventCount : Z; sp_EventID : option string; sp_Digest : string }.
Record SchedulerHook := mkSchedulerHook {
  sh_Kind : string; sh_Version : Z; sh_AdapterID : string; sh_AdapterVersion : Z; sh_RunID : string;
  sh_MatterID : string; sh_TargetID : string; sh_TargetKind : string; sh_Role : string; sh_RoleID : string;
  sh_DispatchID : string; sh_Revision : string; sh_Reason : string; sh_Contention : string; sh_Blocked : string;
  sh_Failed : string; sh_TargetClaims : option (list TargetClaim); sh_InstalledPrefix : SchedulerPrefixAnchor }.
Record RoleLifecycle := mkRoleLifecycle {
  rl_RunID : string; rl_RunLocator : string; rl_MatterID : string; rl_DispatchID : string; rl_RoleID : string;
  rl_Role : string; rl_Reason : string }.
Record GateExemptionRepair := mkGateExemptionRepair {
  ge_NodeID : string; ge_Gate : string; ge_EventCount : Z; ge_HighWaterEventID : string; ge_PrefixDigest : string;
  ge_IncidentRef : string; ge_Reason : string; ge_EvidenceRefs : list string }.

Inductive Input :=
| MatterCreateInput (Title Locator : string)
| StepCreateInput (ParentID Title : string)
| StepLifecycleInput (StepID : string)
| MatterFinishInput (MatterID : string)
| BatchSweepAnonymousInput (MatterID BatchID : string) (ClaimClose : ClaimCloseReference)
| BatchCreateInput (Name : string)
| BatchMembershipInput (BatchID MatterID : string)
| BatchDismissInput (BatchID : string)
| ContentWriteInput (SubjectID Kind : string)
| FindingAppendInput (SubjectID : string)
| StageCreateInput (MatterID Title : string)
| StepInsertInput (ParentID Title AfterID BeforeID : string)
| StepReorderInput (ParentID : string) (Order : list string)
| StepReplaceInput (StepID Title : string)
| StepRemoveInput (StepID Reason : string)
| MatterLocatorRepairInput (MatterID AssignedLocator Action : string)
| DependencyAddInput (BlockedID BlockerID : string)
| DependencyRemoveInput (BlockedID BlockerID : string)
| DependencyAddV2Input (BlockedID BlockerID : string) (TargetClaims : list TargetClaim)
| DependencyRemoveV2Input (BlockedID BlockerID : string) (TargetClaims : list TargetClaim)
| ReferenceBindInput (MatterID Reference : string)
| ReferenceBindV2Input (MatterID Reference : string) (TargetClaims : list TargetClaim)
| ReferenceUnbindInput (MatterID Reference : string)
| ReferenceUnbindV2Input (MatterID Reference : string) (TargetClaims : list TargetClaim)
| ReferenceRebindInput (MatterID From To : string)
| ReferenceRebindV2Input (MatterID From To : string) (TargetClaims : list TargetClaim)
| SchedulerHookInput (i : SchedulerHook)
| RoleLifecycleInput (i : RoleLifecycle)
| RunFinishInput (RunID : string)
| RunResumeInput (RunID RunLocator : string)
| GateDeclareInput (Gate Scale : string)
| GateCloseInput (Gate NodeID : string)
| GateDismissInput (Gate NodeID Reason : string)
| NodeLifecycleInput (NodeID Reason : string)
| StepCancelInput (StepID Reason : string)
| GateExemptionRepairInput (i : GateExemptionRepair).

(** reflect.TypeOf of an input. *)
Inductive InputType :=
| TMatterCreateInput
| TStepCreateInput
| TStepLifecycleInput
| TMatterFinishInput
| TBatchSweepAnonymousInput
| TBatchCreateInput
| TBatchMembershipInput
| TBatchDismissInput
| TContentWriteInput
| TFindingAppendInput
| TStageCreateInput
| TStepInsertInput
| TStepReorderInput
| TStepReplaceInput
| TStepRemoveInput
| TMatterLocatorRepairInput
| TDependencyAddInput
| TDependencyRemoveInput
| TDependencyAddV2Input
| TDependencyRemoveV2Input
| TReferenceBindInput
| TReferenceBindV2Input
| TReferenceUnbindInput
| TReferenceUnbindV2Input
| TReferenceRebindInput
| TReferenceRebindV2Input
| TSchedulerHookInput
| TRoleLifecycleInput
| TRunFinishInput
| TRunResumeInput
| TGateDeclareInput
| TGateCloseInput
| TGateDismissInput
| TNodeLifecycleInput
| TStepCancelInput
| TGateExemptionRepairInput.
#[export] Instance InputType_eq : EqDecision InputType.
Proof. solve_decision. Defined.

Definition input_type (i : Input) : InputType :=
  match i with
  | MatterCreateInput _ _ => TMatterCreateInput
  | StepCreateInput _ _ => TStepCreateInput
  | StepLifecycleInput _ => TStepLifecycleInput
  | MatterFinishInput _ => TMatterFinishInput
  | BatchSweepAnonymousInput _ _ _ => TBatchSweepAnonymousInput
  | BatchCreateInput _ => TBatchCreateInput
  | BatchMembershipInput _ _ => TBatchMembershipInput
  | BatchDismissInput _ => TBatchDismissInput
  | ContentWriteInput _ _ => TContentWriteInput
  | FindingAppendInput _ => TFindingAppendInput
  | StageCreateInput _ _ => TStageCreateInput
  | StepInsertInput _ _ _ _ => TStepInsertInput
  | StepReorderInput _ _ => TStepReorderInput
  | StepReplaceInput _ _ => TStepReplaceInput
  | StepRemoveInput _ _ => TStepRemoveInput
  | MatterLocatorRepairInput _ _ _ => TMatterLocatorRepairInput
  | DependencyAddInput _ _ => TDependencyAddInput
  | DependencyRemoveInput _ _ => TDependencyRemoveInput
  | DependencyAddV2Input _ _ _ => TDependencyAddV2Input
  | DependencyRemoveV2Input _ _ _ => TDependencyRemoveV2Input
  | ReferenceBindInput _ _ => TReferenceBindInput
  | ReferenceBindV2Input _ _ _ => TReferenceBindV2Input
  | ReferenceUnbindInput _ _ => TReferenceUnbindInput
  | ReferenceUnbindV2Input _ _ _ => TReferenceUnbindV2Input
  | ReferenceRebindInput _ _ _ => TReferenceRebindInput
  | ReferenceRebindV2Input _ _ _ _ => TReferenceRebindV2Input
  | SchedulerHookInput _ => TSchedulerHookInput
  | RoleLifecycleInput _ => TRoleLifecycleInput
  | RunFinishInput _ => TRunFinishInput
  | RunResumeInput _ _ => TRunResumeInput
  | GateDeclareInput _ _ => TGateDeclareInput
  | GateCloseInput _ _ => TGateCloseInput
  | GateDismissInput _ _ _ => TGateDismissInput
  | NodeLifecycleInput _ _ => TNodeLifecycleInput
  | StepCancelInput _ _ => TStepCancelInput
  | GateExemptionRepairInput _ => TGateExemptionRepairInput
  end.

(** ** Outputs *)
Record StepCreated := mkStepCreated {
  so_ID : string; so_ParentID : string; so_MatterID : string; so_Locator : string; so_Title : string;
  so_SortKey : Z; so_State : string }.
Record SchedulerHookResult := mkSchedulerHookResult {
  ho_Kind : string; ho_Version : Z; ho_InputDigest : string; ho_ResultDigest : string; ho_Outcome : string;
  ho_Revision : string; ho_EvidenceRefs : option (list string); ho_ProblemCode : string;
  ho_Steps : option (list string); ho_Handling : string }.

Inductive Output :=
| MatterCreateOutput (ID Locator Title : string)
| StepCreateOutput (i : StepCreated)
| StepLifecycleOutput (StepID MatterID State : string)
| MatterFinishOutput (MatterID State : string) (BecameSealed : bool)
| BatchCreateOutput (ID Name : string)
| BatchMembershipOutput (BatchID MatterID : string)
| BatchDismissOutput (BatchID : string)
| BatchSweepAnonymousOutput (Outcome : string)
| ContentSegmentOutput (ID SubjectID Kind BlobDigest : string) (ByteLength : Z)
| MatterCreateV2Output (ID Title RequestedLocator AssignedLocator : string) (LocatorRepairRequired : bool)
| StageCreateOutput (ID MatterID Locator Title : string) (SortKey : Z) (State : string)
| StepReorderOutput (ParentID : string) (Order : list string)
| StepReplaceOutput (RemovedStepID : string) (Replacement : StepCreated)
| StepRemoveOutput (StepID : string)
| MatterLocatorRepairOutput (ID Action RequestedLocator PreviousLocator AssignedLocator : string)
| DependencyOutput (EdgeID BlockedID BlockerID : string)
| ReferenceOutput (MatterID Reference PreviousReference : string)
| SchedulerHookOutput (i : SchedulerHookResult)
| RoleLifecycleOutput (RunID MatterID DispatchID RoleID Role State : string)
| RunFinishOutput (RunID State : string)
| RunResumeOutput (RunID State : string)
| GateDeclareOutput (Gate Scale : string)
| GateCloseOutput (Gate NodeID Scale : string)
| GateDismissOutput (Gate NodeID Scale : string)
| NodeLifecycleOutput (NodeID MatterID State : string)
| MatterLifecycleOutput (MatterID State : string)
| GateExemptionRepairOutput (Gate NodeID : string) (AlreadyExempt : bool).

Inductive OutputType :=
| TMatterCreateOutput
| TStepCreateOutput
| TStepLifecycleOutput
| TMatterFinishOutput
| TBatchCreateOutput
| TBatchMembershipOutput
| TBatchDismissOutput
| TBatchSweepAnonymousOutput
| TContentSegmentOutput
| TMatterCreateV2Output
| TStageCreateOutput
| TStepReorderOutput
| TStepReplaceOutput
| TStepRemoveOutput
| TMatterLocatorRepairOutput
| TDependencyOutput
| TReferenceOutput
| TSchedulerHookOutput
| TRoleLifecycleOutput
| TRunFinishOutput
| TRunResumeOutput
| TGateDeclareOutput
| TGateCloseOutput
| TGateDismissOutput
| TNodeLifecycleOutput
| TMatterLifecycleOutput
| TGateExemptionRepairOutput.
#[export] Instance OutputType_eq : EqDecision OutputType.
Proof. solve_decision. Defined.

Definition output_type (o : Output) : OutputType :=
  match o with
  | MatterCreateOutput _ _ _ => TMatterCreateOutput
  | StepCreateOutput _ => TStepCreateOutput
  | StepLifecycleOutput _ _ _ => TStepLifecycleOutput
  | MatterFinishOutput _ _ _ => TMatterFinishOutput
  | BatchCreateOutput _ _ => TBatchCreateOutput
  | BatchMembershipOutput _ _ => TBatchMembershipOutput
  | BatchDismissOutput _ => TBatchDismissOutput
  | BatchSweepAnonymousOutput _ => TBatchSweepAnonymousOutput
  | ContentSegmentOutput _ _ _ _ _ => TContentSegmentOutput
  | MatterCreateV2Output _ _ _ _ _ => TMatterCreateV2Output
  | StageCreateOutput _ _ _ _ _ _ => TStageCreateOutput
  | StepReorderOutput _ _ => TStepReorderOutput
  | StepReplaceOutput _ _ => TStepReplaceOutput
  | StepRemoveOutput _ => TStepRemoveOutput
  | MatterLocatorRepairOutput _ _ _ _ _ => TMatterLocatorRepairOutput
  | DependencyOutput _ _ _ => TDependencyOutput
  | ReferenceOutput _ _ _ => TReferenceOutput
  | SchedulerHookOutput _ => TSchedulerHookOutput
  | RoleLifecycleOutput _ _ _ _ _ _ => TRoleLifecycleOutput
  | RunFinishOutput _ _ => TRunFinishOutput
  | RunResumeOutput _ _ => TRunResumeOutput
  | GateDeclareOutput _ _ => TGateDeclareOutput
  | GateCloseOutput _ _ _ => TGateCloseOutput
  | GateDismissOutput _ _ _ => TGateDismissOutput
  | NodeLifecycleOutput _ _ _ => TNodeLifecycleOutput
  | MatterLifecycleOutput _ _ => TMatterLifecycleOutput
  | GateExemptionRepairOutput _ _ _ => TGateExemptionRepairOutput
  end.

Definition BatchSweepAnonymousSwept : string := "swept".
Definition BatchSweepAnonymousAlreadySwept : string := "already-swept".

Record Request := mkRequest {
  rq_Operation : ID; rq_Actor : string; rq_Context : OpContext; rq_Claim : option ClaimContext;
  rq_Input : option Input; rq_Blobs : list BlobInput }.

(** ** Results *)
Record Problem := mkProblem { pr_Code : string; pr_Message : string }.
Record Result := mkResult { rs_Code : string; rs_Output : option Output; rs_Problem : option Problem }.

Definition ResultSucceeded : string := "result.succeeded".
Definition ResultRejected : string := "result.rejected".
Definition ResultRefused : string := "result.refused".
Definition ResultFailed : string := "result.failed".
Definition ProblemInvalidRequest : string := "operation.invalid-request".
Definition ProblemUnknownOperation : string := "operation.unknown".
Definition ProblemUnsupportedVersion : string := "operation.unsupported-version".
Definition ProblemInvalidResult : string := "internal.invalid-result".
Definition ProblemExecutionFailed : string := "internal.execution-failed".
Definition ProblemInvalidTitle : string := "validation.invalid-title".
Definition ProblemInvalidLocator : string := "validation.invalid-locator".
Definition ProblemLocatorCollision : string := "validation.locator-collision".
Definition ProblemUnknownClone : string := "refusal.unknown-clone".
Definition ProblemBatchSweepTargetMissing : string := "refusal.batch-sweep-target-missing".
Definition ProblemBatchSweepClaimClose : string := "refusal.batch-sweep-claim-close".
Definition ProblemBatchSweepNotEligible : string := "refusal.batch-sweep-not-eligible".
Definition ProblemBatchSweepUnsupported : string := "refusal.batch-sweep-unsupported-state".
Definition ProblemBatchTargetMissing : string := "refusal.batch-target-missing".
Definition ProblemBatchCrossDomain : string := "refusal.batch-cross-domain".
Definition ProblemBatchDismissed : string := "refusal.batch-dismissed".
Definition ProblemBatchMembershipMissing : string := "refusal.batch-membership-missing".

(** ** metadata.go *)
Definition AccessRead : string := "read".
Definition AccessMutation : string := "mutation".
Definition DeliveryNone : string := "none".
Definition DeliveryAuthority : string := "authority".
Definition DeliveryClaim : string := "claim".
Definition DeliveryProvisional : string := "provisional".
Definition DeliveryCapture : string := "capture".
Definition DeliveryEnvironment : string := "environment".
Definition ContextRepo : string := "repo".
Definition ContextClone : string := "clone".
Definition ContextWorktree : string := "worktree".
Definition ClaimNone : string := "none".
Definition ClaimExact : string := "exact".
Definition ClaimTargetSet : string := "target-set".
Definition ClaimImplicitBirth : string := "implicit-birth".
Definition FootprintRepoMatterLocators : string := "repo.matter-locators".
Definition FootprintNewbornMatter : string := "newborn-matter-subtree".
Definition FootprintNewbornStep : string := "newborn-step".
Definition FootprintImplicitBirthClaim : string := "matter.implicit-birth-claim".
Definition FootprintMatterActiveClaim : string := "matter.active-claim".
Definition FootprintMatterLifecycle : string := "matter.lifecycle".
Definition FootprintStageLifecycle : string := "stage.lifecycle".
Definition FootprintStepLifecycle : string := "step.lifecycle".
Definition FootprintAncestorLifecycle : string := "ancestor-lifecycle".
Definition FootprintCancelReason : string := "cancel-reason".
Definition FootprintAnonymousBatchLifecycle : string := "anonymous-batch.lifecycle".
Definition FootprintNamedBatchLifecycle : string := "named-batch.lifecycle".
Definition FootprintStepParent : string := "step.parent".
Definition FootprintStepLocator : string := "matter.step-locators".
Definition FootprintStepSortKey : string := "step.sibling-sort-key".
Definition FootprintNodeContent : string := "node.content".
Definition FootprintFindingSegments : string := "node.finding-segments".
Definition FootprintStageParent : string := "stage.parent".
Definition FootprintMatterStageLocators : string := "matter.stage-locators".
Definition FootprintNewStageSubtree : string := "new-stage-subtree".
Definition FootprintStepSiblingSet : string := "step.sibling-set".
Definition FootprintStepAnchor : string := "step.anchor".
Definition FootprintStepOrderPermutation : string := "step.order-permutation".
Definition FootprintStepLive : string := "step.live".
Definition FootprintStepNextLocator : string := "step.next-locator".
Definition FootprintStepTombstone : string := "step.tombstone".
Definition FootprintReplacementStep : string := "replacement-step".
Definition FootprintStepRemovalReason : string := "step.removal-reason".
Definition FootprintMatterLocatorRepair : string := "matter.locator-repair".
Definition FootprintRepoGateDeclarations : string := "repo.gate-declarations".
Definition FootprintGateOrder : string := "gate.order".
Definition FootprintGateExemptionSnapshot : string := "gate.exemption-snapshot".
Definition FootprintGateDeclaration : string := "gate.declaration".
Definition FootprintGateOwner : string := "gate.owner".
Definition FootprintGateState : string := "gate.state".
Definition FootprintGateSubject : string := "gate.subject".
Definition FootprintGateDismissalReason : string := "gate.dismissal-reason".
Definition FootprintGateRepairBoundary : string := "gate.repair-boundary".
Definition FootprintGateRepairOwnerAuthorization : string := "gate.repair-owner-authorization".
Definition FootprintTrackerCandidates : string := "tracker.candidates".
Definition FootprintRepoTrackerPushConfig : string := "repo.tracker-push-config".
Definition FootprintTrackerReferences : string := "tracker.references".
Definition FootprintTrackerSharedAggregates : string := "tracker.shared-aggregates".
Definition FootprintDependencyEndpoints : string := "dependency.endpoints".
Definition FootprintDependencyGraph : string := "dependency.graph".
Definition FootprintDependencyEdge : string := "dependency.edge".
Definition FootprintMatterTrackerReferences : string := "matter.tracker-references".
Definition EffectFilesystemRead : string := "filesystem-read".
Definition EffectFilesystemWrite : string := "filesystem-write".
Definition EffectGitRead : string := "git-read".
Definition EffectRuntimeLock : string := "runtime-lock".
Definition EffectTrackerRead : string := "tracker-read".
Definition EffectTrackerWrite : string := "tracker-write".
Definition EffectAgentHook : string := "agent-hook".

Record BlobSpec := mkBlobSpec { bs_Name : string; bs_Required : bool }.

Record Metadata := mkMetadata {
  md_Operation : ID; md_Access : string; md_Delivery : string; md_RequiredContext : option (list string);
  md_Guards : option (list string); md_Writes : option (list string); md_BlobInputs : option (list BlobSpec);
  md_Claim : string; md_ExternalEffects : option (list string) }.

Record OpDefinition := mkDefinition { metadata : Metadata; inputType : InputType; outputType : OutputType }.

(** The slices of a Metadata, nil being the empty one to a range. *)
Definition slice {A} (o : option (list A)) : list A := default [] o.

Definition one_of (s : string) (l : list string) : bool := bool_decide (s ∈ l).

Definition ID_Validate (id : ID) : result () :=
  ensure (semanticNamePattern (id_Name id)) (ERefuse "operation name must contain at least two lowercase dot-separated segments") ;;
  ensure (negb (id_Version id =? 0)) (ERefuse "operation has no version").

(** A range that refuses a token the check does not accept, or one seen before. *)
Fixpoint validate_tokens (ok : string → bool) (seen : gset string) (l : list string) : result () :=
  match l with
  | [] => Ok ()
  | x :: l =>
      ensure (ok x) (ERefuse "unknown or malformed") ;;
      ensure (negb (bool_decide (x ∈ seen))) (ERefuse "duplicated") ;;
      validate_tokens ok ({[x]} ∪ seen) l
  end.

Definition validateContextDimensions (l : list string) : result () :=
  validate_tokens (λ x, one_of x [ContextRepo; ContextClone; ContextWorktree]) ∅ l.

Definition validateFootprints (l : list string) : result () := validate_tokens tokenPattern ∅ l.

Definition validateBlobSpecs (l : list BlobSpec) : result () := validate_tokens tokenPattern ∅ (bs_Name <$> l).

Definition validateExternalEffects (l : list string) : result () :=
  validate_tokens (λ x, one_of x [EffectFilesystemRead; EffectFilesystemWrite; EffectGitRead; EffectRuntimeLock;
                                  EffectTrackerRead; EffectTrackerWrite; EffectAgentHook]) ∅ l.

Definition ValidateMetadata (m : Metadata) : result () :=
  ID_Validate (md_Operation m) ;;
  ensure (one_of (md_Access m) [AccessRead; AccessMutation]) (ERefuse "access is incomplete or unknown") ;;
  ensure (one_of (md_Delivery m) [DeliveryNone; DeliveryAuthority; DeliveryClaim; DeliveryProvisional; DeliveryCapture; DeliveryEnvironment])
    (ERefuse "delivery class is incomplete or unknown") ;;
  dims ← from_option_err (ERefuse "required context metadata is omitted") (md_RequiredContext m);
  validateContextDimensions dims ;;
  guards ← from_option_err (ERefuse "guard footprint metadata is omitted") (md_Guards m);
  validateFootprints guards ;;
  writes ← from_option_err (ERefuse "write footprint metadata is omitted") (md_Writes m);
  validateFootprints writes ;;
  specs ← from_option_err (ERefuse "blob input metadata is omitted") (md_BlobInputs m);
  validateBlobSpecs specs ;;
  ensure (one_of (md_Claim m) [ClaimNone; ClaimExact; ClaimTargetSet; ClaimImplicitBirth]) (ERefuse "claim requirement is incomplete or unknown") ;;
  effects ← from_option_err (ERefuse "external side-effect metadata is omitted") (md_ExternalEffects m);
  validateExternalEffects effects ;;
  (if bool_decide (md_Access m = AccessRead) then
     ensure (bool_decide (md_Delivery m = DeliveryNone)) (ERefuse "a read must use delivery class none") ;;
     ensure (bool_decide (writes = [])) (ERefuse "a read cannot declare a write footprint") ;;
     ensure (bool_decide (md_Claim m = ClaimNone)) (ERefuse "a read cannot require a mutation claim")
   else
     ensure (negb (bool_decide (md_Delivery m = DeliveryNone))) (ERefuse "a mutation must declare a delivery class") ;;
     ensure (negb (bool_decide (writes = []))) (ERefuse "a mutation must declare at least one write footprint")) ;;
  ensure (negb (bool_decide (md_Delivery m = DeliveryClaim)) || bool_decide (md_Claim m = ClaimExact))
    (ERefuse "claim delivery requires an exact claim").
