(* ===== verification/OpCatalog.v ===== *)
(** The operations the boundary defines and the sets they are listed in (src/internal/
    operation: the definitions of catalog.go, step4.go, step8.go, step10.go, gates.go,
    lifecycle_variants.go and gate_repair.go).  The Go mustDefine panics when define
    refuses; [mustDefine] is the value it has otherwise, and OpTheorems shows that the
    metadata of every definition is accepted ([definitions_sound]).  The check that the
    Go types are transport-neutral, which define makes by reflection, is not modelled. *)
From S2P Require Import Prelude GoStd Ulid View OpText Operation.
Local Open Scope Z_scope.

(** define, less the reflection over the Go types of its arguments. *)
Definition define (I : InputType) (O : OutputType) (m : Metadata) : result OpDefinition :=
  ValidateMetadata m ;; Ok (mkDefinition m I O).

Definition mustDefine (I : InputType) (O : OutputType) (m : Metadata) : OpDefinition := mkDefinition m I O.

Definition MatterCreateV1 : OpDefinition := mustDefine TMatterCreateInput TMatterCreateOutput
  (mkMetadata (mkID "matter.create" 1) AccessMutation DeliveryProvisional
    (Some [ContextRepo])
    (Some [FootprintRepoMatterLocators])
    (Some [FootprintNewbornMatter])
    (Some []) ClaimNone (Some [])).

Definition StepCreateV1 : OpDefinition := mustDefine TStepCreateInput TStepCreateOutput
  (mkMetadata (mkID "step.create" 1) AccessMutation DeliveryProvisional
    (Some [ContextRepo])
    (Some [FootprintRepoMatterLocators; FootprintImplicitBirthClaim; FootprintStepParent; FootprintStepLocator; FootprintStepSortKey])
    (Some [FootprintNewbornStep])
    (Some []) ClaimImplicitBirth (Some [])).

Definition StepStartV1 : OpDefinition := mustDefine TStepLifecycleInput TStepLifecycleOutput
  (mkMetadata (mkID "step.start" 1) AccessMutation DeliveryClaim
    (Some [ContextRepo; ContextClone; ContextWorktree])
    (Some [FootprintMatterActiveClaim; FootprintMatterLifecycle; FootprintStepLifecycle])
    (Some [FootprintMatterLifecycle; FootprintStepLifecycle])
    (Some []) ClaimExact (Some [])).

Definition StepFinishV1 : OpDefinition := mustDefine TStepLifecycleInput TStepLifecycleOutput
  (mkMetadata (mkID "step.finish" 1) AccessMutation DeliveryClaim
    (Some [ContextRepo; ContextClone; ContextWorktree])
    (Some [FootprintMatterActiveClaim; FootprintStepLifecycle])
    (Some [FootprintStepLifecycle])
    (Some []) ClaimExact (Some [])).

Definition MatterFinishV1 : OpDefinition := mustDefine TMatterFinishInput TMatterFinishOutput
  (mkMetadata (mkID "matter.finish" 1) AccessMutation DeliveryAuthority
    (Some [ContextRepo; ContextClone; ContextWorktree])
    (Some [FootprintMatterActiveClaim; FootprintMatterLifecycle])
    (Some [FootprintMatterLifecycle])
    (Some []) ClaimExact (Some [])).

Definition BatchSweepAnonymousV1 : OpDefinition := mustDefine TBatchSweepAnonymousInput TBatchSweepAnonymousOutput
  (mkMetadata (mkID "batch.sweep-anonymous" 1) AccessMutation DeliveryAuthority
    (Some [ContextRepo])
    (Some [FootprintMatterLifecycle; FootprintAnonymousBatchLifecycle])
    (Some [FootprintAnonymousBatchLifecycle])
    (Some []) ClaimNone (Some [])).

Definition BatchCreateV1 : OpDefinition := mustDefine TBatchCreateInput TBatchCreateOutput
  (mkMetadata (mkID "batch.create" 1) AccessMutation DeliveryAuthority
    (Some [ContextRepo])
    (Some [FootprintNamedBatchLifecycle])
    (Some [FootprintNamedBatchLifecycle])
    (Some []) ClaimNone (Some [])).

Definition BatchJoinV1 : OpDefinition := mustDefine TBatchMembershipInput TBatchMembershipOutput
  (mkMetadata (mkID "batch.join" 1) AccessMutation DeliveryAuthority
    (Some [ContextRepo])
    (Some [FootprintNamedBatchLifecycle])
    (Some [FootprintNamedBatchLifecycle])
    (Some []) ClaimNone (Some [])).

Definition BatchLeaveV1 : OpDefinition := mustDefine TBatchMembershipInput TBatchMembershipOutput
  (mkMetadata (mkID "batch.leave" 1) AccessMutation DeliveryAuthority
    (Some [ContextRepo])
    (Some [FootprintNamedBatchLifecycle])
    (Some [FootprintNamedBatchLifecycle])
    (Some []) ClaimNone (Some [])).

Definition BatchDismissV1 : OpDefinition := mustDefine TBatchDismissInput TBatchDismissOutput
  (mkMetadata (mkID "batch.dismiss" 1) AccessMutation DeliveryAuthority
    (Some [ContextRepo])
    (Some [FootprintNamedBatchLifecycle])
    (Some [FootprintNamedBatchLifecycle])
    (Some []) ClaimNone (Some [])).

Definition ContentWriteOnceV1 : OpDefinition := mustDefine TContentWriteInput TContentSegmentOutput
  (mkMetadata (mkID "content.write-once" 1) AccessMutation DeliveryClaim
    (Some [ContextRepo; ContextClone; ContextWorktree])
    (Some [FootprintMatterActiveClaim; FootprintNodeContent])
    (Some [FootprintNodeContent])
    (Some [mkBlobSpec "content" true]) ClaimExact (Some [])).

Definition FindingAppendV1 : OpDefinition := mustDefine TFindingAppendInput TContentSegmentOutput
  (mkMetadata (mkID "finding.append" 1) AccessMutation DeliveryClaim
    (Some [ContextRepo; ContextClone; ContextWorktree])
    (Some [FootprintMatterActiveClaim; FootprintNodeContent])
    (Some [FootprintFindingSegments])
    (Some [mkBlobSpec "content" true]) ClaimExact (Some [])).

Definition MatterCreateV2 : OpDefinition := mustDefine TMatterCreateInput TMatterCreateV2Output
  (mkMetadata (mkID "matter.create" 2) AccessMutation DeliveryProvisional
    (Some [ContextRepo])
    (Some [FootprintRepoMatterLocators])
    (Some [FootprintNewbornMatter])
    (Some []) ClaimNone (Some [])).

Definition StageCreateV1 : OpDefinition := mustDefine TStageCreateInput TStageCreateOutput
  (mkMetadata (mkID "stage.create" 1) AccessMutation DeliveryClaim
    (Some [ContextRepo; ContextClone; ContextWorktree])
    (Some [FootprintMatterActiveClaim; FootprintMatterLifecycle; FootprintStageParent; FootprintMatterStageLocators])
    (Some [FootprintNewStageSubtree])
    (Some []) ClaimExact (Some [])).

Definition StepCreateV2 : OpDefinition := mustDefine TStepCreateInput TStepCreateOutput
  (mkMetadata (mkID "step.create" 2) AccessMutation DeliveryClaim
    (Some [ContextRepo; ContextClone; ContextWorktree])
    (Some [FootprintMatterActiveClaim; FootprintMatterLifecycle; FootprintStepParent; FootprintStepLocator; FootprintStepSortKey])
    (Some [FootprintNewbornStep])
    (Some []) ClaimExact (Some [])).

Definition StepInsertV1 : OpDefinition := mustDefine TStepInsertInput TStepCreateOutput
  (mkMetadata (mkID "step.insert" 1) AccessMutation DeliveryClaim
    (Some [ContextRepo; ContextClone; ContextWorktree])
    (Some [FootprintMatterActiveClaim; FootprintStepParent; FootprintStepSiblingSet; FootprintStepAnchor; FootprintStepSortKey])
    (Some [FootprintNewbornStep; FootprintStepSiblingSet])
    (Some []) ClaimExact (Some [])).

Definition StepReorderV1 : OpDefinition := mustDefine TStepReorderInput TStepReorderOutput
  (mkMetadata (mkID "step.reorder" 1) AccessMutation DeliveryClaim
    (Some [ContextRepo; ContextClone; ContextWorktree])
    (Some [FootprintMatterActiveClaim; FootprintStepParent; FootprintStepSiblingSet; FootprintStepOrderPermutation])
    (Some [FootprintStepSiblingSet])
    (Some []) ClaimExact (Some [])).

Definition StepReplaceV1 : OpDefinition := mustDefine TStepReplaceInput TStepReplaceOutput
  (mkMetadata (mkID "step.replace" 1) AccessMutation DeliveryClaim
    (Some [ContextRepo; ContextClone; ContextWorktree])
    (Some [FootprintMatterActiveClaim; FootprintStepLive; FootprintStepNextLocator])
    (Some [FootprintStepTombstone; FootprintReplacementStep])
    (Some []) ClaimExact (Some [])).

Definition StepRemoveV1 : OpDefinition := mustDefine TStepRemoveInput TStepRemoveOutput
  (mkMetadata (mkID "step.remove" 1) AccessMutation DeliveryClaim
    (Some [ContextRepo; ContextClone; ContextWorktree])
    (Some [FootprintMatterActiveClaim; FootprintStepLive; FootprintStepRemovalReason])
    (Some [FootprintStepTombstone])
    (Some []) ClaimExact (Some [])).

Definition MatterLocatorRepairV1 : OpDefinition := mustDefine TMatterLocatorRepairInput TMatterLocatorRepairOutput
  (mkMetadata (mkID "matter.locator-repair" 1) AccessMutation DeliveryAuthority
    (Some [ContextRepo; ContextClone; ContextWorktree])
    (Some [FootprintMatterActiveClaim; FootprintMatterLocatorRepair; FootprintRepoMatterLocators])
    (Some [FootprintMatterLocatorRepair; FootprintRepoMatterLocators])
    (Some []) ClaimExact (Some [])).

Definition DependencyAddV1 : OpDefinition := mustDefine TDependencyAddInput TDependencyOutput
  (mkMetadata (mkID "dependency.add" 1) AccessMutation DeliveryAuthority
    (Some [ContextRepo])
    (Some [FootprintDependencyEndpoints; FootprintDependencyGraph])
    (Some [FootprintDependencyEdge; FootprintDependencyGraph])
    (Some []) ClaimNone (Some [])).

Definition DependencyRemoveV1 : OpDefinition := mustDefine TDependencyRemoveInput TDependencyOutput
  (mkMetadata (mkID "dependency.remove" 1) AccessMutation DeliveryAuthority
    (Some [ContextRepo])
    (Some [FootprintDependencyEndpoints; FootprintDependencyEdge])
    (Some [FootprintDependencyEdge; FootprintDependencyGraph])
    (Some []) ClaimNone (Some [])).

Definition ReferenceBindV1 : OpDefinition := mustDefine TReferenceBindInput TReferenceOutput
  (mkMetadata (mkID "reference.bind" 1) AccessMutation DeliveryAuthority
    (Some [ContextRepo])
    (Some [FootprintRepoTrackerPushConfig; FootprintMatterTrackerReferences; FootprintTrackerSharedAggregates])
    (Some [FootprintMatterTrackerReferences; FootprintTrackerSharedAggregates; FootprintTrackerCandidates])
    (Some []) ClaimNone (Some [])).

Definition ReferenceUnbindV1 : OpDefinition := mustDefine TReferenceUnbindInput TReferenceOutput
  (mkMetadata (mkID "reference.unbind" 1) AccessMutation DeliveryAuthority
    (Some [ContextRepo])
    (Some [FootprintRepoTrackerPushConfig; FootprintMatterTrackerReferences; FootprintTrackerSharedAggregates])
    (Some [FootprintMatterTrackerReferences; FootprintTrackerSharedAggregates; FootprintTrackerCandidates])
    (Some []) ClaimNone (Some [])).

Definition ReferenceRebindV1 : OpDefinition := mustDefine TReferenceRebindInput TReferenceOutput
  (mkMetadata (mkID "reference.rebind" 1) AccessMutation DeliveryAuthority
    (Some [ContextRepo])
    (Some [FootprintRepoTrackerPushConfig; FootprintMatterTrackerReferences; FootprintTrackerSharedAggregates])
    (Some [FootprintMatterTrackerReferences; FootprintTrackerSharedAggregates; FootprintTrackerCandidates])
    (Some []) ClaimNone (Some [])).

Definition DependencyAddV2 : OpDefinition := mustDefine TDependencyAddV2Input TDependencyOutput
  (mkMetadata (mkID "dependency.add" 2) AccessMutation DeliveryAuthority
    (Some [ContextRepo])
    (Some [FootprintDependencyEndpoints; FootprintDependencyGraph])
    (Some [FootprintDependencyEdge; FootprintDependencyGraph])
    (Some []) ClaimTargetSet (Some [])).

Definition DependencyRemoveV2 : OpDefinition := mustDefine TDependencyRemoveV2Input TDependencyOutput
  (mkMetadata (mkID "dependency.remove" 2) AccessMutation DeliveryAuthority
    (Some [ContextRepo])
    (Some [FootprintDependencyEndpoints; FootprintDependencyEdge])
    (Some [FootprintDependencyEdge; FootprintDependencyGraph])
    (Some []) ClaimTargetSet (Some [])).

Definition ReferenceBindV2 : OpDefinition := mustDefine TReferenceBindV2Input TReferenceOutput
  (mkMetadata (mkID "reference.bind" 2) AccessMutation DeliveryAuthority
    (Some [ContextRepo])
    (Some [FootprintRepoTrackerPushConfig; FootprintMatterTrackerReferences; FootprintTrackerSharedAggregates])
    (Some [FootprintMatterTrackerReferences; FootprintTrackerSharedAggregates; FootprintTrackerCandidates])
    (Some []) ClaimTargetSet (Some [])).

Definition ReferenceUnbindV2 : OpDefinition := mustDefine TReferenceUnbindV2Input TReferenceOutput
  (mkMetadata (mkID "reference.unbind" 2) AccessMutation DeliveryAuthority
    (Some [ContextRepo])
    (Some [FootprintRepoTrackerPushConfig; FootprintMatterTrackerReferences; FootprintTrackerSharedAggregates])
    (Some [FootprintMatterTrackerReferences; FootprintTrackerSharedAggregates; FootprintTrackerCandidates])
    (Some []) ClaimTargetSet (Some [])).

Definition ReferenceRebindV2 : OpDefinition := mustDefine TReferenceRebindV2Input TReferenceOutput
  (mkMetadata (mkID "reference.rebind" 2) AccessMutation DeliveryAuthority
    (Some [ContextRepo])
    (Some [FootprintRepoTrackerPushConfig; FootprintMatterTrackerReferences; FootprintTrackerSharedAggregates])
    (Some [FootprintMatterTrackerReferences; FootprintTrackerSharedAggregates; FootprintTrackerCandidates])
    (Some []) ClaimTargetSet (Some [])).

Definition SchedulerOrchestrateV1 : OpDefinition := mustDefine TSchedulerHookInput TSchedulerHookOutput
  (mkMetadata (mkID "scheduler.orchestrate" 1) AccessMutation DeliveryAuthority
    (Some [ContextRepo; ContextClone; ContextWorktree])
    (Some ["run.owner"; "run.frontier"; "dispatch.owner"; "role.owner"; "claim.active"; "scheduler.hook-intent"])
    (Some ["scheduler.hook-engagement"; "scheduler.hook-result"])
    (Some [mkBlobSpec "model" false; mkBlobSpec "outline" false; mkBlobSpec "review" false; mkBlobSpec "snapshot" false; mkBlobSpec "source" false; mkBlobSpec "tree-manifest" false; mkBlobSpec "workplan" false]) ClaimNone (Some [EffectAgentHook])).

Definition RoleSpawnV1 : OpDefinition := mustDefine TRoleLifecycleInput TRoleLifecycleOutput
  (mkMetadata (mkID "role.spawn" 1) AccessMutation DeliveryClaim
    (Some [ContextRepo; ContextClone; ContextWorktree])
    (Some ["run.owner"; "claim.active"; "dispatch.active"; "role.activation"; "role.unique"])
    (Some ["role.spawned"])
    (Some []) ClaimExact (Some [])).

Definition RoleCloseV1 : OpDefinition := mustDefine TRoleLifecycleInput TRoleLifecycleOutput
  (mkMetadata (mkID "role.close" 1) AccessMutation DeliveryClaim
    (Some [ContextRepo; ContextClone; ContextWorktree])
    (Some ["run.owner"; "claim.active"; "dispatch.active"; "role.owner"; "role.open"])
    (Some ["role.closed"])
    (Some []) ClaimExact (Some [])).

Definition RunFinishV1 : OpDefinition := mustDefine TRunFinishInput TRunFinishOutput
  (mkMetadata (mkID "run.finish" 1) AccessMutation DeliveryAuthority
    (Some [ContextRepo; ContextClone; ContextWorktree])
    (Some ["run.owner"; "run.active"; "run.matters-done"; "run.roles-closed"; "run.claims-closed"])
    (Some ["run.finished"])
    (Some []) ClaimNone (Some [])).

Definition SchedulerResumeV1 : OpDefinition := mustDefine TRunResumeInput TRunResumeOutput
  (mkMetadata (mkID "scheduler.resume" 1) AccessMutation DeliveryAuthority
    (Some [ContextRepo; ContextClone; ContextWorktree])
    (Some ["run.owner"; "run.active"; "run.claims-closed"; "run.roles-closed"; "dispatch.old-closed"])
    (Some ["run.resumed"])
    (Some []) ClaimNone (Some [])).

Definition claimLifecycleMetadata (name : string) (guards writes : list string) : Metadata :=
  mkMetadata (mkID name 1) AccessMutation DeliveryClaim (Some [ContextRepo; ContextClone; ContextWorktree])
    (Some guards) (Some writes) (Some []) ClaimExact (Some []).

Definition matterLifecycleDefinition (name : string) : OpDefinition :=
  mustDefine TNodeLifecycleInput TMatterLifecycleOutput
    (claimLifecycleMetadata name [FootprintMatterActiveClaim; FootprintMatterLifecycle] [FootprintMatterLifecycle]).

Definition stageLifecycleDefinition (name : string) (start : bool) : OpDefinition :=
  let guards := [FootprintMatterActiveClaim; FootprintStageLifecycle] in
  let writes := [FootprintStageLifecycle] in
  let '(guards, writes) :=
    if start then (guards ++ [FootprintAncestorLifecycle], [FootprintMatterLifecycle; FootprintStageLifecycle])
    else (guards, writes) in
  mustDefine TNodeLifecycleInput TNodeLifecycleOutput (claimLifecycleMetadata name guards writes).

Definition stepLifecycleVariant (name : string) : OpDefinition :=
  mustDefine TStepLifecycleInput TStepLifecycleOutput
    (claimLifecycleMetadata name [FootprintMatterActiveClaim; FootprintStepLifecycle] [FootprintStepLifecycle]).

Definition MatterStartV1 : OpDefinition := matterLifecycleDefinition "matter.start".
Definition StageStartV1 : OpDefinition := stageLifecycleDefinition "stage.start" true.
Definition MatterPauseV1 : OpDefinition := matterLifecycleDefinition "matter.pause".
Definition StagePauseV1 : OpDefinition := stageLifecycleDefinition "stage.pause" false.
Definition StepPauseV1 : OpDefinition := stepLifecycleVariant "step.pause".
Definition MatterResumeV1 : OpDefinition := matterLifecycleDefinition "matter.resume".
Definition StageResumeV1 : OpDefinition := stageLifecycleDefinition "stage.resume" false.
Definition StepResumeV1 : OpDefinition := stepLifecycleVariant "step.resume".
Definition MatterCancelV1 : OpDefinition :=
  mustDefine TNodeLifecycleInput TMatterLifecycleOutput
    (claimLifecycleMetadata "matter.cancel" [FootprintMatterActiveClaim; FootprintMatterLifecycle; FootprintCancelReason] [FootprintMatterLifecycle]).
Definition StageCancelV1 : OpDefinition :=
  mustDefine TNodeLifecycleInput TNodeLifecycleOutput
    (claimLifecycleMetadata "stage.cancel" [FootprintMatterActiveClaim; FootprintStageLifecycle; FootprintCancelReason] [FootprintStageLifecycle]).
Definition StepCancelV1 : OpDefinition :=
  mustDefine TStepCancelInput TStepLifecycleOutput
    (claimLifecycleMetadata "step.cancel" [FootprintMatterActiveClaim; FootprintStepLifecycle; FootprintCancelReason] [FootprintStepLifecycle]).
Definition StageFinishV1 : OpDefinition := stageLifecycleDefinition "stage.finish" false.

Definition GateDeclareV1 : OpDefinition := mustDefine TGateDeclareInput TGateDeclareOutput
  (mkMetadata (mkID "gate.declare" 1) AccessMutation DeliveryClaim
    (Some [ContextRepo; ContextClone; ContextWorktree])
    (Some [FootprintMatterActiveClaim; FootprintRepoGateDeclarations; FootprintGateOrder; FootprintGateExemptionSnapshot])
    (Some [FootprintRepoGateDeclarations; FootprintGateExemptionSnapshot])
    (Some []) ClaimExact (Some [])).

Definition GateCloseV1 : OpDefinition := mustDefine TGateCloseInput TGateCloseOutput
  (mkMetadata (mkID "gate.close" 1) AccessMutation DeliveryClaim
    (Some [ContextRepo; ContextClone; ContextWorktree])
    (Some [FootprintMatterActiveClaim; FootprintGateDeclaration; FootprintGateOwner; FootprintGateState; FootprintGateSubject; FootprintRepoTrackerPushConfig; FootprintTrackerReferences; FootprintTrackerSharedAggregates])
    (Some [FootprintGateState; FootprintTrackerSharedAggregates; FootprintTrackerCandidates])
    (Some []) ClaimExact (Some [])).

Definition GateDismissV1 : OpDefinition := mustDefine TGateDismissInput TGateDismissOutput
  (mkMetadata (mkID "gate.dismiss" 1) AccessMutation DeliveryClaim
    (Some [ContextRepo; ContextClone; ContextWorktree])
    (Some [FootprintMatterActiveClaim; FootprintGateDeclaration; FootprintGateOwner; FootprintGateState; FootprintGateSubject; FootprintGateDismissalReason; FootprintRepoTrackerPushConfig; FootprintTrackerReferences; FootprintTrackerSharedAggregates])
    (Some [FootprintGateState; FootprintTrackerSharedAggregates; FootprintTrackerCandidates])
    (Some []) ClaimExact (Some [])).

Definition GateExemptionRepairV1 : OpDefinition := mustDefine TGateExemptionRepairInput TGateExemptionRepairOutput
  (mkMetadata (mkID "gate.exemption.repair" 1) AccessMutation DeliveryAuthority
    (Some [ContextRepo; ContextClone; ContextWorktree])
    (Some [FootprintMatterActiveClaim; FootprintGateSubject; FootprintAncestorLifecycle; FootprintGateDeclaration; FootprintGateState; FootprintGateExemptionSnapshot; FootprintGateRepairBoundary; FootprintGateRepairOwnerAuthorization])
    (Some [FootprintGateState; FootprintGateExemptionSnapshot])
    (Some []) ClaimExact (Some [])).

Definition catalogue : list OpDefinition :=
  [MatterCreateV1; StepCreateV1; StepStartV1; StepFinishV1; MatterFinishV1; ContentWriteOnceV1; FindingAppendV1; MatterCreateV2; StageCreateV1; StepCreateV2; StepInsertV1; StepReorderV1; StepReplaceV1; StepRemoveV1; MatterLocatorRepairV1; MatterStartV1; StageStartV1; MatterPauseV1; StagePauseV1; StepPauseV1; MatterResumeV1; StageResumeV1; StepResumeV1; MatterCancelV1; StageCancelV1; StepCancelV1; StageFinishV1; GateDeclareV1; GateCloseV1; GateDismissV1; GateExemptionRepairV1].

Definition Catalogue : list OpDefinition := catalogue.

Definition NamedBatchMembershipCatalogue : list OpDefinition := [BatchJoinV1; BatchLeaveV1; BatchDismissV1].

Definition step4Catalogue : list OpDefinition :=
  [MatterCreateV2; StageCreateV1; StepCreateV2; StepInsertV1; StepReorderV1; StepReplaceV1; StepRemoveV1; MatterLocatorRepairV1].

Definition lifecycleVariantCatalogue : list OpDefinition :=
  [MatterStartV1; StageStartV1; MatterPauseV1; StagePauseV1; StepPauseV1; MatterResumeV1; StageResumeV1; StepResumeV1; MatterCancelV1; StageCancelV1; StepCancelV1; StageFinishV1].

Definition step8ContractDefinitions : list OpDefinition :=
  [DependencyAddV1; DependencyRemoveV1; ReferenceBindV1; ReferenceUnbindV1; ReferenceRebindV1; DependencyAddV2; DependencyRemoveV2; ReferenceBindV2; ReferenceUnbindV2; ReferenceRebindV2].

Definition step8StrictDefinitions : list OpDefinition :=
  [DependencyAddV2; DependencyRemoveV2; ReferenceBindV2; ReferenceUnbindV2; ReferenceRebindV2].

Definition gateCatalogue : list OpDefinition :=
  [GateDeclareV1; GateCloseV1; GateDismissV1].

Definition Step10Catalogue : list OpDefinition :=
  [SchedulerOrchestrateV1; RoleSpawnV1; RoleCloseV1; SchedulerResumeV1; RunFinishV1].

(** definition.Metadata().Operation == id *)
Definition op_id (d : OpDefinition) : ID := md_Operation (metadata d).
Definition is_op (d : OpDefinition) (id : ID) : bool := bool_decide (op_id d = id).
Definition find_op (l : list OpDefinition) (id : ID) : option OpDefinition := List.find (λ d, is_op d id) l.
Definition listed (l : list OpDefinition) (id : ID) : bool := existsb (λ d, is_op d id) l.

Definition NamedBatchMembershipOperation (id : ID) : bool := listed NamedBatchMembershipCatalogue id.
Definition Step4Operation (id : ID) : bool := listed step4Catalogue id.
Definition Step5Operation (id : ID) : bool := listed lifecycleVariantCatalogue id.
Definition step8ContractDefinition (id : ID) : option OpDefinition := find_op step8ContractDefinitions id.
Definition Step8Operation (id : ID) : bool :=
  match step8ContractDefinition id with Some _ => true | None => false end.
Definition Step10Operation (id : ID) : bool := is_op SchedulerOrchestrateV1 id.
Definition Step10CapabilityOperation (id : ID) : bool := listed Step10Catalogue id.
Definition Step10RoleOperation (id : ID) : bool := is_op RoleSpawnV1 id || is_op RoleCloseV1 id.
Definition Step10RunResumeOperation (id : ID) : bool := is_op SchedulerResumeV1 id.
Definition Step10RunFinishOperation (id : ID) : bool := is_op RunFinishV1 id.
Definition Step10RunOperation (id : ID) : bool := Step10RunResumeOperation id || Step10RunFinishOperation id.

(** The cases of commandIdentityDefinition's switch. *)
Definition identity_cases : list OpDefinition :=
  [SchedulerOrchestrateV1; RoleSpawnV1; RoleCloseV1; RunFinishV1; SchedulerResumeV1; BatchSweepAnonymousV1;
   BatchCreateV1; BatchJoinV1; BatchLeaveV1; BatchDismissV1].

Definition commandIdentityDefinition (id : ID) : option OpDefinition :=
  match find_op identity_cases id with
  | Some d => Some d
  | None =>
      match step8ContractDefinition id with
      | Some d => Some d
      | None => find_op Catalogue id
      end
  end.
