(* ===== verification/GoUrl.v ===== *)
(** net/url of Go's standard library, as far as an incident reference is read through
    it: Parse up to the scheme, the opaque part, the host, and whether there is a user.
    Strings are their bytes. *)
From S2P Require Import Prelude GoStd OpText.
Local Open Scope Z_scope.

Definition bytes := list Z.

(** strings.Cut at a byte: what is before it, what is after it, whether it was found. *)
Fixpoint cut (c : Z) (bs : bytes) : bytes * bytes * bool :=
  match bs with
  | [] => ([], [], false)
  | b :: bs => if b =? c then ([], bs, true) else let '(x, y, found) := cut c bs in (b :: x, y, found)
  end.

Definition before (c : Z) (bs : bytes) : bytes := (cut c bs).1.1.

(** strings.LastIndex of a byte, as the text before it and after it. *)
Definition cut_last (c : Z) (bs : bytes) : option (bytes * bytes) :=
  match cut c (rev bs) with (x, y, true) => Some (rev y, rev x) | _ => None end.

Fixpoint has_prefix (p bs : bytes) : bool :=
  match p, bs with
  | [], _ => true
  | x :: p, b :: bs => (x =? b) && has_prefix p bs
  | _ :: _, [] => false
  end.

(** strings.Index of a text, as the text before it and the text from it on. *)
Fixpoint split_at (p bs : bytes) : option (bytes * bytes) :=
  if has_prefix p bs then Some ([], bs)
  else match bs with
       | [] => None
       | b :: bs => '(x, y) ← split_at p bs; Some (b :: x, y)
       end.

Definition is_letter (b : Z) : bool := between 65 b 90 || between 97 b 122.
Definition is_alnum (b : Z) : bool := is_letter b || is_digit_byte b.
Definition is_hex (b : Z) : bool := is_digit_byte b || between 97 b 102 || between 65 b 70.
Definition unhex (b : Z) : Z :=
  if is_digit_byte b then b - 48 else if between 97 b 102 then b - 97 + 10 else b - 65 + 10.
Definition lower_byte (b : Z) : Z := if between 65 b 90 then b + 32 else b.

Inductive encoding := encodePath | encodeUserPassword | encodeFragment | encodeHost | encodeZone.

Definition host_mode (m : encoding) : bool := match m with encodeHost | encodeZone => true | _ => false end.

(** shouldEscape in the two host modes. *)
Definition shouldEscape_host (c : Z) : bool :=
  negb (is_alnum c || bool_decide (c ∈ bytes_of "!$&'()*+,;=:[]<>-_.~") || (c =? 34)).

Definition escaped_percent (a b : Z) : bool := (a =? 50) && (b =? 53).

Fixpoint unescape (fuel : nat) (m : encoding) (bs : bytes) : option bytes :=
  match fuel, bs with
  | _, [] => Some []
  | O, _ => None
  | S fuel, 37 :: a :: b :: rest =>
      let v := Z.lor (Z.shiftl (unhex a) 4) (unhex b) in
      if negb (is_hex a && is_hex b) then None
      else if match m with
              | encodeHost => (unhex a <? 8) && negb (escaped_percent a b)
              | encodeZone => negb (escaped_percent a b) && negb (v =? 32) && shouldEscape_host v
              | _ => false
              end then None
      else x ← unescape fuel m rest; Some (v :: x)
  | S fuel, 37 :: _ => None
  | S fuel, c :: rest =>
      if host_mode m && (c <? 128) && shouldEscape_host c then None
      else x ← unescape fuel m rest; Some (c :: x)
  end.

Definition unescape_all (m : encoding) (bs : bytes) : option bytes := unescape (length bs) m bs.

Definition validOptionalPort (port : bytes) : bool :=
  match port with [] => true | c :: ds => (c =? 58) && forallb is_digit_byte ds end.

Definition parseHost (host : bytes) : option bytes :=
  if has_prefix [91] host then
    '(inside, port) ← cut_last 93 host;
    if negb (validOptionalPort port) then None
    else match split_at (bytes_of "%25") inside with
         | Some (address, zone) =>
             host1 ← unescape_all encodeHost address;
             host2 ← unescape_all encodeZone zone;
             host3 ← unescape_all encodeHost (93 :: port);
             Some (host1 ++ host2 ++ host3)
         | None => unescape_all encodeHost host
         end
  else match cut_last 58 host with
       | Some (_, port) => if validOptionalPort (58 :: port) then unescape_all encodeHost host else None
       | None => unescape_all encodeHost host
       end.

Definition validUserinfo (s : bytes) : bool :=
  forallb (λ c, is_alnum c || bool_decide (c ∈ bytes_of "-._:~!$&'()*+,;=%@")) s.

(** The host, and whether a user was given. *)
Definition parseAuthority (authority : bytes) : option (bool * bytes) :=
  match cut_last 64 authority with
  | None => host ← parseHost authority; Some (false, host)
  | Some (userinfo, rest) =>
      host ← parseHost rest;
      if negb (validUserinfo userinfo) then None
      else let '(username, password, _) := cut 58 userinfo in
           _ ← unescape_all encodeUserPassword username;
           _ ← unescape_all encodeUserPassword password;
           Some (true, host)
  end.

(** The scheme and what follows it; no scheme when there is none. *)
Fixpoint getScheme_loop (first : bool) (bs : bytes) : option (option (bytes * bytes)) :=
  match bs with
  | [] => Some None
  | c :: bs =>
      if is_letter c then
        r ← getScheme_loop false bs; Some ('(s, rest) ← r; Some (c :: s, rest))
      else if is_digit_byte c || bool_decide (c ∈ [43; 45; 46]) then
        if first then Some None
        else r ← getScheme_loop false bs; Some ('(s, rest) ← r; Some (c :: s, rest))
      else if c =? 58 then if first then None else Some (Some ([], bs))
      else Some None
  end.

Definition getScheme (raw : bytes) : option (bytes * bytes) :=
  r ← getScheme_loop true raw; Some (default ([], raw) r).

Record URL := mkURL { u_Scheme : bytes; u_Opaque : bytes; u_User : bool; u_Host : bytes }.

Definition contains_ctl (bs : bytes) : bool := existsb (λ b, (b <? 32) || (b =? 127)) bs.

(** parse, without the request form. *)
Definition url_parse_main (raw : bytes) : option URL :=
  if contains_ctl raw then None
  else if bool_decide (raw = [42]) then Some (mkURL [] [] false [])
  else
    '(scheme, rest) ← getScheme raw;
    let scheme := lower_byte <$> scheme in
    let rest := before 63 rest in
    if negb (has_prefix [47] rest) && negb (bool_decide (scheme = [])) then Some (mkURL scheme rest false [])
    else if negb (has_prefix [47] rest) && bool_decide (58 ∈ before 47 rest) then None
    else
      '(user, host, path) ←
        (if (negb (bool_decide (scheme = [])) || negb (has_prefix [47; 47; 47] rest)) && has_prefix [47; 47] rest then
           let authority := drop 2 rest in
           let name := before 47 authority in
           '(user, host) ← parseAuthority name;
           Some (user, host, drop (length name) authority)
         else Some (false, [], rest));
      _ ← unescape_all encodePath path;
      Some (mkURL scheme [] user host).

Definition url_Parse (s : string) : option URL :=
  let '(u, frag, _) := cut 35 (bytes_of s) in
  url ← url_parse_main u;
  _ ← unescape_all encodeFragment frag;
  Some url.

Definition IsAbs (u : URL) : bool := negb (bool_decide (u_Scheme u = [])).

Definition Hostname (u : URL) : bytes :=
  let host := match cut_last 58 (u_Host u) with
              | Some (h, port) => if validOptionalPort (58 :: port) then h else u_Host u
              | None => u_Host u
              end in
  if has_prefix [91] host && (List.last host 0 =? 93) then removelast (drop 1 host) else host.

Example url_parts :
  (u ← url_Parse "HTTPS://bob:x@[fe80::1%25en0]:8080/a%20b?q#f"; Some (string_of (u_Scheme u), u_User u, string_of (Hostname u)))
    = Some ("https", true, "fe80::1%en0")
  ∧ (u ← url_Parse "urn:isbn:0451450523#x"; Some (string_of (u_Scheme u), string_of (u_Opaque u))) = Some ("urn", "isbn:0451450523")
  ∧ url_Parse "https://h/%zz" = None ∧ url_Parse "https://a b/" = None ∧ url_Parse ":x" = None
  ∧ (u ← url_Parse "https://h:80x/"; Some (u_Host u)) = None ∧ (u ← url_Parse "1a:b"; Some (IsAbs u)) = None.
Proof. vm_compute. done. Qed.
