(* ===== verification/OpValidate.v ===== *)
(** What a definition accepts (src/internal/operation: ValidateRequest of validate.go
    with its helpers, the Step 10 validators of step10.go and gate_repair_validation.go).
    Whether a text is in Unicode normal form C is asked of golang.org/x/text and is the
    parameter [nfc]. *)
From S2P Require Import Prelude GoStd Ulid View Json Resolve OpText Operation OpCatalog GoUrl.
Local Open Scope Z_scope.

Definition blank (s : string) : bool := isBlank s.
Definition no (s : string) : bool := bool_decide (s = "").
Definition same (a b : string) : bool := bool_decide (a = b).

(** ** gate_repair_validation.go *)
Definition repairAlphaNumeric (c : Z) : bool := is_alnum c.
Definition repairHex (c : Z) : bool := is_hex c.
Definition repairPChar (c : Z) : bool := repairAlphaNumeric c || bool_decide (c ∈ bytes_of "-._~!$&'()*+,;=:@").

Fixpoint urn_component (fuel : nat) (bs : bytes) (allowSlash allowQuestion : bool) : bool :=
  match fuel, bs with
  | _, [] => true
  | O, _ => false
  | S fuel, 37 :: a :: b :: rest => repairHex a && repairHex b && urn_component fuel rest allowSlash allowQuestion
  | S fuel, 37 :: _ => false
  | S fuel, c :: rest =>
      (repairPChar c || (allowSlash && (c =? 47)) || (allowQuestion && (c =? 63)))
      && urn_component fuel rest allowSlash allowQuestion
  end.

(** The length bounds the loop: each turn consumes a byte. *)
Definition validRepairURNComponent (bs : bytes) (allowSlash allowQuestion : bool) : bool :=
  urn_component (length bs) bs allowSlash allowQuestion.

Definition validRepairURNPrefix (bs : bytes) (allowSlash allowQuestion : bool) : bool :=
  match bs with
  | [] => false
  | 37 :: a :: b :: rest => repairHex a && repairHex b && validRepairURNComponent rest allowSlash allowQuestion
  | 37 :: _ => false
  | c :: rest => repairPChar c && validRepairURNComponent rest allowSlash allowQuestion
  end.

Definition validRepairURNQuery (bs : bytes) : bool :=
  let '(query, fragment, hasFragment) := cut 35 bs in
  validRepairURNPrefix query true true && (negb hasFragment || validRepairURNComponent fragment true true).

Definition validRepairURNOptional (optional : bytes) : bool :=
  match optional with
  | [] => true
  | 35 :: rest => validRepairURNComponent rest true true
  | 63 :: 61 :: rest => validRepairURNQuery rest
  | 63 :: 43 :: remainder =>
      (* up to the first of the query and the fragment *)
      let query := match split_at [63; 61] remainder with Some (x, _) => length x | None => length remainder end in
      let fragment := length (before 35 remainder) in
      let end_ := Nat.min query fragment in
      validRepairURNPrefix (take end_ remainder) true true
      && match drop end_ remainder with
         | [] => true
         | 63 :: 61 :: rest => validRepairURNQuery rest
         | 35 :: rest => validRepairURNComponent rest true true
         | _ => false
         end
  | _ => false
  end.

Fixpoint nid_chars (first : bool) (nid : bytes) : bool :=
  match nid with
  | [] => true
  | c :: rest => (repairAlphaNumeric c || ((c =? 45) && negb first && negb (bool_decide (rest = [])))) && nid_chars false rest
  end.

Definition validRepairURN (value : bytes) : bool :=
  bool_decide (lower_byte <$> take 4 value = bytes_of "urn:")
  && (let '(nid, assignedName, found) := cut 58 (drop 4 value) in
      found && (2 <=? length nid)%nat && (length nid <=? 32)%nat && negb (bool_decide (assignedName = []))
      && nid_chars true nid
      && (let n := Nat.min (length (before 63 assignedName)) (length (before 35 assignedName)) in
          validRepairURNPrefix (take n assignedName) true false && validRepairURNOptional (drop n assignedName))).

(** unicode.IsControl and unicode.IsSpace, on the UTF-8 bytes of a rune. *)
Definition IsControl (r : list Z) : bool :=
  match r with
  | [b] => (b <? 32) || (b =? 127)
  | [194; b] => between 128 b 159
  | _ => false
  end.

Definition IsSpace (r : list Z) : bool := bool_decide (string_of r ∈ space_runes).

Definition runes_of (s : string) : list (list Z) := runes (S (String.length s)) (bytes_of s).

Section requests.
Context (nfc : string → bool).

Definition validRepairText (value : string) (minBytes maxBytes : nat) (allowControls : bool) : bool :=
  utf8_valid value && (minBytes <=? String.length value)%nat && (String.length value <=? maxBytes)%nat && nfc value
  && (allowControls || forallb (λ r, negb (IsControl r)) (runes_of value)).

Definition validRepairIncidentRef (value : string) : bool :=
  validRepairText value 1 2048 false
  && forallb (λ r, negb (IsSpace r || IsControl r)) (runes_of value)
  && match url_Parse value with
     | None => false
     | Some u =>
         if negb (IsAbs u) then false
         else if bool_decide (u_Scheme u = bytes_of "https") then
           bool_decide (u_Opaque u = []) && negb (bool_decide (u_Host u = [])) && negb (bool_decide (Hostname u = []))
           && negb (u_User u)
         else if bool_decide (u_Scheme u = bytes_of "urn") then validRepairURN (bytes_of value)
         else false
     end.

(** Strictly ascending, which is what the pairwise comparisons of a range decide. *)
Fixpoint ascending (l : list string) : bool :=
  match l with
  | a :: (b :: _) as l' => String.ltb a b && ascending l'
  | _ => true
  end.

Definition validateGateExemptionRepairInput (i : GateExemptionRepair) : result () :=
  ensure (ulidPattern (ge_NodeID i) && validRepairText (ge_Gate i) 1 256 false
    && negb (ge_EventCount i =? 0) && (ge_EventCount i <=? 2 ^ 63 - 1) && ulidPattern (ge_HighWaterEventID i)
    && digestPattern (ge_PrefixDigest i) && validRepairIncidentRef (ge_IncidentRef i)
    && validRepairText (ge_Reason i) 1 4096 true
    && negb (bool_decide (ge_EvidenceRefs i = [])) && (length (ge_EvidenceRefs i) <=? 32)%nat)
    (ERefuse "gate.exemption.repair@v1 has invalid incident or declaration boundary") ;;
  ensure (forallb digestPattern (ge_EvidenceRefs i) && ascending (ge_EvidenceRefs i))
    (ERefuse "gate.exemption.repair@v1 evidence references must be sorted unique sha256 digests").

(** ** Target claims *)
Definition target_claim (previous : string) (c : TargetClaim) : result string :=
  validateULID (tc_MatterID c) ;;
  validateULID (tc_ClaimID c) ;;
  ensure (negb (tc_ClaimEpoch c =? 0)) (ERefuse "target claim epoch must be positive") ;;
  ensure (no previous || String.ltb previous (tc_MatterID c)) (ERefuse "target claims must be unique and ordered by Matter ID") ;;
  Ok (tc_MatterID c).

Definition validateTargetClaims (claims : list TargetClaim) : result () :=
  ensure (length claims <=? 2)%nat (ERefuse "target claim set exceeds two Matters") ;;
  _ ← foldM target_claim "" claims; Ok ().

Definition validateDependencyV2Input (blocked blocker : string) (claims : list TargetClaim) : result () :=
  validateULID blocked ;; validateULID blocker ;; validateTargetClaims claims.

Definition validateReferenceV2Input (matter reference : string) (claims : list TargetClaim) : result () :=
  validateULID matter ;;
  ensure (negb (blank reference)) (ERefuse "tracker reference is empty") ;;
  validateTargetClaims claims.

Definition validGateScale (scale : string) : bool := one_of scale ["matter"; "stage"; "step"].

(** ** step10.go *)
Definition validateRoleLifecycleRequest (id : ID) (i : RoleLifecycle) (request : Request) : result () :=
  validateULID (rl_RunID i) ;; validateULID (rl_MatterID i) ;; validateULID (rl_DispatchID i) ;; validateULID (rl_RoleID i) ;;
  ensure (locatorPattern (rl_RunLocator i)) (ERefuse "requires a canonical Run locator") ;;
  ensure (one_of (rl_Role i) ["orchestrator"; "coordinator"; "researcher"; "builder"; "verifier"])
    (ERefuse "uses an unsupported or inert Role") ;;
  if is_op RoleSpawnV1 id then
    ensure (no (rl_Reason i) && one_of (rq_Actor request) ["system:scheduler"; "role:orchestrator"])
      (ERefuse "role.spawn@v1 requires the scheduler or Orchestrator actor and no close reason")
  else if is_op RoleCloseV1 id then
    ensure (one_of (rl_Reason i) ["completed"; "reaped"]) (ERefuse "role.close@v1 requires completed or reaped reason") ;;
    ensure ((negb (same (rl_Reason i) "completed") || same (rq_Actor request) ("role:" +:+ rl_Role i))
            && (negb (same (rl_Reason i) "reaped") || same (rq_Actor request) "system:scheduler"))
      (ERefuse "role.close@v1 actor does not own the requested closure")
  else Ok ().

Definition validateRunFinishRequest (runID : string) (request : Request) : result () :=
  validateULID runID ;;
  ensure (same (rq_Actor request) "system:scheduler") (ERefuse "run.finish@v1 requires the scheduler actor").

Definition validateRunResumeRequest (runID runLocator : string) (request : Request) : result () :=
  validateULID runID ;;
  ensure (locatorPattern runLocator) (ERefuse "scheduler.resume@v1 requires a canonical Run locator") ;;
  ensure (same (rq_Actor request) "system:scheduler") (ERefuse "scheduler.resume@v1 requires the scheduler actor").

Definition validSchedulerTargetKind (kind : string) : bool := one_of kind ["matter"; "stage"; "step"].
Definition validSchedulerHandling (value : string) : bool := one_of value ["skip"; "halt"].
Definition SchedulerStep10VerifierRevision : string := "builtin.step10-verifier@v1".

(** The claim set holds the one claim of the Matter. *)
Definition single_claim (claims : list TargetClaim) (matter : string) : bool :=
  match claims with [c] => same (tc_MatterID c) matter | _ => false end.

Definition blob_names (request : Request) : list string := bi_Name <$> rq_Blobs request.
Definition names_are (request : Request) (l : list string) : bool := bool_decide (blob_names request = l).
Definition no_policy (i : SchedulerHook) : bool :=
  no (sh_Reason i) && no (sh_Contention i) && no (sh_Blocked i) && no (sh_Failed i).

Definition validate_work (i : SchedulerHook) (claims : list TargetClaim) (request : Request) : result () :=
  ensure (validSchedulerTargetKind (sh_TargetKind i)
    && (negb (same (sh_TargetKind i) "matter") || same (sh_TargetID i) (sh_MatterID i))
    && (same (sh_TargetKind i) "matter" || negb (same (sh_TargetID i) (sh_MatterID i)))
    && single_claim claims (sh_MatterID i) && ulidPattern (sh_RoleID i) && ulidPattern (sh_DispatchID i) && no_policy i)
    (ERefuse "scheduler.orchestrate@v1 work hook has invalid claim, role, or policy context") ;;
  if same (sh_Role i) "builder" then
    ensure (same (sh_Revision i) "builtin.markdown-outline@v1" && names_are request ["source"])
      (ERefuse "scheduler.orchestrate@v1 Builder hook requires pinned source and the supported outline revision")
  else if same (sh_Role i) "verifier" then
    if same (sh_Revision i) "builtin.markdown-outline-verifier@v1" then
      ensure (names_are request ["outline"; "source"])
        (ERefuse "scheduler.orchestrate@v1 legacy negative Verifier requires pinned source and outline")
    else if same (sh_Revision i) SchedulerStep10VerifierRevision then
      ensure (names_are request ["model"; "review"; "snapshot"; "tree-manifest"; "workplan"])
        (ERefuse "scheduler.orchestrate@v1 complete Verifier requires pinned contract, review, source snapshot, tree manifest, and Workplan")
    else Error (ERefuse "scheduler.orchestrate@v1 Verifier revision is unsupported")
  else Error (ERefuse "scheduler.orchestrate@v1 work hook role is unsupported").

Definition validate_plan (i : SchedulerHook) (claims : list TargetClaim) (request : Request) : result () :=
  ensure (same (sh_TargetID i) (sh_MatterID i) && same (sh_TargetKind i) "matter" && same (sh_Role i) "researcher"
    && ulidPattern (sh_RoleID i) && ulidPattern (sh_DispatchID i) && same (sh_Revision i) "builtin.markdown-checklist-plan@v1"
    && single_claim claims (sh_MatterID i) && names_are request ["workplan"] && no_policy i)
    (ERefuse "scheduler.orchestrate@v1 Plan hook has unsupported role, revision, claims, or inputs").

Definition validate_ask (i : SchedulerHook) (claims : list TargetClaim) (request : Request) : result () :=
  ensure (same (sh_TargetID i) (sh_MatterID i) && same (sh_TargetKind i) "matter" && no (sh_Role i) && no (sh_RoleID i)
    && no (sh_DispatchID i) && (length claims =? 0)%nat && same (sh_Revision i) "builtin.run-policy@v1"
    && names_are request [] && one_of (sh_Reason i) ["contended"; "blocked"; "failed"]
    && validSchedulerHandling (sh_Contention i) && validSchedulerHandling (sh_Blocked i) && validSchedulerHandling (sh_Failed i)
    && same (rq_Actor request) "system:scheduler")
    (ERefuse "scheduler.orchestrate@v1 Ask hook has invalid Run policy context").

Definition validateSchedulerHookInput (i : SchedulerHook) (request : Request) : result () :=
  ensure ((sh_Version i =? 1) && same (sh_AdapterID i) "builtin.pinned-markdown" && (sh_AdapterVersion i =? 1))
    (ERefuse "scheduler.orchestrate@v1 names an unsupported hook or adapter version") ;;
  validateULID (sh_RunID i) ;; validateULID (sh_MatterID i) ;; validateULID (sh_TargetID i) ;;
  ensure (digestPattern (sp_Digest (sh_InstalledPrefix i))
    && match sp_EventID (sh_InstalledPrefix i) with
       | None => sp_EventCount (sh_InstalledPrefix i) =? 0
       | Some e => negb (sp_EventCount (sh_InstalledPrefix i) =? 0) && ulidPattern e
       end) (ERefuse "scheduler.orchestrate@v1 has an invalid installed prefix anchor") ;;
  claims ← from_option_err (ERefuse "scheduler.orchestrate@v1 target-claim set must be explicit") (sh_TargetClaims i);
  validateTargetClaims claims ;;
  (if one_of (sh_Kind i) ["work"; "plan"] then
     ensure match rq_Claim request, claims with
            | Some claim, [c] => same (cl_ID claim) (tc_ClaimID c) && same (cl_Epoch claim) (itoa (tc_ClaimEpoch c))
            | _, _ => false
            end (ERefuse "scheduler.orchestrate@v1 requires the exact active claim for its target Matter")
   else ensure match rq_Claim request with None => true | Some _ => false end
          (ERefuse "scheduler.orchestrate@v1 Ask hook cannot carry a Matter claim")) ;;
  ensure (same (rq_Actor request) ("role:" +:+ sh_Role i) || same (sh_Kind i) "ask")
    (ERefuse "scheduler.orchestrate@v1 actor does not match the activated role") ;;
  ensure (ascending (blob_names request)) (ERefuse "scheduler.orchestrate@v1 pinned blobs must be uniquely ordered by name") ;;
  if same (sh_Kind i) "work" then validate_work i claims request
  else if same (sh_Kind i) "plan" then validate_plan i claims request
  else if same (sh_Kind i) "ask" then validate_ask i claims request
  else Error (ERefuse "scheduler.orchestrate@v1 hook kind is unsupported").

(** ** validate.go *)
Fixpoint check_blobs (declared : list string) (seen : gset string) (blobs : list BlobInput) : result (gset string) :=
  match blobs with
  | [] => Ok seen
  | blob :: blobs =>
      ensure (bool_decide (bi_Name blob ∈ declared)) (ERefuse "blob input is not declared") ;;
      ensure (negb (bool_decide (bi_Name blob ∈ seen))) (ERefuse "blob input is duplicated") ;;
      ensure (negb (no (bi_Digest blob))) (ERefuse "blob input has no digest") ;;
      ensure (0 <=? bi_Size blob) (ERefuse "blob input has negative size") ;;
      check_blobs declared ({[bi_Name blob]} ∪ seen) blobs
  end.

Definition validateBlobs (d : OpDefinition) (blobs : list BlobInput) : result () :=
  let specs := slice (md_BlobInputs (metadata d)) in
  seen ← check_blobs (bs_Name <$> specs) ∅ blobs;
  ensure (forallb (λ spec, negb (bs_Required spec) || bool_decide (bs_Name spec ∈ seen)) specs)
    (ERefuse "required blob input is missing").

Definition validate_claim_close (c : ClaimCloseReference) : result () :=
  validateULID (cc_ClaimID c) ;;
  ensure (negb (cc_ClaimEpoch c =? 0)) (ERefuse "claim close epoch must be positive") ;;
  validateULID (cc_ReleaseCommandID c) ;;
  ensure (digestPattern (cc_ReleaseRequestHash c) && digestPattern (cc_TerminalReceiptDigest c))
    (ERefuse "claim close request hash and terminal receipt digest must be canonical sha256") ;;
  let prefix := cc_InstalledPrefixAnchor c in
  match cp_EventID prefix with
  | Some e =>
      ensure (negb (cp_EventCount prefix =? 0) && digestPattern (cp_Digest prefix)) (ERefuse "claim close installed prefix anchor is invalid") ;;
      validateULID e
  | None => Error (ERefuse "claim close installed prefix anchor is invalid")
  end.

(** The last cases of the type switch over the input, of the operations that author a
    Matter's tree. *)
Definition validate_authoring (op : ID) (input : Input) : result () :=
  match input with
  | MatterCreateInput title locator =>
      if negb (is_op MatterCreateV2 op) then Ok ()
      else ensure (negb (blank title)) (ERefuse "matter title is empty") ;;
           ensure (no locator || locatorPattern locator) (ERefuse "requested Matter locator is not canonical")
  | StageCreateInput matterID title =>
      validateULID matterID ;; ensure (negb (blank title)) (ERefuse "stage title is empty")
  | StepCreateInput parentID title =>
      if is_op StepCreateV1 op then Ok ()
      else validateULID parentID ;; ensure (negb (blank title)) (ERefuse "step title is empty")
  | StepInsertInput parentID title afterID beforeID =>
      validateULID parentID ;;
      ensure (negb (blank title) && (no afterID || no beforeID)) (ERefuse "step insertion requires a title and at most one anchor") ;;
      (if no afterID then Ok () else validateULID afterID) ;;
      (if no beforeID then Ok () else validateULID beforeID)
  | StepReorderInput parentID order =>
      validateULID parentID ;;
      ensure (negb (length order =? 0)%nat) (ERefuse "step order is empty") ;;
      _ ← mapM_r validateULID order; Ok ()
  | StepReplaceInput stepID title =>
      validateULID stepID ;; ensure (negb (blank title)) (ERefuse "replacement Step title is empty")
  | StepRemoveInput stepID reason =>
      validateULID stepID ;; ensure (negb (blank reason)) (ERefuse "step removal reason is empty")
  | MatterLocatorRepairInput matterID assignedLocator action =>
      validateULID matterID ;;
      ensure (locatorPattern assignedLocator && one_of action ["rename"; "accept"]) (ERefuse "assigned Matter locator is not canonical")
  | _ => Ok ()
  end.

(** The cases of the type switch over the input. *)
Definition validate_input (op : ID) (input : Input) (request : Request) : result () :=
  match input with
  | SchedulerHookInput i => validateSchedulerHookInput i request
  | RoleLifecycleInput i => validateRoleLifecycleRequest op i request
  | RunFinishInput runID => validateRunFinishRequest runID request
  | RunResumeInput runID runLocator => validateRunResumeRequest runID runLocator request
  | StepLifecycleInput stepID => validateULID stepID
  | StepCancelInput stepID _ => validateULID stepID
  | NodeLifecycleInput nodeID reason =>
      validateULID nodeID ;;
      ensure (one_of (id_Name op) ["matter.cancel"; "stage.cancel"] || no reason) (ERefuse "lifecycle reason is only accepted for cancel")
  | MatterFinishInput matterID => validateULID matterID
  | BatchSweepAnonymousInput matterID batchID claimClose =>
      validateULID matterID ;; validateULID batchID ;; validate_claim_close claimClose
  | BatchCreateInput name =>
      ensure (negb (blank name) && same name (TrimSpace name)) (ERefuse "named Batch name is empty or has surrounding whitespace")
  | BatchMembershipInput batchID matterID => validateULID batchID ;; validateULID matterID
  | BatchDismissInput batchID => validateULID batchID
  | ContentWriteInput subjectID kind =>
      validateULID subjectID ;;
      ensure (one_of kind ["brief"; "workplan"; "body"]) (ERefuse "content.write-once@v1 requires brief, workplan, or body kind")
  | FindingAppendInput subjectID => validateULID subjectID
  | GateDeclareInput gate scale =>
      ensure (negb (blank gate) && validGateScale scale) (ERefuse "gate.declare@v1 requires a gate name and matter, stage, or step scale")
  | GateCloseInput gate nodeID =>
      ensure (negb (blank gate)) (ERefuse "gate.close@v1 requires a gate name") ;; validateULID nodeID
  | GateDismissInput gate nodeID reason =>
      ensure (negb (blank gate) && negb (blank reason)) (ERefuse "gate.dismiss@v1 requires a gate name and reason") ;;
      validateULID nodeID
  | DependencyAddInput blocked blocker => validateULID blocked ;; validateULID blocker
  | DependencyAddV2Input blocked blocker claims => validateDependencyV2Input blocked blocker claims
  | DependencyRemoveInput blocked blocker =>
      validateULID blocked ;; validateULID blocker ;;
      ensure (negb (same blocked blocker)) (ERefuse "dependency cannot block itself")
  | DependencyRemoveV2Input blocked blocker claims => validateDependencyV2Input blocked blocker claims
  | ReferenceBindInput matterID reference | ReferenceUnbindInput matterID reference =>
      validateULID matterID ;; ensure (negb (blank reference)) (ERefuse "tracker reference is empty")
  | ReferenceBindV2Input matterID reference claims | ReferenceUnbindV2Input matterID reference claims =>
      validateReferenceV2Input matterID reference claims
  | ReferenceRebindInput matterID from to =>
      validateULID matterID ;;
      ensure (negb (blank from) && negb (blank to) && negb (same from to)) (ERefuse "tracker rebind requires two distinct non-empty references")
  | ReferenceRebindV2Input matterID from to claims =>
      validateReferenceV2Input matterID from claims ;;
      ensure (negb (blank to) && negb (same from to)) (ERefuse "tracker rebind requires two distinct non-empty references")
  | GateExemptionRepairInput i => validateGateExemptionRepairInput i
  | _ => validate_authoring op input
  end.

Definition context_value (c : OpContext) (dimension : string) : string :=
  if same dimension ContextRepo then cx_Repo c
  else if same dimension ContextClone then cx_Clone c
  else if same dimension ContextWorktree then cx_Worktree c
  else "".

(** The claim the definition asks for, or that there is none. *)
Definition validate_claim (d : OpDefinition) (claim : option ClaimContext) : result () :=
  if one_of (md_Claim (metadata d)) [ClaimExact; ClaimImplicitBirth]
     || (Step10Operation (op_id d) && match claim with Some _ => true | None => false end)
  then ensure match claim with Some c => negb (no (cl_ID c)) && negb (no (cl_Epoch c)) | None => false end
         (ERefuse "operation requires an exact claim ID and epoch")
  else ensure match claim with None => true | Some _ => false end (ERefuse "operation does not accept claim context").

(** The implicit birth claim: the parent Matter's, at epoch 1. *)
Definition validate_birth_claim (d : OpDefinition) (input : Input) (claim : option ClaimContext) : result () :=
  if negb (same (md_Claim (metadata d)) ClaimImplicitBirth) then Ok ()
  else match input, claim with
       | StepCreateInput parentID _, Some c =>
           ensure (ulidPattern parentID && same (cl_ID c) parentID && same (cl_Epoch c) "1")
             (ERefuse "step.create@v1 requires the parent Matter's implicit birth claim at epoch 1")
       | _, _ => Error (ERefuse "panic: the input is not a StepCreateInput")
       end.

Definition ValidateRequest (d : OpDefinition) (request : Request) : result () :=
  ensure (bool_decide (rq_Operation request = op_id d)) (ERefuse "operation mismatch") ;;
  ensure (validActor (rq_Actor request)) (ERefuse "actor is not human, a role, or a system source") ;;
  ensure (negb (is_op GateExemptionRepairV1 (op_id d)) || same (rq_Actor request) "human")
    (ERefuse "gate.exemption.repair@v1 requires a human actor") ;;
  ensure (forallb (λ dim, negb (no (context_value (rq_Context request) dim))) (slice (md_RequiredContext (metadata d))))
    (ERefuse "required context is empty") ;;
  validate_claim d (rq_Claim request) ;;
  input ← from_option_err (ERefuse "input type") (rq_Input request);
  ensure (bool_decide (input_type input = inputType d)) (ERefuse "input type") ;;
  validate_birth_claim d input (rq_Claim request) ;;
  validate_input (op_id d) input request ;;
  validateBlobs d (rq_Blobs request).
End requests.
