(* ===== verification/OpCodec.v ===== *)
(** The identity of a command (src/internal/operation/command_identity.go and
    canonical_decode.go): the closed wipd.command/1 value of a command, its bytes and
    its hash, and the decoder that accepts exactly the bytes a command encodes to.
    [nfc] is norm.NFC.IsNormalString of golang.org/x/text, and [unmarshal] is the CBOR
    decoder of github.com/fxamacker/cbor with the options of canonicalCommandDecoder. *)
From S2P Require Import Prelude GoStd Ulid View Cbor OpText Operation OpCatalog OpValidate.
Local Open Scope Z_scope.

Definition commandIdentitySchema : string := "wipd.command/1".
Definition requestHashDomain : string := "wipd/request-hash/v1" +:+ string_of [0].

Record Command := mkCommand {
  cm_ID : string; cm_AuthorityDomainID : string; cm_ExpectedAuthorityEpoch : Z; cm_EnvironmentID : string;
  cm_EnvironmentSequence : Z; cm_ActedAt : string; cm_CausationCommandID : string; cm_CorrelationCommandID : string;
  cm_Request : Request }.

(** BlobDigest *)
Definition BlobDigest (content : string) : string := digestPrefix +:+ hex_encode (Sha256.sum content).

Definition nullableIdentity (identity : string) : CVal := if no identity then CNil else CText identity.

Definition nullableStringPointer (value : option string) : CVal :=
  match value with None => CNil | Some s => CText s end.

Definition canonicalTargetClaims (claims : list TargetClaim) : CVal :=
  CArray ((λ c, CMap [("matter_id", CText (tc_MatterID c)); ("claim_id", CText (tc_ClaimID c)); ("claim_epoch", CUint (tc_ClaimEpoch c))]) <$> claims).

Definition canonicalStrings (values : list string) : CVal := CArray (CText <$> values).

Definition canonicalInput (input : Input) : CVal :=
  match input with
  | MatterCreateInput title locator => CMap [("title", CText title); ("requested_locator", CText locator)]
  | StepCreateInput parentID title => CMap [("parent_id", CText parentID); ("title", CText title)]
  | StageCreateInput matterID title => CMap [("matter_id", CText matterID); ("title", CText title)]
  | StepInsertInput parentID title afterID beforeID =>
      CMap [("parent_id", CText parentID); ("title", CText title); ("after_id", nullableIdentity afterID); ("before_id", nullableIdentity beforeID)]
  | StepReorderInput parentID order => CMap [("parent_id", CText parentID); ("order", canonicalStrings order)]
  | StepReplaceInput stepID title => CMap [("step_id", CText stepID); ("title", CText title)]
  | StepRemoveInput stepID reason => CMap [("step_id", CText stepID); ("reason", CText reason)]
  | MatterLocatorRepairInput matterID assignedLocator action =>
      CMap [("matter_id", CText matterID); ("action", CText action); ("assigned_locator", CText assignedLocator)]
  | StepLifecycleInput stepID => CMap [("step_id", CText stepID)]
  | StepCancelInput stepID reason => CMap [("step_id", CText stepID); ("reason", CText reason)]
  | NodeLifecycleInput nodeID reason => CMap [("node_id", CText nodeID); ("reason", CText reason)]
  | MatterFinishInput matterID => CMap [("matter_id", CText matterID)]
  | BatchSweepAnonymousInput matterID batchID c =>
      let prefix := cc_InstalledPrefixAnchor c in
      CMap [("matter_id", CText matterID); ("batch_id", CText batchID);
            ("claim_close", CMap [
               ("claim_id", CText (cc_ClaimID c)); ("claim_epoch", CUint (cc_ClaimEpoch c));
               ("release_command_id", CText (cc_ReleaseCommandID c)); ("release_request_hash", CText (cc_ReleaseRequestHash c));
               ("terminal_receipt_digest", CText (cc_TerminalReceiptDigest c));
               ("installed_prefix_anchor", CMap [
                  ("event_count", CUint (cp_EventCount prefix)); ("event_id", nullableStringPointer (cp_EventID prefix));
                  ("digest", CText (cp_Digest prefix))])])]
  | BatchCreateInput name => CMap [("name", CText name)]
  | BatchMembershipInput batchID matterID => CMap [("batch_id", CText batchID); ("matter_id", CText matterID)]
  | BatchDismissInput batchID => CMap [("batch_id", CText batchID)]
  | ContentWriteInput subjectID kind => CMap [("subject_id", CText subjectID); ("kind", CText kind)]
  | FindingAppendInput subjectID => CMap [("subject_id", CText subjectID)]
  | GateDeclareInput gate scale => CMap [("gate", CText gate); ("scale", CText scale)]
  | GateCloseInput gate nodeID => CMap [("gate", CText gate); ("node_id", CText nodeID)]
  | GateDismissInput gate nodeID reason => CMap [("gate", CText gate); ("node_id", CText nodeID); ("reason", CText reason)]
  | GateExemptionRepairInput i =>
      CMap [("node_id", CText (ge_NodeID i)); ("gate", CText (ge_Gate i));
            ("event_count", CUint (ge_EventCount i)); ("high_water_event_id", CText (ge_HighWaterEventID i));
            ("prefix_digest", CText (ge_PrefixDigest i)); ("incident_ref", CText (ge_IncidentRef i));
            ("reason", CText (ge_Reason i)); ("evidence_refs", canonicalStrings (ge_EvidenceRefs i))]
  | DependencyAddInput blocked blocker | DependencyRemoveInput blocked blocker =>
      CMap [("blocked_id", CText blocked); ("blocker_id", CText blocker)]
  | DependencyAddV2Input blocked blocker claims | DependencyRemoveV2Input blocked blocker claims =>
      CMap [("blocked_id", CText blocked); ("blocker_id", CText blocker); ("target_claims", canonicalTargetClaims claims)]
  | ReferenceBindInput matterID reference | ReferenceUnbindInput matterID reference =>
      CMap [("matter_id", CText matterID); ("reference", CText reference)]
  | ReferenceBindV2Input matterID reference claims | ReferenceUnbindV2Input matterID reference claims =>
      CMap [("matter_id", CText matterID); ("reference", CText reference); ("target_claims", canonicalTargetClaims claims)]
  | ReferenceRebindInput matterID from to => CMap [("matter_id", CText matterID); ("from", CText from); ("to", CText to)]
  | ReferenceRebindV2Input matterID from to claims =>
      CMap [("matter_id", CText matterID); ("from", CText from); ("to", CText to); ("target_claims", canonicalTargetClaims claims)]
  | SchedulerHookInput i =>
      let prefix := sh_InstalledPrefix i in
      CMap [("kind", CText (sh_Kind i)); ("version", CUint (sh_Version i));
            ("adapter_id", CText (sh_AdapterID i)); ("adapter_version", CUint (sh_AdapterVersion i));
            ("run_id", CText (sh_RunID i)); ("matter_id", CText (sh_MatterID i)); ("target_id", CText (sh_TargetID i));
            ("target_kind", CText (sh_TargetKind i)); ("role", CText (sh_Role i)); ("role_id", nullableIdentity (sh_RoleID i));
            ("dispatch_id", nullableIdentity (sh_DispatchID i)); ("revision", CText (sh_Revision i));
            ("reason", CText (sh_Reason i)); ("contention", CText (sh_Contention i));
            ("blocked", CText (sh_Blocked i)); ("failed", CText (sh_Failed i));
            ("target_claims", canonicalTargetClaims (slice (sh_TargetClaims i)));
            ("installed_prefix_anchor", CMap [
               ("event_count", CUint (sp_EventCount prefix)); ("event_id", nullableStringPointer (sp_EventID prefix));
               ("digest", CText (sp_Digest prefix))])]
  | RoleLifecycleInput i =>
      CMap [("run_id", CText (rl_RunID i)); ("run_locator", CText (rl_RunLocator i)); ("matter_id", CText (rl_MatterID i));
            ("dispatch_id", CText (rl_DispatchID i)); ("role_id", CText (rl_RoleID i));
            ("role", CText (rl_Role i)); ("reason", CText (rl_Reason i))]
  | RunFinishInput runID => CMap [("run_id", CText runID)]
  | RunResumeInput runID runLocator => CMap [("run_id", CText runID); ("run_locator", CText runLocator)]
  end.

(** sort.Slice by name, then one record each; [previous] is the name before. *)
Definition name_leb (a b : BlobInput) : bool := String.leb (bi_Name a) (bi_Name b).

Fixpoint canonical_blobs (previous : option string) (ordered : list BlobInput) : result (list CVal) :=
  match ordered with
  | [] => Ok []
  | blob :: ordered =>
      ensure (negb (bool_decide (previous = Some (bi_Name blob)))) (ERefuse "blob input is duplicated") ;;
      ensure (digestPattern (bi_Digest blob)) (ERefuse "blob input digest is not canonical sha256") ;;
      ensure (0 <=? bi_Size blob) (ERefuse "blob input has negative size") ;;
      rest ← canonical_blobs (Some (bi_Name blob)) ordered;
      Ok (CMap [("name", CText (bi_Name blob)); ("digest", CText (bi_Digest blob)); ("byte_length", CUint (bi_Size blob))] :: rest)
  end.

Definition canonicalBlobs (blobs : list BlobInput) : result CVal :=
  values ← canonical_blobs None (order_by name_leb blobs); Ok (CArray values).

Definition canonicalClaim (claim : option ClaimContext) : result CVal :=
  match claim with
  | None => Ok CNil
  | Some c =>
      validateULID (cl_ID c) ;;
      match ParseUint (cl_Epoch c) with
      | Some epoch =>
          ensure (negb (epoch =? 0) && same (FormatUint epoch) (cl_Epoch c)) (ERefuse "claim epoch must be a positive canonical uint64") ;;
          Ok (CMap [("id", CText (cl_ID c)); ("epoch", CUint epoch)])
      | None => Error (ERefuse "claim epoch must be a positive canonical uint64")
      end
  end.

Definition optional_ulid (s : string) : result () := if no s then Ok () else validateULID s.

(** The value of a command whose envelope, request, input, blobs and claim are valid. *)
Definition envelope_value (c : Command) (claim input blobs : CVal) : CVal :=
  let r := cm_Request c in
  CMap [("schema", CText commandIdentitySchema); ("command_id", CText (cm_ID c));
        ("authority", CMap [("domain_id", CText (cm_AuthorityDomainID c)); ("expected_epoch", CUint (cm_ExpectedAuthorityEpoch c))]);
        ("environment", CMap [("id", CText (cm_EnvironmentID c)); ("sequence", CUint (cm_EnvironmentSequence c))]);
        ("acted_at", CText (cm_ActedAt c)); ("actor", CText (rq_Actor r));
        ("causation_command_id", nullableIdentity (cm_CausationCommandID c));
        ("correlation_command_id", CText (cm_CorrelationCommandID c));
        ("operation", CMap [("name", CText (id_Name (rq_Operation r))); ("version", CUint (id_Version (rq_Operation r)))]);
        ("context", CMap [("repo_id", nullableIdentity (cx_Repo (rq_Context r))); ("clone_id", nullableIdentity (cx_Clone (rq_Context r)));
                          ("worktree_id", nullableIdentity (cx_Worktree (rq_Context r)))]);
        ("claim", claim); ("input", input); ("blobs", blobs)].

Section codec.
Context (nfc : string → bool).

Definition validate_envelope (c : Command) : result () :=
  validateULID (cm_ID c) ;;
  validateULID (cm_AuthorityDomainID c) ;;
  ensure (negb (cm_ExpectedAuthorityEpoch c =? 0)) (ERefuse "expected authority epoch must be positive") ;;
  validateULID (cm_EnvironmentID c) ;;
  ensure (negb (cm_EnvironmentSequence c =? 0)) (ERefuse "Environment sequence must be positive") ;;
  validateCanonicalTimestamp (cm_ActedAt c) ;;
  (if no (cm_CausationCommandID c) then Ok ()
   else validateULID (cm_CausationCommandID c) ;;
        ensure (negb (same (cm_CausationCommandID c) (cm_ID c))) (ERefuse "command cannot cause itself")) ;;
  validateULID (cm_CorrelationCommandID c) ;;
  ensure (negb (no (cm_CausationCommandID c)) || same (cm_CorrelationCommandID c) (cm_ID c))
    (ERefuse "an origin command must correlate to itself") ;;
  optional_ulid (cx_Repo (rq_Context (cm_Request c))) ;;
  optional_ulid (cx_Clone (rq_Context (cm_Request c))) ;;
  optional_ulid (cx_Worktree (rq_Context (cm_Request c))).

Definition canonicalValue (c : Command) : result CVal :=
  validate_envelope c ;;
  definition ← from_option_err (ERefuse "no canonical identity schema") (commandIdentityDefinition (rq_Operation (cm_Request c)));
  ValidateRequest nfc definition (cm_Request c) ;;
  input ← from_option_err (ERefuse "input type has no canonical identity schema") (canonicalInput <$> rq_Input (cm_Request c));
  blobs ← canonicalBlobs (rq_Blobs (cm_Request c));
  claim ← canonicalClaim (rq_Claim (cm_Request c));
  Ok (envelope_value c claim input blobs).

Definition CanonicalBytes (c : Command) : result (list Z) :=
  value ← canonicalValue c;
  encoded ← marshalCanonical nfc value;
  ensure (negb (is_op GateExemptionRepairV1 (rq_Operation (cm_Request c)) && (2 ^ 20 <? Z.of_nat (length encoded))))
    (ERefuse "gate exemption repair command exceeds 1 MiB") ;;
  Ok encoded.

Definition RequestHash (c : Command) : result string :=
  encoded ← CanonicalBytes c;
  Ok (digestPrefix +:+ hex_encode (Sha256.sum (requestHashDomain +:+ string_of encoded))).

Definition VerifyRequestHash (c : Command) (asserted : string) : result () :=
  ensure (digestPattern asserted) (ERefuse "asserted request_hash is not canonical sha256") ;;
  recomputed ← RequestHash c;
  ensure (same asserted recomputed) (ERefuse "request_hash mismatch").
End codec.

(** ** canonical_decode.go *)
(** fields[key]: nil when the key is absent. *)
Fixpoint field_at (fields : list (string * CVal)) (key : string) : CVal :=
  match fields with
  | [] => CNil
  | (k, v) :: fields => if bool_decide (k = key) then v else field_at fields key
  end.

Definition commandMap (value : CVal) (keys : list string) : result (list (string * CVal)) :=
  match value with
  | CMap fields =>
      ensure (length fields =? length keys)%nat (ERefuse "missing or unknown fields") ;;
      ensure (forallb (λ key, bool_decide (key ∈ fields.*1)) keys) (ERefuse "missing field") ;;
      Ok fields
  | _ => Error (ERefuse "must be a CBOR map")
  end.

Definition commandString (fields : list (string * CVal)) (key : string) : result string :=
  match field_at fields key with CText s => Ok s | _ => Error (ERefuse "must be CBOR text") end.

Definition commandActor (fields : list (string * CVal)) (key : string) : result string := commandString fields key.

Definition commandNullableString (fields : list (string * CVal)) (key : string) : result string :=
  ensure (bool_decide (key ∈ fields.*1)) (ERefuse "missing") ;;
  match field_at fields key with
  | CNil => Ok ""
  | CText s => Ok s
  | _ => Error (ERefuse "must be CBOR text or null")
  end.

Definition commandUint (fields : list (string * CVal)) (key : string) : result Z :=
  match field_at fields key with CUint n => Ok n | _ => Error (ERefuse "must be an unsigned CBOR integer") end.

Definition text_element (v : CVal) : result string :=
  match v with CText s => Ok s | _ => Error (ERefuse "must be text") end.

Definition commandStringArray (fields : list (string * CVal)) (key : string) : result (list string) :=
  match field_at fields key with
  | CArray values => mapM_r text_element values
  | _ => Error (ERefuse "must be an array")
  end.

Definition decode_target_claim (value : CVal) : result TargetClaim :=
  fields ← commandMap value ["matter_id"; "claim_id"; "claim_epoch"];
  matter ← commandString fields "matter_id";
  id ← commandString fields "claim_id";
  epoch ← commandUint fields "claim_epoch";
  Ok (mkTargetClaim matter id epoch).

Definition commandDecodeTargetClaims (value : CVal) : result (list TargetClaim) :=
  match value with
  | CArray values =>
      ensure (length values <=? 2)%nat (ERefuse "target_claims must be an array of at most two records") ;;
      mapM_r decode_target_claim values
  | _ => Error (ERefuse "target_claims must be an array of at most two records")
  end.

Definition decode_blob (value : CVal) : result BlobInput :=
  fields ← commandMap value ["name"; "digest"; "byte_length"];
  name ← commandString fields "name";
  digest ← commandString fields "digest";
  length ← commandUint fields "byte_length";
  ensure (length <=? 2 ^ 63 - 1) (ERefuse "byte_length exceeds int64") ;;
  Ok (mkBlobInput name digest length).

Definition commandDecodeBlobs (value : CVal) : result (list BlobInput) :=
  match value with
  | CArray values => mapM_r decode_blob values
  | _ => Error (ERefuse "blobs must be a CBOR array")
  end.

Definition commandDecodeClaim (value : CVal) : result (option ClaimContext) :=
  match value with
  | CNil => Ok None
  | _ =>
      fields ← commandMap value ["id"; "epoch"];
      id ← commandString fields "id";
      epoch ← commandUint fields "epoch";
      Ok (Some (mkClaimContext id (FormatUint epoch)))
  end.

(** An installed prefix anchor: its count, its event when the field is not null, its digest. *)
Definition decode_prefix (value : CVal) : result (Z * option string * string) :=
  prefix ← commandMap value ["event_count"; "event_id"; "digest"];
  count ← commandUint prefix "event_count";
  eventID ← commandNullableString prefix "event_id";
  digest ← commandString prefix "digest";
  Ok (count, match field_at prefix "event_id" with CNil => None | _ => Some eventID end, digest).

Definition decode_scheduler_hook (value : CVal) : result Input :=
  fields ← commandMap value
    ["kind"; "version"; "adapter_id"; "adapter_version"; "run_id"; "matter_id"; "target_id"; "target_kind";
     "role"; "role_id"; "dispatch_id"; "revision"; "reason"; "contention"; "blocked"; "failed";
     "target_claims"; "installed_prefix_anchor"];
  kind ← commandString fields "kind";
  version ← commandUint fields "version";
  adapterID ← commandString fields "adapter_id";
  adapterVersion ← commandUint fields "adapter_version";
  targetKind ← commandString fields "target_kind";
  runID ← commandString fields "run_id";
  matterID ← commandString fields "matter_id";
  targetID ← commandString fields "target_id";
  role ← commandString fields "role";
  revision ← commandString fields "revision";
  reason ← commandString fields "reason";
  contention ← commandString fields "contention";
  blocked ← commandString fields "blocked";
  failed ← commandString fields "failed";
  roleID ← commandNullableString fields "role_id";
  dispatchID ← commandNullableString fields "dispatch_id";
  claims ← commandDecodeTargetClaims (field_at fields "target_claims");
  prefix ← decode_prefix (field_at fields "installed_prefix_anchor");
  let '(count, eventID, digest) := prefix in
  Ok (SchedulerHookInput (mkSchedulerHook kind version adapterID adapterVersion runID matterID targetID targetKind role
        roleID dispatchID revision reason contention blocked failed (Some claims) (mkSchedulerPrefixAnchor count eventID digest))).

Definition decode_role_lifecycle (value : CVal) : result Input :=
  fields ← commandMap value ["run_id"; "run_locator"; "matter_id"; "dispatch_id"; "role_id"; "role"; "reason"];
  runID ← commandString fields "run_id";
  runLocator ← commandString fields "run_locator";
  matterID ← commandString fields "matter_id";
  dispatchID ← commandString fields "dispatch_id";
  roleID ← commandString fields "role_id";
  role ← commandString fields "role";
  reason ← commandString fields "reason";
  Ok (RoleLifecycleInput (mkRoleLifecycle runID runLocator matterID dispatchID roleID role reason)).

Definition decode_claim_close (value : CVal) : result ClaimCloseReference :=
  fields ← commandMap value ["claim_id"; "claim_epoch"; "release_command_id"; "release_request_hash"; "terminal_receipt_digest"; "installed_prefix_anchor"];
  claimID ← commandString fields "claim_id";
  claimEpoch ← commandUint fields "claim_epoch";
  release ← commandString fields "release_command_id";
  hash ← commandString fields "release_request_hash";
  receipt ← commandString fields "terminal_receipt_digest";
  prefix ← decode_prefix (field_at fields "installed_prefix_anchor");
  let '(count, eventID, digest) := prefix in
  Ok (mkClaimCloseReference claimID claimEpoch release hash receipt (mkClaimClosePrefix count eventID digest)).

Definition decode_sweep (value : CVal) : result Input :=
  fields ← commandMap value ["matter_id"; "batch_id"; "claim_close"];
  matterID ← commandString fields "matter_id";
  batchID ← commandString fields "batch_id";
  claimClose ← decode_claim_close (field_at fields "claim_close");
  Ok (BatchSweepAnonymousInput matterID batchID claimClose).

Definition decode_repair (value : CVal) : result Input :=
  fields ← commandMap value ["node_id"; "gate"; "event_count"; "high_water_event_id"; "prefix_digest"; "incident_ref"; "reason"; "evidence_refs"];
  nodeID ← commandString fields "node_id";
  gate ← commandString fields "gate";
  count ← commandUint fields "event_count";
  highWater ← commandString fields "high_water_event_id";
  prefixDigest ← commandString fields "prefix_digest";
  incident ← commandString fields "incident_ref";
  reason ← commandString fields "reason";
  evidence ← commandStringArray fields "evidence_refs";
  Ok (GateExemptionRepairInput (mkGateExemptionRepair nodeID gate count highWater prefixDigest incident reason evidence)).

(** The cases whose fields are all text: one, two or three of them. *)
Definition decode_texts1 (value : CVal) (k : string) (f : string → Input) : result Input :=
  fields ← commandMap value [k]; a ← commandString fields k; Ok (f a).

Definition decode_texts2 (value : CVal) (k1 k2 : string) (f : string → string → Input) : result Input :=
  fields ← commandMap value [k1; k2];
  a ← commandString fields k1; b ← commandString fields k2; Ok (f a b).

Definition decode_texts3 (value : CVal) (k1 k2 k3 : string) (f : string → string → string → Input) : result Input :=
  fields ← commandMap value [k1; k2; k3];
  a ← commandString fields k1; b ← commandString fields k2; c ← commandString fields k3; Ok (f a b c).

(** Two text fields and the target claims. *)
Definition decode_claimed2 (value : CVal) (k1 k2 : string) (f : string → string → list TargetClaim → Input) : result Input :=
  fields ← commandMap value [k1; k2; "target_claims"];
  a ← commandString fields k1; b ← commandString fields k2;
  claims ← commandDecodeTargetClaims (field_at fields "target_claims"); Ok (f a b claims).

Definition decode_rebind_v2 (value : CVal) : result Input :=
  fields ← commandMap value ["matter_id"; "from"; "to"; "target_claims"];
  matter ← commandString fields "matter_id"; from ← commandString fields "from"; to ← commandString fields "to";
  claims ← commandDecodeTargetClaims (field_at fields "target_claims");
  Ok (ReferenceRebindV2Input matter from to claims).

Definition decode_insert (value : CVal) : result Input :=
  fields ← commandMap value ["parent_id"; "title"; "after_id"; "before_id"];
  parent ← commandString fields "parent_id";
  title ← commandString fields "title";
  after ← commandNullableString fields "after_id";
  before ← commandNullableString fields "before_id";
  Ok (StepInsertInput parent title after before).

Definition decode_reorder (value : CVal) : result Input :=
  fields ← commandMap value ["parent_id"; "order"];
  parent ← commandString fields "parent_id";
  order ← commandStringArray fields "order";
  Ok (StepReorderInput parent order).

(** The switch over the operation: the decoder of each case. *)
Definition decode_cases : list (list OpDefinition * (CVal → result Input)) := [
  ([SchedulerOrchestrateV1], decode_scheduler_hook);
  ([RoleSpawnV1; RoleCloseV1], decode_role_lifecycle);
  ([RunFinishV1], λ v, decode_texts1 v "run_id" RunFinishInput);
  ([SchedulerResumeV1], λ v, decode_texts2 v "run_id" "run_locator" RunResumeInput);
  ([MatterCreateV1], λ v, decode_texts2 v "title" "requested_locator" MatterCreateInput);
  ([StepCreateV1], λ v, decode_texts2 v "parent_id" "title" StepCreateInput);
  ([MatterCreateV2], λ v, decode_texts2 v "title" "requested_locator" MatterCreateInput);
  ([StageCreateV1], λ v, decode_texts2 v "matter_id" "title" StageCreateInput);
  ([StepCreateV2], λ v, decode_texts2 v "parent_id" "title" StepCreateInput);
  ([StepInsertV1], decode_insert);
  ([StepReorderV1], decode_reorder);
  ([StepReplaceV1], λ v, decode_texts2 v "step_id" "title" StepReplaceInput);
  ([StepRemoveV1], λ v, decode_texts2 v "step_id" "reason" StepRemoveInput);
  ([MatterLocatorRepairV1], λ v, decode_texts3 v "matter_id" "action" "assigned_locator"
                                   (λ matter action locator, MatterLocatorRepairInput matter locator action));
  ([StepStartV1; StepFinishV1], λ v, decode_texts1 v "step_id" StepLifecycleInput);
  ([MatterFinishV1], λ v, decode_texts1 v "matter_id" MatterFinishInput);
  ([BatchSweepAnonymousV1], decode_sweep);
  ([BatchCreateV1], λ v, decode_texts1 v "name" BatchCreateInput);
  ([BatchJoinV1; BatchLeaveV1], λ v, decode_texts2 v "batch_id" "matter_id" BatchMembershipInput);
  ([BatchDismissV1], λ v, decode_texts1 v "batch_id" BatchDismissInput);
  ([GateDeclareV1], λ v, decode_texts2 v "gate" "scale" GateDeclareInput);
  ([GateCloseV1], λ v, decode_texts2 v "gate" "node_id" GateCloseInput);
  ([GateDismissV1], λ v, decode_texts3 v "gate" "node_id" "reason" GateDismissInput);
  ([DependencyAddV1], λ v, decode_texts2 v "blocked_id" "blocker_id" DependencyAddInput);
  ([DependencyAddV2], λ v, decode_claimed2 v "blocked_id" "blocker_id" DependencyAddV2Input);
  ([DependencyRemoveV1], λ v, decode_texts2 v "blocked_id" "blocker_id" DependencyRemoveInput);
  ([DependencyRemoveV2], λ v, decode_claimed2 v "blocked_id" "blocker_id" DependencyRemoveV2Input);
  ([ReferenceBindV1], λ v, decode_texts2 v "matter_id" "reference" ReferenceBindInput);
  ([ReferenceBindV2], λ v, decode_claimed2 v "matter_id" "reference" ReferenceBindV2Input);
  ([ReferenceUnbindV1], λ v, decode_texts2 v "matter_id" "reference" ReferenceUnbindInput);
  ([ReferenceUnbindV2], λ v, decode_claimed2 v "matter_id" "reference" ReferenceUnbindV2Input);
  ([ReferenceRebindV1], λ v, decode_texts3 v "matter_id" "from" "to" ReferenceRebindInput);
  ([ReferenceRebindV2], decode_rebind_v2);
  ([GateExemptionRepairV1], decode_repair);
  ([MatterStartV1; MatterPauseV1; MatterResumeV1; MatterCancelV1; StageStartV1; StagePauseV1; StageResumeV1; StageCancelV1; StageFinishV1],
    λ v, decode_texts2 v "node_id" "reason" NodeLifecycleInput);
  ([StepPauseV1; StepResumeV1], λ v, decode_texts1 v "step_id" StepLifecycleInput);
  ([StepCancelV1], λ v, decode_texts2 v "step_id" "reason" StepCancelInput);
  ([ContentWriteOnceV1], λ v, decode_texts2 v "subject_id" "kind" ContentWriteInput);
  ([FindingAppendV1], λ v, decode_texts1 v "subject_id" FindingAppendInput)].

Definition commandDecodeInput (id : ID) (value : CVal) : result Input :=
  match List.find (λ c, listed c.1 id) decode_cases with
  | Some c => c.2 value
  | None => Error (ERefuse "no canonical identity schema")
  end.

(** The command a decoded value spells, before it is encoded again. *)
Definition decode_value (value : CVal) : result Command :=
  fields ← commandMap value ["schema"; "command_id"; "authority"; "environment"; "acted_at"; "actor"; "causation_command_id";
                             "correlation_command_id"; "operation"; "context"; "claim"; "input"; "blobs"];
  id ← commandString fields "command_id";
  schema ← commandString fields "schema";
  ensure (same schema commandIdentitySchema) (ERefuse "command schema") ;;
  actedAt ← commandString fields "acted_at";
  actor ← commandActor fields "actor";
  causation ← commandNullableString fields "causation_command_id";
  correlation ← commandString fields "correlation_command_id";
  authority ← commandMap (field_at fields "authority") ["domain_id"; "expected_epoch"];
  domain ← commandString authority "domain_id";
  epoch ← commandUint authority "expected_epoch";
  environment ← commandMap (field_at fields "environment") ["id"; "sequence"];
  environmentID ← commandString environment "id";
  sequence ← commandUint environment "sequence";
  operation ← commandMap (field_at fields "operation") ["name"; "version"];
  name ← commandString operation "name";
  version ← commandUint operation "version";
  ensure (negb (version =? 0) && (version <=? 65535)) (ERefuse "operation version must be a positive uint16") ;;
  context ← commandMap (field_at fields "context") ["repo_id"; "clone_id"; "worktree_id"];
  repo ← commandNullableString context "repo_id";
  clone ← commandNullableString context "clone_id";
  worktree ← commandNullableString context "worktree_id";
  claim ← commandDecodeClaim (field_at fields "claim");
  input ← commandDecodeInput (mkID name version) (field_at fields "input");
  blobs ← commandDecodeBlobs (field_at fields "blobs");
  Ok (mkCommand id domain epoch environmentID sequence actedAt causation correlation
        (mkRequest (mkID name version) actor (mkOpContext repo clone worktree) claim (Some input) blobs)).

Definition DecodeCanonicalCommand (nfc : string → bool) (unmarshal : list Z → result CVal) (data : list Z) : result Command :=
  value ← unmarshal data;
  command ← decode_value value;
  canonical ← CanonicalBytes nfc command;
  ensure (bool_decide (canonical = data)) (ERefuse "command CBOR is not deterministic or canonical") ;;
  Ok command.
