(* ===== verification/OpFacts.v ===== *)
(** Facts of the command codec: a field is read wherever the encoding put it, every
    input is read back by the decoder of its operation, and a command by
    [decode_value], with its blobs in the order of their names. *)
From S2P Require Import Prelude GoStd Ulid View Cbor CborFacts OpText Operation OpCatalog OpValidate OpCodec.
Local Open Scope Z_scope.

(** ** Fields of a decoded map *)
Abbreviation fields_of m := (order_by key_leb (map (λ kx : string * CVal, (kx.1, plain kx.2)) m)).

Lemma fields_keys (m : list (string * CVal)) : (fields_of m).*1 ≡ₚ m.*1.
Proof.
  rewrite order_by_perm, <-list_fmap_compose. by apply Permutation_refl'.
Qed.

Lemma field_in (m : list (string * CVal)) k v : NoDup m.*1 → (k, v) ∈ m → field_at m k = v.
Proof.
  induction m as [|[k' v'] m IH]; intros Hnd Hin; [by apply elem_of_nil in Hin|].
  cbn in Hnd. apply NoDup_cons in Hnd as [Hk Hnd]. cbn [field_at].
  apply elem_of_cons in Hin as [[= -> ->]|Hin]; [by rewrite bool_decide_true|].
  rewrite bool_decide_false; [by apply IH|]. intros ->. apply Hk. by apply (list_elem_of_fmap_2 fst) in Hin.
Qed.

Lemma field_out (m : list (string * CVal)) k : k ∉ m.*1 → field_at m k = CNil.
Proof.
  induction m as [|[k' v'] m IH]; intros Hk; [done|]. cbn in Hk. apply not_elem_of_cons in Hk as [Hne Hk].
  cbn [field_at]. rewrite bool_decide_false by congruence. by apply IH.
Qed.

Lemma field_sorted (m : list (string * CVal)) k : NoDup m.*1 → field_at (fields_of m) k = plain (field_at m k).
Proof.
  intros Hnd. destruct (decide (k ∈ m.*1)) as [Hin|Hout].
  - apply list_elem_of_fmap in Hin as ([k0 v] & -> & Hin). cbn [fst]. rewrite (field_in m k0 v) by done. apply field_in.
    + by rewrite fields_keys.
    + rewrite elem_of_order_by. by apply (list_elem_of_fmap_2 (λ kx, (kx.1, plain kx.2))) in Hin.
  - rewrite (field_out m) by done. apply field_out. by rewrite fields_keys.
Qed.

Lemma field_hit k v m : field_at ((k, v) :: m) k = v.
Proof. cbn. by rewrite bool_decide_true. Qed.

Lemma field_miss k k' v m : k' ≠ k → field_at ((k', v) :: m) k = field_at m k.
Proof. intros. cbn. by rewrite bool_decide_false. Qed.

(** A map as canonicalValue and canonicalInput write it: the keys the decoder lists. *)
Definition shaped (m : list (string * CVal)) (keys : list string) : bool :=
  bool_decide (NoDup m.*1) && (length m =? length keys)%nat && forallb (λ key, bool_decide (key ∈ m.*1)) keys.

Lemma commandMap_plain m keys : shaped m keys = true → commandMap (plain (CMap m)) keys = Ok (fields_of m).
Proof.
  unfold shaped. intros Hs. inv_bool. cbn [plain commandMap].
  match goal with H : (length m =? _)%nat = true |- _ => apply Nat.eqb_eq in H as Hlen end.
  rewrite (proj2 (Nat.eqb_eq _ _)).
  2:{ rewrite <-Hlen. by rewrite <-(length_fmap fst), fields_keys, length_fmap. }
  cbn [ensure mbind result_bind]. rewrite (proj2 (forallb_forall _ _)); [done|]. intros key Hkey.
  apply bool_decide_eq_true. rewrite fields_keys.
  match goal with H : forallb _ keys = true |- _ => rewrite forallb_forall in H; specialize (H _ Hkey) end.
  by inv_bool.
Qed.

Lemma read_string m k s : NoDup m.*1 → field_at m k = CText s → commandString (fields_of m) k = Ok s.
Proof. intros Hnd E. unfold commandString. by rewrite field_sorted, E. Qed.

Lemma read_uint m k n : NoDup m.*1 → field_at m k = CUint n → commandUint (fields_of m) k = Ok n.
Proof. intros Hnd E. unfold commandUint. by rewrite field_sorted, E. Qed.

Lemma read_nullable m k s :
  NoDup m.*1 → k ∈ m.*1 → field_at m k = nullableIdentity s → commandNullableString (fields_of m) k = Ok s.
Proof.
  intros Hnd Hk E. unfold commandNullableString. rewrite field_sorted, E, bool_decide_true by (by rewrite ?fields_keys).
  unfold nullableIdentity, no. by case_bool_decide; subst.
Qed.

Lemma read_pointer m k (o : option string) :
  NoDup m.*1 → k ∈ m.*1 → field_at m k = nullableStringPointer o → commandNullableString (fields_of m) k = Ok (default "" o).
Proof.
  intros Hnd Hk E. unfold commandNullableString. rewrite field_sorted, E, bool_decide_true by (by rewrite ?fields_keys).
  by destruct o.
Qed.

Lemma text_elements l : mapM_r text_element (map plain (CText <$> l)) = Ok l.
Proof. induction l as [|s l IH]; [done|]. cbn in *. by rewrite IH. Qed.

Lemma read_strings m k l : NoDup m.*1 → field_at m k = canonicalStrings l → commandStringArray (fields_of m) k = Ok l.
Proof. intros Hnd E. unfold commandStringArray. rewrite field_sorted, E by done. apply text_elements. Qed.

(** Reading one record after another. *)
Ltac look := repeat first [apply field_hit | rewrite field_miss by discriminate].
Ltac nodup := apply (bool_decide_unpack _); vm_compute; exact I.
Ltac listed_key := apply (bool_decide_unpack _); vm_compute; exact I.
Ltac read_map := rewrite commandMap_plain by (vm_compute; reflexivity); cbn [mbind result_bind].
Ltac read_field :=
  first [ erewrite read_string by (nodup || look) | erewrite read_uint by (nodup || look)
        | erewrite read_strings by (nodup || look) | erewrite read_nullable by (nodup || listed_key || look)
        | erewrite read_pointer by (nodup || listed_key || look) ]; cbn [mbind result_bind].
Ltac descend := rewrite !field_sorted by nodup; repeat first [rewrite field_hit | rewrite field_miss by discriminate].
Ltac unfold_decoders :=
  unfold decode_texts1, decode_texts2, decode_texts3, decode_claimed2, decode_rebind_v2, decode_insert, decode_reorder,
    decode_role_lifecycle, decode_repair, decode_scheduler_hook, decode_sweep, decode_claim_close.

Lemma decode_target_claim_plain c :
  decode_target_claim (plain (CMap [("matter_id", CText (tc_MatterID c)); ("claim_id", CText (tc_ClaimID c)); ("claim_epoch", CUint (tc_ClaimEpoch c))])) = Ok c.
Proof. unfold decode_target_claim. read_map. repeat read_field. by destruct c. Qed.

Lemma decode_target_claims claims :
  (length claims ≤ 2)%nat → commandDecodeTargetClaims (plain (canonicalTargetClaims claims)) = Ok claims.
Proof.
  intros Hlen. unfold canonicalTargetClaims. cbn [plain commandDecodeTargetClaims].
  rewrite !length_map, (proj2 (Nat.leb_le _ _)) by done. cbn [ensure mbind result_bind]. clear Hlen.
  induction claims as [|c claims IH]; [done|]. rewrite fmap_cons. cbn [map mapM_r].
  rewrite decode_target_claim_plain. cbn [mbind result_bind]. by rewrite IH.
Qed.

Lemma decode_prefix_plain count eventID digest :
  decode_prefix (plain (CMap [("event_count", CUint count); ("event_id", nullableStringPointer eventID); ("digest", CText digest)]))
  = Ok (count, eventID, digest).
Proof. unfold decode_prefix. read_map. repeat read_field. descend. by destruct eventID. Qed.

(** ** Inputs *)
Definition input_good (i : Input) : Prop :=
  match i with
  | SchedulerHookInput h => match sh_TargetClaims h with Some claims => (length claims ≤ 2)%nat | None => False end
  | DependencyAddV2Input _ _ claims | DependencyRemoveV2Input _ _ claims | ReferenceBindV2Input _ _ claims
  | ReferenceUnbindV2Input _ _ claims | ReferenceRebindV2Input _ _ _ claims => (length claims ≤ 2)%nat
  | GateExemptionRepairInput g => (length (ge_EvidenceRefs g) ≤ 32)%nat
  | _ => True
  end.

Definition reads_input (t : InputType) (f : CVal → result Input) : Prop :=
  ∀ i, input_type i = t → input_good i → f (plain (canonicalInput i)) = Ok i.

Lemma reads_scheduler_hook : reads_input TSchedulerHookInput decode_scheduler_hook.
Proof.
  intros [] Ht Hg; try discriminate Ht. clear Ht. cbn [canonicalInput input_good] in *.
  destruct (sh_TargetClaims i) as [claims|] eqn:E; [|done]. unfold decode_scheduler_hook.
  read_map. repeat read_field. descend. change (slice (Some claims)) with claims. rewrite decode_target_claims by done. cbn [mbind result_bind].
  rewrite decode_prefix_plain. cbn. rewrite <-E. by destruct i as [? ? ? ? ? ? ? ? ? ? ? ? ? ? ? ? ? []].
Qed.

Lemma reads_role_lifecycle : reads_input TRoleLifecycleInput decode_role_lifecycle.
Proof.
  intros [] Ht _; try discriminate Ht. cbn [canonicalInput]. unfold decode_role_lifecycle. read_map. repeat read_field. by destruct i.
Qed.

Lemma reads_sweep : reads_input TBatchSweepAnonymousInput decode_sweep.
Proof.
  intros [] Ht _; try discriminate Ht. cbn [canonicalInput]. unfold decode_sweep. read_map. repeat read_field. descend.
  unfold decode_claim_close. read_map. repeat read_field. descend. rewrite decode_prefix_plain. cbn.
  by destruct ClaimClose as [? ? ? ? ? []].
Qed.

Lemma reads_repair : reads_input TGateExemptionRepairInput decode_repair.
Proof.
  intros [] Ht _; try discriminate Ht. cbn [canonicalInput]. unfold decode_repair. read_map. repeat read_field. by destruct i.
Qed.

Ltac reads_plainly :=
  intros [] Ht Hg; try discriminate Ht; clear Ht; cbn [canonicalInput input_good] in *; unfold_decoders;
  read_map; repeat read_field; try (descend; rewrite decode_target_claims by done); reflexivity.

Lemma decode_cases_read : Forall (λ c, Forall (λ d, reads_input (inputType d) c.2) c.1) decode_cases.
Proof.
  repeat (apply Forall_cons; split);
    [| ..|apply Forall_nil_2]; repeat (apply Forall_cons; split); try apply Forall_nil_2; cbn [inputType fst snd];
    first [exact reads_scheduler_hook|exact reads_role_lifecycle|exact reads_sweep|exact reads_repair|reads_plainly].
Qed.

(** Comparisons decided among the hypotheses. *)
Ltac inv_cmp :=
  repeat match goal with
  | H : (_ =? _)%nat = true |- _ => apply Nat.eqb_eq in H
  | H : (_ <=? _)%nat = true |- _ => apply Nat.leb_le in H
  | H : (_ =? _)%Z = true |- _ => apply Z.eqb_eq in H
  | H : (_ =? _)%Z = false |- _ => apply Z.eqb_neq in H
  | H : (_ <=? _)%Z = true |- _ => apply Z.leb_le in H
  end.

(** ** Operations *)
Definition identity_definitions : list OpDefinition := identity_cases ++ step8ContractDefinitions ++ Catalogue.

Lemma find_op_some l id d : find_op l id = Some d → d ∈ l ∧ op_id d = id.
Proof. intros [Hin Hid]%find_some. split; [by apply list_elem_of_In|]. unfold is_op in Hid. by inv_bool. Qed.

Lemma identity_definition_some id d : commandIdentityDefinition id = Some d → d ∈ identity_definitions ∧ op_id d = id.
Proof.
  unfold commandIdentityDefinition, step8ContractDefinition, identity_definitions. rewrite !elem_of_app.
  intros H. repeat case_match; simplify_eq;
    repeat match goal with H : find_op _ _ = Some _ |- _ => apply find_op_some in H as [??] end; auto.
Qed.

(** Every operation with an identity has one decoder, of the operation's own input. *)
Definition decoder_agrees (d : OpDefinition) : bool :=
  match List.find (λ c, listed c.1 (op_id d)) decode_cases with
  | Some c => forallb (λ d', negb (is_op d' (op_id d)) || bool_decide (inputType d' = inputType d)) c.1
  | None => false
  end.

Lemma decoders_agree : forallb decoder_agrees identity_definitions = true.
Proof. vm_compute. reflexivity. Qed.

Lemma decode_input_reads id d i :
  commandIdentityDefinition id = Some d → input_type i = inputType d → input_good i →
  commandDecodeInput id (plain (canonicalInput i)) = Ok i.
Proof.
  intros [Hd <-]%identity_definition_some Ht Hg. pose proof decoders_agree as Ha.
  rewrite forallb_forall in Ha. specialize (Ha d (proj1 (list_elem_of_In _ _) Hd)). unfold decoder_agrees in Ha.
  unfold commandDecodeInput. destruct (List.find _ decode_cases) as [[ds f]|] eqn:E; [|done]. cbn [fst snd] in *.
  apply find_some in E as [Hin Hl]. unfold listed in Hl. apply existsb_exists in Hl as (d' & Hd' & Hop).
  pose proof decode_cases_read as Hr. rewrite Forall_forall in Hr. specialize (Hr _ (proj2 (list_elem_of_In _ _) Hin)).
  cbn [fst snd] in Hr. rewrite Forall_forall in Hr. apply (Hr d'); [by apply list_elem_of_In| |done].
  rewrite forallb_forall in Ha. specialize (Ha d' Hd'). rewrite Hop in Ha. cbn in Ha. inv_bool. congruence.
Qed.

Definition op_sized (d : OpDefinition) : bool :=
  negb (id_Version (op_id d) =? 0) && (0 <=? id_Version (op_id d)) && (id_Version (op_id d) <=? 65535)
  && (String.length (id_Name (op_id d)) <=? 100)%nat.

Lemma ops_sized : forallb op_sized identity_definitions = true.
Proof. vm_compute. reflexivity. Qed.

Lemma identity_sized id d : commandIdentityDefinition id = Some d →
  0 < id_Version id <= 65535 ∧ (String.length (id_Name id) ≤ 100)%nat.
Proof.
  intros [Hd <-]%identity_definition_some. pose proof ops_sized as H. rewrite forallb_forall in H.
  specialize (H d (proj1 (list_elem_of_In _ _) Hd)). unfold op_sized in H. inv_bool. inv_cmp. lia.
Qed.

(** ** Blobs and claims *)
Definition blob_value (b : BlobInput) : CVal :=
  CMap [("name", CText (bi_Name b)); ("digest", CText (bi_Digest b)); ("byte_length", CUint (bi_Size b))].

Lemma canonical_blobs_value l previous values : canonical_blobs previous l = Ok values → values = blob_value <$> l.
Proof.
  revert previous values. induction l as [|b l IH]; intros previous values H; cbn [canonical_blobs] in H; [by simplify_eq|].
  inv_ok. match goal with H : canonical_blobs _ l = Ok _ |- _ => apply IH in H as -> end. by simplify_eq.
Qed.

Lemma canonicalBlobs_value blobs v :
  canonicalBlobs blobs = Ok v → v = CArray (blob_value <$> order_by name_leb blobs).
Proof.
  unfold canonicalBlobs. intros H. inv_ok.
  match goal with H : canonical_blobs _ _ = Ok _ |- _ => apply canonical_blobs_value in H as -> end. by simplify_eq.
Qed.

Lemma decode_blob_plain b : bi_Size b < 2 ^ 63 → decode_blob (plain (blob_value b)) = Ok b.
Proof.
  intros Hs. unfold decode_blob, blob_value. read_map. repeat read_field. rewrite (proj2 (Z.leb_le _ _)) by lia. by destruct b.
Qed.

Lemma decode_blobs_plain l :
  Forall (λ b, bi_Size b < 2 ^ 63) l → commandDecodeBlobs (plain (CArray (blob_value <$> l))) = Ok l.
Proof.
  intros Hl. cbn [plain commandDecodeBlobs]. induction Hl as [|b l Hb Hl IH]; [done|]. rewrite fmap_cons. cbn [map mapM_r].
  rewrite decode_blob_plain by done. cbn [mbind result_bind]. by rewrite IH.
Qed.

Lemma decode_claim_plain claim v : canonicalClaim claim = Ok v → commandDecodeClaim (plain v) = Ok claim.
Proof.
  destruct claim as [[id epoch]|]; cbn [canonicalClaim cl_ID cl_Epoch]; intros H; [|by simplify_eq].
  inv_ok. case_match; [|done]. inv_ok. inv_bool. simplify_eq.
  change (commandDecodeClaim (plain (CMap ?m))) with (fields ← commandMap (plain (CMap m)) ["id"; "epoch"];
    id ← commandString fields "id"; epoch ← commandUint fields "epoch"; Ok (Some (mkClaimContext id (FormatUint epoch)))).
  read_map. repeat read_field. unfold same in *. inv_bool. congruence.
Qed.

(** ** Commands *)
(** The command as its bytes spell it: its blobs in the order of their names. *)
Definition canonical_form (c : Command) : Command :=
  let r := cm_Request c in
  mkCommand (cm_ID c) (cm_AuthorityDomainID c) (cm_ExpectedAuthorityEpoch c) (cm_EnvironmentID c) (cm_EnvironmentSequence c)
    (cm_ActedAt c) (cm_CausationCommandID c) (cm_CorrelationCommandID c)
    (mkRequest (rq_Operation r) (rq_Actor r) (rq_Context r) (rq_Claim r) (rq_Input r) (order_by name_leb (rq_Blobs r))).

(** The widths of a Go value: uint64 and int64 fields, texts and slices in memory. *)
Definition blob_ok (b : BlobInput) : Prop :=
  text_ok (bi_Name b) ∧ text_ok (bi_Digest b) ∧ - 2 ^ 63 <= bi_Size b < 2 ^ 63.

Record command_ok (c : Command) : Prop := {
  ok_epoch : 0 <= cm_ExpectedAuthorityEpoch c < 2 ^ 64;
  ok_sequence : 0 <= cm_EnvironmentSequence c < 2 ^ 64;
  ok_acted : text_ok (cm_ActedAt c);
  ok_actor : text_ok (rq_Actor (cm_Request c));
  ok_input : ∀ i, rq_Input (cm_Request c) = Some i → cval_ok (canonicalInput i);
  ok_blobs : length_ok (rq_Blobs (cm_Request c)) ∧ Forall blob_ok (rq_Blobs (cm_Request c)) }.

Lemma validateTargetClaims_length claims u : validateTargetClaims claims = Ok u → (length claims ≤ 2)%nat.
Proof. unfold validateTargetClaims. intros H. inv_ok. inv_cmp. lia. Qed.

#[local] Opaque validateTargetClaims.

Lemma validate_input_good nfc op i r u : validate_input nfc op i r = Ok u → input_good i.
Proof.
  destruct i; intros H; try exact I; cbn [validate_input] in H;
    unfold validateSchedulerHookInput, validateDependencyV2Input, validateReferenceV2Input in H; inv_ok; cbn [input_good];
    repeat match goal with H : validateTargetClaims _ = Ok _ |- _ => apply validateTargetClaims_length in H end; try done.
  - match goal with H : sh_TargetClaims _ = Some _ |- _ => by rewrite H end.
  - unfold validateGateExemptionRepairInput in H. inv_ok. inv_bool. inv_cmp. lia.
Qed.

Lemma ValidateRequest_input nfc d r u :
  ValidateRequest nfc d r = Ok u → ∃ i, rq_Input r = Some i ∧ input_type i = inputType d ∧ input_good i ∧ rq_Operation r = op_id d.
Proof.
  unfold ValidateRequest. intros H. inv_ok. inv_bool. eexists. repeat split; [eassumption|assumption| |assumption].
  by eapply validate_input_good.
Qed.

(** What a command with an identity is made of. *)
Lemma canonicalValue_inv nfc c v : canonicalValue nfc c = Ok v →
  ∃ d i claim, validate_envelope c = Ok () ∧ commandIdentityDefinition (rq_Operation (cm_Request c)) = Some d
    ∧ ValidateRequest nfc d (cm_Request c) = Ok () ∧ rq_Input (cm_Request c) = Some i ∧ input_type i = inputType d ∧ input_good i
    ∧ canonicalClaim (rq_Claim (cm_Request c)) = Ok claim
    ∧ is_ok (canonicalBlobs (rq_Blobs (cm_Request c))) = true
    ∧ v = envelope_value c claim (canonicalInput i) (CArray (blob_value <$> order_by name_leb (rq_Blobs (cm_Request c)))).
Proof.
  unfold canonicalValue. intros H. inv_ok.
  repeat match goal with u : () |- _ => destruct u end.
  match goal with H : ValidateRequest _ _ _ = Ok _ |- _ => destruct (ValidateRequest_input _ _ _ _ H) as (i & Hi & Ht & Hg & _) end.
  rewrite Hi in *. cbn in *. simplify_eq.
  match goal with H : canonicalBlobs _ = Ok _ |- _ => pose proof (canonicalBlobs_value _ _ H) as ->; rename H into Hb end.
  eexists _, i, _. repeat split; try eassumption. by rewrite Hb.
Qed.

Lemma decode_value_plain nfc c v :
  command_ok c → canonicalValue nfc c = Ok v → decode_value (plain v) = Ok (canonical_form c).
Proof.
  intros Hok (d & i & claim & _ & Hd & _ & Hi & Ht & Hg & Hc & _ & ->)%canonicalValue_inv.
  destruct (identity_sized _ _ Hd) as [Hv _]. unfold decode_value, commandActor, envelope_value.
  read_map. repeat read_field. unfold same. rewrite bool_decide_true by done. cbn [ensure mbind result_bind].
  repeat read_field. descend. read_map. repeat read_field. read_map. repeat read_field. read_map. repeat read_field.
  rewrite (proj2 (Z.eqb_neq _ _)), (proj2 (Z.leb_le _ _)) by lia. cbn [negb andb ensure mbind result_bind].
  read_map. repeat read_field. rewrite (decode_claim_plain _ _ Hc). cbn [mbind result_bind].
  assert (mkID (id_Name (rq_Operation (cm_Request c))) (id_Version (rq_Operation (cm_Request c))) = rq_Operation (cm_Request c)) as ->
    by (by destruct (rq_Operation (cm_Request c))).
  rewrite (decode_input_reads _ _ _ Hd Ht Hg). cbn [mbind result_bind]. rewrite decode_blobs_plain.
  2:{ apply Forall_forall. intros b Hb%elem_of_order_by. destruct (ok_blobs c Hok) as [_ Hf].
      rewrite Forall_forall in Hf. destruct (Hf b Hb) as (_ & _ & ?). lia. }
  cbn [mbind result_bind]. unfold canonical_form. rewrite Hi. by destruct (rq_Context (cm_Request c)).
Qed.

(** ** Widths *)
Lemma short_text s n : String.length s = n → (n ≤ 1000)%nat → text_ok s.
Proof. unfold text_ok. lia. Qed.

Lemma ulid_text s u : validateULID s = Ok u → text_ok s.
Proof.
  unfold validateULID, ulidPattern, IsIdentityShaped. intros H. inv_ok. inv_bool. eapply short_text; [eassumption|vm_compute; lia].
Qed.

Lemma nullable_ok s u : optional_ulid s = Ok u → cval_ok (nullableIdentity s).
Proof. unfold optional_ulid, nullableIdentity. destruct (no s); [done|]. apply ulid_text. Qed.

(** A map whose keys are written out is sized when its values are. *)
Definition keys_sized (m : list (string * CVal)) : bool :=
  bool_decide (NoDup m.*1) && forallb (λ k, String.length k <=? 1000)%nat m.*1 && (length m <=? 1000)%nat.

Lemma cval_map_ok m : keys_sized m = true → Forall (λ kx, cval_ok kx.2) m → cval_ok (CMap m).
Proof.
  unfold keys_sized. intros Hs Hv. inv_bool. inv_cmp. cbn [cval_ok]. repeat split.
  - unfold length_ok. lia.
  - done.
  - match goal with H : forallb _ _ = true |- _ => rewrite forallb_forall in H; rename H into Hf end.
    apply Forall_forall. intros k Hk%list_elem_of_In. specialize (Hf k Hk). inv_cmp. by eapply short_text.
  - by apply foldr_Forall.
Qed.

Ltac values_ok := apply cval_map_ok; [vm_compute; reflexivity|]; repeat (apply Forall_cons; split); [..|apply Forall_nil_2]; cbn [snd].

Lemma number_pos bs : forallb is_digit_byte bs = true → 0 <= number bs.
Proof.
  unfold number. assert (∀ acc, 0 <= acc → forallb is_digit_byte bs = true →
    0 <= fold_left (λ acc b, acc * 10 + (b - 48)) bs acc) as H; [|by apply H].
  induction bs as [|b bs IH]; intros acc Ha Hd; [done|]. cbn in Hd. cbn [fold_left]. inv_bool. apply IH; [|done].
  unfold is_digit_byte, between in *. inv_bool. inv_cmp. lia.
Qed.

Lemma ParseUint_range s n : ParseUint s = Some n → 0 <= n < 2 ^ 64.
Proof.
  unfold ParseUint. intros H. case_match eqn:E; [done|]. case_match eqn:L; [|done]. injection H as <-. inv_bool.
  match goal with H : negb _ = false |- _ => apply negb_false_iff in H end. split; [by apply number_pos|by apply Z.ltb_lt].
Qed.

Lemma claim_ok claim v : canonicalClaim claim = Ok v → cval_ok v.
Proof.
  destruct claim as [[id epoch]|]; cbn [canonicalClaim cl_ID cl_Epoch]; intros H; [|by simplify_eq].
  inv_ok. case_match eqn:E; [|done]. inv_ok. apply ParseUint_range in E. values_ok; [by eapply ulid_text|done].
Qed.

Lemma blob_value_ok b : blob_ok b → 0 <= bi_Size b → cval_ok (blob_value b).
Proof. intros (? & ? & ?) ?. values_ok; [done..|]. cbn. lia. Qed.

Lemma canonical_blobs_sizes previous l values : canonical_blobs previous l = Ok values → Forall (λ b, 0 <= bi_Size b) l.
Proof.
  revert previous values. induction l as [|b l IH]; intros previous values H; cbn [canonical_blobs] in H; [constructor|].
  inv_ok. inv_cmp. constructor; [done|by eapply IH].
Qed.

Lemma blobs_ok blobs :
  length_ok blobs → Forall blob_ok blobs → is_ok (canonicalBlobs blobs) = true →
  cval_ok (CArray (blob_value <$> order_by name_leb blobs)).
Proof.
  intros Hl Hb Hok. destruct (canonicalBlobs blobs) as [v|] eqn:E; [|done]. unfold canonicalBlobs in E. inv_ok.
  match goal with H : canonical_blobs _ _ = Ok _ |- _ => apply canonical_blobs_sizes in H as Hs end.
  cbn [cval_ok]. split; [unfold length_ok in *; by rewrite length_fmap, order_by_perm|].
  apply foldr_Forall, Forall_fmap, Forall_forall. intros b Hin. rewrite Forall_forall in Hs, Hb. cbn.
  apply blob_value_ok; [apply Hb; by apply elem_of_order_by in Hin|by apply Hs].
Qed.

Lemma canonicalValue_ok nfc c v : command_ok c → canonicalValue nfc c = Ok v → cval_ok v.
Proof.
  intros Hok (d & i & claim & He & Hd & _ & Hi & _ & _ & Hc & Hb & ->)%canonicalValue_inv.
  destruct (identity_sized _ _ Hd) as [Hv Hn]. destruct (ok_blobs c Hok) as [Hl Hf].
  unfold validate_envelope in He. inv_ok.
  repeat match goal with H : validateULID _ = Ok _ |- _ => apply ulid_text in H end.
  repeat match goal with H : optional_ulid _ = Ok _ |- _ => apply nullable_ok in H end.
  pose proof (ok_epoch c Hok). pose proof (ok_sequence c Hok).
  values_ok; try assumption.
  - vm_compute. reflexivity.
  - values_ok; done.
  - values_ok; done.
  - apply (ok_acted c Hok).
  - apply (ok_actor c Hok).
  - unfold nullableIdentity. destruct (no (cm_CausationCommandID c)); [done|]. inv_ok. by eapply ulid_text.
  - values_ok; [by eapply (short_text _ (String.length _)); [done|lia]|cbn; lia].
  - values_ok; done.
  - by eapply claim_ok.
  - by apply (ok_input c Hok).
  - by apply blobs_ok.
Qed.

(** ** Blobs in any order *)
Definition blob_declared (declared : list string) (b : BlobInput) : Prop :=
  bi_Name b ∈ declared ∧ bi_Digest b ≠ "" ∧ 0 <= bi_Size b.

Lemma check_blobs_spec declared blobs seen seen' :
  check_blobs declared seen blobs = Ok seen' ↔
  Forall (blob_declared declared) blobs ∧ NoDup (bi_Name <$> blobs) ∧ Forall (λ b, bi_Name b ∉ seen) blobs
  ∧ seen' = list_to_set (bi_Name <$> blobs) ∪ seen.
Proof.
  revert seen. induction blobs as [|b blobs IH]; intros seen; cbn [check_blobs fmap list_fmap list_to_set].
  - split; [intros [= <-]; repeat split; [constructor..|set_solver]|intros (_ & _ & _ & ->); f_equal; set_solver].
  - rewrite !Forall_cons, NoDup_cons. split.
    + intros H. inv_ok. inv_bool. inv_cmp. match goal with H : check_blobs _ _ _ = Ok _ |- _ => apply IH in H as (Hd & Hn & Hs & ->) end.
      rewrite Forall_forall in Hs. unfold blob_declared, no in *. inv_bool. repeat split; try done.
      * intros (b' & E & Hb')%list_elem_of_fmap. apply (Hs b' Hb'). rewrite <-E. set_solver.
      * apply Forall_forall. intros b' Hb'. specialize (Hs b' Hb'). set_solver.
      * set_solver.
    + intros (((Hb1 & Hb2 & Hb3) & Hd) & (Hnb & Hn) & (Hsb & Hs) & ->). rewrite Forall_forall in Hs.
      unfold no. rewrite (bool_decide_true _ Hb1), (bool_decide_false _ Hsb), (bool_decide_false _ Hb2), (proj2 (Z.leb_le _ _) Hb3).
      cbn [negb ensure mbind result_bind]. apply IH. repeat split; try done; [|set_solver].
      apply Forall_forall. intros b' Hb' [E%elem_of_singleton|H]%elem_of_union; [|by apply (Hs b')].
      apply Hnb. rewrite <-E. by apply (list_elem_of_fmap_2 bi_Name).
Qed.

Lemma name_leb_trans a b c : name_leb a b = true → name_leb b c = true → name_leb a c = true.
Proof.
  unfold name_leb. intros H1 H2. apply Is_true_eq_true. change (String.le (bi_Name a) (bi_Name c)).
  trans (bi_Name b); by apply Is_true_eq_left.
Qed.

Lemma names_sorted_id l : Sorted (λ a b, name_leb a b = true) l → order_by name_leb l = l.
Proof. intros H. apply order_by_sorted_id, Sorted_StronglySorted; [intros a b c; apply name_leb_trans|done]. Qed.

Lemma ascending_names blobs : ascending (bi_Name <$> blobs) = true → order_by name_leb blobs = blobs.
Proof.
  intros H. apply names_sorted_id. induction blobs as [|a blobs IH]; [constructor|]. destruct blobs as [|b blobs].
  { constructor; constructor. }
  cbn [fmap list_fmap ascending] in H. inv_bool. constructor; [by apply IH|]. constructor. unfold name_leb.
  apply Is_true_eq_true. by apply slt_le.
Qed.

Definition sort_blobs (r : Request) : Request :=
  mkRequest (rq_Operation r) (rq_Actor r) (rq_Context r) (rq_Claim r) (rq_Input r) (order_by name_leb (rq_Blobs r)).

Lemma scheduler_blobs i r u : validateSchedulerHookInput i r = Ok u → sort_blobs r = r.
Proof.
  unfold validateSchedulerHookInput. intros H. inv_ok. unfold sort_blobs. rewrite ascending_names; [by destruct r|]. by unfold blob_names in *.
Qed.

Lemma CanonicalBytes_inv nfc c b : CanonicalBytes nfc c = Ok b → ∃ v, canonicalValue nfc c = Ok v ∧ appendCanonical nfc v = Ok b.
Proof. unfold CanonicalBytes, marshalCanonical. intros H. inv_ok. eauto. Qed.

(** ** A valid command lists its blobs in order *)
Definition few_blobs (d : OpDefinition) : bool :=
  (length (slice (md_BlobInputs (metadata d))) <=? 1)%nat || bool_decide (inputType d = TSchedulerHookInput).

Lemma definitions_few_blobs : forallb few_blobs identity_definitions = true.
Proof. vm_compute. reflexivity. Qed.

Lemma validateBlobs_length d blobs u : validateBlobs d blobs = Ok u → (length blobs ≤ length (slice (md_BlobInputs (metadata d))))%nat.
Proof.
  unfold validateBlobs. intros H. inv_ok. match goal with H : check_blobs _ _ _ = Ok _ |- _ => apply check_blobs_spec in H as (Hd & Hn & _) end.
  rewrite <-(length_fmap bi_Name blobs), <-(length_fmap bs_Name (slice _)). apply NoDup_incl_length; [by apply NoDup_ListNoDup|].
  intros k (b & -> & Hb)%list_elem_of_In%list_elem_of_fmap. apply list_elem_of_In.
  rewrite Forall_forall in Hd. by destruct (Hd b Hb).
Qed.

Lemma short_sorted blobs : (length blobs ≤ 1)%nat → order_by name_leb blobs = blobs.
Proof. destruct blobs as [|b [|b' blobs]]; [done|done|cbn; lia]. Qed.

Lemma sorted_request nfc d r : d ∈ identity_definitions → ValidateRequest nfc d r = Ok () → sort_blobs r = r.
Proof.
  intros Hd Hv. pose proof definitions_few_blobs as Hf. rewrite forallb_forall in Hf.
  specialize (Hf d (proj1 (list_elem_of_In _ _) Hd)). unfold few_blobs in Hf. unfold ValidateRequest in Hv. inv_ok. inv_bool.
  apply orb_true_iff in Hf as [Hl|Ht].
  - apply Nat.leb_le in Hl. match goal with H : validateBlobs _ _ = Ok _ |- _ => apply validateBlobs_length in H end.
    unfold sort_blobs. rewrite short_sorted by lia. by destruct r.
  - apply bool_decide_eq_true in Ht. match goal with x : Input |- _ => destruct x; try (cbn in *; congruence) end.
    match goal with H : validate_input _ _ _ _ = Ok _ |- _ => cbn [validate_input] in H; by apply scheduler_blobs in H end.
Qed.

Lemma canonical_form_id nfc c v : canonicalValue nfc c = Ok v → canonical_form c = c.
Proof.
  intros (d & _ & _ & _ & [Hd _]%identity_definition_some & Hr & _)%canonicalValue_inv.
  pose proof (sorted_request _ _ _ Hd Hr) as Hs. destruct c. unfold canonical_form. cbn in *. f_equal. exact Hs.
Qed.

(** The bytes of a command decide it. *)
Lemma bytes_decide nfc c b : command_ok c → CanonicalBytes nfc c = Ok b → decode_value <$> dec_all b = Some (Ok c).
Proof.
  intros Hok (v & Hv & Hb)%CanonicalBytes_inv. rewrite (dec_enc nfc v b); [|by eapply canonicalValue_ok|done].
  cbn. rewrite (decode_value_plain nfc c v) by done. by rewrite (canonical_form_id nfc c v).
Qed.

(** ** The limits of the CBOR decoder *)
(** MaxNestedLevels, MaxArrayElements and MaxMapPairs of canonicalCommandDecoder. *)
Fixpoint within_limits (levels : nat) (v : CVal) {struct v} : bool :=
  match v with
  | CArray l =>
      match levels with
      | O => false
      | S levels => (length l <=? 1024)%nat && forallb (within_limits levels) l
      end
  | CMap m =>
      match levels with
      | O => false
      | S levels => (length m <=? 256)%nat && forallb (λ kx, within_limits levels kx.2) m
      end
  | _ => true
  end.

(** The one list of a command that nothing else bounds. *)
Definition order_limit (c : Command) : Prop :=
  match rq_Input (cm_Request c) with Some (StepReorderInput _ order) => (length order ≤ 1024)%nat | _ => True end.

Lemma within_nullable n s : within_limits n (nullableIdentity s) = true.
Proof. unfold nullableIdentity. by destruct (no s). Qed.

Lemma within_pointer n o : within_limits n (nullableStringPointer o) = true.
Proof. by destruct o. Qed.

Lemma within_strings n l : (length l ≤ 1024)%nat → within_limits (S n) (canonicalStrings l) = true.
Proof.
  intros Hl. cbn [canonicalStrings within_limits]. rewrite length_fmap, (proj2 (Nat.leb_le _ _)) by done. apply forallb_forall.
  intros x (s & -> & _)%list_elem_of_In%list_elem_of_fmap. done.
Qed.

Lemma within_claims n l : (length l ≤ 2)%nat → within_limits (S (S n)) (canonicalTargetClaims l) = true.
Proof.
  intros Hl. cbn [canonicalTargetClaims within_limits]. rewrite length_fmap, (proj2 (Nat.leb_le _ _)) by lia. apply forallb_forall.
  intros x (s & -> & _)%list_elem_of_In%list_elem_of_fmap. done.
Qed.

Ltac within_map := cbn [within_limits length forallb snd Nat.leb andb]; rewrite ?within_nullable, ?within_pointer; cbn [andb].

Lemma input_within n i : input_good i → match i with StepReorderInput _ order => (length order ≤ 1024)%nat | _ => True end →
  within_limits (S (S (S (S n)))) (canonicalInput i) = true.
Proof.
  intros Hg Ho. destruct i; cbn [canonicalInput input_good] in *; within_map; try done;
    try (destruct (sh_TargetClaims i); [|done]; unfold slice; cbn [default from_option id]);
    rewrite ?within_strings, ?within_claims by lia; done.
Qed.

Lemma claim_within n claim v : canonicalClaim claim = Ok v → within_limits (S n) v = true.
Proof.
  destruct claim as [[id epoch]|]; cbn [canonicalClaim]; intros H; [|by simplify_eq]. inv_ok. case_match; [|done]. by inv_ok.
Qed.

Definition few_specs (d : OpDefinition) : bool := (length (slice (md_BlobInputs (metadata d))) <=? 1024)%nat.

Lemma definitions_few_specs : forallb few_specs identity_definitions = true.
Proof. vm_compute. reflexivity. Qed.

Lemma canonicalValue_within nfc c v : order_limit c → canonicalValue nfc c = Ok v → within_limits 16 v = true.
Proof.
  intros Ho (d & i & claim & _ & [Hd _]%identity_definition_some & Hr & Hi & _ & Hg & Hc & _ & ->)%canonicalValue_inv.
  unfold order_limit in Ho. rewrite Hi in Ho. pose proof definitions_few_specs as Hf. rewrite forallb_forall in Hf.
  specialize (Hf d (proj1 (list_elem_of_In _ _) Hd)). unfold few_specs in Hf. apply Nat.leb_le in Hf.
  unfold ValidateRequest in Hr. inv_ok. match goal with H : validateBlobs _ _ = Ok _ |- _ => apply validateBlobs_length in H as Hl end.
  unfold envelope_value. within_map. rewrite (claim_within _ _ _ Hc), input_within by done. cbn [andb].
  rewrite length_fmap, (Permutation_length (order_by_perm name_leb _)), (proj2 (Nat.leb_le _ _)) by lia. cbn [andb]. rewrite andb_true_r. apply forallb_forall.
  intros y (s & -> & _)%list_elem_of_In%list_elem_of_fmap. done.
Qed.
