(* ===== verification/OpDispatch.v ===== *)
(** Results and dispatch (src/internal/operation: ValidateResult of validate.go,
    validateSchedulerHookOutput of step10.go, dispatcher.go).  A handler may change the
    world it is composed over, [W]; a registry is the map of its registrations. *)
From S2P Require Import Prelude GoStd Ulid View OpText Operation OpCatalog OpValidate.
Local Open Scope Z_scope.

(** ** Results *)
Definition validLifecycleState (state : string) : bool := one_of state ["in-progress"; "done"; "paused"; "canceled"].

Definition validBatchSweepRefusal (code : string) : bool :=
  one_of code [ProblemBatchSweepTargetMissing; ProblemBatchSweepClaimClose; ProblemBatchSweepNotEligible; ProblemBatchSweepUnsupported].

Definition isNamedBatchMembershipOperation (id : ID) : bool := is_op BatchJoinV1 id || is_op BatchLeaveV1 id || is_op BatchDismissV1 id.

Definition validNamedBatchRefusal (code : string) : bool :=
  one_of code [ProblemBatchTargetMissing; ProblemBatchCrossDomain; ProblemBatchDismissed; ProblemBatchMembershipMissing].

(** The text before the first point of a dotted token; empty when it is not one. *)
Definition problemPrefix (code : string) : string :=
  let '(before, after, found) := GoUrl.cut 46 (bytes_of code) in
  if negb found || bool_decide (before = []) || bool_decide (after = []) || negb (tokenPattern code) then ""
  else string_of before.

Definition nil_slice {A} (o : option (list A)) : bool := match o with None => true | Some _ => false end.

Definition validateSchedulerHookOutput (o : SchedulerHookResult) : result () :=
  ensure (digestPattern (ho_InputDigest o) && digestPattern (ho_ResultDigest o)) (ERefuse "scheduler hook output digests are invalid") ;;
  ensure (forallb digestPattern (slice (ho_EvidenceRefs o))) (ERefuse "scheduler hook evidence reference is invalid") ;;
  if same (ho_Kind o) "work" then
    ensure ((ho_Version o =? 1) && one_of (ho_Outcome o) ["completed"; "failed"; "verified"; "not-verified"]
      && negb (no (ho_Revision o)) && nil_slice (ho_Steps o) && no (ho_Handling o)
      && (negb (one_of (ho_Outcome o) ["completed"; "verified"]) || no (ho_ProblemCode o))
      && (negb (one_of (ho_Outcome o) ["failed"; "not-verified"]) || negb (no (ho_ProblemCode o))))
      (ERefuse "scheduler hook Work result is invalid")
  else if same (ho_Kind o) "plan" then
    ensure ((ho_Version o =? 1) && one_of (ho_Outcome o) ["planned"; "failed"] && no (ho_Revision o)
      && nil_slice (ho_EvidenceRefs o) && no (ho_Handling o)
      && (negb (same (ho_Outcome o) "planned") || no (ho_ProblemCode o))
      && (negb (same (ho_Outcome o) "failed") || (negb (no (ho_ProblemCode o)) && (length (slice (ho_Steps o)) =? 0)%nat))
      && (length (slice (ho_Steps o)) <=? 128)%nat) (ERefuse "scheduler hook Plan result is invalid") ;;
    ensure (forallb (λ title, negb (blank title) && (String.length title <=? 240)%nat) (slice (ho_Steps o)))
      (ERefuse "scheduler hook Plan result contains an invalid Step title")
  else if same (ho_Kind o) "ask" then
    ensure ((ho_Version o =? 1) && one_of (ho_Handling o) ["skip"; "halt"] && no (ho_Outcome o) && no (ho_Revision o)
      && nil_slice (ho_EvidenceRefs o) && no (ho_ProblemCode o) && nil_slice (ho_Steps o)) (ERefuse "scheduler hook Ask result is invalid")
  else Error (ERefuse "scheduler hook result kind is unsupported").

(** A Planned Step as an authority assigned it. *)
Definition planned_step (o : StepCreated) : bool :=
  ulidPattern (so_ID o) && ulidPattern (so_ParentID o) && ulidPattern (so_MatterID o) && locatorPattern (so_Locator o)
  && negb (no (so_Title o)) && (0 <? so_SortKey o) && same (so_State o) "planned".

(** The result of a provisional step.create@v1 has a parent and a title only. *)
Definition provisional_step (o : StepCreated) : bool :=
  no (so_ID o) && no (so_MatterID o) && no (so_Locator o) && (so_SortKey o =? 0) && no (so_State o).

Section results.
Context (nfc : string → bool).

(** The cases of the type switch over the output. *)
Definition validate_output (op : ID) (output : Output) : result () :=
  match output with
  | StepLifecycleOutput stepID matterID state =>
      ensure (ulidPattern stepID && ulidPattern matterID && validLifecycleState state) (ERefuse "step lifecycle output has invalid identity or state")
  | NodeLifecycleOutput nodeID matterID state =>
      ensure (ulidPattern nodeID && ulidPattern matterID && validLifecycleState state) (ERefuse "node lifecycle output has invalid identity or state")
  | MatterLifecycleOutput matterID state =>
      ensure (ulidPattern matterID && validLifecycleState state) (ERefuse "matter lifecycle output has invalid identity or state")
  | MatterFinishOutput matterID state _ =>
      ensure (ulidPattern matterID && same state "done") (ERefuse "matter finish output has invalid identity or state")
  | BatchSweepAnonymousOutput outcome =>
      ensure (one_of outcome [BatchSweepAnonymousSwept; BatchSweepAnonymousAlreadySwept]) (ERefuse "anonymous Batch sweep output has an unknown outcome")
  | BatchCreateOutput id name =>
      ensure (ulidPattern id && negb (blank name) && same name (TrimSpace name)) (ERefuse "named Batch output is invalid")
  | BatchMembershipOutput batchID matterID => ensure (ulidPattern batchID && ulidPattern matterID) (ERefuse "named Batch membership output is invalid")
  | BatchDismissOutput batchID => ensure (ulidPattern batchID) (ERefuse "named Batch dismissal output is invalid")
  | GateDeclareOutput gate scale => ensure (negb (blank gate) && validGateScale scale) (ERefuse "gate declaration output is invalid")
  | GateCloseOutput gate nodeID scale =>
      ensure (negb (blank gate) && ulidPattern nodeID && validGateScale scale) (ERefuse "gate close output is invalid")
  | GateDismissOutput gate nodeID scale =>
      ensure (negb (blank gate) && ulidPattern nodeID && validGateScale scale) (ERefuse "gate dismissal output is invalid")
  | GateExemptionRepairOutput gate nodeID _ =>
      ensure (validRepairText nfc gate 1 256 false && ulidPattern nodeID) (ERefuse "gate exemption repair output is invalid")
  | DependencyOutput edgeID blockedID blockerID =>
      ensure (ulidPattern blockedID && ulidPattern blockerID && negb (same blockedID blockerID)) (ERefuse "dependency output is invalid") ;;
      if is_op DependencyAddV1 op || is_op DependencyAddV2 op then
        ensure (ulidPattern edgeID) (ERefuse "dependency add output is missing its edge identity")
      else if is_op DependencyRemoveV1 op || is_op DependencyRemoveV2 op then
        ensure (no edgeID) (ERefuse "dependency remove output cannot carry an edge identity")
      else Error (ERefuse "dependency output is invalid")
  | ReferenceOutput matterID reference previous =>
      ensure (ulidPattern matterID && negb (blank reference)
        && (if is_op ReferenceRebindV1 op || is_op ReferenceRebindV2 op then negb (blank previous) else no previous))
        (ERefuse "tracker reference output is invalid")
  | ContentSegmentOutput id subjectID kind blobDigest byteLength =>
      ensure (ulidPattern id && ulidPattern subjectID && one_of kind ["brief"; "workplan"; "body"; "findings"]
        && digestPattern blobDigest && (0 <=? byteLength)
        && (negb (is_op ContentWriteOnceV1 op) || negb (same kind "findings"))
        && (negb (is_op FindingAppendV1 op) || same kind "findings")) (ERefuse "content output has invalid identity, kind, or staged-blob metadata")
  | SchedulerHookOutput o => validateSchedulerHookOutput o
  | RoleLifecycleOutput runID matterID dispatchID roleID role state =>
      let wantState := if is_op RoleCloseV1 op then "closed" else "open" in
      ensure (ulidPattern runID && ulidPattern matterID && ulidPattern dispatchID && ulidPattern roleID
        && negb (no role) && same state wantState) (ERefuse "role lifecycle output has invalid identity or state")
  | RunFinishOutput runID state => ensure (ulidPattern runID && same state "finished") (ERefuse "run finish output has invalid identity or state")
  | RunResumeOutput runID state => ensure (ulidPattern runID && same state "resumed") (ERefuse "run resume output has invalid identity or state")
  | MatterCreateV2Output id title requested assigned repair =>
      ensure (ulidPattern id && negb (no title) && locatorPattern requested && locatorPattern assigned
        && Bool.eqb repair (negb (same requested assigned))) (ERefuse "matter v2 output has invalid identity or locator")
  | StageCreateOutput id matterID locator title sortKey state =>
      ensure (ulidPattern id && ulidPattern matterID && locatorPattern locator && negb (no title) && (0 <? sortKey) && same state "planned")
        (ERefuse "stage output has invalid identity, locator, or order")
  | StepCreateOutput o =>
      if is_op StepCreateV1 op && provisional_step o then
        ensure (ulidPattern (so_ParentID o) && negb (blank (so_Title o))) (ERefuse "step.create@v1 provisional result has invalid parent or title")
      else ensure (planned_step o) (ERefuse "step output has invalid identity, locator, or order")
  | StepReorderOutput parentID order =>
      ensure (ulidPattern parentID && negb (length order =? 0)%nat) (ERefuse "step reorder output has invalid parent or order") ;;
      ensure (forallb ulidPattern order) (ERefuse "step reorder output has invalid step identity")
  | StepReplaceOutput removed replacement =>
      ensure (ulidPattern removed && negb (same (so_ID replacement) removed) && planned_step replacement)
        (ERefuse "step replacement output has invalid identity")
  | StepRemoveOutput stepID => ensure (ulidPattern stepID) (ERefuse "step removal output has invalid identity")
  | MatterLocatorRepairOutput id action requested previous assigned =>
      ensure (ulidPattern id && one_of action ["rename"; "accept"] && locatorPattern requested && locatorPattern previous && locatorPattern assigned)
        (ERefuse "matter locator repair output is invalid")
  | MatterCreateOutput _ _ _ => Ok ()
  end.

Definition ValidateResult (d : OpDefinition) (r : Result) : result () :=
  if same (rs_Code r) ResultSucceeded then
    ensure match rs_Problem r with None => true | Some _ => false end (ERefuse "a succeeded result cannot carry a problem") ;;
    output ← from_option_err (ERefuse "output type") (rs_Output r);
    ensure (bool_decide (output_type output = outputType d)) (ERefuse "output type") ;;
    validate_output (op_id d) output
  else
    ensure (one_of (rs_Code r) [ResultRejected; ResultRefused; ResultFailed]) (ERefuse "result code is unknown") ;;
    ensure match rs_Output r with None => true | Some _ => false end (ERefuse "a non-success result cannot carry output") ;;
    problem ← from_option_err (ERefuse "requires a problem") (rs_Problem r);
    ensure (negb (no (pr_Message problem))) (ERefuse "problem has no message") ;;
    let prefix := problemPrefix (pr_Code problem) in
    if same (rs_Code r) ResultRejected then
      ensure (one_of prefix ["operation"; "validation"; "not-found"]) (ERefuse "rejected result cannot carry the problem")
    else if same (rs_Code r) ResultRefused then
      ensure (same prefix "refusal") (ERefuse "refused result requires a refusal problem") ;;
      ensure (negb (is_op BatchSweepAnonymousV1 (op_id d)) || validBatchSweepRefusal (pr_Code problem))
        (ERefuse "batch.sweep-anonymous@v1 has unknown refusal code") ;;
      ensure (negb (isNamedBatchMembershipOperation (op_id d)) || validNamedBatchRefusal (pr_Code problem)) (ERefuse "unknown refusal code")
    else ensure (same prefix "internal") (ERefuse "failed result requires an internal problem").
End results.

(** ** dispatcher.go *)
#[export] Instance ID_countable : Countable ID.
Proof.
  refine (inj_countable' (λ i, (id_Name i, id_Version i)) (λ p, mkID p.1 p.2) _). by intros [].
Defined.

Section dispatcher.
Context {W : Type} (nfc : string → bool).

Definition Handler := W → Request → W * Result.
Record Registration := mkRegistration { rg_Definition : OpDefinition; rg_Handler : Handler }.
Definition Registry := gmap ID Registration.

Definition NewRegistry : Registry := ∅.

(** Register; a nil handler is [None]. *)
Definition Register (r : Registry) (d : OpDefinition) (handler : option Handler) : result Registry :=
  ValidateMetadata (metadata d) ;;
  h ← from_option_err (ERefuse "cannot register with a nil handler") handler;
  ensure match r !! op_id d with None => true | Some _ => false end (ERefuse "duplicate registration") ;;
  Ok (<[op_id d := mkRegistration d h]> r).

(** The stable problem code of an identity that does not resolve, or the registration. *)
Definition Resolve (r : Registry) (id : ID) : Registration + string :=
  match ID_Validate id with
  | Error _ => inr ProblemInvalidRequest
  | Ok _ =>
      match r !! id with
      | Some registration => inl registration
      | None =>
          if existsb (λ k, same (id_Name k) (id_Name id)) (map_to_list r).*1 then inr ProblemUnsupportedVersion
          else inr ProblemUnknownOperation
      end
  end.

Definition id_leb (a b : ID) : bool :=
  if same (id_Name a) (id_Name b) then id_Version a <=? id_Version b else String.ltb (id_Name a) (id_Name b).

Definition Definitions (r : Registry) : list OpDefinition :=
  order_by (λ a b, id_leb (op_id a) (op_id b)) ((λ kv, rg_Definition kv.2) <$> map_to_list r).

Definition rejectedResult (code : string) (message : string) : Result := mkResult ResultRejected None (Some (mkProblem code message)).
Definition failedResult (code : string) (message : string) : Result := mkResult ResultFailed None (Some (mkProblem code message)).

(** The text of an error; every one the boundary makes is a sentence. *)
Definition err_text (e : Err) : string := match e with ERefuse msg => msg | _ => "error" end.

(** What a resolution error says. *)
Definition resolution_text (id : ID) (code : string) : string :=
  if same code ProblemInvalidRequest then "operation identity is malformed"
  else "operation " +:+ id_Name id +:+ "@v" +:+ itoa (id_Version id) +:+ " is not registered".

Definition Dispatch (r : Registry) (w : W) (request : Request) : W * Result :=
  match Resolve r (rq_Operation request) with
  | inr code => (w, rejectedResult code (resolution_text (rq_Operation request) code))
  | inl registration =>
      match ValidateRequest nfc (rg_Definition registration) request with
      | Error e => (w, rejectedResult ProblemInvalidRequest (err_text e))
      | Ok _ =>
          let '(w', result) := rg_Handler registration w request in
          match ValidateResult nfc (rg_Definition registration) result with
          | Error e => (w', failedResult ProblemInvalidResult (err_text e))
          | Ok _ => (w', result)
          end
      end
  end.
End dispatcher.
