(* ===== verification/Tracker.v ===== *)
(** Delivery to a tracker (src/internal/tracker: flush.go).  Flush reads the
    approved outbox of a Repo once, withholds what must not be sent, calls the
    provider for what is left and records one durable result per answer.

    The provider is not part of the program: it is a function [deliver] of the
    calls made before and the entry, answering the text of a Go error or a Result.
    Go visits a map in an order it does not fix: [visit] is that order.  The text
    of a Go error is [errText]. *)
From stdpp Require Import gmap.
From S2P Require Import Prelude GoStd Ulid Taxonomy Json Payloads Tables View Gates Project Store.
From S2P Require Import Command Resolve Config NodeVerbs WorkVerbs.

(** ** The provider boundary *)
Inductive Outcome :=
| Delivered
| Converged
| RetryableFailure
| LeaseMismatch
| PermanentRefusal.

#[global] Instance Outcome_eq_dec : EqDecision Outcome.
Proof. solve_decision. Defined.

Definition Outcome_str (x : Outcome) : string :=
  match x with
  | Delivered => "delivered"
  | Converged => "converged"
  | RetryableFailure => "retryable-failure"
  | LeaseMismatch => "lease-mismatch"
  | PermanentRefusal => "permanent-refusal"
  end.

#[global] Instance Outcome_enum : Enum Outcome.
Proof. refine {| enum_all := [Delivered; Converged; RetryableFailure; LeaseMismatch; PermanentRefusal]; enum_str := Outcome_str |}; solve_enum. Defined.

(** Outcome is a Go string: a provider may return any. *)
Record Result := MkResult { rs_outcome : string; rs_ref : string; rs_lease : string; rs_reason : string }.

Record EntryResult := MkEntryResult { er_id : string; er_state : string; er_reason : string }.

Record stateCandidate := MkStateCandidate { sc_entry : OutboxEntry; sc_disposition : TrackerDisposition }.

(** One call of the provider: the projection it was made in, the entry it was
    given and what it answered. *)
Record Call := MkCall { ca_proj : Proj; ca_entry : OutboxEntry; ca_answer : string + Result }.

Definition Seam : Type := list Call → OutboxEntry → string + Result.

(** ** The two guards *)
Record DispositionOnly := MkDispositionOnly { DispositionOnly_Disposition : string }.

#[global] Instance DispositionOnly_payload : Payload DispositionOnly := {|
  pl_zero := MkDispositionOnly "";
  pl_fields := [str_field "disposition" (λ v _, MkDispositionOnly v)];
  pl_enc p := JObj (jstr "disposition" (DispositionOnly_Disposition p));
  pl_valid p := utf8_valid (DispositionOnly_Disposition p);
|}.

Definition stateDisposition (payload : json) : result TrackerDisposition :=
  p ← decode (S := DispositionOnly) payload;
  from_option_err (ERefuse (String.append "invalid disposition " (DispositionOnly_Disposition p)))
    (enum_parse (A := TrackerDisposition) (DispositionOnly_Disposition p)).

Definition regresses (previous candidate : TrackerDisposition) : bool :=
  if bool_decide (previous = TrackerActive) then false
  else negb (bool_decide (candidate = previous)).

(** ** Loops that stop at the first Go error, keeping what they built *)
Definition attempt {A} (c : cmd A) : cmd (result A) := λ s,
  match c s with Some (r, s') => Some (Ok r, s') | None => None end.

Fixpoint each {A S} (body : A → S → cmd (S * option Err)) (l : list A) (st : S) : cmd (S * option Err) :=
  match l with
  | [] => mret (st, None)
  | x :: l =>
      r ← body x st;
      match r.2 with
      | Some e => mret (r.1, Some e)
      | None => each body l r.1
      end
  end.

(** ** Flush *)

(** What Flush keeps: its local variables [selected], [groups] and [report], and
    the calls the provider has received. *)
Record Flushing := MkFlushing {
  fl_selected : gset string;
  fl_groups : gmap string (list stateCandidate);
  fl_report : list EntryResult;
  fl_calls : list Call
}.

Definition flushing0 : Flushing := MkFlushing ∅ ∅ [] [].

Definition select_entry (id : string) (st : Flushing) : Flushing :=
  MkFlushing ({[id]} ∪ fl_selected st) (fl_groups st) (fl_report st) (fl_calls st).

Definition group_entry (r : string) (c : stateCandidate) (st : Flushing) : Flushing :=
  MkFlushing (fl_selected st) (<[r := default [] (fl_groups st !! r) ++ [c]]> (fl_groups st))
    (fl_report st) (fl_calls st).

Definition report_entry (x : EntryResult) (st : Flushing) : Flushing :=
  MkFlushing (fl_selected st) (fl_groups st) (fl_report st ++ [x]) (fl_calls st).

Definition called (c : Call) (st : Flushing) : Flushing :=
  MkFlushing (fl_selected st) (fl_groups st) (fl_report st) (fl_calls st ++ [c]).

Section flush.
Context (w : World) (fuel : nat) (errText : Err → string)
  (visit : gmap string (list stateCandidate) → list string) (actor repo : string).

(** A local refusal: withhold the entry unattempted, and report it. *)
Definition withhold_local (id reason cause : string) (st : Flushing) : cmd (Flushing * option Err) :=
  r ← attempt (WithholdOutbox w fuel actor repo id reason false cause);
  match r with
  | Ok _ => mret (report_entry (MkEntryResult id "withheld" reason) st, None)
  | Error e => mret (st, Some e)
  end.

Definition regression_reason (d previous : TrackerDisposition) : string :=
  String.append "local regression: " (String.append (enum_str d)
    (String.append " cannot follow " (enum_str previous))).

(** The first loop: what each approved entry is. *)
Definition triage (entry : OutboxEntry) (st : Flushing) : cmd (Flushing * option Err) :=
  if negb (bool_decide (oe_state entry = OutboxApprovedState)) then mret (st, None)
  else if negb (bool_decide (oe_kind entry = OutboxStateKind)) then mret (select_entry (oe_id entry) st, None)
  else
    match stateDisposition (oe_payload entry) with
    | Error e =>
        withhold_local (oe_id entry) (String.append "malformed state candidate: " (errText e))
          "malformed-candidate" st
    | Ok d =>
        if bool_decide (oe_ref entry = "") then
          withhold_local (oe_id entry) "malformed state candidate" "malformed-candidate" st
        else
          record ← cread (λ _ p, Ok (FindTrackerPushRecord p (oe_ref entry)));
          let keep := group_entry (oe_ref entry) (MkStateCandidate entry d) st in
          match record with
          | Some r =>
              if regresses (tp_disposition r) d then
                withhold_local (oe_id entry) (regression_reason d (tp_disposition r)) "local-regression" st
              else mret (keep, None)
          | None => mret (keep, None)
          end
    end.

(** The second loop: only the newest candidate of a reference is sent. *)
Definition supersede (newest : stateCandidate) (c : stateCandidate) (st : Flushing)
    : cmd (Flushing * option Err) :=
  withhold_local (oe_id (sc_entry c))
    (String.append "superseded by newer approved state entry " (oe_id (sc_entry newest))) "superseded" st.

Definition compose_group (r : string) (st : Flushing) : cmd (Flushing * option Err) :=
  match last (default [] (fl_groups st !! r)) with
  | Some newest =>
      each (supersede newest) (removelast (default [] (fl_groups st !! r)))
        (select_entry (oe_id (sc_entry newest)) st)
  | None => mret (st, None)
  end.

(** recordResult *)
Definition withhold_attempted (entry : OutboxEntry) (reason cause : string) : cmd (string * string) :=
  WithholdOutbox w fuel actor repo (oe_id entry) reason true cause ;; mret ("withheld", reason).

Definition success_state (converged : bool) : string := if converged then "converged" else "flushed".

Definition record_success (converged : bool) (entry : OutboxEntry) (result : Result) : cmd (string * string) :=
  let malformed reason := withhold_attempted entry reason "malformed-provider-success" in
  match oe_kind entry with
  | OutboxCreate =>
      if bool_decide (rs_ref result = "") then
        malformed "provider returned creation success without a reference"
      else
        ConfirmBacklogDelegation w fuel actor repo (oe_id entry) (rs_ref result) ;;
        mret (success_state converged, "")
  | OutboxStateKind =>
      match stateDisposition (oe_payload entry) with
      | Error _ => malformed "provider returned malformed state success"
      | Ok d =>
          if bool_decide (rs_lease result = "")
             || (negb (bool_decide (rs_ref result = "")) && negb (bool_decide (rs_ref result = oe_ref entry)))
          then malformed "provider returned malformed state success"
          else
            (if converged
             then ObserveTrackerState w fuel actor repo (oe_id entry) (oe_ref entry) (enum_str d) (rs_lease result)
             else PushTrackerState w fuel actor repo (oe_id entry) (oe_ref entry) (enum_str d) (rs_lease result)) ;;
            mret (success_state converged, "")
      end
  | OutboxComment =>
      FlushOutboxComment w fuel actor repo (oe_id entry) ;; mret (success_state converged, "")
  end.

Definition reason_or (reason fallback : string) : string :=
  if bool_decide (reason = "") then fallback else reason.

Definition recordResult (entry : OutboxEntry) (result : Result) : cmd (string * string) :=
  match enum_parse (A := Outcome) (rs_outcome result) with
  | Some Delivered => record_success false entry result
  | Some Converged => record_success true entry result
  | Some RetryableFailure =>
      let reason := reason_or (rs_reason result) "provider reported a retryable failure" in
      FailOutbox w fuel actor repo (oe_id entry) reason ;; mret ("queued", reason)
  | Some LeaseMismatch =>
      withhold_attempted entry (reason_or (rs_reason result) "provider refused the delivery") "lease-mismatch"
  | Some PermanentRefusal =>
      withhold_attempted entry (reason_or (rs_reason result) "provider refused the delivery") "permanent-refusal"
  | None => withhold_attempted entry "provider returned an unknown outcome" "unknown-outcome"
  end.

(** A call that failed is a retryable failure with the error's text. *)
Definition call_result (answer : string + Result) : Result :=
  match answer with
  | inl text => MkResult (Outcome_str RetryableFailure) "" "" text
  | inr result => result
  end.

(** The third loop: one call per selected entry, in outbox order. *)
Definition deliver_entry (deliver : Seam) (entry : OutboxEntry) (st : Flushing) : cmd (Flushing * option Err) :=
  if negb (bool_decide (oe_id entry ∈ fl_selected st)) then mret (st, None)
  else
    p ← cread (λ _ p, Ok p);
    let answer := deliver (fl_calls st) entry in
    let st := called (MkCall p entry answer) st in
    r ← attempt (recordResult entry (call_result answer));
    match r with
    | Ok sr => mret (report_entry (MkEntryResult (oe_id entry) sr.1 sr.2) st, None)
    | Error e => mret (st, Some e)
    end.

(** A loop's error ends Flush with the report as it stands. *)
Definition then_stage (c : cmd (Flushing * option Err)) (k : Flushing → cmd (Flushing * option Err))
    : cmd (Flushing * option Err) :=
  r ← c; match r.2 with Some e => mret (r.1, Some e) | None => k r.1 end.

Definition Flush (seam : option Seam) : cmd (Flushing * option Err) :=
  match seam with
  | None => mret (flushing0, Some (ERefuse "tracker: no provider seam configured"))
  | Some deliver =>
      entries ← cread (λ _ p, Ok (Outbox p repo));
      then_stage (each triage entries flushing0) (λ st,
      then_stage (each compose_group (visit (fl_groups st)) st) (λ st,
      each (deliver_entry deliver) entries st))
  end.
End flush.
