(* ===== verification/FlushFacts.v ===== *)
(** Facts about Flush (Tracker.v): what each write of the delivery leaves in the
    outbox, a small program logic for commands that always answer, and Flush's three
    loops against what they should do: which entries are refused locally, which
    candidate of a reference is the newest, and what the provider is called with. *)
From stdpp Require Import gmap.
From S2P Require Import Prelude Ulid GoStd Taxonomy Json Payloads Tables View Gates Project Store Steps.
From S2P Require Import Invariants Shape Replay Mint Reach Cycle Completion Content Command Resolve Config.
From S2P Require Import NodeVerbs WorkVerbs Effects Outcome VerbAtomic Tracker.

#[local] Opaque applyEvent appendEvent stamp Commit.

(** ** One delivery write *)

(** The entry [id] of [repo] was approved and is now in state [st] with [reason];
    no other entry moved; a push record moved only for a flushed state entry, and
    only that of its reference. *)
Definition settled (repo id : string) (st : OutboxState) (reason : string) (p p' : Proj) : Prop :=
  ∃ r inc e, outbox_entries p !! id = Some r ∧ ob_repo r = repo ∧ ob_state r = OutboxApprovedState
    ∧ outbox_entries p' = <[id := set_outbox st reason inc e r]> (outbox_entries p)
    ∧ (tracker_push_records p' = tracker_push_records p
       ∨ st = OutboxFlushedState ∧ ob_kind r = OutboxStateKind
         ∧ ∃ x row, ob_ref r = Some x ∧ tracker_push_records p' = <[x := row]> (tracker_push_records p)).

Lemma outbox_update_settled c ev g st reason inc p p' :
  (∀ r, outbox_entries p !! ev_subject ev = Some r → g r = true → ob_state r = OutboxApprovedState) →
  update1 c TOutbox (ev_subject ev) (outbox_guard ev g) (λ r, Ok (set_outbox st reason inc (ev_id ev) r)) p = Ok p' →
  settled (ev_repo ev) (ev_subject ev) st reason p p' ∧ tracker_push_records p' = tracker_push_records p.
Proof.
  intros Hg (r & n & Hr & Hgr & Hn & [_ Hp]%sql_set_Ok)%update1_Ok. injection Hn as <-.
  unfold outbox_guard in Hgr. inv_bool.
  pose proof (put_tget_eq _ TOutbox _ _ _ _ Hp) as Ho. pose proof (put_tget_ne _ TOutbox _ _ _ _ TPush ltac:(done) Hp) as Hpr.
  cbn [tget] in Ho, Hpr, Hr. split; [|done]. exists r, inc, (ev_id ev).
  split_and!; try done; [by eapply Hg|by left].
Qed.

Lemma decode_withheld reason attempted cause :
  decodeStrict (pl_enc (MkOutboxWithheld reason attempted cause))
  = Ok (MkOutboxWithheld (utf8_coerce reason) attempted (utf8_coerce cause)).
Proof. unfold decodeStrict, pl_enc, OutboxWithheld_payload. eval_decode; reflexivity. Qed.

Lemma decode_failed reason :
  decodeStrict (pl_enc (MkOutboxDeliveryFailed reason)) = Ok (MkOutboxDeliveryFailed (utf8_coerce reason)).
Proof. unfold decodeStrict, pl_enc, OutboxDeliveryFailed_payload. eval_decode. reflexivity. Qed.

Section writes.
Context (w : World) (fuel : nat) (actor repo : string).

(** A command of one draft folds the draft's event into the projection. *)
Lemma commit_one {S} `{Payload S} t subject (x : S) s a s' :
  commit w fuel (repo_request actor repo) (mret ([draft t subject x], tt)) s = Some (Ok a, s') →
  repo_typed t = true →
  ∃ ev c, enum_parse (ev_type ev) = Some t ∧ ev_subject ev = subject ∧ ev_payload ev = pl_enc x
    ∧ ev_repo ev = repo ∧ applyEvent c ev (s_proj s) = Ok (s_proj s').
Proof.
  destruct a as [evs []]. intros (ds & h & Hd & _ & Hf)%commit_folded Ht.
  apply tret_inv in Hd as [[= ->] _]. apply folded_one in Hf as (ev & _ & _ & Hst & _ & Hap).
  pose proof (stamped_repo _ _ _ _ _ Hst Ht) as Hrepo.
  destruct (stamped_draft _ _ _ _ _ Hst) as (? & ? & ? & _). eauto 10.
Qed.

Lemma mutateOutbox_one {S} `{Payload S} t id (x : S) s a s' :
  mutateOutbox w fuel actor repo id (draft t id x) s = Some (Ok a, s') → repo_typed t = true →
  ∃ ev c, enum_parse (ev_type ev) = Some t ∧ ev_subject ev = id ∧ ev_payload ev = pl_enc x
    ∧ ev_repo ev = repo ∧ applyEvent c ev (s_proj s) = Ok (s_proj s').
Proof. unfold mutateOutbox. intros Hm Ht. inv_cmd. by eapply commit_one. Qed.

#[local] Transparent applyEvent.

Lemma WithholdOutbox_settled id reason attempted cause s s' :
  WithholdOutbox w fuel actor repo id reason attempted cause s = Some (Ok tt, s') →
  settled repo id OutboxWithheldState (utf8_coerce reason) (s_proj s) (s_proj s')
  ∧ tracker_push_records (s_proj s') = tracker_push_records (s_proj s).
Proof.
  unfold WithholdOutbox. intros Hc. inv_cmd.
  match goal with H : mutateOutbox _ _ _ _ _ _ _ = _ |- _ =>
    apply mutateOutbox_one in H as (ev & c & Hty & <- & Hpl & <- & Hap); [|reflexivity] end.
  as_rule Hap Hty. unfold withholdOutbox in Hap. rewrite Hpl, decode_withheld in Hap. inv_ok.
  eapply outbox_update_settled; [|exact Hap]. intros r _ Hr. unfold is_approved in Hr. by inv_bool.
Qed.

Lemma FailOutbox_settled id reason s s' :
  FailOutbox w fuel actor repo id reason s = Some (Ok tt, s') →
  settled repo id OutboxQueued (utf8_coerce reason) (s_proj s) (s_proj s').
Proof.
  unfold FailOutbox. intros Hc. inv_cmd.
  match goal with H : mutateOutbox _ _ _ _ _ _ _ = _ |- _ =>
    apply mutateOutbox_one in H as (ev & c & Hty & <- & Hpl & <- & Hap); [|reflexivity] end.
  as_rule Hap Hty. unfold failOutbox in Hap. rewrite Hpl, decode_failed in Hap. inv_ok.
  eapply outbox_update_settled; [|exact Hap]. intros r _ Hr. unfold is_approved in Hr. by inv_bool.
Qed.

Lemma FlushOutboxComment_settled id s s' :
  FlushOutboxComment w fuel actor repo id s = Some (Ok tt, s') →
  settled repo id OutboxFlushedState "" (s_proj s) (s_proj s').
Proof.
  unfold FlushOutboxComment. intros Hc. inv_cmd.
  match goal with H : mutateOutbox _ _ _ _ _ _ _ = _ |- _ =>
    apply mutateOutbox_one in H as (ev & c & Hty & <- & Hpl & <- & Hap); [|reflexivity] end.
  as_rule Hap Hty. unfold flushOutboxComment in Hap. inv_ok.
  eapply outbox_update_settled; [|exact Hap]. intros r _ Hr. unfold outbox_is in Hr. by inv_bool.
Qed.

Lemma flush_state_settled c ev r p p' :
  flush_state c ev r p = Ok p' →
  settled (ev_repo ev) (ev_subject ev) OutboxFlushedState "" p p'
  ∧ tracker_push_records p' = tracker_push_records p
  ∧ ∃ row, outbox_entries p !! ev_subject ev = Some row ∧ ob_kind row = OutboxStateKind ∧ ob_ref row = Some r.
Proof.
  unfold flush_state. intros H.
  pose proof H as (row & _ & Hr & Hg & _ & _)%update1_Ok. unfold outbox_guard, outbox_is in Hg. inv_bool.
  apply outbox_update_settled in H as [Hs Hp]; [split_and!; eauto|].
  intros x _ Hx. unfold outbox_is in Hx. by inv_bool.
Qed.

(** An upsert that wrote put one row in its table and left the others alone. *)
Lemma upsert_written c t k r guard f p p' :
  upsert c t k r guard f p = Ok (p', true) →
  ∃ n, tget t p' = <[k := n]> (tget t p) ∧ ∀ t', t ≠ t' → tget t' p' = tget t' p.
Proof.
  unfold upsert. intros H. destruct (tget t p !! k) as [o|].
  - destruct (guard o); inv_ok; [|discriminate]. subst.
    match goal with H : sql_set _ _ _ _ _ _ = Ok _ |- _ => apply sql_set_Ok in H as [_ Hp] end.
    exists (f o). split; [by eapply put_tget_eq|]. intros t' Ht. by eapply put_tget_ne.
  - inv_ok. match goal with H : sql_insert _ _ _ _ _ = Ok _ |- _ => apply sql_insert_Ok in H as (_ & _ & Hp) end.
    exists r. split; [by eapply put_tget_eq|]. intros t' Ht. by eapply put_tget_ne.
Qed.

Lemma ObserveTrackerState_settled id ref d lease s s' :
  ObserveTrackerState w fuel actor repo id ref d lease s = Some (Ok tt, s') →
  settled repo id OutboxFlushedState "" (s_proj s) (s_proj s').
Proof.
  unfold ObserveTrackerState. intros Hc. inv_cmd.
  match goal with H : commit _ _ _ _ _ = _ |- _ =>
    apply commit_one in H as (ev & c & Hty & <- & Hpl & <- & Hap); [|reflexivity] end.
  as_rule Hap Hty. unfold recordTrackerStateObserved in Hap. inv_ok. by apply flush_state_settled in Hap as [? _].
Qed.

Lemma PushTrackerState_settled id ref d lease s s' :
  PushTrackerState w fuel actor repo id ref d lease s = Some (Ok tt, s') →
  settled repo id OutboxFlushedState "" (s_proj s) (s_proj s').
Proof.
  unfold PushTrackerState. intros Hc. inv_cmd.
  match goal with H : commit _ _ _ _ _ = _ |- _ =>
    apply commit_one in H as (ev & c & Hty & <- & Hpl & <- & Hap); [|reflexivity] end.
  as_rule Hap Hty. unfold recordTrackerStatePush in Hap. inv_ok.
  match goal with H : flush_state _ _ ?r _ = Ok ?q |- _ =>
    apply flush_state_settled in H as ((row & inc & e & Hr & Hrepo & Hst & Ho & _) & Hpr & row' & Hr' & Hk & Href) end.
  rewrite Hr in Hr'. injection Hr' as <-.
  match goal with H : upsert _ _ _ _ _ _ _ = Ok ?pb |- _ => rename H into Hu; destruct pb as [q' b] end.
  cbn [fst snd] in *. subst b. apply upsert_written in Hu as (pr & Hpush & Hout).
  cbn [tget] in Hpush. specialize (Hout TOutbox ltac:(done)). cbn [tget] in Hout.
  exists row, inc, e. rewrite <-Hap, Hout. split_and!; try done.
  right. split_and!; [done..|]. exists (TrackerStatePushed_Ref x), pr. by rewrite <-Hpr.
Qed.

Lemma ConfirmBacklogDelegation_settled id ref s s' :
  ConfirmBacklogDelegation w fuel actor repo id ref s = Some (Ok tt, s') →
  settled repo id OutboxFlushedState "" (s_proj s) (s_proj s').
Proof.
  unfold ConfirmBacklogDelegation. intros Hc. inv_cmd. inv_bool.
  match goal with H : commit _ _ _ _ _ = _ |- _ =>
    apply commit_one in H as (ev & c & Hty & <- & Hpl & <- & Hap); [|reflexivity] end.
  match goal with H : view_OutboxEntry _ _ _ = Ok _ |- _ => rename H into Hv end.
  unfold view_OutboxEntry in Hv. as_rule Hap Hty. unfold recordTrackerItemCreated in Hap. inv_ok.
  destruct (outbox_entries (s_proj _) !! ev_subject ev) as [row|] eqn:Hrow; [|discriminate]. inv_ok_match;
    match goal with H : update1 _ TOutbox _ _ _ _ = Ok _ |- _ =>
      apply outbox_update_settled in H as [(r & inc & e & Hr & Hrepo & Hst & Ho & _) Hpr];
      [|intros r Hr _; rewrite Hrow in Hr; by injection Hr as <-] end.
  - apply update1_Ok in Hap as (b & b' & _ & _ & _ & [_ Hp]%sql_set_Ok).
    pose proof (put_tget_ne _ TBacklog _ _ _ _ TOutbox ltac:(done) Hp) as H1'. cbn [tget] in H1'.
    pose proof (put_tget_ne _ TBacklog _ _ _ _ TPush ltac:(done) Hp) as H2'. cbn [tget] in H2'.
    exists r, inc, e. rewrite H1', H2'. split_and!; try done. by left.
  - subst. exists r, inc, e. split_and!; try done. by left.
Qed.

(** ** Recording a provider's answer *)

(** The outbox state a report entry names. *)
Definition durable (state : string) : OutboxState :=
  if bool_decide (state = "withheld") then OutboxWithheldState
  else if bool_decide (state = "queued") then OutboxQueued else OutboxFlushedState.

Lemma record_success_settled converged entry result s sr s' :
  record_success w fuel actor repo converged entry result s = Some (Ok sr, s') →
  settled repo (oe_id entry) (durable sr.1) (utf8_coerce sr.2) (s_proj s) (s_proj s').
Proof.
  assert (Hmal : ∀ reason cause, withhold_attempted w fuel actor repo entry reason cause s = Some (Ok sr, s') →
    settled repo (oe_id entry) (durable sr.1) (utf8_coerce sr.2) (s_proj s) (s_proj s')).
  { unfold withhold_attempted. intros reason cause H. inv_cmd. destruct a. by apply WithholdOutbox_settled in H0 as [? _]. }
  assert (Hok : durable (success_state converged) = OutboxFlushedState) by by destruct converged.
  unfold record_success. intros H. cbv zeta in H.
  destruct (oe_kind entry); [case_match; [by eapply Hmal|]| |].
  - inv_cmd. destruct a. cbn. rewrite Hok. by apply ConfirmBacklogDelegation_settled in H1.
  - destruct (stateDisposition _) as [d|]; [|by eapply Hmal]. case_match; [by eapply Hmal|].
    destruct converged; inv_cmd; destruct a; cbn; [by apply ObserveTrackerState_settled in H1|by apply PushTrackerState_settled in H1].
  - inv_cmd. destruct a. cbn. rewrite Hok. by apply FlushOutboxComment_settled in H0.
Qed.

Lemma recordResult_settled entry result s sr s' :
  recordResult w fuel actor repo entry result s = Some (Ok sr, s') →
  settled repo (oe_id entry) (durable sr.1) (utf8_coerce sr.2) (s_proj s) (s_proj s').
Proof.
  unfold recordResult, withhold_attempted. destruct (enum_parse _) as [[]|]; intros H;
    try (by eapply record_success_settled); inv_cmd; destruct a;
    match goal with
    | H : WithholdOutbox _ _ _ _ _ _ _ _ _ = _ |- _ => by apply WithholdOutbox_settled in H as [? _]
    | H : FailOutbox _ _ _ _ _ _ _ = _ |- _ => by apply FailOutbox_settled in H
    end.
Qed.

Lemma WithholdOutbox_atomic id reason attempted cause s :
  atomic_at s (WithholdOutbox w fuel actor repo id reason attempted cause).
Proof. unfold WithholdOutbox. solve_atomic. by apply mutateOutbox_atomic. Qed.

Lemma FailOutbox_atomic id reason s : atomic_at s (FailOutbox w fuel actor repo id reason).
Proof. unfold FailOutbox. solve_atomic. by apply mutateOutbox_atomic. Qed.

Lemma FlushOutboxComment_atomic id s : atomic_at s (FlushOutboxComment w fuel actor repo id).
Proof. unfold FlushOutboxComment. solve_atomic. by apply mutateOutbox_atomic. Qed.

#[local] Hint Resolve WithholdOutbox_atomic FailOutbox_atomic FlushOutboxComment_atomic
  ConfirmBacklogDelegation_atomic PushTrackerState_atomic ObserveTrackerState_atomic : core.

Lemma recordResult_atomic entry result s : atomic_at s (recordResult w fuel actor repo entry result).
Proof.
  unfold recordResult, record_success, withhold_attempted. cbv zeta. solve_atomic; auto.
Qed.
End writes.

(** ** Commands that answer *)

(** From a store in [P] the command answers, with a value and a store in [Q]. *)
Definition yields {A} (P : Store → Prop) (c : cmd A) (Q : A → Store → Prop) : Prop :=
  ∀ s r s', P s → c s = Some (r, s') → ∃ a, r = Ok a ∧ Q a s'.

Section yields.
Context {A B : Type}.

Lemma yields_ret (P : Store → Prop) (a : A) (Q : A → Store → Prop) :
  (∀ s, P s → Q a s) → yields P (mret a) Q.
Proof. intros HQ s r s' Hs [-> ->]%cret_inv. eauto. Qed.

Lemma yields_bind P (R : A → Store → Prop) (c : cmd A) (k : A → cmd B) Q :
  yields P c R → (∀ a, yields (R a) (k a) Q) → yields P (c ≫= k) Q.
Proof.
  intros Hc Hk s r s' Hs H. unfold mbind, cmd_bind in H.
  destruct (c s) as [[x s1]|] eqn:E; [|discriminate].
  destruct (Hc _ _ _ Hs E) as (a & -> & Ha). by eapply Hk.
Qed.

Lemma yields_read P (f : list Event → Proj → A) (k : A → cmd B) Q :
  (∀ a, yields (λ s, P s ∧ f (s_log s) (s_proj s) = a) (k a) Q) →
  yields P (cread (λ log p, Ok (f log p)) ≫= k) Q.
Proof.
  intros Hk. eapply yields_bind; [|exact Hk]. intros s r s' Hs [<- ->]%cread_inv. eauto.
Qed.

Lemma yields_attempt P (c : cmd A) (Q : result A → Store → Prop) :
  (∀ s r s', P s → c s = Some (r, s') → Q r s') → yields P (attempt c) Q.
Proof.
  intros HQ s r s' Hs H. unfold attempt in H. destruct (c s) as [[x s1]|] eqn:E; [|discriminate].
  injection H as <- <-. eauto.
Qed.

Lemma yields_weaken P P' (c : cmd A) (Q Q' : A → Store → Prop) :
  yields P' c Q' → (∀ s, P s → P' s) → (∀ a s, Q' a s → Q a s) → yields P c Q.
Proof. intros Hc HP HQ s r s' Hs H. destruct (Hc _ _ _ (HP _ Hs) H) as (a & -> & ?). eauto. Qed.
End yields.

(** A stage ends in [J], or with an error in [K]. *)
Definition stage {S} (J K : S → Store → Prop) (r : S * option Err) (s : Store) : Prop :=
  match r.2 with None => J r.1 s | Some _ => K r.1 s end.

Lemma each_yields {A S} (J : list A → S → Store → Prop) (K : S → Store → Prop) body l :
  (∀ pre x post st, l = pre ++ x :: post →
     yields (J pre st) (body x st) (stage (J (pre ++ [x])) K)) →
  ∀ st, yields (J [] st) (each body l st) (stage (J l) K).
Proof.
  intros Hbody. assert (Hgen : ∀ todo pre st, l = pre ++ todo →
    yields (J pre st) (each body todo st) (stage (J l) K)).
  { intros todo. induction todo as [|x todo IH]; intros pre st Hl; cbn [each].
    - apply yields_ret. rewrite app_nil_r in Hl. by subst.
    - eapply yields_bind; [by eapply Hbody|]. intros [st' [e|]]; cbn.
      + by apply yields_ret.
      + apply IH. by rewrite <-app_assoc. }
  intros st. by apply Hgen.
Qed.

Lemma then_stage_yields P (J K L : Flushing → Store → Prop) c k :
  yields P c (stage J K) → (∀ st, yields (J st) (k st) (stage L K)) →
  yields P (then_stage c k) (stage L K).
Proof.
  intros Hc Hk. unfold then_stage. eapply yields_bind; [exact Hc|]. intros [st [e|]]; cbn; [|apply Hk].
  by apply yields_ret.
Qed.

#[local] Set Default Proof Using "Type*".

(** ** What a flush should send *)
Definition approved (e : OutboxEntry) : bool := bool_decide (oe_state e = OutboxApprovedState).
Definition is_state (e : OutboxEntry) : bool := bool_decide (oe_kind e = OutboxStateKind).

(** A creation or a comment goes out as it is. *)
Definition direct (e : OutboxEntry) : bool := approved e && negb (is_state e).

(** A state entry may go out when it names a disposition and a reference, and
    does not move a settled reference to another disposition. *)
Definition monotone (p : Proj) (r : string) (d : TrackerDisposition) : bool :=
  match FindTrackerPushRecord p r with Some x => negb (regresses (tp_disposition x) d) | None => true end.

Definition eligible (p : Proj) (e : OutboxEntry) : option TrackerDisposition :=
  if approved e && is_state e && negb (bool_decide (oe_ref e = "")) then
    match stateDisposition (oe_payload e) with
    | Ok d => if monotone p (oe_ref e) d then Some d else None
    | Error _ => None
    end
  else None.

Definition refused (p : Proj) (e : OutboxEntry) : bool :=
  approved e && is_state e && negb (is_some (eligible p e)).

Definition candidate (p : Proj) (r : string) (e : OutboxEntry) : option stateCandidate :=
  d ← eligible p e; if bool_decide (oe_ref e = r) then Some (MkStateCandidate e d) else None.

(** The candidates of a reference, oldest first. *)
Definition candidates (p : Proj) (r : string) (l : list OutboxEntry) : list stateCandidate :=
  omap (candidate p r) l.

Definition newest (p : Proj) (l : list OutboxEntry) (e : OutboxEntry) : bool :=
  match last (candidates p (oe_ref e) l) with
  | Some c => bool_decide (oe_id (sc_entry c) = oe_id e)
  | None => false
  end.

(** The entries of the outbox the provider is called with, in order. *)
Definition to_send (p : Proj) (l : list OutboxEntry) : list OutboxEntry :=
  filter (λ e, direct e || newest p l e) l.

(** ** The report is what the store holds *)
Definition reported (st : Flushing) : list string := er_id <$> fl_report st.

Record kept (repo : string) (p0 : Proj) (st : Flushing) (p : Proj) : Prop := {
  kept_rest id : id ∉ reported st → outbox_entries p !! id = outbox_entries p0 !! id;
  kept_done x : x ∈ fl_report st → ∃ r inc e, outbox_entries p0 !! er_id x = Some r ∧ ob_repo r = repo
    ∧ ob_state r = OutboxApprovedState
    ∧ outbox_entries p !! er_id x
      = Some (set_outbox (durable (er_state x)) (utf8_coerce (er_reason x)) inc e r);
  kept_once : NoDup (reported st)
}.

Lemma durable_moved state : durable state ≠ OutboxApprovedState.
Proof. unfold durable. by repeat case_match. Qed.

Lemma kept_settled repo p0 st p p' id state reason :
  kept repo p0 st p → settled repo id (durable state) (utf8_coerce reason) p p' →
  id ∉ reported st ∧ kept repo p0 (report_entry (MkEntryResult id state reason) st) p'.
Proof.
  intros Hk (r & inc & e & Hr & Hrepo & Hst & Ho & _).
  assert (Hid : id ∉ reported st).
  { intros (x & -> & Hx)%list_elem_of_fmap. destruct (kept_done _ _ _ _ Hk x Hx) as (r0 & i0 & e0 & _ & _ & _ & H).
    rewrite H in Hr. injection Hr as <-. cbn in Hst. by apply durable_moved in Hst. }
  split; [done|]. assert (Hrep : reported (report_entry (MkEntryResult id state reason) st) = reported st ++ [id])
    by (unfold reported; cbn; by rewrite fmap_app).
  split.
  - intros j Hj. rewrite Hrep, not_elem_of_app, list_elem_of_singleton in Hj. destruct Hj as [Hj Hne].
    rewrite Ho, lookup_insert_ne by congruence. by apply Hk.
  - intros x [Hx | ->%list_elem_of_singleton]%elem_of_app.
    + destruct (kept_done _ _ _ _ Hk x Hx) as (r0 & i0 & e0 & H1 & H2 & H3 & H4). exists r0, i0, e0.
      rewrite Ho, lookup_insert_ne; [done|]. intros ->. apply Hid, list_elem_of_fmap. eauto.
    + exists r, inc, e. cbn. rewrite Ho, lookup_insert_eq, <-(kept_rest _ _ _ _ Hk) by done. done.
  - rewrite Hrep. apply NoDup_app. split_and!; [by apply Hk| |apply NoDup_singleton].
    intros x Hx ->%list_elem_of_singleton. done.
Qed.

(** ** The loops *)
Section loops.
Context (w : World) (fuel : nat) (errText : Err → string) (actor repo : string) (p0 : Proj).

(** Before the first call: the push records are those Flush found. *)
Record waiting (st : Flushing) (s : Store) : Prop := {
  waiting_kept : kept repo p0 st (s_proj s);
  waiting_push : tracker_push_records (s_proj s) = tracker_push_records p0;
  waiting_calls : fl_calls st = []
}.

(** A local refusal reports one more entry, or stops with nothing written. *)
Lemma withhold_local_yields id reason cause st :
  yields (waiting st) (withhold_local w fuel actor repo id reason cause st)
    (stage (λ st' s, st' = report_entry (MkEntryResult id "withheld" reason) st ∧ id ∉ reported st ∧ waiting st' s)
           waiting).
Proof.
  unfold withhold_local.
  eapply (yields_bind _ (λ r s, match r with
    | Ok _ => id ∉ reported st ∧ waiting (report_entry (MkEntryResult id "withheld" reason) st) s
    | Error _ => waiting st s end)).
  - apply yields_attempt. intros s [[]|e] s' [Hk Hp Hc] H.
    + apply WithholdOutbox_settled in H as [H Hpush].
      apply (kept_settled repo p0 st _ _ id "withheld") in H as [Hid Hk']; [|done].
      split; [done|]. split; [done|by rewrite Hpush|done].
    + apply WithholdOutbox_atomic in H as [_ Hq]. split; by rewrite ?Hq.
  - intros [[]|e]; by apply yields_ret.
Qed.

Lemma FindTrackerPushRecord_push p p' r :
  tracker_push_records p = tracker_push_records p' → FindTrackerPushRecord p r = FindTrackerPushRecord p' r.
Proof. unfold FindTrackerPushRecord. by intros ->. Qed.

(** What the first loop has done with the entries it has seen. *)
Record triaged (l : list OutboxEntry) (st : Flushing) (s : Store) : Prop := {
  tri_waiting : waiting st s;
  tri_selected id : id ∈ fl_selected st ↔ ∃ e, e ∈ l ∧ oe_id e = id ∧ direct e = true;
  tri_groups r : default [] (fl_groups st !! r) = candidates p0 r l;
  tri_reported id : id ∈ reported st ↔ ∃ e, e ∈ l ∧ oe_id e = id ∧ refused p0 e = true
}.

Lemma candidates_app r l l' : candidates p0 r (l ++ l') = candidates p0 r l ++ candidates p0 r l'.
Proof. apply omap_app. Qed.

(** One more entry of each class. *)
Lemma ex_app (l : list OutboxEntry) x id (f : OutboxEntry → bool) :
  (∃ e, e ∈ l ++ [x] ∧ oe_id e = id ∧ f e = true)
  ↔ (∃ e, e ∈ l ∧ oe_id e = id ∧ f e = true) ∨ (oe_id x = id ∧ f x = true).
Proof.
  setoid_rewrite elem_of_app. setoid_rewrite list_elem_of_singleton. naive_solver.
Qed.

Lemma triaged_skip l x st s :
  triaged l st s → direct x = false → eligible p0 x = None → refused p0 x = false → triaged (l ++ [x]) st s.
Proof.
  intros [H1 H2 H3 H4] Hd He Hr. split; [done|..].
  - intros id. rewrite ex_app, Hd. naive_solver.
  - intros r. rewrite candidates_app, H3. unfold candidates at 3. cbn. unfold candidate. rewrite He. cbn.
    by rewrite app_nil_r.
  - intros id. rewrite ex_app, Hr. naive_solver.
Qed.

Lemma triaged_direct l x st s :
  triaged l st s → direct x = true → eligible p0 x = None → refused p0 x = false →
  triaged (l ++ [x]) (select_entry (oe_id x) st) s.
Proof.
  intros [[Hk Hp Hc] H2 H3 H4] Hd He Hr. split; [split; [|done..]|..].
  - destruct Hk as [K1 K2 K3]. by split.
  - intros id. cbn. rewrite ex_app, Hd, elem_of_union, elem_of_singleton, H2. naive_solver.
  - intros r. cbn. rewrite candidates_app, H3. unfold candidates at 3. cbn. unfold candidate. rewrite He. cbn.
    by rewrite app_nil_r.
  - intros id. change (reported (select_entry (oe_id x) st)) with (reported st). rewrite ex_app, Hr. naive_solver.
Qed.

Lemma triaged_group l x d st s :
  triaged l st s → direct x = false → eligible p0 x = Some d → refused p0 x = false →
  triaged (l ++ [x]) (group_entry (oe_ref x) (MkStateCandidate x d) st) s.
Proof.
  intros [[Hk Hp Hc] H2 H3 H4] Hd He Hr. split; [split; [|done..]|..].
  - destruct Hk as [K1 K2 K3]. by split.
  - intros id. cbn. rewrite ex_app, Hd, H2. naive_solver.
  - intros r. cbn. rewrite candidates_app, <-H3. unfold candidates. cbn. unfold candidate. rewrite He. cbn.
    destruct (decide (oe_ref x = r)) as [<-|Hne].
    + by rewrite lookup_insert_eq, bool_decide_eq_true_2.
    + rewrite lookup_insert_ne, bool_decide_eq_false_2 by done. by rewrite app_nil_r.
  - intros id. change (reported (group_entry (oe_ref x) (MkStateCandidate x d) st)) with (reported st).
    rewrite ex_app, Hr. naive_solver.
Qed.

Lemma triaged_refused l x reason st s s' :
  triaged l st s → direct x = false → eligible p0 x = None → refused p0 x = true →
  waiting (report_entry (MkEntryResult (oe_id x) "withheld" reason) st) s' →
  triaged (l ++ [x]) (report_entry (MkEntryResult (oe_id x) "withheld" reason) st) s'.
Proof.
  intros [_ H2 H3 H4] Hd He Hr Hw. split; [done|..].
  - intros id. cbn. rewrite ex_app, Hd, H2. naive_solver.
  - intros r. cbn. rewrite candidates_app, H3. unfold candidates at 3. cbn. unfold candidate. rewrite He. cbn.
    by rewrite app_nil_r.
  - intros id. unfold reported. cbn. rewrite fmap_app, elem_of_app, ex_app, Hr. cbn.
    rewrite list_elem_of_singleton. unfold reported in H4. rewrite H4. naive_solver.
Qed.

Lemma refuse_yields l x reason cause st :
  direct x = false → eligible p0 x = None → refused p0 x = true →
  yields (triaged l st) (withhold_local w fuel actor repo (oe_id x) reason cause st)
    (stage (triaged (l ++ [x])) waiting).
Proof.
  intros Hd He Hr s r s' Ht H.
  destruct (withhold_local_yields (oe_id x) reason cause st s r s' (tri_waiting _ _ _ Ht) H) as (a & -> & Ha).
  exists a. split; [done|]. unfold stage in *. destruct a as [st' [e|]]; cbn in *; [done|].
  destruct Ha as (-> & _ & Hw). by eapply triaged_refused.
Qed.

Lemma triage_yields l x st :
  yields (triaged l st) (triage w fuel errText actor repo x st) (stage (triaged (l ++ [x])) waiting).
Proof.
  unfold triage.
  destruct (bool_decide (oe_state x = OutboxApprovedState)) eqn:Ea; cbn [negb].
  2: { apply yields_ret. intros s Hs. apply triaged_skip; [done|..]; unfold direct, eligible, refused, approved; by rewrite Ea. }
  destruct (bool_decide (oe_kind x = OutboxStateKind)) eqn:Ek; cbn [negb].
  2: { apply yields_ret. intros s Hs. apply triaged_direct; [done|..];
       unfold direct, eligible, refused, approved, is_state; by rewrite Ea, Ek. }
  assert (Hd : direct x = false) by (unfold direct, approved, is_state; by rewrite Ea, Ek).
  assert (Href : eligible p0 x = None → refused p0 x = true).
  { intros He. unfold refused, approved, is_state. by rewrite Ea, Ek, He. }
  destruct (stateDisposition (oe_payload x)) as [d|e] eqn:Es.
  2: { assert (He : eligible p0 x = None) by (unfold eligible; rewrite Es; by case_match). by apply refuse_yields; auto. }
  destruct (bool_decide (oe_ref x = "")) eqn:Er.
  { assert (He : eligible p0 x = None) by (unfold eligible; rewrite Er, andb_false_r; done). by apply refuse_yields; auto. }
  assert (He : eligible p0 x = if monotone p0 (oe_ref x) d then Some d else None).
  { unfold eligible, approved, is_state. by rewrite Ea, Ek, Er, Es. }
  apply yields_read. intros record s r s' [Hs Hrec]. revert s' r. cbv zeta.
  assert (Hm : monotone p0 (oe_ref x) d = match record with Some y => negb (regresses (tp_disposition y) d) | None => true end).
  { unfold monotone. rewrite <-Hrec. by rewrite (FindTrackerPushRecord_push _ p0 _ (waiting_push _ _ (tri_waiting _ _ _ Hs))). }
  rewrite Hm in He. clear Hm Hrec. intros s' r H.
  destruct record as [y|]; [destruct (regresses _ d)|]; cbn in He.
  - eapply refuse_yields; [..|exact H]; auto.
  - apply cret_inv in H as [-> ->]. eexists. split; [done|]. apply triaged_group; [done..|].
    unfold refused. by rewrite He, andb_false_r.
  - apply cret_inv in H as [-> ->]. eexists. split; [done|]. apply triaged_group; [done..|].
    unfold refused. by rewrite He, andb_false_r.
Qed.

(** ** The second loop *)
Context (l : list OutboxEntry).

Definition newest_of (rs : list string) (id : string) : Prop :=
  ∃ r c, r ∈ rs ∧ last (candidates p0 r l) = Some c ∧ oe_id (sc_entry c) = id.

Definition older_of (rs : list string) (id : string) : Prop :=
  ∃ r c, r ∈ rs ∧ c ∈ removelast (candidates p0 r l) ∧ oe_id (sc_entry c) = id.

Definition is_direct (id : string) : Prop := ∃ e, e ∈ l ∧ oe_id e = id ∧ direct e = true.
Definition is_refused (id : string) : Prop := ∃ e, e ∈ l ∧ oe_id e = id ∧ refused p0 e = true.

(** [sel] and [rep]: what is selected and what is reported. *)
Record composed (sel rep : string → Prop) (st : Flushing) (s : Store) : Prop := {
  com_waiting : waiting st s;
  com_groups r : default [] (fl_groups st !! r) = candidates p0 r l;
  com_selected id : id ∈ fl_selected st ↔ sel id;
  com_reported id : id ∈ reported st ↔ rep id
}.

Lemma composed_proper sel rep sel' rep' st s :
  (∀ id, sel id ↔ sel' id) → (∀ id, rep id ↔ rep' id) → composed sel rep st s → composed sel' rep' st s.
Proof. intros H1 H2 [C1 C2 C3 C4]. split; [done..| |]; intros id; [rewrite <-H1|rewrite <-H2]; done. Qed.

Lemma supersede_yields sel rep n c st :
  yields (composed sel rep st) (supersede w fuel actor repo n c st)
    (stage (composed sel (λ id, rep id ∨ oe_id (sc_entry c) = id)) waiting).
Proof.
  unfold supersede. intros s r s' Hs H.
  destruct (withhold_local_yields _ _ _ _ _ _ _ (com_waiting _ _ _ _ Hs) H) as (a & -> & Ha).
  exists a. split; [done|]. unfold stage in *. destruct a as [st' [e|]]; cbn in *; [done|].
  destruct Ha as (-> & _ & Hw). destruct Hs as [_ H2 H3 H4]. split; [done..|].
  intros id. unfold reported. cbn. rewrite fmap_app, elem_of_app. cbn. rewrite list_elem_of_singleton.
  rewrite <-H4. naive_solver.
Qed.

Lemma supersede_all_yields sel rep n cs st :
  yields (composed sel rep st) (each (supersede w fuel actor repo n) cs st)
    (stage (composed sel (λ id, rep id ∨ ∃ c, c ∈ cs ∧ oe_id (sc_entry c) = id)) waiting).
Proof.
  eapply yields_weaken; [eapply (each_yields (λ pre, composed sel (λ id, rep id ∨ ∃ c, c ∈ pre ∧ oe_id (sc_entry c) = id)))| |];
    [|intros s|by intros a s].
  - intros pre x post st' _. eapply yields_weaken; [apply supersede_yields|done|].
    intros [st'' [e|]] s; unfold stage; cbn; [done|]. apply composed_proper; [done|].
    intros id. setoid_rewrite elem_of_app. setoid_rewrite list_elem_of_singleton. naive_solver.
  - apply composed_proper; [done|]. intros id. setoid_rewrite elem_of_nil. naive_solver.
Qed.

Lemma removelast_snoc {A} (xs : list A) x : removelast (xs ++ [x]) = xs.
Proof. apply removelast_last. Qed.

Lemma compose_group_yields rs r st :
  yields (composed (λ id, is_direct id ∨ newest_of rs id) (λ id, is_refused id ∨ older_of rs id) st)
    (compose_group w fuel actor repo r st)
    (stage (composed (λ id, is_direct id ∨ newest_of (rs ++ [r]) id)
              (λ id, is_refused id ∨ older_of (rs ++ [r]) id)) waiting).
Proof.
  intros s x s' Hs H. unfold compose_group in H. rewrite (com_groups _ _ _ _ Hs) in H.
  assert (Hn : ∀ id, newest_of (rs ++ [r]) id ↔ newest_of rs id
    ∨ ∃ c, last (candidates p0 r l) = Some c ∧ oe_id (sc_entry c) = id).
  { intros id. unfold newest_of. setoid_rewrite elem_of_app. setoid_rewrite list_elem_of_singleton. naive_solver. }
  assert (Ho : ∀ id, older_of (rs ++ [r]) id ↔ older_of rs id
    ∨ ∃ c, c ∈ removelast (candidates p0 r l) ∧ oe_id (sc_entry c) = id).
  { intros id. unfold older_of. setoid_rewrite elem_of_app. setoid_rewrite list_elem_of_singleton. naive_solver. }
  destruct (last (candidates p0 r l)) as [c|] eqn:El.
  - eapply (supersede_all_yields (λ id, (is_direct id ∨ newest_of rs id) ∨ oe_id (sc_entry c) = id)
      (λ id, is_refused id ∨ older_of rs id)) in H as (a & -> & Ha).
    + exists a. split; [done|]. revert Ha. destruct a as [st' [e|]]; unfold stage; cbn; [done|].
      apply composed_proper.
      * intros id. rewrite Hn. naive_solver.
      * intros id. rewrite Ho. naive_solver.
    + destruct Hs as [[[K1 K2 K3] Kp Kc] H2 H3 H4]. split; [by split|done| |done].
      intros id. cbn. rewrite elem_of_union, elem_of_singleton, H3. naive_solver.
  - apply cret_inv in H as [-> ->]. eexists. split; [done|]. unfold stage. cbn. revert Hs. apply composed_proper.
    + intros id. rewrite Hn. naive_solver.
    + intros id. rewrite Ho. apply last_None in El. rewrite El. cbn. setoid_rewrite elem_of_nil. naive_solver.
Qed.

(** ** The third loop *)
Hypothesis Hl : l = Outbox p0 repo.

Lemma entry_row e : e ∈ l →
  ∃ r, outbox_entries p0 !! oe_id e = Some r ∧ ob_repo r = repo ∧ e = scanOutbox p0 (oe_id e) r.
Proof.
  rewrite Hl. unfold Outbox. intros ([k r] & -> & [Hk Hg]%(elem_of_select TOutbox))%list_elem_of_fmap.
  cbn in *. inv_bool. eauto.
Qed.

Lemma row_entry id r : outbox_entries p0 !! id = Some r → ob_repo r = repo → scanOutbox p0 id r ∈ l.
Proof.
  intros Hr Hrepo. rewrite Hl. unfold Outbox. apply list_elem_of_fmap. exists (id, r). split; [done|].
  apply (elem_of_select TOutbox). split; [done|]. by apply bool_decide_eq_true_2.
Qed.

Lemma entries_once : NoDup (oe_id <$> l).
Proof.
  rewrite Hl. unfold Outbox. rewrite <-list_fmap_compose. apply NoDup_fmap_2_strong; [|apply (select_NoDup TOutbox)].
  intros [k r] [k' r'] [Hk _]%(elem_of_select TOutbox) [Hk' _]%(elem_of_select TOutbox) E. cbn in *. subst k'.
  congruence.
Qed.

Lemma same_entry e e' : e ∈ l → e' ∈ l → oe_id e = oe_id e' → e = e'.
Proof.
  intros (r & Hr & _ & He)%entry_row (r' & Hr' & _ & He')%entry_row E. rewrite E in Hr, He. congruence.
Qed.

Lemma candidate_entry r c : c ∈ candidates p0 r l →
  sc_entry c ∈ l ∧ oe_ref (sc_entry c) = r ∧ eligible p0 (sc_entry c) = Some (sc_disposition c).
Proof.
  intros (e & He & Hc)%list_elem_of_omap. unfold candidate in Hc.
  destruct (eligible p0 e) as [d|] eqn:E; [|discriminate]. cbn in Hc. case_bool_decide; [|discriminate].
  by injection Hc as <-.
Qed.

Lemma eligible_state e d : eligible p0 e = Some d → approved e = true ∧ is_state e = true ∧ oe_ref e ≠ "".
Proof. unfold eligible. intros H. case_match; [|discriminate]. by inv_bool. Qed.

Lemma candidates_once r : NoDup (oe_id ∘ sc_entry <$> candidates p0 r l).
Proof.
  pose proof entries_once as Hnd. unfold candidates. clear Hl. induction l as [|e m IH]; cbn; [constructor|].
  cbn in Hnd. apply NoDup_cons in Hnd as [Hn Hnd]. specialize (IH Hnd). unfold candidate at 1.
  destruct (eligible p0 e) as [d|]; cbn; [|done]. case_bool_decide; [|done]. cbn. apply NoDup_cons. split; [|done].
  intros (c & Hc & (e' & He' & Hc')%list_elem_of_omap)%list_elem_of_fmap. apply Hn. apply list_elem_of_fmap.
  exists e'. split; [|done]. rewrite Hc. cbn. unfold candidate in Hc'. destruct (eligible p0 e'); [|discriminate].
  cbn in Hc'. case_bool_decide; [|discriminate]. by injection Hc' as <-.
Qed.

Definition sent (e : OutboxEntry) : bool := direct e || newest p0 l e.

(** A state entry that is sent is the newest candidate of its reference. *)
Lemma newest_candidate e : e ∈ l → newest p0 l e = true →
  ∃ c, last (candidates p0 (oe_ref e) l) = Some c ∧ sc_entry c = e.
Proof.
  unfold newest. intros He Hn. destruct (last _) as [c|] eqn:El; [|discriminate]. inv_bool. exists c.
  split; [done|]. apply last_Some in El as [cs El].
  destruct (candidate_entry (oe_ref e) c) as (? & _); [rewrite El; set_solver|]. by apply same_entry.
Qed.

Lemma newest_state e : e ∈ l → newest p0 l e = true → is_state e = true ∧ oe_ref e ≠ "" ∧ approved e = true.
Proof.
  intros He Hn. destruct (newest_candidate e He Hn) as (c & El & <-). apply last_Some in El as [cs El].
  destruct (candidate_entry (oe_ref (sc_entry c)) c) as (_ & _ & Hel); [rewrite El; set_solver|].
  by apply eligible_state in Hel as (? & ? & ?).
Qed.

(** One state entry per reference. *)
Lemma sent_once e e' : e ∈ l → e' ∈ l → sent e = true → sent e' = true →
  is_state e = true → is_state e' = true → oe_ref e = oe_ref e' → e = e'.
Proof.
  unfold sent, direct. intros He He' Hs Hs' Hk Hk' Href. rewrite Hk in Hs. rewrite Hk' in Hs'.
  rewrite andb_false_r in Hs, Hs'. cbn in Hs, Hs'.
  destruct (newest_candidate e He Hs) as (c & Hc & <-), (newest_candidate e' He' Hs') as (c' & Hc' & <-).
  rewrite Href in Hc. congruence.
Qed.

Context (rs : list string).
Hypothesis Hrs : ∀ r, candidates p0 r l ≠ [] → r ∈ rs.

Definition chosen (id : string) : Prop := is_direct id ∨ newest_of rs id.
Definition withdrawn (id : string) : Prop := is_refused id ∨ older_of rs id.

Lemma chosen_sent e : e ∈ l → chosen (oe_id e) ↔ sent e = true.
Proof.
  intros He. unfold chosen, sent. rewrite orb_true_iff. split; intros [H|H].
  - destruct H as (e' & He' & E & Hd). left. by rewrite <-(same_entry e' e).
  - destruct H as (r & c & _ & Hc & E). right. apply last_Some in Hc as [cs Hc].
    destruct (candidate_entry r c) as (Hin & Href & _); [rewrite Hc; set_solver|].
    rewrite (same_entry _ e Hin He E) in Href. subst r. unfold newest. rewrite Hc, last_snoc.
    by apply bool_decide_eq_true_2.
  - left. by exists e.
  - right. destruct (newest_candidate e He H) as (c & Hc & <-). exists (oe_ref (sc_entry c)), c.
    split_and!; [|done..]. apply Hrs. intros E. by rewrite E in Hc.
Qed.

Lemma sent_stays e : e ∈ l → sent e = true → ¬ withdrawn (oe_id e).
Proof.
  intros He Hs [(e' & He' & E & Hr)|(r & c & _ & Hc & E)].
  - rewrite (same_entry e' e He' He E) in Hr. unfold refused in Hr. inv_bool.
    unfold sent, direct in Hs. match goal with H : is_state e = true |- _ => rewrite H, andb_false_r in Hs end.
    destruct (newest_candidate e He Hs) as (c & [cs Hc]%last_Some & <-).
    destruct (candidate_entry (oe_ref (sc_entry c)) c) as (_ & _ & Hel); [rewrite Hc; set_solver|].
    by rewrite Hel in *.
  - assert (Hin : c ∈ candidates p0 r l).
    { destruct (candidates p0 r l) as [|x xs] eqn:El using rev_ind; [by apply elem_of_nil in Hc|].
      rewrite removelast_snoc in Hc. set_solver. }
    destruct (candidate_entry r c Hin) as (Hin' & Href & Hel). rewrite (same_entry _ e Hin' He E) in *.
    destruct (eligible_state _ _ Hel) as (_ & Hst & _). unfold sent, direct in Hs. rewrite Hst, andb_false_r in Hs.
    destruct (newest_candidate e He Hs) as (c' & [cs Hc']%last_Some & E').
    rewrite Href in Hc'. pose proof (candidates_once r) as Hnd. rewrite Hc' in Hc, Hnd.
    rewrite removelast_snoc in Hc. rewrite fmap_app in Hnd. apply NoDup_app in Hnd as (_ & Hnd & _).
    apply (Hnd (oe_id e)); [|cbn; rewrite E'; set_solver]. apply list_elem_of_fmap. exists c. by rewrite <-E.
Qed.

(** What every call was: the entry as the store held it, answered from the calls
    before it. *)
Definition calls_ok (deliver : Seam) (calls : list Call) : Prop :=
  ∀ i c, calls !! i = Some c →
    view_OutboxEntry (ca_proj c) repo (oe_id (ca_entry c)) = Ok (ca_entry c)
    ∧ ca_answer c = deliver (take i calls) (ca_entry c).

Lemma calls_ok_snoc deliver calls c :
  calls_ok deliver calls → view_OutboxEntry (ca_proj c) repo (oe_id (ca_entry c)) = Ok (ca_entry c) →
  ca_answer c = deliver calls (ca_entry c) → calls_ok deliver (calls ++ [c]).
Proof.
  intros Hc Hv Ha i x [Hx|[Hi Hx]]%lookup_app_Some.
  - rewrite take_app_le by (apply lookup_lt_Some in Hx; lia). by apply Hc.
  - apply list_lookup_singleton_Some in Hx as [Hi' <-]. rewrite take_app_ge, Hi' by lia. cbn. by rewrite app_nil_r.
Qed.

Record delivering (deliver : Seam) (pre : list OutboxEntry) (st : Flushing) (s : Store) : Prop := {
  del_kept : kept repo p0 st (s_proj s);
  del_selected id : id ∈ fl_selected st ↔ chosen id;
  del_reported id : id ∈ reported st ↔ withdrawn id ∨ ∃ e, e ∈ pre ∧ oe_id e = id ∧ sent e = true;
  del_push x : (∀ e, e ∈ pre → sent e = true → is_state e = true → oe_ref e ≠ x) →
    tracker_push_records (s_proj s) !! x = tracker_push_records p0 !! x;
  del_calls : ca_entry <$> fl_calls st = filter sent pre;
  del_ok : calls_ok deliver (fl_calls st)
}.

(** What an error leaves. *)
Record stopped (deliver : Seam) (st : Flushing) (s : Store) : Prop := {
  stop_kept : kept repo p0 st (s_proj s);
  stop_calls : (ca_entry <$> fl_calls st) `prefix_of` to_send p0 l;
  stop_ok : calls_ok deliver (fl_calls st)
}.

Lemma fresh_entry deliver pre x post st s :
  delivering deliver pre st s → l = pre ++ x :: post → sent x = true →
  view_OutboxEntry (s_proj s) repo (oe_id x) = Ok x ∧ oe_id x ∉ reported st.
Proof.
  intros Hd Hpre Hx. assert (Hin : x ∈ l) by (rewrite Hpre; set_solver).
  assert (Hnew : ∀ e, e ∈ pre → oe_id e ≠ oe_id x).
  { intros e He E. pose proof entries_once as Hnd. rewrite Hpre, fmap_app in Hnd.
    apply NoDup_app in Hnd as (_ & Hnd & _). apply (Hnd (oe_id e)); [by apply list_elem_of_fmap_2|].
    rewrite E. cbn. left. }
  assert (Hnr : oe_id x ∉ reported st).
  { rewrite (del_reported _ _ _ _ Hd). intros [H|(e & He & E & _)]; [by eapply sent_stays|by eapply Hnew]. }
  split; [|done]. destruct (entry_row x Hin) as (r & Hr & Hrepo & Hx').
  unfold view_OutboxEntry. rewrite (kept_rest _ _ _ _ (del_kept _ _ _ _ Hd)) by done.
  rewrite Hr, bool_decide_eq_true_2 by done. f_equal. rewrite Hx' at 2. unfold scanOutbox. f_equal.
  case_bool_decide as Hk; [|done]. destruct (ob_ref r) as [y|] eqn:Ey; [|done]. cbn.
  rewrite (del_push _ _ _ _ Hd); [done|]. intros e He Hs Hst Href. subst y.
  assert (Hxs : is_state x = true) by (rewrite Hx'; by apply bool_decide_eq_true_2).
  apply (Hnew e He). f_equal. apply sent_once; try done; [rewrite Hpre; set_solver|].
  rewrite Hx'. cbn. by rewrite Ey.
Qed.

Lemma filter_prefix pre post : l = pre ++ post → filter sent pre `prefix_of` to_send p0 l.
Proof. intros E. exists (filter sent post). rewrite <-filter_app, <-E. done. Qed.

Lemma filter_sent_snoc pre x : sent x = true → filter sent (pre ++ [x]) = filter sent pre ++ [x].
Proof. intros Hx. rewrite filter_app, filter_cons_True, filter_nil; [done|]. by rewrite Hx. Qed.

Lemma snoc_ex pre x id :
  (∃ e, e ∈ pre ++ [x] ∧ oe_id e = id ∧ sent e = true)
  ↔ (∃ e, e ∈ pre ∧ oe_id e = id ∧ sent e = true) ∨ (oe_id x = id ∧ sent x = true).
Proof. setoid_rewrite elem_of_app. setoid_rewrite list_elem_of_singleton. naive_solver. Qed.

Lemma delivered_skip deliver pre x st s :
  delivering deliver pre st s → sent x = false → delivering deliver (pre ++ [x]) st s.
Proof.
  intros [D1 D2 D3 D4 D5 D6] Hx. split; [done..| | | |done].
  - intros id. rewrite D3, snoc_ex, Hx. naive_solver.
  - intros y Hy. apply D4. intros e He. apply Hy. set_solver.
  - by rewrite D5, filter_app, filter_cons_False, filter_nil, app_nil_r by (rewrite Hx; by intros ?).
Qed.

Lemma delivered_one deliver pre x post st s s' state reason answer :
  l = pre ++ x :: post → delivering deliver pre st s → sent x = true →
  settled repo (oe_id x) (durable state) (utf8_coerce reason) (s_proj s) (s_proj s') →
  calls_ok deliver (fl_calls st ++ [MkCall (s_proj s) x answer]) →
  delivering deliver (pre ++ [x])
    (report_entry (MkEntryResult (oe_id x) state reason) (called (MkCall (s_proj s) x answer) st)) s'.
Proof.
  intros Hpre [D1 D2 D3 D4 D5 D6] Hx Hset Hcalls.
  assert (Hk : kept repo p0 (called (MkCall (s_proj s) x answer) st) (s_proj s)) by (destruct D1; by split).
  destruct (kept_settled _ _ _ _ _ _ _ _ Hk Hset) as [_ Hk']. split; [done|done|..|done].
  - intros id. unfold reported. cbn. rewrite fmap_app, elem_of_app. cbn. rewrite list_elem_of_singleton, snoc_ex, Hx.
    unfold reported in D3. rewrite D3. naive_solver.
  - intros y Hy. destruct Hset as (r & inc & e & Hr & Hrepo & _ & _ & Hp).
    assert (Hin : x ∈ l) by (rewrite Hpre; set_solver).
    assert (tracker_push_records (s_proj s') !! y = tracker_push_records (s_proj s) !! y) as ->.
    2: { apply D4. intros e' He'. apply Hy. set_solver. }
    destruct Hp as [->|(_ & Hkind & z & row & Href & ->)]; [done|]. apply lookup_insert_ne. intros ->.
    destruct (fresh_entry deliver pre x post st s) as [Hv _]; [by split|done..|].
    unfold view_OutboxEntry in Hv. rewrite Hr, bool_decide_eq_true_2 in Hv by done. injection Hv as Hv.
    apply (Hy x); [set_solver|done|..]; rewrite <-Hv; [by apply bool_decide_eq_true_2|]. cbn. by rewrite Href.
  - cbn [fl_calls report_entry called]. by rewrite fmap_app, filter_sent_snoc, D5.
Qed.

Lemma deliver_entry_yields deliver pre x post st :
  l = pre ++ x :: post →
  yields (delivering deliver pre st) (deliver_entry w fuel actor repo deliver x st)
    (stage (delivering deliver (pre ++ [x])) (stopped deliver)).
Proof.
  intros Hpre. assert (Hin : x ∈ l) by (rewrite Hpre; set_solver). intros s r s' Hd H. unfold deliver_entry in H.
  pose proof (del_selected _ _ _ _ Hd (oe_id x)) as Hsel. rewrite (chosen_sent x Hin) in Hsel.
  case_bool_decide as Hc; cbn [negb] in H.
  2: { apply cret_inv in H as [-> ->]. eexists. split; [done|]. apply delivered_skip; [done|].
       destruct (sent x); [|done]. naive_solver. }
  assert (Hx : sent x = true) by by apply Hsel.
  destruct (fresh_entry deliver pre x post st s Hd Hpre Hx) as [Hv _].
  assert (Hok : calls_ok deliver (fl_calls st ++ [MkCall (s_proj s) x (deliver (fl_calls st) x)])).
  { apply calls_ok_snoc; [by eapply del_ok|done..]. }
  unfold mbind, cmd_bind, cread, attempt in H. cbv zeta in H.
  destruct (recordResult w fuel actor repo x (call_result (deliver (fl_calls st) x)) s) as [[[sr|e] s1]|] eqn:Er;
    [| |discriminate]; apply cret_inv in H as [-> ->]; eexists; (split; [done|]).
  - apply recordResult_settled in Er. by eapply delivered_one.
  - apply recordResult_atomic in Er as [_ Eq]. split; cbn.
    + rewrite Eq. destruct Hd as [[K1 K2 K3] _]. by split.
    + rewrite fmap_app, (del_calls _ _ _ _ Hd).
      cbn [fmap list_fmap ca_entry]. rewrite <-filter_sent_snoc by done. apply (filter_prefix _ post). by rewrite <-app_assoc.
    + done.
Qed.

(** Every approved entry was withdrawn or is to be sent. *)
Lemma approved_covered e : e ∈ l → approved e = true → withdrawn (oe_id e) ∨ sent e = true.
Proof.
  intros He Ha. unfold sent, direct. rewrite Ha. destruct (is_state e) eqn:Hk; cbn; [|by right].
  destruct (eligible p0 e) as [d|] eqn:Hel.
  2: { left. left. exists e. split_and!; [done..|]. unfold refused. by rewrite Ha, Hk, Hel. }
  assert (Hc : MkStateCandidate e d ∈ candidates p0 (oe_ref e) l).
  { apply list_elem_of_omap. exists e. split; [done|]. unfold candidate. rewrite Hel. cbn.
    by rewrite bool_decide_eq_true_2. }
  destruct (candidates p0 (oe_ref e) l) as [|c cs _] eqn:Ecs using rev_ind; [by apply elem_of_nil in Hc|].
  apply elem_of_app in Hc as [Hc|<-%list_elem_of_singleton].
  - left. right. exists (oe_ref e), (MkStateCandidate e d). split_and!; [apply Hrs; by rewrite Ecs; destruct cs| |done].
    by rewrite Ecs, removelast_snoc.
  - right. unfold newest. rewrite Ecs, last_snoc. by apply bool_decide_eq_true_2.
Qed.

(** What Flush leaves when it returns no error. *)
Record flushed (deliver : Seam) (st : Flushing) (s : Store) : Prop := {
  flushed_kept : kept repo p0 st (s_proj s);
  flushed_all : reported st ≡ₚ oe_id <$> filter approved l;
  flushed_calls : ca_entry <$> fl_calls st = to_send p0 l;
  flushed_ok : calls_ok deliver (fl_calls st)
}.

Lemma delivering_flushed deliver st s : delivering deliver l st s → flushed deliver st s.
Proof.
  intros [D1 D2 D3 D4 D5 D6]. split; [done| |by rewrite D5|done].
  apply NoDup_Permutation; [by apply D1| |].
  { apply NoDup_fmap_2_strong; [|apply NoDup_filter, (NoDup_fmap_1 oe_id), entries_once].
    intros e e' [_ He]%list_elem_of_filter [_ He']%list_elem_of_filter. by apply same_entry. }
  intros id. rewrite list_elem_of_fmap. split.
  - intros Hid. pose proof Hid as (x & -> & Hx)%list_elem_of_fmap.
    destruct (kept_done _ _ _ _ D1 x Hx) as (r & _ & _ & Hr & Hrepo & Hst & _).
    exists (scanOutbox p0 (er_id x) r). split; [done|]. apply list_elem_of_filter. split; [|by apply row_entry].
    unfold approved. cbn. by rewrite bool_decide_eq_true_2.
  - intros (e & -> & [Ha He]%list_elem_of_filter). rewrite D3.
    destruct (approved_covered e He) as [?|?]; [by apply Is_true_true_1|by left|right; eauto].
Qed.
End loops.

Lemma Flush_yields w fuel errText visit actor repo p0 deliver :
  (∀ g, visit g ≡ₚ (map_to_list g).*1) →
  yields (λ s, s_proj s = p0) (Flush w fuel errText visit actor repo (Some deliver))
    (stage (flushed repo p0 (Outbox p0 repo) deliver) (stopped repo p0 (Outbox p0 repo) deliver)).
Proof.
  intros Hvisit. cbn [Flush]. apply yields_read. intros l s r s' [Hs Hl]. rewrite Hs in Hl. subst l.
  set (l := Outbox p0 repo). set (K := stopped repo p0 l deliver).
  assert (Hstop : ∀ st s, waiting repo p0 st s → K st s).
  { intros st s0 [H1 H2 H3]. split; [done|rewrite H3; apply prefix_nil|rewrite H3; by intros i c ?]. }
  assert (Hstage : ∀ (J : Flushing → Store → Prop) a s, stage J (waiting repo p0) a s → stage J K a s).
  { intros J [st [e|]] s0; unfold stage; cbn; auto. }
  revert s r s' Hs. change (yields (λ s, s_proj s = p0) (then_stage (each (triage w fuel errText actor repo) l flushing0)
    (λ st, then_stage (each (compose_group w fuel actor repo) (visit (fl_groups st)) st)
      (λ st, each (deliver_entry w fuel actor repo deliver) l st))) (stage (flushed repo p0 l deliver) K)).
  eapply (then_stage_yields _ (triaged repo p0 l)).
  - eapply yields_weaken; [eapply (each_yields (triaged repo p0))| |apply Hstage].
    + intros pre x post st _. apply triage_yields.
    + intros s Hs. split; [split; [split|by rewrite Hs|done]|..]; cbn; rewrite ?Hs.
      * done.
      * by intros x ?%elem_of_nil.
      * constructor.
      * intros id. setoid_rewrite elem_of_nil. set_solver.
      * intros r. by rewrite lookup_empty.
      * intros id. unfold reported. cbn. setoid_rewrite elem_of_nil. naive_solver.
  - intros st. set (rs := visit (fl_groups st)).
    eapply (then_stage_yields _ (λ st s, composed repo p0 l (chosen p0 l rs) (withdrawn p0 l rs) st s
      ∧ ∀ r, candidates p0 r l ≠ [] → r ∈ rs)).
    + intros s r s' Ht H. assert (Hrs : ∀ r, candidates p0 r l ≠ [] → r ∈ rs).
      { intros x Hx. rewrite <-(tri_groups _ _ _ _ _ Ht) in Hx. unfold rs. rewrite (Hvisit (fl_groups st)).
        destruct (fl_groups st !! x) as [cs|] eqn:Ex; [|done]. apply list_elem_of_fmap. exists (x, cs).
        split; [done|]. by apply elem_of_map_to_list. }
      eapply (each_yields (λ pre, composed repo p0 l (chosen p0 l pre) (withdrawn p0 l pre)) (waiting repo p0)) in H
        as (a & -> & Ha).
      * exists a. split; [done|]. apply Hstage. revert Ha. destruct a as [st' [e|]]; unfold stage; cbn; [done|].
        intros Ha. by split.
      * intros pre x post st' _. apply compose_group_yields.
      * destruct Ht as [T1 T2 T3 T4]. split; [done..| |]; intros id; unfold chosen, withdrawn, newest_of, older_of.
        -- rewrite T2. setoid_rewrite elem_of_nil. unfold is_direct. naive_solver.
        -- rewrite T4. setoid_rewrite elem_of_nil. unfold is_refused. naive_solver.
    + intros st'. intros s r s' [Hc Hrs] H.
      eapply (each_yields (delivering repo p0 l rs deliver) K) in H as (a & -> & Ha).
      * exists a. split; [done|]. revert Ha. destruct a as [st'' [e|]]; unfold stage; cbn; [done|].
        by apply (delivering_flushed repo p0 l eq_refl rs Hrs).
      * intros pre x post st''. apply (deliver_entry_yields w fuel actor repo p0 l eq_refl rs Hrs).
      * destruct Hc as [[C1 C2 C3] C4 C5 C6]. split; [done..| | | |].
        -- intros id. rewrite C6. setoid_rewrite elem_of_nil. naive_solver.
        -- intros x _. by rewrite C2.
        -- by rewrite C3.
        -- rewrite C3. by intros i c ?.
Qed.
