(* ===== verification/Alignment.v ===== *)
(** Provider resolution and the post-seal comparison (src/internal/tracker:
    registry.go, resolve.go, state.go, alignment.go).  After a command sealed a
    Matter, Check compares what the tracker shows for each of its references with
    what the store expects, and offers a forward move where the tracker is behind.

    Providers are not part of the program: a [Provider] is what a factory built, a
    delivery function and, when it has the capability, a reader of live states;
    both answer the text of a Go error on the left.  [errText] is the text of a
    message of this program: messages are not rendered here (some quote with %q),
    only told apart. *)
From stdpp Require Import gmap.
From S2P Require Import Prelude GoStd Ulid Taxonomy Json Payloads Tables View Gates Project Store.
From S2P Require Import Command Config Tracker.

(** ** state.go *)
Inductive LiveClass :=
| LiveBacklog
| LiveActive
| LiveNonterminal
| LiveCompleted
| LiveCanceled
| LiveTerminal.

#[global] Instance LiveClass_eq_dec : EqDecision LiveClass.
Proof. solve_decision. Defined.

Definition LiveClass_str (x : LiveClass) : string :=
  match x with
  | LiveBacklog => "backlog"
  | LiveActive => "active"
  | LiveNonterminal => "nonterminal"
  | LiveCompleted => "completed"
  | LiveCanceled => "canceled"
  | LiveTerminal => "terminal"
  end.

#[global] Instance LiveClass_enum : Enum LiveClass.
Proof. refine {| enum_all := [LiveBacklog; LiveActive; LiveNonterminal; LiveCompleted; LiveCanceled; LiveTerminal]; enum_str := LiveClass_str |}; solve_enum. Defined.

(** The class is a Go string: a provider may return any. *)
Record LiveState := MkLiveState { lv_class : string; lv_display : string; lv_lease : string }.

Definition StateReader : Type := string → string + LiveState.

(** ** registry.go *)
Record FactoryInput := MkFactoryInput {
  fi_repo : string * RepoRow; fi_target : string; fi_canceled_label : string; fi_project : string
}.

Record Provider := MkProvider { pv_deliver : Seam; pv_reader : option StateReader }.

Definition Factory : Type := FactoryInput → result Provider.
Definition ProviderRegistry : Type := gmap string Factory.

Definition NewRegistry : ProviderRegistry := ∅.

(** A malformed or duplicate registration panics. *)
Definition Register (r : ProviderRegistry) (name : string) (factory : option Factory) : result ProviderRegistry :=
  let name := TrimSpace name in
  match factory with
  | None => Error (ERefuse "panic: a provider registration needs a name and factory")
  | Some f =>
      ensure (negb (bool_decide (name = ""))) (ERefuse "panic: a provider registration needs a name and factory") ;;
      ensure (negb (is_some (r !! name))) (ERefuse "panic: duplicate provider registration") ;;
      Ok (<[name := f]> r)
  end.

(** [None] is the nil registry. *)
Definition registry_Names (r : option ProviderRegistry) : list string :=
  match r with
  | None => []
  | Some m => order_by String.leb ((map_to_list m).*1)
  end.

Definition registry_Resolve (r : option ProviderRegistry) (name : string) (input : FactoryInput) : result Provider :=
  match r ≫= λ m, m !! name with
  | Some factory => factory input
  | None => Error (ERefuse "tracker: backend is not registered")
  end.

(** ** resolve.go *)
Definition TrackerTargetKey : string := "tracker.target".
Definition TrackerCanceledLabelKey : string := "tracker.canceled-label".
Definition TrackerProjectKey : string := "tracker.project".

(** The zero Repo is [None]. *)
Record SeamConfig := MkSeamConfig {
  sm_backend : string; sm_target : string; sm_canceled_label : string; sm_project : string;
  sm_repo : option (string * RepoRow)
}.

Definition ErrNoBackend : Err := ERefuse "tracker: no provider seam configured".

Definition backendConfigured (backend : string) : bool :=
  negb (bool_decide (backend = "")) && negb (bool_decide (backend = "none")).

Definition Configured (c : SeamConfig) : bool := backendConfigured (sm_backend c).

Definition ReadSeamConfig (p : Proj) (repoID : string) : result SeamConfig :=
  let get key := coalesce (view_Config p repoID key) in
  let backend := TrimSpace (get TrackerBackendKey) in
  if negb (backendConfigured backend) then Ok (MkSeamConfig backend "" "" "" None)
  else
    repo ← view_Repo p repoID;
    Ok (MkSeamConfig backend (get TrackerTargetKey) (get TrackerCanceledLabelKey) (get TrackerProjectKey)
          (Some (repoID, repo))).

Definition seam_input (c : SeamConfig) (repo : string * RepoRow) : FactoryInput :=
  MkFactoryInput repo (sm_target c) (sm_canceled_label c) (sm_project c).

Definition ResolveSeam (p : Proj) (providers : option ProviderRegistry) (repoID : string)
    : result (Provider * SeamConfig) :=
  config ← ReadSeamConfig p repoID;
  match sm_repo config with
  | Some repo =>
      ensure (Configured config) ErrNoBackend ;;
      seam ← registry_Resolve providers (sm_backend config) (seam_input config repo);
      Ok (seam, config)
  | None => Error ErrNoBackend
  end.

(** ** alignment.go *)
Inductive AlignmentClass :=
| AlignmentAligned
| AlignmentAhead
| AlignmentBehind
| AlignmentConflict
| AlignmentUnavailable.

#[global] Instance AlignmentClass_eq_dec : EqDecision AlignmentClass.
Proof. solve_decision. Defined.

(** An absent disposition is the empty Go string. *)
Record AlignmentItem := MkAlignment {
  al_reference : string; al_class : AlignmentClass; al_expected : option TrackerDisposition;
  al_observed : string; al_observed_class : string; al_lease : string;
  al_offer : option TrackerDisposition; al_reason : string
}.

Definition unavailable (ref reason : string) : AlignmentItem :=
  MkAlignment ref AlignmentUnavailable None "" "" "" None reason.

Definition unavailableForRefs (refs : list string) (reason : string) : list AlignmentItem :=
  (λ r, unavailable r reason) <$> refs.

(** The verdict and the offer, by what is expected and what is live; [None] is the
    default of the inner switch. *)
Definition align_verdict (expected : TrackerDisposition) (live : option LiveClass)
    : AlignmentClass * option TrackerDisposition :=
  match expected, live with
  | TrackerActive, Some (LiveActive | LiveNonterminal) => (AlignmentAligned, None)
  | TrackerActive, Some LiveBacklog => (AlignmentBehind, Some expected)
  | TrackerActive, Some LiveCompleted => (AlignmentAhead, None)
  | TrackerActive, _ => (AlignmentConflict, None)
  | TrackerCompleted, Some LiveCompleted => (AlignmentAligned, None)
  | TrackerCompleted, Some (LiveBacklog | LiveActive | LiveNonterminal) => (AlignmentBehind, Some expected)
  | TrackerCompleted, _ => (AlignmentConflict, None)
  | TrackerCanceled, Some LiveCanceled => (AlignmentAligned, None)
  | TrackerCanceled, Some (LiveBacklog | LiveActive | LiveNonterminal) => (AlignmentBehind, Some expected)
  | TrackerCanceled, _ => (AlignmentConflict, None)
  end.

(** [None] is the disposition TrackerAggregate answers when every bound Matter is
    still Planned. *)
Definition classifyAlignment (ref : string) (expected : option TrackerDisposition) (live : LiveState)
    : AlignmentItem :=
  match expected with
  | None => unavailable ref "unknown expected tracker disposition"
  | Some d =>
      let v := align_verdict d (enum_parse (A := LiveClass) (lv_class live)) in
      MkAlignment ref v.1 (Some d) (lv_display live) (lv_class live) (lv_lease live) v.2 ""
  end.

Definition validateLiveState (live : LiveState) : result () :=
  ensure (is_some (enum_parse (A := LiveClass) (lv_class live)))
    (ERefuse "provider returned unknown live-state class") ;;
  ensure (negb (isBlank (lv_display live) || isBlank (lv_lease live)))
    (ERefuse "provider returned live state without a display state and lease").

Definition report_Visible (items : list AlignmentItem) : bool :=
  existsb (λ i, negb (bool_decide (al_class i = AlignmentAligned))) items.

Definition disposition_str (d : option TrackerDisposition) : string :=
  match d with Some d => enum_str d | None => "" end.

Definition alignment_line (i : AlignmentItem) : option string :=
  let compared verb rest :=
    String.append "tracker " (String.append (al_reference i) (String.append verb
      (String.append "expected " (String.append (disposition_str (al_expected i))
        (String.append ", observed " (String.append (al_observed i) rest)))))) in
  match al_class i with
  | AlignmentAligned => None
  | AlignmentAhead => Some (compared " is ahead: " "")
  | AlignmentBehind =>
      Some (compared " is behind: "
        (String.append " (offer: move to " (String.append (disposition_str (al_offer i)) ")")))
  | AlignmentConflict => Some (compared " conflicts: " "")
  | AlignmentUnavailable =>
      let ref := if bool_decide (al_reference i = "") then "state" else al_reference i in
      Some (String.append "tracker " (String.append ref (String.append " is unavailable: " (al_reason i))))
  end.

Definition report_Lines (items : list AlignmentItem) : list string := omap alignment_line items.

Section check.
Context (errText : Err → string) (providers : option ProviderRegistry).

(** The body of Check's loop. *)
Definition check_reference (log : list Event) (p : Proj) (reader : StateReader) (ref : string) : AlignmentItem :=
  match TrackerAggregate log p ref with
  | Error e => unavailable ref (errText e)
  | Ok None => unavailable ref "reference has no active local binding"
  | Ok (Some expected) =>
      match reader ref with
      | inl text => unavailable ref text
      | inr live =>
          match validateLiveState live with
          | Error e => unavailable ref (errText e)
          | Ok _ => classifyAlignment ref expected live
          end
      end
  end.

Definition check_sealed (log : list Event) (p : Proj) (matter : Node) : list AlignmentItem :=
  match TrackerReferences p (n_id matter) with
  | [] => []
  | refs =>
      match ResolveSeam p providers (n_repo matter) with
      | Error e =>
          unavailableForRefs refs (if bool_decide (e = ErrNoBackend) then "tracker backend is none" else errText e)
      | Ok (seam, config) =>
          match pv_reader seam with
          | None => unavailableForRefs refs
              (errText (ERefuse (String.append "no live-state reads: tracker backend " (sm_backend config))))
          | Some reader => check_reference log p reader <$> refs
          end
      end
  end.

Definition Check_alignment (log : list Event) (p : Proj) (matterID : string) : list AlignmentItem :=
  match view_Node p matterID with
  | Error e => [unavailable "" (errText e)]
  | Ok matter =>
      if negb (bool_decide (n_kind matter = ScaleMatter)) then []
      else
        match view_NodeCompletion log p matter with
        | Error e => [unavailable "" (errText e)]
        | Ok completion => if negb (Sealed completion) then [] else check_sealed log p matter
        end
  end.
End check.
