(* ===== verification/AlignFacts.v ===== *)
(** Facts about the post-seal comparison (Alignment.v): what TrackerAggregate
    answers for a reference of a sealed Matter, and what Check makes of it. *)
From stdpp Require Import gmap.
From S2P Require Import Prelude GoStd Ulid Taxonomy Json Payloads Tables View Gates Project Store.
From S2P Require Import Steps Invariants Shape Replay Mint Reach Completion Command Config Tracker Alignment.

(** A Matter that still has to be delivered keeps the reference active. *)
Definition unsettled (p : Proj) (m : Node) : bool :=
  match nodes p !! n_id m with
  | Some r => negb (bool_decide (nd_lifecycle r = Canceled)) && negb (archived_row p (n_id m) r)
  | None => false
  end.

Section aggregate.
Context (log : list Event) (p : Proj) (Hg : gates_logged log p) (Hsh : shape_ok p).

Definition live_matter (m : Node) : Prop :=
  ∃ id r, m = scanNode id r ∧ nodes p !! id = Some r ∧ nd_kind r = ScaleMatter ∧ nd_tombstone r = None.

Lemma archived_done id r : archived_row p id r = true → nd_lifecycle r = Done.
Proof. unfold archived_row. intros H. by inv_bool. Qed.

(** The loop, from a count of sealed Matters that is not zero or will not be. *)
Lemma aggregate_loop_spec ms k :
  Forall live_matter ms →
  ((0 < k)%nat ∨ ∃ m r, m ∈ ms ∧ nodes p !! n_id m = Some r ∧ archived_row p (n_id m) r = true) →
  aggregate_loop log p ms k = Ok (if existsb (unsettled p) ms then TrackerActive else TrackerCompleted).
Proof using Hg Hsh.
  intros Hms. revert k. induction Hms as [|m ms (id & r & -> & Hr & Hk & Ht) Hms IH]; intros k H; cbn [aggregate_loop existsb].
  { destruct H as [H|(m & _ & []%elem_of_nil & _)]. by rewrite (proj2 (Nat.ltb_lt 0 k) H). }
  unfold unsettled at 1. cbn [n_id scanNode n_lifecycle]. rewrite Hr.
  destruct (bool_decide (nd_lifecycle r = Canceled)) eqn:Ec; cbn [negb andb orb].
  - apply IH. destruct H as [H|(m & x & [->|Hm]%elem_of_cons & Hx & Ha)]; [by left| |right; eauto].
    cbn in Hx, Ha. rewrite Hr in Hx. injection Hx as <-. apply archived_done in Ha. inv_bool. congruence.
  - destruct (matter_sealed log p id r Hg Hsh Hr Hk Ht) as (c & -> & Hs). cbn. rewrite Hs.
    destruct (archived_row p id r) eqn:Ea; cbn [negb orb]; [|done]. apply IH. left. lia.
Qed.

Lemma bound_matters_live r : Forall live_matter (bound_matters p r).
Proof.
  apply Forall_forall. unfold bound_matters.
  intros m ([id n] & -> & [Hn Hb]%(elem_of_select TNodes))%list_elem_of_fmap. cbn in *. inv_bool.
  exists id, n. split_and!; [done..|]. by apply node_live_true.
Qed.

Lemma reference_bound id n r :
  nodes p !! id = Some n → nd_kind n = ScaleMatter → nd_tombstone n = None →
  r ∈ TrackerReferences p id → scanNode id n ∈ bound_matters p r.
Proof.
  unfold TrackerReferences, bound_matters. intros Hn Hk Ht ([[m x] row] & -> & [Hx Hb]%(elem_of_select TRefs))%list_elem_of_fmap.
  cbn in *. inv_bool. subst m. apply list_elem_of_fmap. exists (id, n). split; [done|].
  apply (elem_of_select TNodes). split; [done|]. rewrite Hx, Hk. rewrite (proj2 (node_live_true n) Ht), andb_true_r.
  rewrite bool_decide_eq_true_2 by done. rewrite andb_true_r. by apply negb_true_iff.
Qed.

(** A reference of a sealed Matter is expected active or completed, never absent,
    planned or canceled. *)
Lemma aggregate_sealed id n r :
  nodes p !! id = Some n → archived_row p id n = true → r ∈ TrackerReferences p id →
  TrackerAggregate log p r
  = Ok (Some (Some (if existsb (unsettled p) (bound_matters p r) then TrackerActive else TrackerCompleted))).
Proof using Hg Hsh.
  intros Hn Ha Hr. assert (Hd := archived_done _ _ Ha).
  assert (Hin : scanNode id n ∈ bound_matters p r).
  { unfold archived_row in Ha. inv_bool. apply reference_bound; [done..| |done]. by apply node_live_true. }
  unfold TrackerAggregate. destruct (bound_matters p r) as [|m ms] eqn:Eb; [by apply elem_of_nil in Hin|].
  rewrite <-Eb in *.
  assert (forallb (λ m, bool_decide (n_lifecycle m = Planned)) (bound_matters p r) = false) as ->.
  { apply not_true_iff_false. intros H. rewrite forallb_forall in H. specialize (H _ (proj1 (list_elem_of_In _ _) Hin)).
    cbn in H. inv_bool. congruence. }
  rewrite aggregate_loop_spec; [done|apply bound_matters_live|]. right. exists (scanNode id n), n. done.
Qed.
End aggregate.

(** ** Verdicts *)
Definition movable (c : string) : Prop := c ∈ ["backlog"; "active"; "nonterminal"].

Lemma align_offer d c d' :
  (align_verdict d (enum_parse (A := LiveClass) c)).2 = Some d' →
  d' = d ∧ (align_verdict d (enum_parse (A := LiveClass) c)).1 = AlignmentBehind ∧ movable c.
Proof.
  destruct (enum_parse c) as [l|] eqn:E.
  - apply (enum_parse_Some (A := LiveClass)) in E. subst c. unfold movable.
    destruct d, l; cbn; try discriminate; intros [= <-]; split_and!; try done; set_solver.
  - destruct d; discriminate.
Qed.

Lemma align_behind d c :
  (align_verdict d c).1 = AlignmentBehind → (align_verdict d c).2 = Some d.
Proof. destruct d, c as [[]|]; cbn; by intros. Qed.

(** ** Items *)
Section items.
Context (log : list Event) (p : Proj) (Hg : gates_logged log p) (Hsh : shape_ok p).
Context (errText : Err → string) (providers : option ProviderRegistry).

Definition expects (r : string) : TrackerDisposition :=
  if existsb (unsettled p) (bound_matters p r) then TrackerActive else TrackerCompleted.

(** What an item for a reference says. *)
Record item_for (r : string) (i : AlignmentItem) : Prop := {
  item_ref : al_reference i = r;
  item_expected : al_class i ≠ AlignmentUnavailable → al_expected i = Some (expects r);
  item_offer : al_class i = AlignmentBehind ↔ is_Some (al_offer i);
  item_move : is_Some (al_offer i) → al_offer i = al_expected i ∧ movable (al_observed_class i)
}.

Lemma unavailable_item r reason : item_for r (unavailable r reason).
Proof. split; cbn; [done|done|split; [done|by intros []]|by intros []]. Qed.

Lemma classified_item r live : item_for r (classifyAlignment r (Some (expects r)) live).
Proof.
  split; cbn; [done|done| |].
  - split; [intros H; by rewrite (align_behind _ _ H)|intros [d Hd]; by apply align_offer in Hd as (_ & ? & _)].
  - intros [d Hd]. rewrite Hd. by apply align_offer in Hd as (-> & _ & ?).
Qed.

Lemma check_reference_item reader r :
  TrackerAggregate log p r = Ok (Some (Some (expects r))) → item_for r (check_reference errText log p reader r).
Proof.
  intros H. unfold check_reference. rewrite H. destruct (reader r) as [text|live]; [apply unavailable_item|].
  destruct (validateLiveState live); [apply classified_item|apply unavailable_item].
Qed.

Lemma map_items (f : string → AlignmentItem) refs :
  (∀ r, r ∈ refs → item_for r (f r)) → Forall2 item_for refs (f <$> refs).
Proof. intros H. apply Forall2_fmap_r, Forall_Forall2_diag, Forall_forall. exact H. Qed.

Lemma check_sealed_items id n :
  nodes p !! id = Some n → archived_row p id n = true →
  Forall2 item_for (TrackerReferences p id) (check_sealed errText providers log p (scanNode id n)).
Proof using Hg Hsh.
  intros Hn Ha. unfold check_sealed. cbn [n_id scanNode].
  destruct (TrackerReferences p id) as [|r0 refs] eqn:Er; [constructor|]. rewrite <-Er.
  assert (Hu : ∀ reason, Forall2 item_for (TrackerReferences p id) (unavailableForRefs (TrackerReferences p id) reason)).
  { intros reason. apply map_items. intros r _. apply unavailable_item. }
  destruct (ResolveSeam _ _ _) as [[seam config]|e]; [|apply Hu].
  destruct (pv_reader seam) as [reader|]; [|apply Hu]. apply map_items. intros r Hr. apply check_reference_item.
  by eapply aggregate_sealed.
Qed.

(** Check reads a live node, and goes on exactly when it is in the archive. *)
Lemma Check_alignment_live id n :
  nodes p !! id = Some n → nd_tombstone n = None →
  Check_alignment errText providers log p id
  = if archived_row p id n then check_sealed errText providers log p (scanNode id n) else [].
Proof using Hg Hsh.
  intros Hn Ht. unfold Check_alignment. rewrite (proj2 (view_Node_Ok p id (scanNode id n))) by eauto.
  cbn [n_kind scanNode]. case_bool_decide as Hk; cbn [negb].
  - destruct (matter_sealed log p id n Hg Hsh Hn Hk Ht) as (c & -> & ->). by destruct (archived_row p id n).
  - assert (archived_row p id n = false) as ->; [|done]. unfold archived_row. by rewrite bool_decide_eq_false_2.
Qed.

Lemma items_refs refs items : Forall2 item_for refs items → al_reference <$> items = refs.
Proof. induction 1 as [|r i refs items Hi _ IH]; cbn; [done|]. by rewrite IH, (item_ref _ _ Hi). Qed.

Lemma items_each refs items i : Forall2 item_for refs items → i ∈ items → item_for (al_reference i) i.
Proof.
  intros H Hi. apply list_elem_of_lookup in Hi as [k Hk].
  destruct (Forall2_lookup_r _ _ _ _ _ H Hk) as (r & _ & Hr). by rewrite (item_ref _ _ Hr).
Qed.
End items.
