(* ===== verification/Doctor.v ===== *)
(** wip doctor's checks over the store (src/internal/guards: guards.go, cycles.go,
    gateorder.go, inerttracker.go).  Each check reports every instance of its
    condition; Run runs checks in order and concatenates what they find. *)
From stdpp Require Import relations.
From S2P Require Import Prelude GoStd Ulid Taxonomy Json Payloads Tables View Gates Project Store.
From S2P Require Import Steps Invariants Shape Mint Reach Completion Archive NodeVerbs ReadSurface Removal ReadFacts.
From S2P Require Import Command Config Cycle GateOrder.

Record Finding := MkFinding { fd_code : string; fd_message : string }.

(** A check reads the store and is given the working directory. *)
Definition Check : Type := Proj → string → result (list Finding).

(** ** cycles.go *)
Definition cycleCode : string := "refusal.blocked-by-cycle".

(** strings.Join *)
Fixpoint Join (l : list string) (sep : string) : string :=
  match l with
  | [] => ""
  | [a] => a
  | a :: rest => String.append a (String.append sep (Join rest sep))
  end.

(** " -> " with the arrow the source writes, U+2192, and the em dash U+2014. *)
Definition arrow : string := string_of [32; 0xE2; 0x86; 0x92; 32]%Z.
Definition em_dash : string := string_of [32; 0xE2; 0x80; 0x94; 32]%Z.

Fixpoint locators (p : Proj) (ids : list string) : result (list string) :=
  match ids with
  | [] => Ok []
  | id :: ids => n ← view_Node p id; rest ← locators p ids; Ok (n_locator n :: rest)
  end.

Definition cycle_finding (p : Proj) (path : list string) : result Finding :=
  names ← locators p path;
  first ← from_option_err (ERefuse "panic: index out of range") (head names);
  Ok (MkFinding cycleCode
        (String.append "found: a blocked-by cycle" (String.append em_dash (Join (names ++ [first]) arrow)))).

Fixpoint collect {A B} (f : A → result B) (l : list A) : result (list B) :=
  match l with
  | [] => Ok []
  | a :: l => b ← f a; rest ← collect f l; Ok (b :: rest)
  end.

Definition CheckCycles : Check := λ p _, collect (cycle_finding p) (Cycles p).

(** ** gateorder.go *)
Definition gateOrderCode : string := "refusal.gate-order-violation".

Definition gate_at_scale (d : GateDeclaration) : string :=
  String.append (gd_gate d) (String.append " at " (String.append (enum_str (gd_scale d)) " scale")).

Definition ViolationMessage (subject other : GateDeclaration) : string :=
  String.append "refused" (String.append em_dash (String.append (gate_at_scale subject)
    (String.append " would violate gate-order monotonicity against " (gate_at_scale other)))).

Definition violation_finding (v : Violation) : Finding :=
  MkFinding gateOrderCode
    (String.append "found: " (String.append (gate_at_scale (Later v))
      (String.append " violates gate-order monotonicity against " (gate_at_scale (Earlier v))))).

Definition repo_violations (p : Proj) (repo : string * RepoRow) : list Finding :=
  violation_finding <$> Violations (GateDeclarations p repo.1).

Definition CheckGateOrder : Check := λ p _, Ok (Repos p ≫= repo_violations p).

(** ** inerttracker.go *)
Definition InertTrackerBindingCode : string := "advisory.inert-tracker-binding".

Definition inert_finding (matter : Node) (ref : string) : Finding :=
  MkFinding InertTrackerBindingCode
    (String.append "tracker reference " (String.append ref (String.append " on matter "
      (String.append (n_locator matter)
        " is recorded as provenance only; wip will not push tracker updates")))).

Definition CheckInertTrackerBindings (p : Proj) (repo : string) : result (list Finding) :=
  level ← EffectiveTrackerPushLevel p repo;
  if negb (bool_decide (level = TrackerPushOff)) then Ok []
  else Ok (Matters p repo ≫= λ m, inert_finding m <$> TrackerReferences p (n_id m)).

(** ** guards.go *)
Definition Run (p : Proj) (dir : string) (checks : list Check) : result (list Finding) :=
  fss ← collect (λ check : Check, check p dir) checks; Ok (concat fss).

(** The checks of wip doctor that read the store, in the order it registers them; the
    last it registers, the inspection of tracked files, is not modelled. *)
Definition store_checks (repo : string) : list Check :=
  [λ p _, CheckInertTrackerBindings p repo; CheckCycles; CheckGateOrder].

(** ** The checks run on any store *)
Lemma collect_total {A B} (f : A → result B) (P : A → B → Prop) l :
  (∀ a, a ∈ l → ∃ b, f a = Ok b ∧ P a b) → ∃ bs, collect f l = Ok bs ∧ Forall2 P l bs.
Proof.
  induction l as [|a l IH]; intros H; cbn; [eauto using Forall2|].
  destruct (H a) as (b & Hb & HP); [by left|]. destruct IH as (bs & Hbs & Hf); [intros; apply H; by right|].
  rewrite Hb, Hbs. cbn. eauto using Forall2.
Qed.

Lemma waits_viewable p x y : waits (liveEdgeGraph p) x y → ∃ n, view_Node p y = Ok n.
Proof.
  intros (k & r & _ & Hf & _ & <-)%waits_live. unfold in_force in Hf. inv_bool.
  unfold view_Node. destruct (live_node p (eg_blocker r)); [eauto|done].
Qed.

Lemma loop_viewable p c x : is_loop (liveEdgeGraph p) c → x ∈ c → ∃ n, view_Node p x = Ok n.
Proof.
  intros (y & ext & -> & Hl & Hb & _) [->|Hx]%elem_of_cons; [by eapply waits_viewable|].
  clear Hb. revert y Hl. induction ext as [|z ext IH]; intros y Hl; [by apply elem_of_nil in Hx|].
  destruct Hl as [Hyz Hl]. apply elem_of_cons in Hx as [->|Hx]; [by eapply waits_viewable|by eapply IH].
Qed.

Lemma locators_total p ids :
  (∀ x, x ∈ ids → ∃ n, view_Node p x = Ok n) →
  ∃ names, locators p ids = Ok names ∧ Forall2 (λ x name, ∃ n, view_Node p x = Ok n ∧ n_locator n = name) ids names.
Proof.
  induction ids as [|x ids IH]; intros H; cbn; [eauto using Forall2|].
  destruct (H x) as [n Hn]; [by left|]. destruct IH as (names & Hnames & Hf); [intros; apply H; by right|].
  rewrite Hn, Hnames. cbn. eauto 10 using Forall2.
Qed.

(** What the finding of a cycle says: the locators along it, back to the start. *)
Definition names_cycle (p : Proj) (path : list string) (f : Finding) : Prop :=
  ∃ first rest, Forall2 (λ x name, ∃ n, view_Node p x = Ok n ∧ n_locator n = name) path (first :: rest)
    ∧ f = MkFinding cycleCode (String.append "found: a blocked-by cycle"
            (String.append em_dash (Join ((first :: rest) ++ [first]) arrow))).

Lemma cycle_finding_total p c :
  is_loop (liveEdgeGraph p) c → ∃ f, cycle_finding p c = Ok f ∧ names_cycle p c f.
Proof.
  intros Hc. destruct (locators_total p c) as (names & Hn & Hf); [intros x; by apply loop_viewable|].
  unfold cycle_finding. rewrite Hn. cbn. destruct Hc as (y & ext & -> & _).
  inversion Hf as [|? first ? rest ? ? ]; subst. cbn. eexists. split; [reflexivity|]. exists first, rest. by split.
Qed.

Lemma CheckCycles_total p dir :
  ∃ fs, CheckCycles p dir = Ok fs ∧ Forall2 (names_cycle p) (Cycles p) fs.
Proof.
  unfold CheckCycles. apply collect_total. intros c Hc. apply cycle_finding_total.
  unfold Cycles in Hc. by apply (elem_of_cycles (liveEdgeGraph p) c).
Qed.

Lemma bind_nil_iff {A B} (f : A → list B) l : l ≫= f = [] ↔ ∀ x, x ∈ l → f x = [].
Proof.
  induction l as [|a l IH]; [split; [by intros _ x ?%elem_of_nil|done]|].
  cbn. rewrite app_nil, IH. split.
  - intros [Ha Hl] x [->|Hx]%elem_of_cons; auto.
  - intros H. split; [apply H; left|intros x Hx; apply H; by right].
Qed.

Lemma violations_silent p :
  Repos p ≫= repo_violations p = []
  ↔ ∀ repo r, repos p !! repo = Some r → ordered (GateDeclarations p repo).
Proof.
  rewrite bind_nil_iff. unfold repo_violations.
  assert (∀ repo : string * RepoRow, violation_finding <$> Violations (GateDeclarations p repo.1) = []
    ↔ ordered (GateDeclarations p repo.1)) as H.
  { intros repo. rewrite <-Violations_nil. by destruct (Violations _). }
  split.
  - intros Ha repo r Hr. apply (H (repo, r)), Ha. unfold Repos. apply (elem_of_select TRepos). done.
  - intros Ha [repo r] [Hr _]%(elem_of_select TRepos). apply H. by eapply Ha.
Qed.

Lemma cycles_silent p fs :
  Forall2 (names_cycle p) (Cycles p) fs → (fs = [] ↔ acyclic (waits (liveEdgeGraph p))).
Proof.
  intros Hf. rewrite <-(cycles_nil_iff (liveEdgeGraph p)). fold (Cycles p).
  split; intros E; rewrite E in Hf; [by apply Forall2_nil_inv_r in Hf|by apply Forall2_nil_inv_l in Hf].
Qed.

(** ** Every instance, once *)

(** A reference that no update can be queued from. *)
Definition inert (p : Proj) (repo : string) (x : Node * string) : Prop :=
  EffectiveTrackerPushLevel p repo = Ok TrackerPushOff
  ∧ view_Node p (n_id x.1) = Ok x.1 ∧ n_kind x.1 = ScaleMatter ∧ n_repo x.1 = repo
  ∧ ∃ row, tracker_references p !! (n_id x.1, x.2) = Some row ∧ rf_removed row = None.

(** Two gates declared in one Repo, the earlier of the order at the coarser scale. *)
Definition out_of_order (p : Proj) (x : string * Violation) : Prop :=
  is_Some (repos p !! x.1) ∧ gd_repo (Earlier x.2) = x.1 ∧ gd_repo (Later x.2) = x.1
  ∧ gate_declarations p !! (x.1, gd_gate (Earlier x.2)) = Some (gd_scale (Earlier x.2))
  ∧ gate_declarations p !! (x.1, gd_gate (Later x.2)) = Some (gd_scale (Later x.2))
  ∧ ∃ i j, gateOrder (gd_gate (Earlier x.2)) = Some i ∧ gateOrder (gd_gate (Later x.2)) = Some j ∧ (i < j)%nat
      ∧ (scaleRank (gd_scale (Later x.2)) < scaleRank (gd_scale (Earlier x.2)))%nat.

Lemma violates_iff a b :
  violates a b = true ↔ ∃ i j, gateOrder (gd_gate a) = Some i ∧ gateOrder (gd_gate b) = Some j ∧ (i < j)%nat
    ∧ (scaleRank (gd_scale b) < scaleRank (gd_scale a))%nat.
Proof.
  unfold violates. destruct (gateOrder (gd_gate a)) as [i|], (gateOrder (gd_gate b)) as [j|];
    [rewrite andb_true_iff, !Nat.ltb_lt|..]; naive_solver.
Qed.

Lemma later_sublist a i j ds : later_violations a i j ds `sublist_of` (MkViolation a <$> ds).
Proof.
  revert j. induction ds as [|b ds IH]; intros j; cbn; [done|].
  destruct (negb _ && _); [by apply sublist_skip|by apply sublist_cons].
Qed.

Lemma Violations_NoDup ds : NoDup ds → NoDup (Violations ds).
Proof.
  intros Hds. unfold Violations.
  assert (∀ as_ i, NoDup as_ → NoDup (violations_from i as_ ds)
    ∧ ∀ v, v ∈ violations_from i as_ ds → Earlier v ∈ as_) as H; [|by apply H].
  assert (∀ a i j v, v ∈ later_violations a i j ds → Earlier v = a) as He.
  { intros a i j v Hv. eapply elem_of_sublist in Hv; [|apply later_sublist].
    by apply list_elem_of_fmap in Hv as (b & -> & _). }
  induction as_ as [|a as_ IH]; intros i Hnd; cbn [violations_from].
  { split; [constructor|]. by intros v ?%elem_of_nil. }
  apply NoDup_cons in Hnd as [Ha Hnd]. destruct (IH (S i) Hnd) as [IH1 IH2]. split.
  - apply NoDup_app. split_and!; [|intros v Hv Hv'; apply Ha; rewrite <-(He _ _ _ _ Hv); by apply IH2|done].
    eapply sublist_NoDup; [|apply later_sublist]. apply NoDup_fmap_2; [by intros x y [= ->]|done].
  - intros v [Hv|Hv]%elem_of_app; [rewrite (He _ _ _ _ Hv); by left|right; by apply IH2].
Qed.

Lemma GateDeclarations_NoDup p repo : NoDup (GateDeclarations p repo).
Proof.
  unfold GateDeclarations. apply NoDup_fmap_2; [|apply (select_NoDup TDecls)].
  intros [[r g] sc] [[r' g'] sc']. cbn. by intros [= -> -> ->].
Qed.

Lemma gate_instances p :
  ∃ pairs, CheckGateOrder p "" = Ok ((λ x, violation_finding x.2) <$> pairs) ∧ NoDup pairs
    ∧ (∀ x, x ∈ pairs ↔ out_of_order p x).
Proof.
  exists (Repos p ≫= λ r, (λ v, (r.1, v)) <$> Violations (GateDeclarations p r.1)). split_and!.
  - unfold CheckGateOrder. f_equal. induction (Repos p) as [|r rs IH]; [done|].
    cbn. rewrite fmap_app, IH. f_equal. unfold repo_violations. by rewrite <-list_fmap_compose.
  - apply NoDup_bind; [|intros r _; apply NoDup_fmap_2; [by intros v v' [= ->]|apply Violations_NoDup, GateDeclarations_NoDup]|
      apply (select_NoDup TRepos)].
    intros [k r] [k' r'] x [Hr _]%(elem_of_select TRepos) [Hr' _]%(elem_of_select TRepos) Hx Hx'.
    apply list_elem_of_fmap in Hx as (v & -> & _), Hx' as (v' & [= -> _] & _). cbn in Hr, Hr'.
    rewrite Hr in Hr'. by injection Hr' as ->.
  - intros [k v]. rewrite list_elem_of_bind. unfold out_of_order. cbn [fst snd]. rewrite <-violates_iff. split.
    + intros ([k' r] & Hx & [Hr _]%(elem_of_select TRepos)).
      apply list_elem_of_fmap in Hx as (v' & [= -> ->] & (Ha & Hb & Hv)%elem_of_Violations).
      apply elem_of_declarations in Ha as [? ?], Hb as [? ?]. cbn in *. split_and!; [by eexists|done..].
    + intros ([r Hr] & H1 & H2 & H3 & H4 & Hv). exists (k, r). split; [|by apply (elem_of_select TRepos)].
      apply list_elem_of_fmap. exists v. split; [done|]. apply elem_of_Violations. split_and!; [by apply elem_of_declarations..|done].
Qed.

Lemma elem_of_references p matter ref :
  ref ∈ TrackerReferences p matter ↔ ∃ row, tracker_references p !! (matter, ref) = Some row ∧ rf_removed row = None.
Proof.
  unfold TrackerReferences. rewrite list_elem_of_fmap. split.
  - intros ([[m x] row] & -> & [Hr Hg]%(elem_of_select TRefs)). cbn in *. inv_bool. subst m. exists row.
    split; [done|]. by destruct (rf_removed row).
  - intros (row & Hr & Hn). exists ((matter, ref), row). split; [done|]. apply (elem_of_select TRefs). cbn.
    split; [done|]. by rewrite bool_decide_true, Hn.
Qed.

Lemma TrackerReferences_NoDup p matter : NoDup (TrackerReferences p matter).
Proof.
  unfold TrackerReferences. apply NoDup_fmap_2_strong; [|apply (select_NoDup TRefs)].
  intros [[m x] row] [[m' x'] row'] [H1 G1]%(elem_of_select TRefs) [H2 G2]%(elem_of_select TRefs). cbn in *.
  intros ->. inv_bool. subst m m'. congruence.
Qed.

Lemma elem_of_Matters p repo n :
  n ∈ Matters p repo ↔ view_Node p (n_id n) = Ok n ∧ n_kind n = ScaleMatter ∧ n_repo n = repo.
Proof.
  unfold Matters. rewrite elem_of_nodeList, view_Node_Ok. split.
  - intros (r & Hr & Hg & Ht & E). inv_bool. split; [eauto|]. by rewrite E.
  - intros ((r & Hr & Ht & E) & Hk & Hp). exists r. split_and!; try done.
    rewrite E in Hk, Hp. cbn in Hk, Hp. by rewrite Hk, Hp, !bool_decide_true.
Qed.

Lemma inert_instances p repo level :
  EffectiveTrackerPushLevel p repo = Ok level →
  ∃ refs, CheckInertTrackerBindings p repo = Ok ((λ x, inert_finding x.1 x.2) <$> refs) ∧ NoDup refs
    ∧ (∀ x, x ∈ refs ↔ inert p repo x).
Proof.
  intros Hl. unfold CheckInertTrackerBindings, inert. rewrite Hl. cbn [mbind result_bind].
  destruct (bool_decide (level = TrackerPushOff)) eqn:El; cbn [negb].
  2: { exists []. split_and!; [done|constructor|]. intros x. split; [by intros ?%elem_of_nil|].
       intros ([= ->] & _). by rewrite bool_decide_true in El. }
  apply bool_decide_eq_true in El as ->.
  exists (Matters p repo ≫= λ m, (λ ref, (m, ref)) <$> TrackerReferences p (n_id m)). split_and!.
  - f_equal. induction (Matters p repo) as [|m ms IH]; [done|]. cbn. rewrite fmap_app, IH. f_equal.
    by rewrite <-list_fmap_compose.
  - apply NoDup_bind; [|intros m _; apply NoDup_fmap_2; [by intros v v' [= ->]|apply TrackerReferences_NoDup]|].
    + intros m m' x _ _ Hx Hx'. by apply list_elem_of_fmap in Hx as (v & -> & _), Hx' as (v' & [= -> _] & _).
    + apply (NoDup_fmap_1 n_id), nodeList_NoDup.
  - intros [m ref]. rewrite list_elem_of_bind. cbn [fst snd]. rewrite <-elem_of_references. split.
    + intros (m' & Hx & Hm). apply list_elem_of_fmap in Hx as (r & [= -> ->] & Hr). apply elem_of_Matters in Hm.
      tauto.
    + intros (_ & H1 & H2 & H3 & Hr). exists m. split; [|by apply elem_of_Matters].
      apply list_elem_of_fmap. by exists ref.
Qed.
