(* ===== verification/SchedLoop.v ===== *)
(** One Orchestrator pass over a Run (src/internal/scheduler: loop.go, resume.go).

    A pass is a state-and-error monad over the store: its state [Pass] is what the
    Go struct [pass] keeps (open claims, skipped Matters, the outcome so far) and,
    like the struct, outlives an error.  The hooks are not part of the program: Work,
    Plan and PostSeal are commands of their own, which may write to the store, and
    fail with a Go error; Ask is a function.  The advisory lock of runlock is
    [acquire].  The driving loop and the loop that completes groupings run on fuel;
    running out of it is [EFuel]. *)
From stdpp Require Import gmap.
From S2P Require Import Prelude GoStd Ulid Taxonomy Json Payloads Tables View Gates Project Store.
From S2P Require Import Command Resolve Config NodeVerbs WorkVerbs Tracker SchedFrontier.

(** ** Policy, hooks and outcome *)
Inductive Handling := HandleSkip | HandleHalt | HandleAsk.

#[global] Instance Handling_eq_dec : EqDecision Handling.
Proof. solve_decision. Defined.

Record Policy := MkPolicy { po_contention : Handling; po_blocked : Handling; po_failed : Handling }.

Record Hooks := MkHooks {
  hk_work : option (Node → cmd ());
  hk_plan : option (Node → cmd (list string));
  hk_ask : option (Node → RunSkipReason → Handling);
  hk_post_seal : option (Node → cmd ())
}.

Inductive PassState := StateFinished | StateStandingBy | StateHalted.

#[global] Instance PassState_eq_dec : EqDecision PassState.
Proof. solve_decision. Defined.

Record Skip := MkSkip { sk_matter : Node; sk_reason : RunSkipReason }.

(** The zero State is [None]. *)
Record PassOutcome := MkPassOutcome {
  po_state : option PassState; po_halted_on : option Skip; po_worked : list Node;
  po_skipped : list Skip; po_parked : list Node
}.

(** What a pass changes while it runs. *)
Record Pass := MkPass { ps_claims : gmap string string; ps_skipped : gset string; ps_out : PassOutcome }.

Definition outcome0 : PassOutcome := MkPassOutcome None None [] [] [].
Definition pass0 : Pass := MkPass ∅ ∅ outcome0.

Definition set_claim (matter claim : string) (ps : Pass) : Pass :=
  MkPass (<[matter := claim]> (ps_claims ps)) (ps_skipped ps) (ps_out ps).
Definition drop_claim (matter : string) (ps : Pass) : Pass :=
  MkPass (delete matter (ps_claims ps)) (ps_skipped ps) (ps_out ps).
Definition set_state (st : PassState) (ps : Pass) : Pass :=
  MkPass (ps_claims ps) (ps_skipped ps)
    (MkPassOutcome (Some st) (po_halted_on (ps_out ps)) (po_worked (ps_out ps))
       (po_skipped (ps_out ps)) (po_parked (ps_out ps))).
Definition add_worked (n : Node) (ps : Pass) : Pass :=
  MkPass (ps_claims ps) (ps_skipped ps)
    (MkPassOutcome (po_state (ps_out ps)) (po_halted_on (ps_out ps)) (po_worked (ps_out ps) ++ [n])
       (po_skipped (ps_out ps)) (po_parked (ps_out ps))).
Definition add_parked (n : Node) (ps : Pass) : Pass :=
  MkPass (ps_claims ps) (ps_skipped ps)
    (MkPassOutcome (po_state (ps_out ps)) (po_halted_on (ps_out ps)) (po_worked (ps_out ps))
       (po_skipped (ps_out ps)) (po_parked (ps_out ps) ++ [n])).
Definition add_skip (k : Skip) (halt : bool) (ps : Pass) : Pass :=
  MkPass (ps_claims ps) ({[n_id (sk_matter k)]} ∪ ps_skipped ps)
    (MkPassOutcome (if halt then Some StateHalted else po_state (ps_out ps))
       (if halt then Some k else po_halted_on (ps_out ps)) (po_worked (ps_out ps))
       (po_skipped (ps_out ps) ++ [k]) (po_parked (ps_out ps))).

Definition is_halted (ps : Pass) : bool := bool_decide (po_state (ps_out ps) = Some StateHalted).

(** ** The monad *)
Definition pm (A : Type) : Type := Pass → Store → option (result A * Pass * Store).

#[global] Instance pm_ret : MRet pm := λ A a ps s, Some (Ok a, ps, s).
#[global] Instance pm_bind : MBind pm := λ A B k m ps s,
  match m ps s with
  | Some (Ok a, ps', s') => k a ps' s'
  | Some (Error e, ps', s') => Some (Error e, ps', s')
  | None => None
  end.

Definition plift {A} (c : cmd A) : pm A := λ ps s,
  match c s with Some (r, s') => Some (r, ps, s') | None => None end.
Definition pread {A} (f : list Event → Proj → result A) : pm A := plift (cread f).
Definition pfail {A} (e : Err) : pm A := plift (cfail e).
Definition pget : pm Pass := λ ps s, Some (Ok ps, ps, s).
Definition pmodify (f : Pass → Pass) : pm () := λ ps s, Some (Ok tt, f ps, s).

(** A call whose error is looked at, and a deferred call. *)
Definition ptry {A} (m : pm A) : pm (result A) := λ ps s,
  match m ps s with Some (r, ps', s') => Some (Ok r, ps', s') | None => None end.
Definition pdefer {A} (m : pm A) (d : pm ()) : pm A :=
  r ← ptry m; ptry d ;; match r with Ok a => mret a | Error e => pfail e end.

Section pass.
Context (w : World) (fuel : nat) (loops : nat).
Context (driver : string) (env : Env) (run : string) (runCap : Z) (policy : Policy) (hooks : Hooks).
Context (resume : bool).

Definition pcommit {X} (actor : string) (d : tx (list Draft * X)) : pm X :=
  r ← plift (commit w fuel (MkRequest actor env) d); mret r.2.

(** A command of one draft. *)
Definition pdraft (actor : string) (d : Draft) : pm () := pcommit actor (mret ([d], tt)).

Definition orchestrator_actor : string := role_actor RoleOrchestrator.

(** ** Roles *)
Definition spawnRole_pass (actor dispatch : string) (name : RoleName) : pm string :=
  pcommit actor
    (id ← tmint w fuel; mret ([draft TypeRoleSpawned id (MkRoleSpawned dispatch (enum_str name))], id)).

Definition closeRole_pass (id : string) (name : RoleName) : pm () :=
  role ← pread (λ _ p, view_Role p id);
  if negb (bool_decide (ro_state role = StOpen)) then mret tt
  else pdraft (role_actor name) (draft TypeRoleClosed id (MkRoleClosed (enum_str RoleCloseCompleted))).

(** ** Skips *)
Definition resolve_handling (matter : Node) (reason : RunSkipReason) (handling : Handling) : Handling :=
  if bool_decide (handling = HandleAsk) then
    match hk_ask hooks with Some ask => ask matter reason | None => HandleHalt end
  else handling.

Definition skip (matter : Node) (reason : RunSkipReason) (handling : Handling) : pm () :=
  let handling := resolve_handling matter reason handling in
  pdraft orchestrator_actor (draft TypeRunSkipped (n_id matter) (MkRunSkipped run (enum_str reason))) ;;
  pmodify (add_skip (MkSkip matter reason) (bool_decide (handling = HandleHalt))).

(** ** Claims *)

(** The code looks for this code in the text of the error; the fold of dispatch.opened
    is the only rule that refuses with it. *)
Definition contention : Err := ERefuse "refusal.dispatch-contention".

(** [None]: the Matter was skipped, or the pass halted. *)
Definition openClaim (matter : Node) : pm (option string) :=
  r ← ptry (pcommit orchestrator_actor
    (id ← tmint w fuel; mret ([draft TypeDispatchOpened id (MkDispatchOpened run (n_id matter))], id)));
  match r with
  | Ok id => mret (Some id)
  | Error e =>
      if bool_decide (e = contention)
      then skip matter RunSkipContention (po_contention policy) ;; mret None
      else pfail e
  end.

Definition closeClaim (matterID : string) : pm () :=
  ps ← pget;
  match ps_claims ps !! matterID with
  | None => mret tt
  | Some claim =>
      pmodify (drop_claim matterID) ;;
      pdraft orchestrator_actor (draft TypeDispatchClosed claim (MkDispatchClosed (enum_str CloseCompleted)))
  end.

(** ** The Researcher *)
Definition author_step (matter : Node) (i : nat) (title : string) : pm () :=
  pcommit (role_actor RoleResearcher)
    (key ← tread (λ _ p, Ok (NextSortKey p (n_id matter)));
     id ← tmint w fuel;
     mret ([draft TypeStepCreated id
              (MkNodeBirth title (String.append "step-" (pad2 (Z.of_nat i + 1))) (n_id matter) key)], tt)).

Fixpoint author_steps (matter : Node) (i : nat) (titles : list string) : pm () :=
  match titles with
  | [] => mret tt
  | t :: titles => author_step matter i t ;; author_steps matter (S i) titles
  end.

Definition plan_pass (planner : Node → cmd (list string)) (matter : Node) (claim : string) : pm bool :=
  specs ← plift (planner matter);
  if bool_decide (length specs = 0%nat) then mret false
  else
    researcher ← spawnRole_pass orchestrator_actor claim RoleResearcher;
    author_steps matter 0 specs ;;
    closeRole_pass researcher RoleResearcher ;;
    mret true.

(** ** Start and finish *)
Definition startEvent (kind : Scale) : EType :=
  match kind with
  | ScaleMatter => TypeMatterStarted
  | ScaleStage => TypeStageStarted
  | ScaleStep => TypeStepStarted
  end.

Definition finishEvent (kind : Scale) : EType :=
  match kind with
  | ScaleMatter => TypeMatterFinished
  | ScaleStage => TypeStageFinished
  | ScaleStep => TypeStepFinished
  end.

Definition start_transition (n : Node) (cascade : bool) : Draft :=
  draft (startEvent (n_kind n)) (n_id n)
    (MkTransition (enum_str Planned) (enum_str InProgress) cascade "" "").

(** The ancestors are walked as in the write surface. *)
Definition start_pass (node : Node) : pm () :=
  pcommit orchestrator_actor
    (fresh ← tread (λ _ p, view_Node p (n_id node));
     tcheck (bool_decide (n_lifecycle fresh = Planned)) (ERefuse "scheduler: not Planned") ;;
     chain ← tread (λ _ p, ancestorsRootFirst p fresh);
     mret (((λ a, start_transition a true) <$> filter (λ a, n_lifecycle a = Planned) chain) ++ [start_transition fresh false], tt)).

Definition finish_pass (node : Node) (actor : string) : pm () :=
  pdraft actor (draft (finishEvent (n_kind node)) (n_id node)
    (MkTransition (enum_str InProgress) (enum_str Done) false "" "")) ;;
  match hk_post_seal hooks with
  | Some post => if bool_decide (n_kind node = ScaleMatter) then ptry (plift (post node)) ;; mret tt else mret tt
  | None => mret tt
  end.

(** ** Groupings *)
Definition interiorDone (p : Proj) (parent : string) : bool :=
  forallb (λ c, bool_decide (n_lifecycle c = Done) || bool_decide (n_lifecycle c = Canceled)) (Children p parent)
  && negb (bool_decide (length (Children p parent) = 0%nat)).

Definition hasChild (nodes : list Node) (id : string) : bool :=
  existsb (λ n, negb (bool_decide (n_parent n = "")) && bool_decide (n_parent n = id)) nodes.

(** One node of a sweep; whether it was closed. *)
Definition complete_one (matter : Node) (nodes : list Node) (n : Node) : pm bool :=
  fresh ← pread (λ _ p, view_Node p (n_id n));
  if negb (bool_decide (n_lifecycle fresh = InProgress)) || negb (hasChild nodes (n_id fresh)) then mret false
  else
    done ← pread (λ _ p, Ok (interiorDone p (n_id fresh)));
    if negb done then mret false
    else
      finish_pass fresh orchestrator_actor ;;
      (if bool_decide (n_id fresh = n_id matter) then closeClaim (n_id matter) else mret tt) ;;
      mret true.

Fixpoint complete_sweep (matter : Node) (nodes todo : list Node) : pm bool :=
  match todo with
  | [] => mret false
  | n :: todo =>
      c ← complete_one matter nodes n;
      rest ← complete_sweep matter nodes todo;
      mret (c || rest)
  end.

(** Whether the loop ended by itself: a sweep closed nothing.  [false] is for rounds that
    are spent while sweeps still close something. *)
Fixpoint complete_loop (rounds : nat) (matter : Node) (nodes : list Node) : pm bool :=
  match rounds with
  | O => mret false
  | S rounds =>
      closed ← complete_sweep matter nodes nodes;
      if closed : bool then complete_loop rounds matter nodes else mret true
  end.

(** A sweep that closes something closes a node for good: one round more than there
    are nodes is enough, so the loop's [false] never comes. *)
Definition completeContainers (matter : Node) : pm () :=
  nodes ← pread (λ _ p, Ok (MatterNodes p (n_id matter)));
  ended ← complete_loop (S (length nodes)) matter nodes;
  if ended : bool then mret tt else pfail EFuel.

(** ** One node *)
Definition work_node (work : Node → cmd ()) (node matter : Node) (claim : string) : pm () :=
  (if bool_decide (n_lifecycle node = Planned) then start_pass node else mret tt) ;;
  builder ← spawnRole_pass orchestrator_actor claim RoleBuilder;
  r ← ptry (plift (work node));
  match r with
  | Error _ =>
      closeClaim (n_id matter) ;;
      skip matter RunSkipFailed (po_failed policy)
  | Ok _ =>
      finish_pass node (role_actor RoleBuilder) ;;
      closeRole_pass builder RoleBuilder ;;
      pmodify (add_worked node) ;;
      if bool_decide (n_id node = n_id matter) then closeClaim (n_id matter) else completeContainers matter
  end.

Definition plan_or_work (work : Node → cmd ()) (node matter : Node) (claim : string) : pm () :=
  match hk_plan hooks with
  | Some planner =>
      if bool_decide (n_id node = n_id matter) && bool_decide (n_lifecycle matter = Planned) then
        planned ← plan_pass planner matter claim;
        if planned : bool then mret tt else work_node work node matter claim
      else work_node work node matter claim
  | None => work_node work node matter claim
  end.

(** engageOne reports progress on every path that is not an error. *)
Definition engageOne (work : Node → cmd ()) (node : Node) : pm () :=
  matter ← pread (λ _ p, view_Node p (n_matter node));
  ps ← pget;
  match ps_claims ps !! n_id matter with
  | Some claim => plan_or_work work node matter claim
  | None =>
      r ← openClaim matter;
      match r with
      | None => mret tt
      | Some claim => pmodify (set_claim (n_id matter) claim) ;; plan_or_work work node matter claim
      end
  end.

(** ** The driving loop *)
Definition unskipped (ps : Pass) (l : list Node) : list Node := filter (λ n, n_matter n ∉ ps_skipped ps) l.

Definition selection (ps : Pass) (fr : Sched.Frontier) : list Node :=
  let engaged := unskipped ps (Sched.f_engaged fr) in
  let slots := wrap64 (runCap - Z.of_nat (length engaged)) in
  let slots := if (slots <? 0)%Z then 0%Z else slots in
  let selected := Sched.Select (unskipped ps (Sched.f_ready fr)) slots in
  if resume then engaged ++ selected else selected.

(** Every engagement makes progress, so the frontier is derived anew after the
    first of the selected nodes. *)
Fixpoint engage (rounds : nat) (work : Node → cmd ()) : pm () :=
  match rounds with
  | O => pfail EFuel
  | S rounds =>
      fr ← pread (λ log p, Sched.Derive log p run runCap);
      ps ← pget;
      match selection ps fr with
      | [] => mret tt
      | node :: _ =>
          engageOne work node ;;
          ps ← pget;
          if is_halted ps then mret tt else engage rounds work
      end
  end.

(** ** The end of a pass *)

(** One member; whether it leaves the Run unfinished. *)
Definition settle_one (id : string) : pm bool :=
  matter ← pread (λ _ p, view_Node p id);
  match n_lifecycle matter with
  | Done =>
      completion ← pread (λ log p, view_NodeCompletion log p matter);
      (if negb (Sealed completion) then pmodify (add_parked matter) else mret tt) ;; mret false
  | Canceled => mret false
  | _ =>
      ps ← pget;
      (if bool_decide (n_id matter ∈ ps_skipped ps) then mret tt
       else skip matter RunSkipBlocked (po_blocked policy)) ;; mret true
  end.

(** Whether every member was done, unless the pass halted on the way. *)
Fixpoint settle_loop (ids : list string) (allDone : bool) : pm (option bool) :=
  match ids with
  | [] => mret (Some allDone)
  | id :: ids =>
      open_ ← settle_one id;
      ps ← pget;
      if open_ && is_halted ps then mret None
      else closeClaim id ;; settle_loop ids (allDone && negb open_)
  end.

Definition settle : pm () :=
  members ← pread (λ _ p, Ok (RunMatters p run));
  r ← settle_loop members true;
  match r with
  | None => mret tt
  | Some allDone =>
      ps ← pget;
      if negb allDone || negb (bool_decide (length (po_parked (ps_out ps)) = 0%nat))
      then pmodify (set_state StateStandingBy)
      else
        pmodify (set_state StateFinished) ;;
        pdraft orchestrator_actor (draft TypeRunFinished run MkRunFinished)
  end.

(** ** Resuming *)
Definition reapOrphans : pm () :=
  pcommit orchestrator_actor
    (reaps ← tread (λ _ p, reap_drafts p (OpenDispatchesForRun p run));
     mret (draft TypeRunResumed run MkRunResumed :: reaps, tt)).

(** ** A pass *)
Definition drive (work : Node → cmd ()) : pm () :=
  (if resume then reapOrphans else mret tt) ;;
  engage loops work ;;
  ps ← pget;
  if is_halted ps then mret tt else settle.

(** execute and executeResume. *)
Definition execute (work : Node → cmd ()) : pm () :=
  bracket ← pread (λ _ p, Ok (OpenDispatch p (env_worktree env)));
  match bracket with
  | None => pfail (EWip "validation.no-open-dispatch")
  | Some (id, _) =>
      orchestrator ← spawnRole_pass driver id RoleOrchestrator;
      pdefer (drive work) (closeRole_pass orchestrator RoleOrchestrator)
  end.

(** Orchestrate and Resume: the outcome is returned with the error.  [acquire] is the
    lock, with the refusal the caller gets when it is held. *)
Definition run_pass (acquire : string → result ()) : cmd (PassOutcome * option Err) := λ s,
  let refuse e := Some (Ok (outcome0, Some e), s) in
  if (runCap <? 1)%Z then refuse (EWip "validation.invalid-cap")
  else
    match hk_work hooks, view_Run (s_proj s) run with
    | None, _ => refuse (EWip "validation.no-work-hook")
    | Some _, Error _ => refuse (EWip "validation.unknown-run")
    | Some work, Ok row =>
        if negb (bool_decide (rn_state row = StOpen)) then refuse (EWip "refusal.run-closed")
        else if negb (bool_decide (rn_clone row = env_clone env)) then refuse (EWip "refusal.run-stranded")
        else
          match acquire run with
          | Error e => refuse e
          | Ok _ =>
              match execute work pass0 s with
              | Some (r, ps, s') =>
                  Some (Ok (ps_out ps, match r with Ok _ => None | Error e => Some e end), s')
              | None => None
              end
          end
    end.
End pass.

Definition Orchestrate (w : World) (fuel loops : nat) (acquire : string → result ()) (driver : string) (env : Env)
    (run : string) (runCap : Z) (policy : Policy) (hooks : Hooks) : cmd (PassOutcome * option Err) :=
  run_pass w fuel loops driver env run runCap policy hooks false acquire.

Definition Resume (w : World) (fuel loops : nat) (acquire : string → result ()) (driver : string) (env : Env)
    (run : string) (runCap : Z) (policy : Policy) (hooks : Hooks) : cmd (PassOutcome * option Err) :=
  run_pass w fuel loops driver env run runCap policy hooks true acquire.
