(* ===== verification/PassLogic.v ===== *)
(** A program logic for the Orchestrator's pass (SchedLoop.v), and what each of its
    writes leaves: the tables it may touch and the event it appends. *)
From stdpp Require Import gmap relations.
From S2P Require Import Prelude GoStd Ulid Taxonomy Json Payloads Tables View Gates Project Store.
From S2P Require Import Steps Invariants Shape Replay Mint Reach Completion Cycle Content Command.
From S2P Require Import Resolve Config NodeVerbs WorkVerbs Effects Outcome VerbAtomic Seal SchedFrontier SchedLoop.

(** ** Triples *)
Definition ptriple {A} (P : Pass → Store → Prop) (m : pm A) (Q : result A → Pass → Store → Prop) : Prop :=
  ∀ ps s r ps' s', P ps s → m ps s = Some (r, ps', s') → Q r ps' s'.

(** The assertion is kept, whatever is answered. *)
Definition keeps {A} (I : Pass → Store → Prop) (m : pm A) : Prop := ptriple I m (λ _, I).

Section rules.
Context {A B : Type}.

Lemma pt_bind P (R : result A → Pass → Store → Prop) (m : pm A) (k : A → pm B) Q :
  ptriple P m R → (∀ e ps s, R (Error e) ps s → Q (Error e) ps s) →
  (∀ a, ptriple (R (Ok a)) (k a) Q) → ptriple P (m ≫= k) Q.
Proof.
  intros Hm He Hk ps s r ps' s' HP H. unfold mbind, pm_bind in H.
  destruct (m ps s) as [[[[a|e] ps1] s1]|] eqn:E; [|injection H as <- <- <-|discriminate].
  - by eapply Hk; [eapply Hm|].
  - by apply He; eapply Hm in E.
Qed.

Lemma pt_ret (P : Pass → Store → Prop) (a : A) (Q : result A → Pass → Store → Prop) :
  (∀ ps s, P ps s → Q (Ok a) ps s) → ptriple P (mret a) Q.
Proof. intros HQ ps s r ps' s' HP [= <- <- <-]. auto. Qed.

Lemma pt_fail (P : Pass → Store → Prop) e (Q : result A → Pass → Store → Prop) :
  (∀ ps s, P ps s → Q (Error e) ps s) → ptriple P (pfail e) Q.
Proof. intros HQ ps s r ps' s' HP [= <- <- <-]. auto. Qed.

Lemma pt_weaken P P' (m : pm A) (Q Q' : result A → Pass → Store → Prop) :
  ptriple P' m Q' → (∀ ps s, P ps s → P' ps s) → (∀ r ps s, Q' r ps s → Q r ps s) → ptriple P m Q.
Proof. intros Hm HP HQ ps s r ps' s' H E. by eapply HQ, Hm; [apply HP|]. Qed.

Lemma pt_pre (X : Prop) P (m : pm A) Q : (X → ptriple P m Q) → ptriple (λ ps s, X ∧ P ps s) m Q.
Proof. intros H ps s r ps' s' [HX HP]. by apply H. Qed.

Lemma pt_read P (f : list Event → Proj → result A) (Q : result A → Pass → Store → Prop) :
  (∀ ps s, P ps s → Q (f (s_log s) (s_proj s)) ps s) → ptriple P (pread f) Q.
Proof. intros HQ ps s r ps' s' HP [= <- <- <-]. auto. Qed.

Lemma pt_try P (m : pm A) (Q : result (result A) → Pass → Store → Prop) :
  ptriple P m (λ r, Q (Ok r)) → ptriple P (ptry m) Q.
Proof.
  intros Hm ps s r ps' s' HP H. unfold ptry in H. destruct (m ps s) as [[[r0 ps1] s1]|] eqn:E; [|discriminate].
  injection H as <- <- <-. by eapply Hm.
Qed.

Lemma pt_modify P f (Q : result () → Pass → Store → Prop) :
  (∀ ps s, P ps s → Q (Ok tt) (f ps) s) → ptriple P (pmodify f) Q.
Proof. intros HQ ps s r ps' s' HP [= <- <- <-]. auto. Qed.

Lemma pt_get P (k : Pass → pm A) Q :
  (∀ x, ptriple (λ ps s, ps = x ∧ P ps s) (k x) Q) → ptriple P (pget ≫= k) Q.
Proof. intros Hk ps s r ps' s' HP H. by eapply (Hk ps). Qed.
End rules.

Section keeps.
Context {A B : Type} (I : Pass → Store → Prop).

Lemma keeps_bind (m : pm A) (k : A → pm B) : keeps I m → (∀ a, keeps I (k a)) → keeps I (m ≫= k).
Proof. intros Hm Hk. by eapply pt_bind. Qed.

Lemma keeps_ret (a : A) : keeps I (mret a).
Proof. by apply pt_ret. Qed.

Lemma keeps_fail e : keeps I (pfail e : pm A).
Proof. by apply pt_fail. Qed.

Lemma keeps_read (f : list Event → Proj → result A) : keeps I (pread f).
Proof. by apply pt_read. Qed.

Lemma keeps_try (m : pm A) : keeps I m → keeps I (ptry m).
Proof. intros H. by apply pt_try. Qed.

Lemma keeps_get : keeps I pget.
Proof. by intros ps s r ps' s' H [= <- <- <-]. Qed.

(** An assertion that a command's writes cannot break. *)
Lemma keeps_lift (c : cmd A) :
  (∀ ps s r s', I ps s → c s = Some (r, s') → I ps s') → keeps I (plift c).
Proof.
  intros Hc ps s r ps' s' HI H. unfold plift in H. destruct (c s) as [[r0 s1]|] eqn:E; [|discriminate].
  injection H as <- <- <-. by eapply Hc.
Qed.
End keeps.

(** By the shape of the operation: [tac] takes the commands. *)
Ltac solve_keeps tac :=
  repeat first
    [ progress tac
    | apply keeps_bind; [|intros ?]
    | apply keeps_ret | apply keeps_fail | apply keeps_read | apply keeps_get
    | apply keeps_try
    | match goal with
      | |- keeps _ (match ?x with _ => _ end) => destruct x
      end ].

(** ** What the pass writes *)
#[local] Opaque applyEvent appendEvent stamp Commit.

(** One event of this type, with this payload, was appended and folded. *)
Definition wrote_one {S} `{Payload S} (actor : string) (t : EType) (subject : string) (x : S) (s s' : Store) : Prop :=
  ∃ ev c, s_log s' = s_log s ++ [ev] ∧ enum_parse (ev_type ev) = Some t ∧ ev_subject ev = subject
    ∧ ev_payload ev = pl_enc x ∧ ev_actor ev = actor ∧ applyEvent c ev (s_proj s) = Ok (s_proj s').

Section writes.
Context (w : World) (fuel : nat) (env : Env).

Lemma pcommit_sound {X} actor (d : tx (list Draft * X)) (I : Pass → Store → Prop) :
  SoundTx w d → (∀ ps s s', I ps s → future w s s' → I ps s') → keeps I (pcommit w fuel env actor d).
Proof.
  intros Hd HI. unfold pcommit. apply keeps_bind; [|intros ?; apply keeps_ret]. apply keeps_lift.
  intros ps s r s' Hs H. eapply HI; [exact Hs|]. by eapply (commit_sound w fuel).
Qed.

Lemma pdraft_wrote {S} `{Payload S} actor t subject (x : S) ps s r ps' s' :
  pdraft w fuel env actor (draft t subject x) ps s = Some (r, ps', s') →
  ps' = ps ∧ match r with Ok _ => wrote_one actor t subject x s s' | Error _ => same_db s s' end.
Proof.
  unfold pdraft, pcommit, mbind, pm_bind, plift. intros Hc.
  destruct (commit _ _ _ _ s) as [[[[evs []]|e] s1]|] eqn:E; [| |discriminate]; injection Hc as <- <- <-; (split; [done|]).
  - apply commit_folded in E as (ds & h & Hd & _ & Hf). apply tret_inv in Hd as [[= ->] _].
    apply folded_one in Hf as (ev & _ & Hlog & Hst & _ & Hap).
    destruct (stamped_draft _ _ _ _ _ Hst) as (? & ? & ? & ?). unfold wrote_one. eauto 10.
  - by eapply commit_Error.
Qed.

Lemma pdraft_future actor d ps s r ps' s' : pdraft w fuel env actor d ps s = Some (r, ps', s') → future w s s'.
Proof.
  intros H. assert (Hk : keeps (λ _ y, future w s y) (pdraft w fuel env actor d)).
  { eapply pcommit_sound; [apply _|]. intros _ y z Hy Hz. by trans y. }
  apply (Hk ps s r ps' s'); [apply rtc_refl|exact H].
Qed.

#[local] Transparent applyEvent.

(** The events of execution leave the work, the gates and the frozen sets alone. *)
Definition execution_tables : list tbl := [TDispatches; TRoles; TRuns].

Definition execution_type (t : EType) : bool :=
  match t with
  | TypeDispatchOpened | TypeDispatchClosed | TypeRoleSpawned | TypeRoleClosed | TypeRunSkipped
  | TypeRunFinished | TypeRunResumed => true
  | _ => false
  end.

Lemma execution_only c ev t p p' :
  enum_parse (ev_type ev) = Some t → execution_type t = true → applyEvent c ev p = Ok p' →
  only execution_tables p p'.
Proof.
  intros Hty Ht H. as_rule H Hty.
  destruct t; try discriminate Ht; clear Ht;
    unfold openDispatch, closeDispatch, spawnRole, closeRole, validateRunSkipped, finishRun, resumeRun in H;
    inv_ok; try (apply on_unique_Ok in H); subst; try (by intros tb _);
    try (apply insert_only in H); try (apply update1_only in H);
    try match goal with H : update_all _ _ _ _ _ = Ok _ |- _ => apply update_all_only in H as Ha;
      pose proof (only_trans _ _ _ _ _ Ha ltac:(eassumption)) end;
    (eapply only_mono; [|eassumption]); unfold execution_tables; set_solver.
Qed.

(** A role closing touches the roles alone. *)
Lemma role_closed_only c ev p p' :
  enum_parse (ev_type ev) = Some TypeRoleClosed → applyEvent c ev p = Ok p' → only [TRoles] p p'.
Proof. intros Hty H. as_rule H Hty. unfold closeRole in H. inv_ok. by apply update1_only in H. Qed.
End writes.
