(* ===== verification/PassFacts.v ===== *)
(** The pass, step by step (SchedLoop.v): while it drives, every skip and every
    piece of finished work is in the log, and nothing has halted it; its end is
    read off the store.  Then the loop that completes groupings: a sweep which closes
    something leaves fewer nodes in progress, and one which closes nothing found
    nothing to close. *)
From stdpp Require Import gmap relations.
From S2P Require Import Prelude Ulid GoStd Taxonomy Json Payloads Tables View Gates Project Store Steps.
From S2P Require Import Invariants Shape Replay Mint Reach Cycle Completion Content Command Resolve Config.
From S2P Require Import NodeVerbs WorkVerbs Effects Outcome VerbAtomic Cascade Seal ReadFacts SchedFrontier.
From S2P Require Import SchedFacts SchedLoop PassLogic.

#[local] Set Default Proof Using "Type*".

(** The hooks write only through commands of the store. *)
Definition hooks_sound (w : World) (h : Hooks) : Prop :=
  (∀ f n, hk_work h = Some f → SoundCmd w (f n))
  ∧ (∀ f n, hk_plan h = Some f → SoundCmd w (f n))
  ∧ (∀ f n, hk_post_seal h = Some f → SoundCmd w (f n)).

(** A member there is nothing more to do for. *)
Definition over (p : Proj) (id : string) : bool :=
  match nodes p !! id with
  | Some r => bool_decide (nd_lifecycle r = Canceled) || archived_row p id r
  | None => false
  end.

Lemma over_only p p' id : only execution_tables p p' → over p' id = over p id.
Proof.
  intros H. assert (Ht : ∀ t, t ∉ execution_tables → tget t p' = tget t p) by exact H.
  pose proof (Ht TNodes ltac:(unfold execution_tables; set_solver)) as E1.
  pose proof (Ht TDecls ltac:(unfold execution_tables; set_solver)) as E2.
  pose proof (Ht TGateState ltac:(unfold execution_tables; set_solver)) as E3.
  pose proof (Ht TExempt ltac:(unfold execution_tables; set_solver)) as E4.
  unfold over, archived_row, GateDeclarations, select. cbn [tget] in *. by rewrite E1, E2, E3, E4.
Qed.

Lemma RunMatters_only p p' run : only execution_tables p p' → RunMatters p' run = RunMatters p run.
Proof.
  intros H. unfold RunMatters, select. pose proof (H TRunMatters ltac:(unfold execution_tables; set_solver)) as E.
  by rewrite E.
Qed.

Lemma only_refl ts p : only ts p p.
Proof. by intros t _. Qed.

Section pass.
Context (w : World) (fuel loops : nat) (driver : string) (env : Env) (run : string) (runCap : Z)
  (policy : Policy) (hooks : Hooks) (resume : bool) (s0 : Store).
Context (Hw : world_ok w) (H0 : store_ok s0) (Hhooks : hooks_sound w hooks).

(** ** What the log says of the outcome *)
Definition new_event (s : Store) (ev : Event) : Prop := ev ∈ drop (length (s_log s0)) (s_log s).

Definition skip_logged (s : Store) (k : Skip) : Prop :=
  ∃ ev, new_event s ev ∧ enum_parse (ev_type ev) = Some TypeRunSkipped ∧ ev_subject ev = n_id (sk_matter k)
    ∧ ev_payload ev = pl_enc (MkRunSkipped run (enum_str (sk_reason k))).

Definition work_logged (s : Store) (n : Node) : Prop :=
  ∃ ev, new_event s ev ∧ enum_parse (ev_type ev) = Some (finishEvent (n_kind n)) ∧ ev_subject ev = n_id n
    ∧ ev_actor ev = role_actor RoleBuilder.

(** The handling a skip calls for. *)
Definition policy_for (reason : RunSkipReason) : Handling :=
  match reason with
  | RunSkipContention => po_contention policy
  | RunSkipBlocked => po_blocked policy
  | RunSkipFailed => po_failed policy
  end.

Definition halts (k : Skip) : bool :=
  bool_decide (resolve_handling hooks (sk_matter k) (sk_reason k) (policy_for (sk_reason k)) = HandleHalt).

Record base (ps : Pass) (s : Store) : Prop := {
  ba_future : future w s0 s;
  ba_skips : Forall (skip_logged s) (po_skipped (ps_out ps));
  ba_worked : Forall (work_logged s) (po_worked (ps_out ps))
}.

Record running (ps : Pass) (s : Store) : Prop := {
  ru_base : base ps s;
  ru_state : po_state (ps_out ps) = None;
  ru_halted : po_halted_on (ps_out ps) = None;
  ru_quiet : Forall (λ k, halts k = false) (po_skipped (ps_out ps));
  ru_parked : po_parked (ps_out ps) = []
}.

Record halted (ps : Pass) (s : Store) : Prop := {
  ha_base : base ps s;
  ha_state : po_state (ps_out ps) = Some StateHalted;
  ha_on : ∃ l k, po_skipped (ps_out ps) = l ++ [k] ∧ po_halted_on (ps_out ps) = Some k
    ∧ halts k = true ∧ Forall (λ k, halts k = false) l
}.

Definition going (ps : Pass) (s : Store) : Prop := running ps s ∨ halted ps s.

(** ** Later stores *)
Lemma new_event_later s s' ev : future w s0 s → future w s s' → new_event s ev → new_event s' ev.
Proof.
  intros Hs Hf. destruct (future_log w s s' Hw Hf (future_ok w s0 s Hw Hs H0)) as [l Hl].
  destruct (future_log w s0 s Hw Hs H0) as [l0 Hl0].
  unfold new_event. rewrite Hl, Hl0, <-app_assoc, !drop_app_length. intros ?. apply elem_of_app. by left.
Qed.

Lemma new_event_last s s' ev : future w s0 s → s_log s' = s_log s ++ [ev] → new_event s' ev.
Proof.
  intros Hs Hl. destruct (future_log w s0 s Hw Hs H0) as [l0 Hl0].
  unfold new_event. rewrite Hl, Hl0, <-app_assoc, drop_app_length. apply elem_of_app. right. by left.
Qed.

Lemma skip_logged_later s s' k : future w s0 s → future w s s' → skip_logged s k → skip_logged s' k.
Proof. intros Hs Hf (ev & He & ?). exists ev. split; [by eapply new_event_later|done]. Qed.

Lemma work_logged_later s s' n : future w s0 s → future w s s' → work_logged s n → work_logged s' n.
Proof. intros Hs Hf (ev & He & ?). exists ev. split; [by eapply new_event_later|done]. Qed.

Lemma base_later ps s s' : base ps s → future w s s' → base ps s'.
Proof.
  intros [H1 H2 H3] Hf. split; [by trans s|..]; (eapply Forall_impl; [eassumption|]); intros x Hx;
    [by eapply skip_logged_later|by eapply work_logged_later].
Qed.

Lemma running_later ps s s' : running ps s → future w s s' → running ps s'.
Proof. intros [H1 H2 H3 H4 H5] Hf. split; [by eapply base_later|done..]. Qed.

Lemma halted_later ps s s' : halted ps s → future w s s' → halted ps s'.
Proof. intros [H1 H2 H3] Hf. split; [by eapply base_later|done..]. Qed.

(** ** Operations that keep driving *)
Lemma keeps_pcommit {X} actor (d : tx (list Draft * X)) : SoundTx w d → keeps running (pcommit w fuel env actor d).
Proof. intros Hd. eapply pcommit_sound; [exact Hd|exact running_later]. Qed.

Lemma keeps_pdraft actor d : keeps running (pdraft w fuel env actor d).
Proof. apply keeps_pcommit. apply _. Qed.

Lemma keeps_sound {A} (c : cmd A) : SoundCmd w c → keeps running (plift c).
Proof. intros Hc. apply keeps_lift. intros ps s r s' Hs H. eapply running_later; [exact Hs|]. by eapply Hc. Qed.

Lemma keeps_modify f :
  (∀ ps, ps_out (f ps) = ps_out ps) → keeps running (pmodify f).
Proof.
  intros Hf. apply pt_modify. intros ps s [[H1 H2 H3] H4 H5 H6 H7].
  split; [split|..]; rewrite ?Hf; done.
Qed.

Ltac keep_op := idtac;
  match goal with
  | |- keeps running (pdraft _ _ _ _ _) => apply keeps_pdraft
  | |- keeps running (pcommit _ _ _ _ _) => apply keeps_pcommit; solve_sound
  | |- keeps running (pmodify _) => apply keeps_modify; done
  end.

Lemma keeps_spawnRole actor d name : keeps running (spawnRole_pass w fuel env actor d name).
Proof. unfold spawnRole_pass. solve_keeps ltac:(keep_op). Qed.

Lemma keeps_closeRole id name : keeps running (closeRole_pass w fuel env id name).
Proof. unfold closeRole_pass. solve_keeps ltac:(keep_op). Qed.

Lemma keeps_closeClaim m : keeps running (closeClaim w fuel env m).
Proof. unfold closeClaim. solve_keeps ltac:(keep_op). Qed.

Lemma keeps_start n : keeps running (start_pass w fuel env n).
Proof. unfold start_pass. solve_keeps ltac:(keep_op). Qed.

Lemma keeps_finish n a : keeps running (finish_pass w fuel env hooks n a).
Proof.
  unfold finish_pass. apply keeps_bind; [apply keeps_pdraft|intros _].
  destruct (hk_post_seal hooks) as [post|] eqn:E; [|apply keeps_ret].
  destruct (bool_decide _); [|apply keeps_ret]. apply keeps_bind; [|intros ?; apply keeps_ret].
  apply keeps_try, keeps_sound. by apply Hhooks.
Qed.

Lemma keeps_author m i ts : keeps running (author_steps w fuel env m i ts).
Proof. revert i. induction ts as [|t ts IH]; intros i; cbn; unfold author_step; solve_keeps ltac:(first [apply IH|keep_op]). Qed.

Lemma keeps_plan planner m c : hk_plan hooks = Some planner → keeps running (plan_pass w fuel env planner m c).
Proof.
  intros E. unfold plan_pass. apply keeps_bind; [apply keeps_sound; by apply Hhooks|intros specs].
  solve_keeps ltac:(first [apply keeps_spawnRole|apply keeps_author|apply keeps_closeRole]).
Qed.

Lemma keeps_complete_one m ns n : keeps running (complete_one w fuel env hooks m ns n).
Proof. unfold complete_one. solve_keeps ltac:(first [apply keeps_finish|apply keeps_closeClaim]). Qed.

Lemma keeps_sweep m ns todo : keeps running (complete_sweep w fuel env hooks m ns todo).
Proof. induction todo as [|n todo IH]; cbn; solve_keeps ltac:(first [apply IH|apply keeps_complete_one]). Qed.

Lemma keeps_completeContainers m : keeps running (completeContainers w fuel env hooks m).
Proof.
  unfold completeContainers. apply keeps_bind; [apply keeps_read|intros ns].
  apply keeps_bind; [|intros []; [apply keeps_ret|apply keeps_fail]]. generalize (S (length ns)). intros k.
  induction k as [|k IH]; cbn; solve_keeps ltac:(first [apply IH|apply keeps_sweep]).
Qed.

(** ** Skips and work *)
Lemma skip_going m reason :
  ptriple running (skip w fuel env run hooks m reason (policy_for reason)) (λ _, going).
Proof.
  intros ps s r ps' s' Hs H. unfold skip in H. cbv zeta in H. unfold mbind, pm_bind in H.
  destruct (pdraft _ _ _ _ _ ps s) as [[[r1 ps1] s1]|] eqn:E; [|discriminate].
  pose proof (keeps_pdraft _ _ ps s r1 ps1 s1 Hs E) as Hs1.
  apply pdraft_wrote in E as [-> Hr]. destruct r1 as [[]|e]; injection H as <- <- <-; [|by left].
  destruct Hr as (ev & c & Hlog & Hty & Hsub & Hpl & _).
  set (k := MkSkip m reason). assert (Hk : skip_logged s1 k).
  { exists ev. split_and!; [|done..]. eapply new_event_last; [|exact Hlog]. apply Hs. }
  destruct Hs1 as [[B1 B2 B3] R1 R2 R3 R4].
  assert (Hb : ∀ b, base (add_skip k b ps) s1).
  { intros b. split; [done|cbn; apply Forall_app; by repeat constructor|done]. }
  fold k. change (resolve_handling hooks m reason (policy_for reason))
    with (resolve_handling hooks (sk_matter k) (sk_reason k) (policy_for (sk_reason k))). fold (halts k).
  destruct (halts k) eqn:Eh; [right|left].
  - split; [apply Hb|done|]. exists (po_skipped (ps_out ps)), k. done.
  - split; [apply Hb|done..| |done]. cbn. apply Forall_app. by repeat constructor.
Qed.

(** A node is reported worked once its finish is in the log. *)
Lemma finish_logged n ps s r ps' s' :
  running ps s → finish_pass w fuel env hooks n (role_actor RoleBuilder) ps s = Some (Ok r, ps', s') → work_logged s' n.
Proof.
  intros Hs H. unfold finish_pass, mbind, pm_bind in H.
  destruct (pdraft _ _ _ _ _ ps s) as [[[[r1|] ps1] s1]|] eqn:E; [|discriminate..].
  pose proof (keeps_pdraft _ _ ps s (Ok r1) ps1 s1 Hs E) as Hs1.
  apply pdraft_wrote in E as [-> (ev & c & Hlog & Hty & Hsub & _ & Hact & _)].
  assert (Hn : work_logged s1 n).
  { exists ev. split_and!; [|done..]. eapply new_event_last; [|exact Hlog]. apply Hs. }
  destruct (hk_post_seal hooks) as [post|] eqn:Ep; [|by injection H as <- <- <-].
  destruct (bool_decide _); [|by injection H as <- <- <-]. unfold ptry, plift in H.
  destruct (post n s1) as [[r2 s2]|] eqn:E2; [|discriminate]. injection H as <- <- <-.
  eapply work_logged_later; [apply Hs1| |exact Hn]. by eapply Hhooks in E2.
Qed.

Lemma keeps_going {A} (m : pm A) : keeps running m → ptriple running m (λ _, going).
Proof. intros Hm. eapply pt_weaken; [exact Hm|done|]. intros r ps s H. by left. Qed.

(** First something that keeps driving, then what may halt. *)
Lemma then_going {A B} (m : pm A) (k : A → pm B) :
  keeps running m → (∀ a, ptriple running (k a) (λ _, going)) → ptriple running (m ≫= k) (λ _, going).
Proof. intros Hm Hk. eapply pt_bind; [exact Hm|intros e ps s H; by left|exact Hk]. Qed.

Lemma work_node_going work node m c :
  hk_work hooks = Some work →
  ptriple running (work_node w fuel env run policy hooks work node m c) (λ _, going).
Proof.
  intros Ew. unfold work_node.
  apply then_going; [destruct (bool_decide _); [apply keeps_start|apply keeps_ret]|intros _].
  apply then_going; [apply keeps_spawnRole|intros builder].
  apply then_going; [apply keeps_try, keeps_sound; by apply (proj1 Hhooks)|intros [[]|e]].
  - eapply (pt_bind _ (λ r ps s, running ps s ∧ (is_ok r = true → work_logged s node))).
    { intros ps s r ps' s' Hs H. split; [by eapply keeps_finish|]. destruct r; [|done]. intros _. by eapply finish_logged. }
    { intros e ps s [H _]. by left. }
    intros []. eapply (pt_bind _ (λ _ ps s, running ps s ∧ work_logged s node)).
    { intros ps s r ps' s' [Hs Hn] H. split; [by eapply keeps_closeRole|].
      assert (Hsnd : keeps (λ ps s, running ps s ∧ work_logged s node) (closeRole_pass w fuel env builder RoleBuilder)).
      { unfold closeRole_pass, pdraft. apply keeps_bind; [apply keeps_read|intros role]. destruct (negb _); [apply keeps_ret|].
        eapply pcommit_sound; [apply _|]. intros ps1 s1 s2 [Hr Hl] Hf. split; [by eapply running_later|].
        eapply work_logged_later; [apply Hr|exact Hf|exact Hl]. }
      eapply (Hsnd ps s r ps' s'); [split; [done|by apply Hn]|exact H]. }
    { intros e ps s [H _]. by left. }
    intros []. eapply (pt_bind _ (λ _, running)).
    { apply pt_modify. intros ps s [[[B1 B2 B3] R1 R2 R3 R4] Hn]. split; [split|..]; try done.
      cbn. apply Forall_app. by repeat constructor. }
    { intros e ps s H. by left. }
    intros []. apply keeps_going. destruct (bool_decide _); [apply keeps_closeClaim|apply keeps_completeContainers].
  - apply then_going; [apply keeps_closeClaim|intros _]. apply (skip_going m RunSkipFailed).
Qed.

Lemma plan_or_work_going work node m c :
  hk_work hooks = Some work →
  ptriple running (plan_or_work w fuel env run policy hooks work node m c) (λ _, going).
Proof.
  intros Ew. unfold plan_or_work. destruct (hk_plan hooks) as [planner|] eqn:Ep; [|by apply work_node_going].
  destruct (_ && _); [|by apply work_node_going]. apply then_going; [by apply keeps_plan|intros []].
  - apply keeps_going, keeps_ret.
  - by apply work_node_going.
Qed.

Lemma openClaim_going m : ptriple running (openClaim w fuel env run policy hooks m)
  (λ r ps s, match r with Ok (Some _) => running ps s | _ => going ps s end).
Proof.
  unfold openClaim. eapply (pt_bind _ (λ _, running)); [apply keeps_try, keeps_pcommit; solve_sound|intros; by left|].
  intros [id|e]; [by apply pt_ret|]. destruct (bool_decide _); [|apply pt_fail; intros; by left].
  eapply (pt_bind _ (λ _, going)); [apply (skip_going m RunSkipContention)|done|]. intros _. by apply pt_ret.
Qed.

Lemma engageOne_going work node :
  hk_work hooks = Some work →
  ptriple running (engageOne w fuel env run policy hooks work node) (λ _, going).
Proof.
  intros Ew. unfold engageOne. apply then_going; [apply keeps_read|intros m].
  apply then_going; [apply keeps_get|intros x]. destruct (ps_claims x !! n_id m) as [c|]; [by apply plan_or_work_going|].
  eapply pt_bind; [apply openClaim_going|done|]. intros [c|]; cbn.
  - apply then_going; [by apply keeps_modify|intros _]. by apply plan_or_work_going.
  - by apply pt_ret.
Qed.

Lemma is_halted_going ps s : going ps s → if is_halted ps then halted ps s else running ps s.
Proof.
  unfold is_halted. intros [H|H]; [rewrite (ru_state _ _ H)|rewrite (ha_state _ _ H)]; done.
Qed.

Lemma engage_going rounds work :
  hk_work hooks = Some work →
  ptriple running (engage w fuel env run runCap policy hooks resume rounds work) (λ _, going).
Proof.
  intros Ew. induction rounds as [|rounds IH]; cbn; [apply pt_fail; intros; by left|].
  apply then_going; [apply keeps_read|intros fr]. apply then_going; [apply keeps_get|intros x].
  destruct (selection _ _ x fr) as [|node l]; [apply pt_ret; intros; by left|].
  eapply pt_bind; [by apply engageOne_going|done|]. intros []. apply pt_get. intros y.
  intros ps s r ps' s' [-> Hg]. apply is_halted_going in Hg. destruct (is_halted y).
  - intros H. injection H as <- <- <-. by right.
  - by apply IH.
Qed.

(** ** The end *)

Record settling (p1 : Proj) (pre : list string) (allDone : bool) (ps : Pass) (s : Store) : Prop := {
  se_base : base ps s;
  se_state : po_state (ps_out ps) = None;
  se_halted : po_halted_on (ps_out ps) = None;
  se_quiet : Forall (λ k, halts k = false) (po_skipped (ps_out ps));
  se_only : only execution_tables p1 (s_proj s);
  se_over : allDone = true ∧ po_parked (ps_out ps) = [] ↔ forallb (over p1) pre = true
}.

(** What is told of the skips, however the pass ends. *)
Definition told (ps : Pass) (s : Store) : Prop :=
  base ps s ∧ (halted ps s ∨ po_state (ps_out ps) ≠ Some StateHalted ∧ po_halted_on (ps_out ps) = None
                             ∧ Forall (λ k, halts k = false) (po_skipped (ps_out ps))).

Lemma going_told ps s : going ps s → told ps s.
Proof.
  intros [H|H]; [|split; [apply H|by left]]. split; [apply H|right].
  split_and!; [by rewrite (ru_state _ _ H)|apply H..].
Qed.

Lemma settling_told p1 pre b ps s : settling p1 pre b ps s → told ps s.
Proof. intros H. split; [apply H|right]. split_and!; [by rewrite (se_state _ _ _ _ _ H)|apply H..]. Qed.

(** A write of execution, while settling. *)
Lemma settling_write p1 pre b {S} `{Payload S} actor t subject (x : S) ps s s' :
  execution_type t = true → settling p1 pre b ps s → future w s s' → wrote_one actor t subject x s s' →
  settling p1 pre b ps s'.
Proof.
  intros Ht [S1 S2 S3 S4 S5 S6] Hf (ev & c & _ & Hty & _ & _ & _ & Hap). split; [by eapply base_later|done..| |done].
  pose proof (execution_only _ _ _ _ _ Hty Ht Hap) as Ho. intros tb Htb. rewrite (Ho tb Htb). by apply S5.
Qed.

Lemma settling_same p1 pre b ps s s' : settling p1 pre b ps s → future w s s' → same_db s s' → settling p1 pre b ps s'.
Proof. intros [S1 S2 S3 S4 S5 S6] Hf [_ Hp]. split; [by eapply base_later|done..| |done]. by rewrite Hp. Qed.

Lemma settling_pdraft p1 pre b {S} `{Payload S} actor t subject (x : S) :
  execution_type t = true → keeps (settling p1 pre b) (pdraft w fuel env actor (draft t subject x)).
Proof.
  intros Ht ps s r ps' s' Hs Hc. pose proof Hc as [-> Hr]%pdraft_wrote.
  pose proof (pdraft_future _ _ _ _ _ _ _ _ _ _ Hc) as Hf.
  destruct r; [by eapply settling_write|by eapply settling_same].
Qed.

Lemma settling_claim p1 pre b m : keeps (settling p1 pre b) (closeClaim w fuel env m).
Proof.
  unfold closeClaim. apply keeps_bind; [apply keeps_get|intros x]. destruct (ps_claims x !! m) as [c|]; [|apply keeps_ret].
  apply keeps_bind; [|intros _; by apply settling_pdraft].
  apply pt_modify. intros ps s [[B1 B2 B3] S2 S3 S4 S5 S6]. by split; [split|..].
Qed.

(** A skip while settling: either it halts, or the member is not over. *)
Lemma settling_skip p1 pre b m :
  ptriple (settling p1 pre b) (skip w fuel env run hooks m RunSkipBlocked (po_blocked policy))
    (λ r ps s, match r with Ok _ => settling p1 pre b ps s ∨ halted ps s | Error _ => settling p1 pre b ps s end).
Proof.
  intros ps s r ps' s' Hs H. unfold skip in H. cbv zeta in H. unfold mbind, pm_bind in H.
  destruct (pdraft _ _ _ _ _ ps s) as [[[r1 ps1] s1]|] eqn:E; [|discriminate].
  pose proof (settling_pdraft p1 pre b _ TypeRunSkipped _ _ eq_refl ps s r1 ps1 s1 Hs E) as Hs1.
  apply pdraft_wrote in E as [-> Hr]. destruct r1 as [[]|e]; injection H as <- <- <-; [|done].
  destruct Hr as (ev & c & Hlog & Hty & Hsub & Hpl & _).
  set (k := MkSkip m RunSkipBlocked). assert (Hk : skip_logged s1 k).
  { exists ev. split_and!; [|done..]. eapply new_event_last; [|exact Hlog]. apply Hs. }
  destruct Hs1 as [[B1 B2 B3] R1 R2 R3 R4 R5].
  assert (Hb : ∀ b, base (add_skip k b ps) s1).
  { intros b'. split; [done|cbn; apply Forall_app; by repeat constructor|done]. }
  fold k. change (resolve_handling hooks m RunSkipBlocked (po_blocked policy))
    with (resolve_handling hooks (sk_matter k) (sk_reason k) (policy_for (sk_reason k))). fold (halts k).
  destruct (halts k) eqn:Eh; [right|left].
  - split; [apply Hb|done|]. exists (po_skipped (ps_out ps)), k. done.
  - split; [apply Hb|done..| |done|done]. cbn. apply Forall_app. by repeat constructor.
Qed.

Lemma forallb_snoc {A} (f : A → bool) l x : forallb f (l ++ [x]) = forallb f l && f x.
Proof. rewrite forallb_app. cbn. by rewrite andb_true_r. Qed.

(** Reading one member. *)
Lemma settling_member p1 pre b ps s id n :
  settling p1 pre b ps s → id ∈ RunMatters p1 run → view_Node (s_proj s) id = Ok n →
  match n_lifecycle n with
  | Canceled => over p1 id = true
  | Done => ∃ c, view_NodeCompletion (s_log s) (s_proj s) n = Ok c ∧ Sealed c = over p1 id
  | _ => over p1 id = false
  end.
Proof.
  intros Hs Hid (r & Hr & Ht & ->)%view_Node_Ok. cbn [n_lifecycle scanNode].
  rewrite <-(over_only p1 (s_proj s) id (se_only _ _ _ _ _ Hs)). unfold over. rewrite Hr.
  pose proof (future_ok w s0 s Hw (ba_future _ _ (se_base _ _ _ _ _ Hs)) H0) as [Hdb].
  assert (Ha : archived_row (s_proj s) id r = true → nd_lifecycle r = Done)
    by (unfold archived_row; intros H; by inv_bool).
  destruct (nd_lifecycle r) eqn:El; try (rewrite bool_decide_eq_false_2 by done);
    try (destruct (archived_row (s_proj s) id r); [by specialize (Ha eq_refl)|done]).
  - assert (matter_row (s_proj s) id) as (r' & Hr' & Hk).
    { assert (id ∈ RunMatters (s_proj s) run) as Hid' by (by rewrite (RunMatters_only _ _ run (se_only _ _ _ _ _ Hs))).
      unfold RunMatters in Hid'.
      apply list_elem_of_fmap in Hid' as ([[x y] z] & -> & [Hx _]%(elem_of_select TRunMatters)).
      exact (sh_frozen _ (db_shape _ _ Hdb) _ _ Hx). }
    rewrite Hr in Hr'. injection Hr' as <-.
    destruct (matter_sealed _ _ id r (db_gates _ _ Hdb) (db_shape _ _ Hdb) Hr Hk Ht) as (c & Hc & Hsl). eauto.
Qed.

(** What settling one member ends in. *)
Definition settled_one (p1 : Proj) (pre : list string) (id : string) (b : bool) (r : result bool) (ps : Pass) (s : Store) : Prop :=
  match r with
  | Ok open_ => settling p1 (pre ++ [id]) (b && negb open_) ps s ∨ open_ = true ∧ halted ps s
  | Error _ => told ps s
  end.

Lemma settling_open p1 pre id b ps s :
  over p1 id = false → settling p1 pre b ps s → settling p1 (pre ++ [id]) (b && negb true) ps s.
Proof.
  intros Ho [S1 S2 S3 S4 S5 S6]. split; [done..|]. rewrite forallb_snoc, Ho, !andb_false_r. naive_solver.
Qed.

Lemma settling_over p1 pre id b ps s :
  over p1 id = true → settling p1 pre b ps s → settling p1 (pre ++ [id]) (b && negb false) ps s.
Proof. intros Ho [S1 S2 S3 S4 S5 S6]. split; [done..|]. by rewrite forallb_snoc, Ho, !andb_true_r. Qed.

Lemma settling_parked p1 pre id b n ps s :
  over p1 id = false → settling p1 pre b ps s → settling p1 (pre ++ [id]) (b && negb false) (add_parked n ps) s.
Proof.
  intros Ho [[B1 B2 B3] S2 S3 S4 S5 S6]. split; [by split|done..|].
  rewrite forallb_snoc, Ho, andb_false_r. cbn. split; [|done]. intros [_ E]. by destruct (po_parked (ps_out ps)).
Qed.

(** The default branch of the switch. *)
Lemma settle_open_yields p1 pre id b n :
  over p1 id = false →
  ptriple (settling p1 pre b)
    (ps ← pget;
     (if bool_decide (n_id n ∈ ps_skipped ps) then mret tt
      else skip w fuel env run hooks n RunSkipBlocked (po_blocked policy)) ;; mret true)
    (settled_one p1 pre id b).
Proof.
  intros Ho. eapply (pt_bind _ (λ _, settling p1 pre b)); [apply keeps_get|intros e ps s H; by eapply settling_told|].
  intros x.
  eapply (pt_bind _ (λ r ps s, match r with Ok _ => settling p1 pre b ps s ∨ halted ps s | Error _ => settling p1 pre b ps s end)).
  - destruct (bool_decide _); [apply pt_ret; intros; by left|apply settling_skip].
  - intros e ps s H. by eapply settling_told.
  - intros []. apply pt_ret. intros ps s [H|H]; [left; by apply settling_open|by right].
Qed.

Lemma settle_one_yields p1 pre id b :
  id ∈ RunMatters p1 run →
  ptriple (settling p1 pre b) (settle_one w fuel env run policy hooks id) (settled_one p1 pre id b).
Proof.
  intros Hid. unfold settle_one.
  eapply (pt_bind _ (λ r ps s, settling p1 pre b ps s ∧ view_Node (s_proj s) id = r));
    [by apply pt_read|intros e ps s [H _]; by eapply settling_told|].
  intros n ps s r ps' s' [Hs Hn] H. pose proof (settling_member _ _ _ _ _ _ _ Hs Hid Hn) as Hm.
  destruct (n_lifecycle n); try (eapply settle_open_yields; [exact Hm|exact Hs|exact H]).
  - destruct Hm as (c & Hc & Hsl). unfold mbind at 1, pm_bind at 1, pread, plift, cread in H. rewrite Hc in H. cbn in H.
    unfold mbind, pm_bind in H. rewrite Hsl in H. destruct (over p1 id) eqn:Ho; cbn in H; injection H as <- <- <-; left.
    + by apply settling_over.
    + by apply settling_parked.
  - injection H as <- <- <-. left. by apply settling_over.
Qed.

(** The loop: it halts, or has settled every member. *)
Definition settled_all (p1 : Proj) (r : result (option bool)) (ps : Pass) (s : Store) : Prop :=
  match r with
  | Ok (Some allDone) => settling p1 (RunMatters p1 run) allDone ps s
  | Ok None => halted ps s
  | Error _ => told ps s
  end.

Lemma settle_loop_yields p1 todo pre b :
  RunMatters p1 run = pre ++ todo →
  ptriple (settling p1 pre b) (settle_loop w fuel env run policy hooks todo b) (settled_all p1).
Proof.
  revert pre b. induction todo as [|id todo IH]; intros pre b E; cbn.
  { apply pt_ret. intros ps s Hs. rewrite app_nil_r in E. cbn. by rewrite E. }
  eapply pt_bind; [apply settle_one_yields; rewrite E; set_solver|done|]. intros open_. apply pt_get. intros x.
  intros ps s r ps' s' [-> Hs] H. destruct (open_ && is_halted x) eqn:Eo.
  - injection H as <- <- <-. destruct Hs as [Hs|[_ Hs]]; [|done]. apply andb_true_iff in Eo as [_ Eo].
    unfold is_halted in Eo. by rewrite (se_state _ _ _ _ _ Hs) in Eo.
  - assert (Hx : settling p1 (pre ++ [id]) (b && negb open_) x s).
    { destruct Hs as [Hs|[-> Hs]]; [done|]. unfold is_halted in Eo. by rewrite (ha_state _ _ Hs) in Eo. }
    eapply (pt_bind _ (λ _, settling p1 (pre ++ [id]) (b && negb open_)) _ _ (settled_all p1));
      [apply settling_claim|intros e ps2 s2 H2; by eapply settling_told| |exact Hx|exact H].
    intros a. apply IH. by rewrite <-app_assoc.
Qed.

(** What a pass that returned no error ended in. *)
Definition ended (ps : Pass) (s : Store) : Prop :=
  halted ps s
  ∨ told ps s
    ∧ (po_state (ps_out ps) = Some StateFinished ∧ forallb (over (s_proj s)) (RunMatters (s_proj s) run) = true
         ∧ (∃ r, runs (s_proj s) !! run = Some r ∧ rn_state r = StClosed ∧ rn_close_reason r = Some RunCompleted)
       ∨ po_state (ps_out ps) = Some StateStandingBy
         ∧ forallb (over (s_proj s)) (RunMatters (s_proj s) run) = false).

Lemma told_state st ps s :
  st ≠ StateHalted → po_halted_on (ps_out ps) = None → Forall (λ k, halts k = false) (po_skipped (ps_out ps)) →
  base ps s → told (set_state st ps) s.
Proof.
  intros Hst H1 H2 [B1 B2 B3]. split; [by split|right]. cbn. split_and!; [congruence|done..].
Qed.

Lemma over_members p1 p : only execution_tables p1 p →
  forallb (over p) (RunMatters p run) = forallb (over p1) (RunMatters p1 run).
Proof.
  intros H. rewrite (RunMatters_only _ _ run H). generalize (RunMatters p1 run). intros l.
  induction l as [|x l IH]; cbn; [done|]. by rewrite IH, (over_only p1 p x H).
Qed.

Lemma run_closed c ev p p' :
  enum_parse (ev_type ev) = Some TypeRunFinished → applyEvent c ev p = Ok p' →
  ∃ r, runs p' !! ev_subject ev = Some r ∧ rn_state r = StClosed ∧ rn_close_reason r = Some RunCompleted.
Proof.
  intros Hty H. as_rule H Hty. unfold finishRun in H. inv_ok.
  apply update1_Ok in H as (r & r' & _ & _ & [= <-] & [_ Hp]%sql_set_Ok).
  apply (put_tget_eq _ TRuns) in Hp. cbn [tget] in Hp. rewrite Hp, lookup_insert_eq. eauto.
Qed.

Lemma settle_yields :
  ptriple running (settle w fuel env run policy hooks) (λ r ps s, match r with Ok _ => ended ps s | Error _ => told ps s end).
Proof.
  intros ps s r ps' s' Hs H. unfold settle in H.
  unfold mbind at 1, pm_bind at 1, pread, plift, cread in H.
  assert (H1 : settling (s_proj s) [] true ps s).
  { destruct Hs as [R1 R2 R3 R4 R5]. split; [done..|apply only_refl|]. rewrite R5. done. }
  unfold mbind at 1, pm_bind at 1 in H.
  destruct (settle_loop _ _ _ _ _ _ _ _ ps s) as [[[[[b|]|e] ps1] s1]|] eqn:E; [| | |discriminate];
    apply (settle_loop_yields (s_proj s) _ [] true eq_refl _ _ _ _ _ H1) in E; cbn in E.
  2: { injection H as <- <- <-. by left. }
  2: { by injection H as <- <- <-. }
  destruct E as [S1 S2 S3 S4 S5 S6]. pose proof (over_members _ _ S5) as Ho.
  unfold mbind at 1, pm_bind at 1, pget in H. cbn iota beta in H.
  destruct (negb b || _) eqn:Eb.
  - injection H as <- <- <-. right. split; [by apply told_state|]. right. split; [done|]. rewrite Ho.
    apply not_true_iff_false. rewrite <-S6. intros [-> Hp]. by rewrite Hp in Eb.
  - unfold mbind, pm_bind, pmodify in H. apply orb_false_iff in Eb as [Eb1 Eb2].
    pose proof (pdraft_future _ _ _ _ _ _ _ _ _ _ H) as Hf. apply pdraft_wrote in H as [-> Hr].
    assert (Ht : told (set_state StateFinished ps1) s') by (apply told_state; [done..|by eapply base_later]).
    destruct r as [[]|e]; [|done]. destruct Hr as (ev & c & _ & Hty & Hsub & _ & _ & Hap).
    pose proof (execution_only _ _ _ _ _ Hty eq_refl Hap) as Hx.
    right. split; [done|]. left. split; [done|]. split.
    + rewrite (over_members _ _ Hx), Ho. apply S6. split; [by apply negb_false_iff|].
      apply negb_false_iff, bool_decide_eq_true_1 in Eb2. by apply nil_length_inv.
    + rewrite <-Hsub. by eapply run_closed.
Qed.

(** ** The deferred close of the Orchestrator *)
Lemma told_later ps s s' : told ps s → future w s s' → told ps s'.
Proof.
  intros [Hb Hr] Hf. split; [by eapply base_later|]. destruct Hr as [H|H]; [left; by eapply halted_later|by right].
Qed.

Lemma closeRole_ends (Q : Pass → Store → Prop) id name :
  (∀ ps s s', Q ps s → future w s s' → only [TRoles] (s_proj s) (s_proj s') → Q ps s') →
  keeps Q (closeRole_pass w fuel env id name).
Proof.
  intros HQ. unfold closeRole_pass. apply keeps_bind; [apply keeps_read|intros role].
  destruct (negb _); [apply keeps_ret|]. intros ps s r ps' s' Hs H.
  pose proof (pdraft_future _ _ _ _ _ _ _ _ _ _ H) as Hf. apply pdraft_wrote in H as [-> Hr].
  eapply HQ; [exact Hs|exact Hf|]. destruct r.
  - destruct Hr as (ev & c & _ & Hty & _ & _ & _ & Hap). by eapply role_closed_only.
  - destruct Hr as [_ ->]. apply only_refl.
Qed.

Lemma ended_later ps s s' : ended ps s → future w s s' → only [TRoles] (s_proj s) (s_proj s') → ended ps s'.
Proof.
  intros [H|[Ht H]] Hf Ho; [left; by eapply halted_later|]. right. split; [by eapply told_later|].
  assert (Hx : only execution_tables (s_proj s) (s_proj s')).
  { intros t Hnt. apply Ho. intros ->%list_elem_of_singleton. apply Hnt. right. left. }
  pose proof (Ho TRuns ltac:(by intros ?%list_elem_of_singleton)) as Hr. cbn [tget] in Hr.
  rewrite (over_members _ _ Hx), Hr. exact H.
Qed.

Definition pass_end (r : result ()) (ps : Pass) (s : Store) : Prop :=
  told ps s ∧ (is_ok r = true → ended ps s).

Lemma drive_yields work :
  hk_work hooks = Some work →
  ptriple running (drive w fuel loops env run runCap policy hooks resume work) pass_end.
Proof.
  intros Ew. unfold drive.
  assert (He : ∀ e ps s, going ps s → pass_end (Error e) ps s) by (intros e ps s H; split; [by apply going_told|done]).
  eapply (pt_bind _ (λ _, running)); [|intros; apply He; by left|intros _].
  { destruct resume; [|apply keeps_ret]. unfold reapOrphans. apply keeps_pcommit. solve_sound. }
  eapply (pt_bind _ (λ _, going)); [by apply engage_going|auto|intros _]. apply pt_get. intros x.
  intros ps s r ps' s' [-> Hg] H. pose proof (is_halted_going _ _ Hg) as Hh. destruct (is_halted x).
  - injection H as <- <- <-. split; [by apply going_told|]. intros _. by left.
  - apply (settle_yields _ _ _ _ _ Hh) in H. destruct r; [|by split].
    split; [|done]. destruct H as [H|[H _]]; [apply going_told; by right|done].
Qed.

Lemma execute_yields work :
  hk_work hooks = Some work →
  ptriple (λ ps s, ps = pass0 ∧ s = s0) (execute w fuel loops driver env run runCap policy hooks resume work) pass_end.
Proof.
  intros Ew. assert (Hstart : ∀ ps s, ps = pass0 ∧ s = s0 → running ps s).
  { intros ps s [-> ->]. split; [split; [apply rtc_refl|constructor..]|done..|constructor|done]. }
  eapply pt_weaken; [|exact Hstart|intros r ps s H; exact H]. unfold execute.
  assert (He : ∀ e ps s, running ps s → pass_end (Error e) ps s)
    by (intros e ps s H; split; [apply going_told; by left|done]).
  eapply (pt_bind _ (λ _, running)); [apply keeps_read|auto|]. intros [[id row]|]; [|apply pt_fail; auto].
  eapply (pt_bind _ (λ _, running)); [apply keeps_spawnRole|auto|intros orch]. unfold pdefer.
  eapply (pt_bind _ (λ r ps s, match r with Ok r => pass_end r ps s | Error _ => False end));
    [apply pt_try; by apply drive_yields|done|intros r].
  eapply (pt_bind _ (λ c ps s, match c with Ok _ => pass_end r ps s | Error _ => False end)).
  { apply pt_try, (closeRole_ends (pass_end r)). intros ps s s' [H1 H2] Hf Ho. split; [by eapply told_later|].
    intros Hr. eapply ended_later; eauto. }
  { done. }
  intros _. destruct r as [[]|e]; [by apply pt_ret|by apply pt_fail].
Qed.
(** The outcome a caller gets, with the error. *)
Lemma run_pass_told acquire out err s' :
  run_pass w fuel loops driver env run runCap policy hooks resume acquire s0 = Some (Ok (out, err), s') →
  ∃ ps, ps_out ps = out ∧ told ps s' ∧ (err = None → ended ps s').
Proof.
  unfold run_pass. cbv zeta. intros H.
  assert (Hrefuse : ∀ e, Some (Ok (outcome0, Some e), s0) = Some (Ok (out, err), s') →
    ∃ ps, ps_out ps = out ∧ told ps s' ∧ (err = None → ended ps s')).
  { intros e [= <- <- <-]. exists pass0. split; [done|]. split; [|done]. apply going_told. left.
    split; [split; [apply rtc_refl|constructor..]|done..|constructor|done]. }
  destruct (runCap <? 1)%Z; [by eapply Hrefuse|]. destruct (hk_work hooks) as [work|] eqn:Ew; [|by eapply Hrefuse].
  destruct (view_Run _ _); [|by eapply Hrefuse]. destruct (negb _); [by eapply Hrefuse|].
  destruct (negb _); [by eapply Hrefuse|]. destruct (acquire run); [|by eapply Hrefuse].
  destruct (execute _ _ _ _ _ _ _ _ _ _ _ _ _) as [[[r ps] s1]|] eqn:E; [|discriminate].
  apply (execute_yields work Ew) in E; [|done]. injection H as <- <- <-. exists ps. split; [done|].
  destruct E as [E1 E2]. split; [done|]. destruct r; [auto|done].
Qed.
End pass.

(** PostSeal returns, and performs no write. *)
Definition post_seal_quiet (h : Hooks) : Prop :=
  ∀ post n s, hk_post_seal h = Some post → ∃ r, post n s = Some (r, s).

(** ** One finish *)
Lemma finish_nodes c ev k p p' :
  enum_parse (ev_type ev) = Some (finishEvent k) →
  ev_payload ev = pl_enc (MkTransition (enum_str InProgress) (enum_str Done) false "" "") →
  applyEvent c ev p = Ok p' →
  ∃ r, nodes p !! ev_subject ev = Some r ∧ nd_lifecycle r = InProgress
    ∧ nodes p' = <[ev_subject ev := set_lifecycle Done (ev_id ev) r]> (nodes p).
Proof.
  intros Hty Hpl Hap. assert (Htr : is_transition (finishEvent k) = true) by (by destruct k).
  destruct (transition_applied _ _ _ _ _ Hty Htr Hap) as (q & Hq & Hcand).
  apply transition_candidates_frame in Hcand. specialize (Hcand TNodes ltac:(done)). cbn in Hcand. rewrite Hcand.
  destruct (decode_transition (enum_str InProgress) (enum_str Done) false "" "") as (t & Hd & Hf & Hto & _).
  unfold applyTransition in Hq. rewrite Hpl, Hd in Hq. cbn [mbind result_bind] in Hq. inv_ok.
  apply update1_Ok in Hq as (r & r' & Hr & Hg & Hn & [_ Hput]%sql_set_Ok).
  apply (put_tget_eq _ TNodes) in Hput. cbn in Hput, Hr. apply andb_true_iff in Hg as [Hg _].
  rewrite Hto in Hn. change (utf8_coerce (enum_str Done)) with (enum_str Done) in Hn. unfold check_enum in Hn.
  rewrite (enum_parse_str Done) in Hn. injection Hn as <-.
  exists r. split_and!; [done| |exact Hput]. apply bool_decide_eq_true in Hg. rewrite Hf in Hg.
  change (utf8_coerce (enum_str InProgress)) with (enum_str InProgress) in Hg. by destruct (nd_lifecycle r).
Qed.

(** ** What completing may do to the nodes *)
Lemma interiorDone_spec p id :
  interiorDone p id = true ↔
  (∃ c r, nodes p !! c = Some r ∧ nd_parent r = Some id ∧ nd_tombstone r = None)
  ∧ (∀ c r, nodes p !! c = Some r → nd_parent r = Some id → nd_tombstone r = None →
       nd_lifecycle r = Done ∨ nd_lifecycle r = Canceled).
Proof.
  unfold interiorDone. rewrite andb_true_iff, forallb_forall, negb_true_iff, bool_decide_eq_false. split.
  - intros [Hall Hne]. destruct (Children p id) as [|n l] eqn:E; [done|]. split.
    + assert (n ∈ Children p id) as (r & ? & ? & ? & _)%elem_of_Children by (rewrite E; by left). eauto.
    + intros c r Hc Hp Ht. specialize (Hall (scanNode c r)). rewrite <-E in Hall.
      rewrite orb_true_iff, !bool_decide_eq_true in Hall. apply Hall, list_elem_of_In, elem_of_Children. by exists r.
  - intros [(c & r & Hc & Hp & Ht) Hall]. split.
    + intros n (r' & H1 & H2 & H3 & ->)%list_elem_of_In%elem_of_Children.
      rewrite orb_true_iff, !bool_decide_eq_true. by eapply Hall.
    + intros E%nil_length_inv. assert (scanNode c r ∈ Children p id) as H by (apply elem_of_Children; by exists r).
      rewrite E in H. by apply elem_of_nil in H.
Qed.

Lemma nodes_not_execution : TNodes ∉ execution_tables.
Proof. unfold execution_tables. set_solver. Qed.

#[local] Set Default Proof Using "Type*".

Section grouping.
Context (ns : list Node).

(** Each node stays as it was, or is a grouping of [ns] that went from in progress to
    done, all of whose children are done or canceled at the end. *)
Definition group_row (p' : Proj) (id : string) (r r' : NodeRow) : Prop :=
  nd_parent r' = nd_parent r ∧ nd_tombstone r' = nd_tombstone r ∧ nd_matter r' = nd_matter r
  ∧ (nd_lifecycle r' = nd_lifecycle r
     ∨ nd_lifecycle r = InProgress ∧ nd_lifecycle r' = Done ∧ hasChild ns id = true ∧ interiorDone p' id = true).

Definition grouped (p p' : Proj) : Prop :=
  ∀ id, match nodes p !! id, nodes p' !! id with
        | Some r, Some r' => group_row p' id r r'
        | None, None => True
        | _, _ => False
        end.

Lemma grouped_interior p p' id : grouped p p' → interiorDone p id = true → interiorDone p' id = true.
Proof.
  intros Hg. rewrite !interiorDone_spec. intros [(c & r & Hc & Hp & Ht) Hall]. split.
  - specialize (Hg c). rewrite Hc in Hg. destruct (nodes p' !! c) as [r'|] eqn:E; [|done].
    destruct Hg as (Hp' & Ht' & _). exists c, r'. rewrite Hp', Ht'. done.
  - intros x y Hx Hpy Hty. specialize (Hg x). rewrite Hx in Hg. destruct (nodes p !! x) as [y0|] eqn:E; [|done].
    destruct Hg as (Hp' & Ht' & _ & [->|(_ & -> & _)]); [|by left].
    apply (Hall x y0 E); congruence.
Qed.

Lemma grouped_nodes p p' : nodes p' = nodes p → grouped p p'.
Proof. intros E id. rewrite E. destruct (nodes p !! id); [|done]. by repeat split; left. Qed.

Lemma grouped_trans p q r : grouped p q → grouped q r → grouped p r.
Proof.
  intros H1 H2 id. specialize (H1 id). pose proof (grouped_interior q r id H2) as Hm. specialize (H2 id).
  destruct (nodes p !! id) as [x|], (nodes q !! id) as [y|], (nodes r !! id) as [z|]; try done.
  destruct H1 as (A1 & A2 & A3 & A4), H2 as (B1 & B2 & B3 & B4).
  split_and!; [congruence..|]. destruct A4 as [A4|(A4 & A5 & A6 & A7)], B4 as [B4|(B4 & B5 & B6 & B7)].
  - left. congruence.
  - right. split_and!; [congruence|done..].
  - right. split_and!; [done|congruence|done|auto].
  - congruence.
Qed.

(** ** The measure *)
Definition active (p : Proj) (n : Node) : bool :=
  match nodes p !! n_id n with Some r => bool_decide (nd_lifecycle r = InProgress) | None => false end.

Definition active_count (p : Proj) (l : list Node) : nat := length (List.filter (active p) l).

Lemma grouped_active p p' n : grouped p p' → active p' n = true → active p n = true.
Proof.
  intros Hg. specialize (Hg (n_id n)). unfold active.
  destruct (nodes p !! _) as [r|], (nodes p' !! _) as [r'|]; try done.
  destruct Hg as (_ & _ & _ & [->|(_ & -> & _)]); [done|]. by rewrite bool_decide_eq_false_2.
Qed.

Lemma active_count_le p p' l : grouped p p' → active_count p' l ≤ active_count p l.
Proof.
  intros Hg. induction l as [|x l IH]; [done|]. unfold active_count in *. cbn.
  destruct (active p' x) eqn:E; [rewrite (grouped_active _ _ _ Hg E); cbn; lia|]. destruct (active p x); cbn; lia.
Qed.

Lemma active_count_lt p p' l n :
  grouped p p' → n ∈ l → active p n = true → active p' n = false → active_count p' l < active_count p l.
Proof.
  intros Hg Hn H1 H2. induction Hn as [x l|x y l Hn IH]; unfold active_count in *; cbn.
  - rewrite H1, H2. cbn. pose proof (active_count_le _ _ l Hg) as Hle. unfold active_count in Hle. lia.
  - specialize (IH H1 H2). destruct (active p' y) eqn:E; [rewrite (grouped_active _ _ _ Hg E); cbn; lia|].
    destruct (active p y); cbn; lia.
Qed.

(** ** The operations *)
Context (w : World) (fuel : nat) (env : Env) (hooks : Hooks) (matter : Node).
Context (Hquiet : post_seal_quiet hooks).

#[local] Opaque applyEvent.

(** Closing a claim leaves the nodes alone. *)
Lemma closeClaim_nodes m ps s r ps' s' :
  closeClaim w fuel env m ps s = Some (r, ps', s') → nodes (s_proj s') = nodes (s_proj s).
Proof.
  unfold closeClaim, mbind, pm_bind, pget, pmodify. destruct (ps_claims ps !! m) as [c|].
  - intros [_ H]%pdraft_wrote. destruct r; [|by destruct H as [_ ->]].
    destruct H as (ev & x & _ & Hty & _ & _ & _ & Hap).
    by apply (execution_only _ _ _ _ _ Hty eq_refl Hap TNodes nodes_not_execution).
  - by intros [= <- <- <-].
Qed.

(** A finish: an error leaves everything, success closes the node. *)
Lemma finish_closes n actor ps s r ps' s' :
  finish_pass w fuel env hooks n actor ps s = Some (r, ps', s') →
  match r with
  | Error _ => nodes (s_proj s') = nodes (s_proj s)
  | Ok _ => ∃ x e, nodes (s_proj s) !! n_id n = Some x ∧ nd_lifecycle x = InProgress
      ∧ nodes (s_proj s') = <[n_id n := set_lifecycle Done e x]> (nodes (s_proj s))
  end.
Proof.
  unfold finish_pass, mbind, pm_bind. intros H.
  destruct (pdraft _ _ _ _ _ ps s) as [[[r1 ps1] s1]|] eqn:E; [|discriminate].
  apply pdraft_wrote in E as [-> Hr]. destruct r1 as [[]|e]; [|injection H as <- <- <-; by destruct Hr as [_ ->]].
  destruct Hr as (ev & c & _ & Hty & Hsub & Hpl & _ & Hap).
  destruct (finish_nodes _ _ _ _ _ Hty Hpl Hap) as (x & Hx & Hl & Hn). rewrite Hsub in Hx, Hn.
  assert (r = Ok tt ∧ s_proj s' = s_proj s1) as [-> ->]; [|by exists x, (ev_id ev)].
  destruct (hk_post_seal hooks) as [post|] eqn:Ep; [|by injection H as <- <- <-].
  destruct (bool_decide _); [|by injection H as <- <- <-]. unfold ptry, plift in H.
  destruct (post n s1) as [[r2 s2]|] eqn:E2; [|discriminate]. injection H as <- <- <-.
  destruct (Hquiet post n s1 Ep) as (r3 & Hr3). rewrite Hr3 in E2. by injection E2 as _ <-.
Qed.

(** A node a sweep would close. *)
Definition completable (p : Proj) (id : string) : bool :=
  match nodes p !! id with
  | Some r => bool_decide (nd_lifecycle r = InProgress) && hasChild ns id && interiorDone p id
  | None => false
  end.

(** What a part of a sweep over [todo] ends in. *)
Definition swept (todo : list Node) (s : Store) (r : result bool) (ps ps' : Pass) (s' : Store) : Prop :=
  grouped (s_proj s) (s_proj s')
  ∧ (r = Ok true → active_count (s_proj s') ns < active_count (s_proj s) ns)
  ∧ (r = Ok false → s' = s ∧ ps' = ps ∧ ∀ n, n ∈ todo → completable (s_proj s) (n_id n) = false).

Lemma grouped_insert p p' id x e :
  nodes p !! id = Some x → nd_lifecycle x = InProgress → hasChild ns id = true → interiorDone p id = true →
  nodes p' = <[id := set_lifecycle Done e x]> (nodes p) → grouped p p'.
Proof.
  intros Hx Hl Hc Hi Hn.
  assert (Hin : interiorDone p' id = true).
  { rewrite interiorDone_spec in Hi |- *. destruct Hi as [(c & r & H1 & H2 & H3) Hall]. rewrite Hn. split.
    - destruct (decide (c = id)) as [->|Hne]; [|exists c, r; by rewrite lookup_insert_ne].
      exists id, (set_lifecycle Done e x). rewrite lookup_insert_eq. rewrite Hx in H1. by injection H1 as ->.
    - intros y z Hy. destruct (decide (y = id)) as [->|Hne]; [|rewrite lookup_insert_ne in Hy by done; exact (Hall y z Hy)].
      rewrite lookup_insert_eq in Hy. injection Hy as <-. by left. }
  intros y. rewrite Hn. destruct (decide (y = id)) as [->|Hne].
  - rewrite Hx, lookup_insert_eq. repeat split. by right.
  - rewrite lookup_insert_ne by done. destruct (nodes p !! y); [|done]. by repeat split; left.
Qed.

Lemma complete_one_swept n ps s r ps' s' :
  n ∈ ns → complete_one w fuel env hooks matter ns n ps s = Some (r, ps', s') → swept [n] s r ps ps' s'.
Proof.
  intros Hin H. assert (Hsame : ∀ b ps1, r = b → s' = s → ps1 = ps → b ≠ Ok true → b ≠ Ok false → swept [n] s r ps ps' s').
  { intros b ps1 -> -> _ H1 H2. split; [by apply grouped_nodes|done]. }
  unfold complete_one, pread, plift, cread in H. unfold mbind at 1, pm_bind at 1 in H.
  destruct (view_Node (s_proj s) (n_id n)) as [fresh|e] eqn:Ef; [|injection H as <- <- <-; by eapply Hsame].
  apply view_Node_Ok in Ef as (x & Hx & Ht & ->). cbn [scanNode n_id n_lifecycle] in H.
  assert (Hquit : completable (s_proj s) (n_id n) = false → Some (Ok false, ps, s) = Some (r, ps', s') → swept [n] s r ps ps' s').
  { intros Hc [= <- <- <-]. split; [by apply grouped_nodes|]. split; [done|]. intros _. split_and!; [done..|].
    by intros y E%list_elem_of_singleton; subst y. }
  unfold completable in Hquit. rewrite Hx in Hquit.
  destruct (negb _ || _) eqn:Eg.
  { apply Hquit; [|exact H]. apply orb_true_iff in Eg as [Eg%negb_true_iff|Eg%negb_true_iff]; rewrite Eg; [done|]. by rewrite andb_false_r. }
  apply orb_false_iff in Eg as [El%negb_false_iff Ec%negb_false_iff]. apply bool_decide_eq_true in El.
  unfold mbind at 1, pm_bind at 1 in H. destruct (interiorDone (s_proj s) (n_id n)) eqn:Ei; cbn [negb] in H.
  2: { apply Hquit; [by rewrite andb_false_r|exact H]. }
  unfold mbind at 1, pm_bind at 1 in H.
  destruct (finish_pass _ _ _ _ _ _ ps s) as [[[r1 ps1] s1]|] eqn:E1; [|discriminate]. apply finish_closes in E1.
  destruct r1 as [[]|e].
  2: { injection H as <- <- <-. split; [by apply grouped_nodes|done]. }
  cbn [scanNode n_id] in E1. destruct E1 as (x' & e & Hx' & Hl' & Hn).
  assert (Hg : grouped (s_proj s) (s_proj s')
    ∧ nodes (s_proj s') = nodes (s_proj s1) ∧ r ≠ Ok false).
  { assert (nodes (s_proj s') = nodes (s_proj s1) ∧ r ≠ Ok false) as [Hn' Hr].
    { unfold mbind, pm_bind in H. destruct (bool_decide (n_id n = n_id matter)).
      - destruct (closeClaim _ _ _ _ ps1 s1) as [[[[[]|e2] ps2] s2]|] eqn:E2; [| |discriminate];
          injection H as <- <- <-; by apply closeClaim_nodes in E2.
      - by injection H as <- <- <-. }
    split_and!; [|done..]. eapply grouped_insert; [exact Hx'|done..|]. rewrite Hn'. exact Hn. }
  destruct Hg as (Hg & Hn' & Hr). split; [exact Hg|]. split; [intros _|done].
  eapply active_count_lt; [exact Hg|exact Hin|..]; unfold active.
  - rewrite Hx'. by rewrite bool_decide_eq_true_2.
  - rewrite Hn', Hn, lookup_insert_eq. done.
Qed.

Lemma complete_sweep_swept todo ps s r ps' s' :
  todo ⊆ ns → complete_sweep w fuel env hooks matter ns todo ps s = Some (r, ps', s') → swept todo s r ps ps' s'.
Proof.
  revert ps s r ps' s'. induction todo as [|n todo IH]; intros ps s r ps' s' Hsub H; cbn in H.
  { injection H as <- <- <-. split; [by apply grouped_nodes|]. split; [done|]. intros _. split_and!; [done..|].
    by intros n ?%elem_of_nil. }
  unfold mbind, pm_bind in H.
  destruct (complete_one _ _ _ _ _ _ _ ps s) as [[[r1 ps1] s1]|] eqn:E1; [|discriminate].
  apply complete_one_swept in E1 as (G1 & T1 & F1); [|apply Hsub; by left].
  destruct r1 as [c|e]; [|injection H as <- <- <-; by split].
  destruct (complete_sweep _ _ _ _ _ _ _ ps1 s1) as [[[r2 ps2] s2]|] eqn:E2; [|discriminate].
  apply IH in E2 as (G2 & T2 & F2); [|intros y Hy; apply Hsub; by right].
  pose proof (grouped_trans _ _ _ G1 G2) as G. pose proof (active_count_le _ _ ns G1) as L1.
  pose proof (active_count_le _ _ ns G2) as L2.
  destruct r2 as [d|e]; injection H as <- <- <-; [|by split].
  split; [exact G|]. split.
  - intros [= Hcd]. apply orb_true_iff in Hcd as [->| ->]; [specialize (T1 eq_refl)|specialize (T2 eq_refl)]; lia.
  - intros [= Hcd]. apply orb_false_iff in Hcd as [-> ->]. destruct (F1 eq_refl) as (-> & -> & C1), (F2 eq_refl) as (-> & -> & C2).
    split_and!; [done..|]. intros y [->|Hy]%elem_of_cons; [apply C1; by left|by apply C2].
Qed.

(** ** The loop *)
Lemma complete_loop_bound k k' ps s :
  active_count (s_proj s) ns < k → active_count (s_proj s) ns < k' →
  complete_loop w fuel env hooks k matter ns ps s = complete_loop w fuel env hooks k' matter ns ps s.
Proof.
  revert k' ps s. induction k as [|k IH]; intros k' ps s Hk Hk'; [lia|]. destruct k' as [|k']; [lia|]. cbn.
  unfold mbind, pm_bind. destruct (complete_sweep _ _ _ _ _ _ _ ps s) as [[[[[]|e] ps1] s1]|] eqn:E; try done.
  apply complete_sweep_swept in E as (_ & T & _); [|done]. specialize (T eq_refl). apply IH; lia.
Qed.

(** The rounds are never spent. *)
Lemma complete_loop_ends k ps s r ps' s' :
  active_count (s_proj s) ns < k →
  complete_loop w fuel env hooks k matter ns ps s = Some (r, ps', s') → r ≠ Ok false.
Proof.
  revert ps s. induction k as [|k IH]; intros ps s Hk H; [lia|]. cbn in H. unfold mbind, pm_bind in H.
  destruct (complete_sweep _ _ _ _ _ _ _ ps s) as [[[[[]|e] ps1] s1]|] eqn:E; [| | |discriminate].
  - apply complete_sweep_swept in E as (_ & T & _); [|done]. specialize (T eq_refl). apply IH in H; [done|lia].
  - by injection H as <- <- <-.
  - by injection H as <- <- <-.
Qed.

Lemma complete_loop_grouped k ps s r ps' s' :
  complete_loop w fuel env hooks k matter ns ps s = Some (r, ps', s') →
  grouped (s_proj s) (s_proj s')
  ∧ (r = Ok true → ∀ n, n ∈ ns → completable (s_proj s') (n_id n) = false).
Proof.
  revert ps s. induction k as [|k IH]; intros ps s H; cbn in H.
  { injection H as <- <- <-. split; [by apply grouped_nodes|done]. }
  unfold mbind, pm_bind in H. destruct (complete_sweep _ _ _ _ _ _ _ ps s) as [[[[[]|e] ps1] s1]|] eqn:E; [| | |discriminate];
    apply complete_sweep_swept in E as (G & _ & F); try done.
  - apply IH in H as [G2 C]. split; [by eapply grouped_trans|exact C].
  - injection H as <- <- <-. split; [exact G|]. intros _. by destruct (F eq_refl) as (-> & _ & C).
  - injection H as <- <- <-. by split.
Qed.
End grouping.

(** ** The loop returns *)
Section pace.
Context (ns : list Node) (w : World) (fuel : nat) (env : Env) (hooks : Hooks) (matter : Node).
Context (Hw : world_ok w) (Hquiet : post_seal_quiet hooks).

(** The clock is past the floor and moves between the next [k] readings, so each of the
    next [k] identities takes one draw. *)
Definition paced (s : Store) (k : nat) : Prop :=
  handle_ok (s_handle s) ∧ current w (s_handle s) ∧ ticking w (h_tick (s_handle s)) k.

Lemma paced_le s k k' : paced s k → k' ≤ k → paced s k'.
Proof. intros (H1 & H2 & H3) Hk. split_and!; [done..|]. intros i Hi. apply H3. lia. Qed.

Lemma pdraft_paced actor d ps s k :
  paced s (S k) →
  ∃ r s', pdraft w (S fuel) env actor d ps s = Some (r, ps, s') ∧ (is_ok r = true → paced s' k).
Proof.
  intros (Hh & Hc & Ht). unfold pdraft, pcommit, plift, commit, captured, forget, mbind, pm_bind, mret, tx_ret, pm_ret.
  unfold Commit. cbv zeta. destruct (negb _); [by do 2 eexists|].
  match goal with |- context [match (match actor_role ?a with _ => _ end) with Ok _ => _ | Error _ => _ end] =>
    destruct (match actor_role a with Some name => verifyRoleActor (s_proj s) _ name | None => Ok () end) end;
    [|by do 2 eexists].
  cbn [write_drafts mbind option_bind].
  destruct (stamp_returns w fuel (MkRequest actor env) d (s_handle s) Hw Hh Hc) as (r & h1 & E & Hr).
  { pose proof (Ht 0 ltac:(lia)) as H0. by rewrite Nat.add_0_r in H0. }
  rewrite E. cbn [mbind option_bind]. destruct r as [ev|e]; cbn [mbind result_bind]; [|by do 2 eexists].
  destruct (Hr ev eq_refl) as (Hh1 & Hc1 & Hk1).
  match goal with |- context [match ?x with Error _ => _ | Ok _ => _ end] => destruct x as [[[ev' log'] p']|e] end;
    [|by do 2 eexists].
  do 2 eexists. split; [reflexivity|]. intros _. split_and!; [done..|]. cbn [s_handle]. rewrite Hk1. intros i Hi.
  specialize (Ht (S i) ltac:(lia)). by rewrite Nat.add_succ_r in Ht.
Qed.
Lemma closeClaim_paced m ps s k :
  paced s (S k) →
  ∃ r ps' s', closeClaim w (S fuel) env m ps s = Some (r, ps', s') ∧ (is_ok r = true → paced s' k).
Proof.
  intros Hs. unfold closeClaim, mbind, pm_bind, pget, pmodify. destruct (ps_claims ps !! m) as [c|].
  - match goal with |- context [pdraft _ _ _ ?a ?d ?q _] => destruct (pdraft_paced a d q s k Hs) as (r & s' & -> & Hr) end.
    eauto.
  - do 3 eexists. split; [reflexivity|]. intros _. apply (paced_le _ _ _ Hs). lia.
Qed.

Lemma finish_paced n actor ps s k :
  paced s (S k) →
  ∃ r ps' s', finish_pass w (S fuel) env hooks n actor ps s = Some (r, ps', s') ∧ (is_ok r = true → paced s' k).
Proof.
  intros Hs. unfold finish_pass, mbind, pm_bind.
  match goal with |- context [pdraft _ _ _ ?a ?d ?q _] => destruct (pdraft_paced a d q s k Hs) as (r & s1 & -> & Hr) end.
  destruct r as [[]|e]; [|by do 3 eexists]. specialize (Hr eq_refl).
  destruct (hk_post_seal hooks) as [post|] eqn:Ep; [|by do 3 eexists]. destruct (bool_decide _); [|by do 3 eexists].
  destruct (Hquiet post n s1 Ep) as (r2 & E). unfold ptry, plift. rewrite E. by do 3 eexists.
Qed.

Lemma active_count_pos p n : n ∈ ns → active p n = true → 0 < active_count p ns.
Proof.
  intros Hn Ha. unfold active_count. assert (n ∈ List.filter (active p) ns) as Hin.
  { apply list_elem_of_In, filter_In. by rewrite <-list_elem_of_In. }
  destruct (List.filter (active p) ns); [by apply elem_of_nil in Hin|cbn; lia].
Qed.

(** Two identities for each node in progress: its finish, and the claim's close. *)
Definition pace_left (s : Store) : Prop := paced s (2 * active_count (s_proj s) ns).

Lemma complete_one_paced n ps s :
  n ∈ ns → pace_left s →
  ∃ r ps' s', complete_one w (S fuel) env hooks matter ns n ps s = Some (r, ps', s') ∧ (is_ok r = true → pace_left s').
Proof.
  intros Hn Hs.
  assert (∃ r ps' s', complete_one w (S fuel) env hooks matter ns n ps s = Some (r, ps', s')
    ∧ (r = Ok true → paced s' (2 * active_count (s_proj s) ns - 2))) as (r & ps' & s' & E & Hr).
  { unfold complete_one, pread, plift, cread. unfold mbind at 1, pm_bind at 1.
    destruct (view_Node (s_proj s) (n_id n)) as [fresh|e] eqn:Ef; [|by do 3 eexists].
    apply view_Node_Ok in Ef as (x & Hx & Ht & ->). cbn [scanNode n_id n_lifecycle].
    destruct (negb _ || _) eqn:Eg; [by do 3 eexists|]. apply orb_false_iff in Eg as [El%negb_false_iff _].
    unfold mbind at 1, pm_bind at 1. destruct (interiorDone _ _); cbn [negb]; [|by do 3 eexists].
    pose proof (active_count_pos (s_proj s) n Hn) as Hpos. unfold active in Hpos. rewrite Hx in Hpos. specialize (Hpos El).
    unfold mbind, pm_bind. unfold pace_left in Hs.
    destruct (finish_paced (scanNode (n_id n) x) orchestrator_actor ps s (S (2 * active_count (s_proj s) ns - 2)))
      as (r1 & ps1 & s1 & -> & H1); [apply (paced_le _ _ _ Hs); lia|].
    destruct r1 as [[]|e]; [|by do 3 eexists]. specialize (H1 eq_refl).
    destruct (bool_decide (n_id n = n_id matter)).
    - destruct (closeClaim_paced (n_id matter) ps1 s1 _ H1) as (r2 & ps2 & s2 & -> & H2).
      destruct r2 as [[]|e]; do 3 eexists; (split; [reflexivity|]); [intros _; by apply H2|done].
    - do 3 eexists. split; [reflexivity|]. intros _. apply (paced_le _ _ _ H1). lia. }
  exists r, ps', s'. split; [exact E|]. apply (complete_one_swept ns w (S fuel) env hooks matter Hquiet) in E as (_ & T & F); [|done].
  destruct r as [[]|e]; [|by destruct (F eq_refl) as (-> & _)|done]. intros _.
  specialize (T eq_refl). apply (paced_le _ _ _ (Hr eq_refl)). lia.
Qed.

Lemma complete_sweep_paced todo ps s :
  todo ⊆ ns → pace_left s →
  ∃ r ps' s', complete_sweep w (S fuel) env hooks matter ns todo ps s = Some (r, ps', s') ∧ (is_ok r = true → pace_left s').
Proof.
  revert ps s. induction todo as [|n todo IH]; intros ps s Hsub Hs; cbn; [by do 3 eexists|]. unfold mbind, pm_bind.
  destruct (complete_one_paced n ps s) as (r1 & ps1 & s1 & -> & H1); [apply Hsub; by left|done|].
  destruct r1 as [c|e]; [|by do 3 eexists].
  destruct (IH ps1 s1) as (r2 & ps2 & s2 & -> & H2); [intros y Hy; apply Hsub; by right|by apply H1|].
  destruct r2 as [d|e]; by do 3 eexists.
Qed.

Lemma complete_loop_returns k ps s :
  pace_left s → is_Some (complete_loop w (S fuel) env hooks k matter ns ps s).
Proof.
  revert ps s. induction k as [|k IH]; intros ps s Hs; cbn; [by eexists|]. unfold mbind, pm_bind.
  destruct (complete_sweep_paced ns ps s) as (r & ps1 & s1 & -> & H1); [done..|].
  destruct r as [[]|e]; [by apply IH, H1|by eexists..].
Qed.
End pace.
