(* ===== verification/Scenario.v ===== *)
(** A concrete run, on which the theorems about reachable stores are applied: a
    Repo with a Clone and a Worktree, a Matter with a Stage and two Steps, a
    second Matter, an edge, a declared gate and its closure, a bracket with a
    role, a backlog entry. *)
From stdpp Require Import relations.
From S2P Require Import Prelude GoStd Ulid Taxonomy Json Payloads Tables View Gates Project Store.
From S2P Require Import Steps Invariants Shape Replay Mint Reach Command.

Definition demo_world : World :=
  MkWorld (λ n, Z.min (1700000000000 + Z.of_nat n) 1800000000000)%Z (λ _, replicate 10 1%Z).

(** Identities of the entities; the events' own are minted. *)
Definition repo0 : string := "01ARZ3NDEKTSV4RRFFQ69G5FA0".
Definition clone0 : string := "01ARZ3NDEKTSV4RRFFQ69G5FA1".
Definition tree0 : string := "01ARZ3NDEKTSV4RRFFQ69G5FA2".
Definition matter0 : string := "01ARZ3NDEKTSV4RRFFQ69G5FA3".
Definition stage0 : string := "01ARZ3NDEKTSV4RRFFQ69G5FA4".
Definition step0 : string := "01ARZ3NDEKTSV4RRFFQ69G5FA5".
Definition step1 : string := "01ARZ3NDEKTSV4RRFFQ69G5FA6".
Definition matter1 : string := "01ARZ3NDEKTSV4RRFFQ69G5FA7".
Definition edge0 : string := "01ARZ3NDEKTSV4RRFFQ69G5FA8".
Definition disp0 : string := "01ARZ3NDEKTSV4RRFFQ69G5FA9".
Definition role0 : string := "01ARZ3NDEKTSV4RRFFQ69G5FAA".
Definition entry0 : string := "01ARZ3NDEKTSV4RRFFQ69G5FAB".

Definition demo_env : Env := MkEnv repo0 clone0 tree0.
Definition demo_req : Request := MkRequest ActorHuman demo_env.

(** A decision that returns these drafts and mints nothing. *)
Definition plan (ds : list Draft) : Decide := λ _ _ h, Some (Ok ds, h).

Definition after (o : option (result (list Event) * Store)) : Store :=
  match o with Some (_, s) => s | None => fresh_store end.

Definition run (ds : list Draft) (s : Store) : Store :=
  after (Commit demo_world 2 demo_req (plan ds) s).

Definition tiers : list Draft :=
  [draft TypeRepoAttached repo0 (MkRepoAttached "" "" "demo");
   draft TypeCloneAttached clone0 (MkCloneAttached repo0 "/src/demo/.git" "main");
   draft TypeWorktreeAttached tree0 (MkWorktreeAttached clone0 "main")].

Definition work : list Draft :=
  [draft TypeMatterCreated matter0 (MkNodeBirth "First" "first" "" 1000);
   draft TypeStageCreated stage0 (MkNodeBirth "Build" "build" matter0 1000);
   draft TypeStepCreated step0 (MkNodeBirth "One" "step-01" stage0 1000);
   draft TypeStepCreated step1 (MkNodeBirth "Two" "step-02" stage0 2000);
   draft TypeMatterCreated matter1 (MkNodeBirth "Second" "second" "" 1000)].

Definition edge_work : list Draft :=
  [draft TypeDependencyAdded matter0 (MkDependencyChange edge0 matter1)].

(** A gate on Matters, declared before anything is done, and a bracket with a
    role in it. *)
Definition gate_work : list Draft :=
  [draft TypeGateDeclared repo0 (MkGateDeclared "review" "matter" []);
   draft TypeMatterStarted matter0 (MkTransition "planned" "in-progress" false "off" "");
   draft TypeMatterFinished matter0 (MkTransition "in-progress" "done" false "off" "");
   draft TypeDispatchOpened disp0 (MkDispatchOpened "" "");
   draft TypeRoleSpawned role0 (MkRoleSpawned disp0 "builder")].

Definition entry_work : list Draft :=
  [draft TypeBacklogEntered entry0 (MkBacklogEntered "intake" "Later" "" "")].

Definition outbox0 : string := "01ARZ3NDEKTSV4RRFFQ69G5FAC".
Definition content0 : string := "01ARZ3NDEKTSV4RRFFQ69G5FAD".

(** The entry is handed to the tracker, the candidate approved, then declined. *)
Definition delegate_work : list Draft :=
  [draft TypeBacklogDelegated entry0 (MkBacklogDelegated outbox0 "key-1");
   draft TypeOutboxApproved outbox0 MkOutboxApproved;
   draft TypeOutboxDeclined outbox0 (MkOutboxDeclined "not now");
   draft TypeStepRemoved step1 (MkRemoved "")].

(** The gate closes, then the role and its bracket. *)
Definition close_work : list Draft :=
  [draft TypeGateClosed matter0 (MkGateClosed "review" "matter" "off")].

Definition bracket_work : list Draft :=
  [draft TypeRoleClosed role0 (MkRoleClosed "completed");
   draft TypeDispatchClosed disp0 (MkDispatchClosed "completed")].

Definition last_work : list Draft :=
  [draft TypeMatterStarted matter1 (MkTransition "planned" "in-progress" false "off" "")].

(** A tracker reference on the finished Matter queues its state; the candidate
    is approved and delivered. *)
Definition ref0 : string := "T-1".

Definition reference_work : list Draft :=
  [draft TypeReferenceAdded matter0 (MkReferenceAdded ref0 "boundary")].

Definition store_tiers : Store := Eval vm_compute in run tiers fresh_store.
Definition store_work : Store := Eval vm_compute in run work store_tiers.
Definition store_edge : Store := Eval vm_compute in run edge_work store_work.
Definition store_gate : Store := Eval vm_compute in run gate_work store_edge.
Definition demo_store : Store := Eval vm_compute in run entry_work store_gate.

Definition store_delegated : Store := Eval vm_compute in run delegate_work demo_store.
Definition store_closed : Store := Eval vm_compute in run close_work store_delegated.
Definition store_bracket : Store := Eval vm_compute in run bracket_work store_closed.
Definition store_last : Store := Eval vm_compute in run last_work store_bracket.
Definition store_reference : Store := Eval vm_compute in run reference_work store_last.

(** The identity the fold derived for the candidate. *)
Definition candidate0 : string :=
  Eval vm_compute in match filter (λ kr : string * OutboxRow, ob_kind kr.2 = OutboxStateKind)
    (map_to_list (outbox_entries (s_proj store_reference))) with kr :: _ => kr.1 | [] => "" end.

Definition push_work : list Draft :=
  [draft TypeOutboxApproved candidate0 MkOutboxApproved;
   draft TypeTrackerStatePushed candidate0 (MkTrackerStatePushed ref0 "completed" "lease-1")].

Definition store_push : Store := Eval vm_compute in run push_work store_reference.

Definition pause_work : list Draft :=
  [draft TypeMatterPaused matter1 (MkTransition "in-progress" "paused" false "off" "")].

Definition store_after_push : Store := Eval vm_compute in run pause_work store_push.

Example demo_sizes :
  (length (s_log demo_store), size (nodes (s_proj demo_store)), size (roles (s_proj demo_store)))
  = (15%nat, 5%nat, 1%nat).
Proof. vm_compute. reflexivity. Qed.

(** ** It is a run of the store *)
Lemma demo_world_ok : world_ok demo_world.
Proof.
  intros n. split; [|split; [by apply Forall_replicate|done]]. cbn. lia.
Qed.

Lemma plan_decides w ds : decides w (plan ds).
Proof. intros log p h r h' [= _ <-]. apply rtc_refl. Qed.

(** A command that succeeded from a reachable store. *)
Lemma reach_plan ds s s' events :
  reach demo_world s → Commit demo_world 2 demo_req (plan ds) s = Some (Ok events, s') →
  reach demo_world s'.
Proof.
  intros Hs Hc. unfold reach, future in *. eapply rtc_r; [exact Hs|]. eapply step_commit; [apply plan_decides|exact Hc].
Qed.

Definition events_after (n : nat) (s : Store) : list Event := drop n (s_log s).

Lemma commit_tiers :
  Commit demo_world 2 demo_req (plan tiers) fresh_store = Some (Ok (events_after 0 store_tiers), store_tiers).
Proof. vm_compute. reflexivity. Qed.

Lemma commit_work :
  Commit demo_world 2 demo_req (plan work) store_tiers = Some (Ok (events_after 3 store_work), store_work).
Proof. vm_compute. reflexivity. Qed.

Lemma commit_edge :
  Commit demo_world 2 demo_req (plan edge_work) store_work = Some (Ok (events_after 8 store_edge), store_edge).
Proof. vm_compute. reflexivity. Qed.

Lemma commit_gate :
  Commit demo_world 2 demo_req (plan gate_work) store_edge = Some (Ok (events_after 9 store_gate), store_gate).
Proof. vm_compute. reflexivity. Qed.

Lemma commit_entry :
  Commit demo_world 2 demo_req (plan entry_work) store_gate = Some (Ok (events_after 14 demo_store), demo_store).
Proof. vm_compute. reflexivity. Qed.

Lemma reach_tiers : reach demo_world store_tiers.
Proof. eapply reach_plan; [apply rtc_refl|exact commit_tiers]. Qed.

Lemma reach_work : reach demo_world store_work.
Proof. eapply reach_plan; [exact reach_tiers|exact commit_work]. Qed.

Lemma reach_edge : reach demo_world store_edge.
Proof. eapply reach_plan; [exact reach_work|exact commit_edge]. Qed.

Lemma reach_gate : reach demo_world store_gate.
Proof. eapply reach_plan; [exact reach_edge|exact commit_gate]. Qed.

Lemma reach_demo : reach demo_world demo_store.
Proof. eapply reach_plan; [exact reach_gate|exact commit_entry]. Qed.

Lemma commit_delegate :
  Commit demo_world 2 demo_req (plan delegate_work) demo_store
  = Some (Ok (events_after 15 store_delegated), store_delegated).
Proof. vm_compute. reflexivity. Qed.

Lemma commit_close :
  Commit demo_world 2 demo_req (plan close_work) store_delegated
  = Some (Ok (events_after 19 store_closed), store_closed).
Proof. vm_compute. reflexivity. Qed.

Lemma reach_delegated : reach demo_world store_delegated.
Proof. eapply reach_plan; [exact reach_demo|exact commit_delegate]. Qed.

Lemma reach_closed : reach demo_world store_closed.
Proof. eapply reach_plan; [exact reach_delegated|exact commit_close]. Qed.

Lemma commit_bracket :
  Commit demo_world 2 demo_req (plan bracket_work) store_closed
  = Some (Ok (events_after 20 store_bracket), store_bracket).
Proof. vm_compute. reflexivity. Qed.

Lemma commit_last :
  Commit demo_world 2 demo_req (plan last_work) store_bracket
  = Some (Ok (events_after 22 store_last), store_last).
Proof. vm_compute. reflexivity. Qed.

Lemma reach_bracket : reach demo_world store_bracket.
Proof. eapply reach_plan; [exact reach_closed|exact commit_bracket]. Qed.

Lemma future_plan ds s s' events :
  Commit demo_world 2 demo_req (plan ds) s = Some (Ok events, s') → future demo_world s s'.
Proof. intros Hc. apply rtc_once. eapply step_commit; [apply plan_decides|exact Hc]. Qed.

Lemma future_demo : future demo_world store_work demo_store.
Proof.
  etrans; [eapply future_plan; exact commit_edge|].
  etrans; [eapply future_plan; exact commit_gate|eapply future_plan; exact commit_entry].
Qed.

Lemma future_bracket : future demo_world store_delegated store_bracket.
Proof.
  etrans; [eapply future_plan; exact commit_close|eapply future_plan; exact commit_bracket].
Qed.

Lemma future_last : future demo_world store_bracket store_last.
Proof. eapply future_plan. exact commit_last. Qed.

Lemma reach_last : reach demo_world store_last.
Proof. eapply reach_plan; [exact reach_bracket|exact commit_last]. Qed.

Lemma commit_reference :
  Commit demo_world 2 demo_req (plan reference_work) store_last
  = Some (Ok (events_after 23 store_reference), store_reference).
Proof. vm_compute. reflexivity. Qed.

Lemma commit_push :
  Commit demo_world 2 demo_req (plan push_work) store_reference
  = Some (Ok (events_after 24 store_push), store_push).
Proof. vm_compute. reflexivity. Qed.

Lemma reach_push : reach demo_world store_push.
Proof.
  eapply reach_plan; [|exact commit_push]. eapply reach_plan; [exact reach_last|exact commit_reference].
Qed.

Lemma future_push : future demo_world store_push store_after_push.
Proof.
  eapply (future_plan pause_work store_push _ (events_after 26 store_after_push)).
  vm_compute. reflexivity.
Qed.
