(* ===== verification/VerbScenario.v ===== *)
(** The verbs on the concrete run of Scenario: the stores they lead to, for the
    applications of the theorems about the write surface. *)
From stdpp Require Import relations.
From S2P Require Import Prelude GoStd Ulid Taxonomy Json Payloads Tables View Gates Project Store.
From S2P Require Import Steps Invariants Shape Replay Mint Reach Completion Cycle Content Command.
From S2P Require Import Resolve Config NodeVerbs WorkVerbs Effects Verbs Seal Archive GateOrder Scenario.

(** The store after a verb. *)
Definition after_cmd {A} (o : option (result A * Store)) : Store :=
  match o with Some (_, s) => s | None => fresh_store end.

Definition verb_after (v : Verb) (s : Store) : Store := after_cmd (run_verb demo_world 2 v s).

(** Starting the first Step starts its Stage and its Matter. *)
Definition start_verb : Verb := VStart ActorHuman repo0 "first/build/step-01".
Definition store_started : Store := Eval vm_compute in verb_after start_verb store_work.

Definition depend_verb : Verb := VDependAdd ActorHuman repo0 "first" "second".
Definition store_depends : Store := Eval vm_compute in verb_after depend_verb store_work.

(** A gate declared over an archived Matter. *)
Definition declare_verb : Verb := VDeclareGate repo0 "ci-green" "matter".
Definition store_declared : Store := Eval vm_compute in verb_after declare_verb store_closed.

(** The second Step before the first. *)
Definition reorder_of (s : Store) := ReorderStep demo_world 2 ActorHuman repo0 "first/build" ["first/step-02"; "first/step-01"] s.
Definition store_reordered : Store := Eval vm_compute in after_cmd (reorder_of store_work).

Definition create_of (s : Store) := CreateMatter demo_world 2 ActorHuman repo0 "Fix: the Parser" "" s.
Definition store_created : Store := Eval vm_compute in after_cmd (create_of store_work).

(** Closing the last gate of a finished Matter seals it. *)
Definition seal_close : SealVerb := SealClose ActorHuman demo_env "review" "first".
Definition store_sealed : Store := Eval vm_compute in after_cmd (run_seal demo_world 2 seal_close store_delegated).

(** A Run over the first Matter, with a Dispatch and a role in it. *)
Definition batch0 : string := "01ARZ3NDEKTSV4RRFFQ69G5FAE".
Definition run0 : string := "01ARZ3NDEKTSV4RRFFQ69G5FAF".
Definition disp1 : string := "01ARZ3NDEKTSV4RRFFQ69G5FAG".
Definition role1 : string := "01ARZ3NDEKTSV4RRFFQ69G5FAH".

Definition run_work : list Draft :=
  [draft TypeBatchCreated batch0 (MkBatchCreated "sprint" "");
   draft TypeRunStarted run0 (MkRunStarted batch0 "run-01" [matter0]);
   draft TypeDispatchOpened disp1 (MkDispatchOpened run0 matter0);
   draft TypeRoleSpawned role1 (MkRoleSpawned disp1 "builder")].

Definition store_run : Store := Eval vm_compute in run run_work store_work.

Definition no_lock : string → result () := λ _, Ok tt.

Definition stand_down (s : Store) := StandDownRun demo_world 2 no_lock ActorHuman demo_env run0 s.
Definition store_stood_down : Store := Eval vm_compute in after_cmd (stand_down store_run).

Example verb_log_sizes :
  (length (s_log store_work), length (s_log store_started), length (s_log store_depends),
   length (s_log store_closed), length (s_log store_declared), length (s_log store_reordered),
   length (s_log store_created), length (s_log store_sealed), length (s_log store_run),
   length (s_log store_stood_down))
  = (8, 11, 9, 20, 21, 9, 9, 20, 12, 14)%nat.
Proof. vm_compute. reflexivity. Qed.

(** ** Facts the applications need *)
Lemma reach_run : reach demo_world store_run.
Proof.
  eapply (reach_plan run_work _ _ (events_after 8 store_run)); [exact reach_work|]. vm_compute. reflexivity.
Qed.

Lemma shaped_check p :
  bool_decide (map_Forall (λ k _, IsIdentityShaped k = true) (nodes p)) = true → ids_shaped p.
Proof. intros H%bool_decide_eq_true k [r Hr]. exact (H k r Hr). Qed.

Lemma work_shaped : ids_shaped (s_proj store_work).
Proof. apply shaped_check. vm_compute. reflexivity. Qed.

Lemma closed_shaped : ids_shaped (s_proj store_closed).
Proof. apply shaped_check. vm_compute. reflexivity. Qed.

(** One declaration, so nothing to order it against. *)
Lemma closed_ordered : gates_ordered (s_proj store_closed).
Proof.
  assert (map_Forall (λ k _, k.2 = "review") (gate_declarations (s_proj store_closed))) as Hone
    by (apply (bool_decide_unpack _); vm_compute; exact I).
  intros repo a b [_ Ha]%elem_of_declarations [_ Hb]%elem_of_declarations. apply Hone in Ha, Hb. cbn in Ha, Hb.
  unfold violates. rewrite Ha, Hb. destruct (gateOrder "review") as [n|]; [by rewrite Nat.ltb_irrefl|done].
Qed.
