(* ===== verification/EngineScenario.v ===== *)
(** Concrete runs on top of Scenario.  Delivery and comparison: two approved state
    entries for one reference and a comment, a provider that accepts the first call and
    times out on the second, and a tracker that lags behind a sealed Matter.  Passes
    over a Run: one that plans, works and finishes both Matters, one whose Work fails on
    a Step, and the same failure under a policy that asks with nobody to answer. *)
From stdpp Require Import gmap relations.
From S2P Require Import Prelude Ulid GoStd Taxonomy Json Payloads Tables View Gates Project Store Steps.
From S2P Require Import Invariants Shape Replay Mint Reach Command Resolve Config NodeVerbs WorkVerbs Effects.
From S2P Require Import Outcome SchedFrontier Tracker FlushFacts Alignment Doctor SchedLoop PassFacts Scenario.
From S2P Require Import VerbScenario.

Definition propose_all : cmd () :=
  ProposeTrackerState demo_world 2 ActorHuman repo0 ref0 "completed" ;;
  ProposeTrackerComment demo_world 2 ActorHuman repo0 ref0 "shipped" ;; mret tt.
Definition store_proposed : Store := Eval vm_compute in after_cmd (propose_all store_reference).
Definition queued_ids (s : Store) : list string :=
  oe_id <$> filter (λ e, oe_state e = OutboxQueued) (Outbox (s_proj s) repo0).
Fixpoint approve_all (ids : list string) : cmd () :=
  match ids with [] => mret tt | id :: ids => OutboxApprove demo_world 2 ActorHuman repo0 id ;; approve_all ids end.
Definition store_approved : Store := Eval vm_compute in after_cmd (approve_all (queued_ids store_proposed) store_proposed).
Definition demo_seam : Seam := λ calls e,
  match calls with [] => inr (MkResult "delivered" "" "lease-9" "") | _ => inl "timeout" end.
Definition flush_of (s : Store) :=
  Flush demo_world 2 (λ _, "message") (λ g, (map_to_list g).*1) ActorHuman repo0 (Some demo_seam) s.

Definition store_flushed : Store := Eval vm_compute in after_cmd (flush_of store_approved).

Definition flush_end : Flushing :=
  Eval vm_compute in match flush_of store_approved with Some (Ok (st, _), _) => st | _ => flushing0 end.

Lemma flush_ran : flush_of store_approved = Some (Ok (flush_end, None), store_flushed).
Proof. vm_compute. reflexivity. Qed.

(** A backend is configured; its tracker still shows the item in progress. *)
Definition backend_work : list Draft :=
  [draft TypeConfigSet repo0 (MkConfigSet TrackerBackendKey "demo")].

Definition store_backend : Store := Eval vm_compute in run backend_work store_reference.

Lemma reach_reference : reach demo_world store_reference.
Proof. eapply reach_plan; [exact reach_last|exact commit_reference]. Qed.

Lemma reach_backend : reach demo_world store_backend.
Proof.
  eapply (reach_plan backend_work store_reference store_backend (events_after 24 store_backend));
    [exact reach_reference|vm_compute; reflexivity].
Qed.

(** No push level is set: the reference of the finished Matter is inert. *)
Example demo_doctor :
  Run (s_proj store_reference) "" (store_checks repo0)
  = Ok [inert_finding (default (scanNode "" (MkNodeRow ScaleMatter "" "" None "" "" Planned 0 None "" "" None))
          (head (Matters (s_proj store_reference) repo0))) ref0].
Proof. vm_compute. reflexivity. Qed.

Definition demo_reader : StateReader := λ _, inr (MkLiveState "active" "In Progress" "lease-3").

Definition demo_registry : ProviderRegistry :=
  {["demo" := λ _, Ok (MkProvider demo_seam (Some demo_reader))]}.

Example demo_alignment :
  Check_alignment (λ _, "message") (Some demo_registry) (s_log store_backend) (s_proj store_backend) matter0
  = [MkAlignment ref0 AlignmentBehind (Some TrackerCompleted) "In Progress" "active" "lease-3" (Some TrackerCompleted) ""].
Proof. vm_compute. reflexivity. Qed.

Definition disp2 : string := "01ARZ3NDEKTSV4RRFFQ69G5FAJ".

(** The driving worktree's bracket, and a Run of both Matters. *)
Definition pass_work : list Draft :=
  [draft TypeDispatchOpened disp2 (MkDispatchOpened "" "");
   draft TypeBatchCreated batch0 (MkBatchCreated "sprint" "");
   draft TypeRunStarted run0 (MkRunStarted batch0 "run-01" [matter0; matter1])].

Definition store_pass : Store := Eval vm_compute in run pass_work store_work.

Lemma reach_pass : reach demo_world store_pass.
Proof.
  eapply (reach_plan pass_work store_work store_pass (events_after 8 store_pass)); [|vm_compute; reflexivity].
  eapply reach_plan; [|exact commit_work]. eapply reach_plan; [apply rtc_refl|exact commit_tiers].
Qed.

Definition demo_hooks : Hooks := MkHooks (Some (λ _, mret tt)) (Some (λ _, mret ["Draft"; "Check"])) None None.
Definition bad_hooks : Hooks :=
  MkHooks (Some (λ n, if bool_decide (n_id n = step1) then cfail EDecode else mret tt)) None None None.
Definition skips : Policy := MkPolicy HandleSkip HandleSkip HandleSkip.
Definition asks : Policy := MkPolicy HandleSkip HandleSkip HandleAsk.

Definition pass_of (pol : Policy) (h : Hooks) (s : Store) : option (result (PassOutcome * option Err) * Store) :=
  Orchestrate demo_world 3 20 no_lock ActorHuman demo_env run0 2 pol h s.

Definition outcome_of (o : option (result (PassOutcome * option Err) * Store)) : PassOutcome :=
  match o with Some (Ok (out, _), _) => out | _ => outcome0 end.

Definition store_finished : Store := Eval vm_compute in after_cmd (pass_of skips demo_hooks store_pass).
Definition out_finished : PassOutcome := Eval vm_compute in outcome_of (pass_of skips demo_hooks store_pass).

Lemma pass_finished : pass_of skips demo_hooks store_pass = Some (Ok (out_finished, None), store_finished).
Proof. vm_compute. reflexivity. Qed.

Lemma demo_hooks_sound : hooks_sound demo_world demo_hooks.
Proof. unfold hooks_sound. split_and!; intros f n E; try discriminate E; injection E as <-; apply _. Qed.

(** What a pass reports, in the locators a reader knows. *)
Definition report (o : option (result (PassOutcome * option Err) * Store)) :
    option PassState * list string * list (string * RunSkipReason) :=
  (po_state (outcome_of o), n_locator <$> po_worked (outcome_of o),
   (λ k, (n_locator (sk_matter k), sk_reason k)) <$> po_skipped (outcome_of o)).

Example demo_failed :
  report (pass_of skips bad_hooks store_pass) = (Some StateStandingBy, ["step-01"; "second"], [("first", RunSkipFailed)]).
Proof. vm_compute. reflexivity. Qed.

Example demo_asked :
  report (pass_of asks bad_hooks store_pass) = (Some StateHalted, ["step-01"], [("first", RunSkipFailed)]).
Proof. vm_compute. reflexivity. Qed.

(** An Orchestrator is at work, and both Steps of the first Matter are done; its
    Stage and the Matter are not. *)
Definition interior_work : list Draft :=
  [draft TypeRoleSpawned "01ARZ3NDEKTSV4RRFFQ69G5FAK" (MkRoleSpawned disp2 "orchestrator");
   draft TypeMatterStarted matter0 (MkTransition "planned" "in-progress" true "off" "");
   draft TypeStageStarted stage0 (MkTransition "planned" "in-progress" true "off" "");
   draft TypeStepStarted step0 (MkTransition "planned" "in-progress" false "off" "");
   draft TypeStepStarted step1 (MkTransition "planned" "in-progress" false "off" "");
   draft TypeStepFinished step0 (MkTransition "in-progress" "done" false "off" "");
   draft TypeStepFinished step1 (MkTransition "in-progress" "done" false "off" "")].

Definition store_interior : Store := Eval vm_compute in run interior_work store_pass.

Lemma reach_interior : reach demo_world store_interior.
Proof.
  eapply (reach_plan interior_work store_pass store_interior (events_after 11 store_interior));
    [exact reach_pass|vm_compute; reflexivity].
Qed.

(** The clock of the demo is past the last identity minted. *)
Lemma interior_current : current demo_world (s_handle store_interior).
Proof.
  exists (be (source_raw (h_ids (s_handle store_interior)))). split; [|vm_compute; reflexivity].
  right. exists (source_raw (h_ids (s_handle store_interior))).
  split_and!; [|reflexivity|vm_compute; reflexivity|reflexivity].
  apply source_raw_wf, (reach_ok demo_world store_interior demo_world_ok reach_interior).
Qed.

Lemma interior_ticking : ticking demo_world (h_tick (s_handle store_interior)) 100.
Proof.
  intros i Hi. let t := eval vm_compute in (h_tick (s_handle store_interior)) in
    change (h_tick (s_handle store_interior)) with t.
  unfold demo_world. cbn [w_clock]. lia.
Qed.

Definition matter0_node (s : Store) : Node :=
  scanNode matter0 (default (MkNodeRow ScaleMatter "" "" None "" "" Planned 0 None "" "" None) (nodes (s_proj s) !! matter0)).

Definition complete_of (s : Store) : option (result () * Pass * Store) :=
  completeContainers demo_world 3 demo_env demo_hooks (matter0_node s) pass0 s.

Definition store_complete : Store :=
  Eval vm_compute in match complete_of store_interior with Some (_, _, s) => s | None => fresh_store end.

Lemma interior_completed : complete_of store_interior = Some (Ok tt, pass0, store_complete).
Proof. vm_compute. reflexivity. Qed.

Example interior_lifecycles :
  (nd_lifecycle <$> nodes (s_proj store_complete) !! stage0, nd_lifecycle <$> nodes (s_proj store_complete) !! matter0,
   length (s_log store_complete) - length (s_log store_interior)) = (Some Done, Some Done, 2%nat).
Proof. vm_compute. reflexivity. Qed.
