(* ===== verification/StoreTheorems.v ===== *)
(** What the event-sourced core promises: the rebuild theorem, the atomic
    commit, the log's order and chains, and the integrity of every reachable
    projection.  Each theorem is followed by its application to the concrete run
    of Scenario. *)
From stdpp Require Import relations.
From S2P Require Import Prelude GoStd Ulid Taxonomy Json Payloads Tables View Gates Project Store.
From S2P Require Import Steps Invariants Shape Replay Mint Reach Scenario.

#[local] Opaque Commit Rebuild applyEvent appendEvent.

(** ** The projection is a function of the log *)

(** C1. Whatever sequence of commits, rebuilds and reopenings produced a store,
    dropping every projection table and refolding the log succeeds and gives back
    exactly the store, row for row. *)
Theorem rebuild_reproduces w s :
  world_ok w → reach w s → Rebuild s = Ok s.
Proof. intros Hw Hs. apply Rebuild_db, (reach_ok w s Hw Hs). Qed.

Lemma rebuild_reproduces_witness : Rebuild demo_store = Ok demo_store.
Proof. exact (rebuild_reproduces demo_world demo_store demo_world_ok reach_demo). Defined.

(** ** Commit *)

(** C2. A commit is atomic.  If it reports an error, the log and the projection
    are those it started from; if it succeeds, the log is the old log followed by
    exactly the events it returns, one per draft of its decision, each carrying
    its draft's type, subject and payload, the requesting actor, the timestamp its
    own identity encodes and the dimensions its type requires. *)
Theorem commit_atomic w fuel req decide s r s' :
  world_ok w → reach w s → Commit w fuel req decide s = Some (r, s') →
  match r with
  | Error _ => s_log s' = s_log s ∧ s_proj s' = s_proj s
  | Ok events =>
      s_log s' = s_log s ++ events ∧ events ≠ []
      ∧ ∃ ds h, decide (s_log s) (s_proj s) (s_handle s) = Some (Ok ds, h)
                ∧ Forall2 (stamped req) ds events
  end.
Proof.
  intros Hw Hs [(e & -> & ? & ?)|(ds & h1 & events & Hd & Hne & -> & Hwr)]%Commit_cases; [done|].
  destruct (write_drafts_Ok _ _ _ _ _ _ _ _ _ _ _ _ Hwr) as [_ (new & [Hev Hl Hst _])].
  { apply (reach_ok w s Hw Hs). }
  cbn in Hev. subst new. split_and!; [exact Hl| |by eauto].
  intros ->. by inversion Hst; subst.
Qed.

Lemma commit_atomic_witness :
  s_log store_work = s_log store_tiers ++ events_after 3 store_work
  ∧ events_after 3 store_work ≠ [].
Proof.
  destruct (commit_atomic demo_world 2 demo_req (plan work) store_tiers _ store_work demo_world_ok
    reach_tiers commit_work) as (H1 & H2 & _). exact (conj H1 H2).
Defined.

(** The events of one command form a chain: the first is its own cause and
    the correlation of all; every later one is caused by an earlier event of the
    same command.  Their identities ascend strictly and are above every identity
    already in the log. *)
Theorem commit_chained w fuel req decide s events s' :
  world_ok w → reach w s → Commit w fuel req decide s = Some (Ok events, s') →
  chained events ∧ StronglySorted slt (ids events)
  ∧ ∀ old new, old ∈ s_log s → new ∈ events → ev_id old <s ev_id new.
Proof.
  intros Hw Hs Hc. pose proof (Commit_db _ _ _ _ _ _ _ Hc (st_db _ (reach_ok w s Hw Hs))) as Hdb'.
  apply Commit_cases in Hc as [(e & [=] & _)|(ds & h1 & evs & Hd & Hne & [= <-] & Hwr)].
  destruct (write_drafts_Ok _ _ _ _ _ _ _ _ _ _ _ _ Hwr) as [_ (new & [Hev Hl _ Hch])].
  { apply (reach_ok w s Hw Hs). }
  cbn in Hev. subst new. pose proof (legal_sorted _ (db_log _ _ Hdb')) as Hsort.
  rewrite Hl in Hsort. unfold ids in *. rewrite fmap_app in Hsort.
  apply StronglySorted_app in Hsort as (Hcross & _ & Hnew). split_and!; [|done|].
  - apply Hch. intros i ev H. by rewrite lookup_nil in H.
  - intros old new Ho Hn. apply Hcross; by apply list_elem_of_fmap_2.
Qed.

Lemma commit_chained_witness :
  chained (events_after 3 store_work) ∧ StronglySorted slt (ids (events_after 3 store_work)).
Proof.
  destruct (commit_chained demo_world 2 demo_req (plan work) store_tiers _ store_work demo_world_ok
    reach_tiers commit_work) as (H1 & H2 & _). exact (conj H1 H2).
Defined.

(** ** The log *)

(** C4. The log of every reachable store: identities are minted 26-character
    ULIDs in strictly ascending order, never above the handle's floor; every event
    names a registered type and carries exactly the dimensions that type requires,
    a valid actor and an identity as its subject; and its causation and
    correlation name itself or an event before it. *)
Theorem log_well_formed w s :
  world_ok w → reach w s →
  StronglySorted slt (ids (s_log s))
  ∧ (∀ l1 ev l2, s_log s = l1 ++ ev :: l2 → event_ok l1 ev)
  ∧ log_minted (s_log s) (h_floor (s_handle s)).
Proof.
  intros Hw Hs. destruct (reach_ok w s Hw Hs) as [[Hl _ _ _ _] _ Hm].
  split_and!; [by apply legal_sorted|by apply legal_events|exact Hm].
Qed.

Lemma log_well_formed_witness : StronglySorted slt (ids (s_log demo_store)).
Proof. exact (proj1 (log_well_formed demo_world demo_store demo_world_ok reach_demo)). Defined.

(** The log is append-only: in every future of a store the old log is a
    prefix of the log, so an event once written keeps its content and its
    position for ever. *)
Theorem log_append_only w s s' :
  world_ok w → reach w s → future w s s' → s_log s `prefix_of` s_log s'.
Proof. intros Hw Hs Hf. eapply future_log; [exact Hw|exact Hf|by eapply reach_ok]. Qed.

Lemma log_append_only_witness : s_log store_work `prefix_of` s_log demo_store.
Proof. exact (log_append_only demo_world store_work demo_store demo_world_ok reach_work future_demo). Defined.

(** ** Integrity of the projection *)

(** Every row of every table of a reachable store satisfies the CHECK
    constraints of its table, no two rows collide on a UNIQUE index, and every
    foreign key, to a row or to an event, resolves. *)
Theorem projection_integrity w s :
  world_ok w → reach w s →
  ∀ t k r, tget t (s_proj s) !! k = Some r →
    row_check t k r = true
    ∧ (∀ k' r', tget t (s_proj s) !! k' = Some r' → k ≠ k' → conflict t k r k' r' = false)
    ∧ (∀ x, x ∈ row_refs t k r → ref_ok (s_log s) (s_proj s) x = true).
Proof.
  intros Hw Hs t k r Hk. destruct (reach_ok w s Hw Hs) as [[_ Hr Hsh _ _] _ _].
  split_and!; [by apply (sh_checked _ Hsh)|by intros; eapply (sh_unique _ Hsh)|].
  pose proof (Hr t k r Hk) as H. rewrite forallb_forall in H. intros x Hx. apply H.
  by apply list_elem_of_In.
Qed.

Lemma projection_integrity_witness :
  ∃ r, tget TNodes (s_proj demo_store) !! stage0 = Some r ∧ row_check TNodes stage0 r = true.
Proof.
  eexists. split; [vm_compute; reflexivity|].
  apply (projection_integrity demo_world demo_store demo_world_ok reach_demo TNodes stage0).
  vm_compute. reflexivity.
Defined.

(** C5. The work tree of a reachable store: a node without a parent is a Matter
    and its own Matter; any other has an existing parent in the same Matter, one
    scale up (a Stage below a Matter, a Step below a Matter or a Stage); and the
    Matter every node names is a root of kind Matter. *)
Theorem work_tree w s k r :
  world_ok w → reach w s → nodes (s_proj s) !! k = Some r →
  node_ok (s_proj s) k r
  ∧ ∃ m, nodes (s_proj s) !! nd_matter r = Some m ∧ nd_kind m = ScaleMatter
         ∧ nd_matter m = nd_matter r ∧ nd_parent m = None.
Proof.
  intros Hw Hs Hk. pose proof (sh_tree _ (db_shape _ _ (st_db _ (reach_ok w s Hw Hs)))) as Ht.
  split; [by apply Ht|by eapply tree_root].
Qed.

Lemma work_tree_witness :
  ∃ r m, nodes (s_proj demo_store) !! step1 = Some r
    ∧ nodes (s_proj demo_store) !! nd_matter r = Some m ∧ nd_kind m = ScaleMatter.
Proof.
  eexists. destruct (work_tree demo_world demo_store step1 _ demo_world_ok reach_demo
    ltac:(vm_compute; reflexivity)) as (_ & m & H1 & H2 & _).
  exists m. split; [vm_compute; reflexivity|]. exact (conj H1 H2).
Defined.

(** C11. A node keeps, in every future of its store, its kind, Repo, Matter,
    parent, locator, title and birth; and once tombstoned the whole row never
    changes again. *)
Theorem node_identity_permanent w s s' k o :
  world_ok w → reach w s → future w s s' → nodes (s_proj s) !! k = Some o →
  ∃ n, nodes (s_proj s') !! k = Some n ∧ same_place o n ∧ (is_Some (nd_tombstone o) → n = o).
Proof.
  intros Hw Hs Hf Ho. pose proof (reach_ok w s Hw Hs) as Hok.
  pose (R := λ o n : NodeRow, same_place o n ∧ (is_Some (nd_tombstone o) → n = o)).
  assert (PreOrder R) as HR.
  { split; [by intros x|]. intros a b c [H1 H2] [H3 H4]. split; [by etrans|].
    intros Ha. pose proof (H2 Ha). subst b. by apply H4. }
  apply (future_evolve TNodes R) with (w := w) (s := s); try done.
  intros ev q j x y Hc Hu. split; [by eapply node_change_place|].
  intros [e He]. destruct Hc as [Hn _]. congruence.
Qed.

Lemma node_identity_permanent_witness :
  ∃ o n, nodes (s_proj store_work) !! matter0 = Some o ∧ nodes (s_proj demo_store) !! matter0 = Some n
    ∧ same_place o n ∧ nd_lifecycle o = Planned ∧ nd_lifecycle n = Done.
Proof.
  eexists. destruct (node_identity_permanent demo_world store_work demo_store matter0 _ demo_world_ok
    reach_work future_demo ltac:(vm_compute; reflexivity)) as (n & H1 & H2 & _).
  exists n. split; [vm_compute; reflexivity|]. split; [exact H1|]. split; [exact H2|].
  split; [reflexivity|]. vm_compute in H1. injection H1 as <-. reflexivity.
Defined.

(** Rows are never deleted and only advance: in every future a row is
    either what it was or carries a strictly later last_event, with the same
    birth event. *)
Theorem rows_only_advance w s s' t k o :
  world_ok w → reach w s → future w s s' → tget t (s_proj s) !! k = Some o →
  ∃ n, tget t (s_proj s') !! k = Some n ∧ birth_event t n = birth_event t o
    ∧ (n = o ∨ match last_event t o, last_event t n with
               | Some a, Some b => a <s b | None, None => True | _, _ => False end).
Proof.
  intros Hw Hs Hf Ho. pose proof (reach_ok w s Hw Hs) as Hok.
  pose (R := λ o n : Row t, birth_event t n = birth_event t o
    ∧ (n = o ∨ match last_event t o, last_event t n with
               | Some a, Some b => a <s b | None, None => True | _, _ => False end)).
  assert (PreOrder R) as HR.
  { split; [by intros x; split; [|left]|]. intros a b c [H1 H2] [H3 H4]. split; [congruence|].
    destruct H2 as [->|H2]; [done|]. destruct H4 as [->|H4]; [by right|]. right.
    destruct (last_event t a), (last_event t b), (last_event t c); try done. by eapply slt_trans. }
  apply (future_evolve t R) with (w := w) (s := s); try done.
  intros _ q j x y _ Hu. unfold update_trigger in Hu. apply andb_true_iff in Hu as [Hu Hl].
  apply andb_true_iff in Hu as [Hb _]. apply bool_decide_eq_true in Hb. split; [done|right].
  clear -Hl. destruct t; cbn in *; try done.
Qed.

Lemma rows_only_advance_witness :
  ∃ o n, tget TNodes (s_proj store_work) !! matter0 = Some o
    ∧ tget TNodes (s_proj demo_store) !! matter0 = Some n ∧ nd_birth n = nd_birth o.
Proof.
  eexists. destruct (rows_only_advance demo_world store_work demo_store TNodes matter0 _ demo_world_ok
    reach_work future_demo ltac:(vm_compute; reflexivity)) as (n & H1 & H2 & _).
  exists n. split; [vm_compute; reflexivity|]. split; [exact H1|]. injection H2 as H2. exact H2.
Defined.
