(* ===== verification/LifecycleTheorems.v ===== *)
(** The state machines the fold drives: brackets and roles, the outbox, the
    backlog, push records, content and gates.  Each is a theorem about every
    reachable store or about every future of one. *)
From stdpp Require Import relations.
From S2P Require Import Prelude GoStd Ulid Taxonomy Json Payloads Tables View Gates Project Store.
From S2P Require Import Steps Invariants Shape Replay Mint Reach Scenario.
Local Open Scope Z_scope.

#[local] Opaque Commit Rebuild applyEvent appendEvent.

Lemma reach_shape w s : world_ok w → reach w s → shape_ok (s_proj s).
Proof. intros Hw Hs. apply (st_db _ (reach_ok w s Hw Hs)). Qed.

(** C13. In a reachable store an open role sits in an open bracket of the same
    Clone; a Matter has at most one open bracket; and a bracket holds at most one
    open role of a name. *)
Theorem brackets_nest w s :
  world_ok w → reach w s →
  (∀ k r, roles (s_proj s) !! k = Some r → ro_state r = StOpen →
     ∃ d, dispatches (s_proj s) !! ro_dispatch r = Some d ∧ dp_state d = StOpen
          ∧ dp_clone d = ro_clone r)
  ∧ (∀ k k' d d' m, dispatches (s_proj s) !! k = Some d → dispatches (s_proj s) !! k' = Some d' →
       dp_state d = StOpen → dp_state d' = StOpen → dp_matter d = Some m → dp_matter d' = Some m →
       k = k')
  ∧ (∀ k k' r r', roles (s_proj s) !! k = Some r → roles (s_proj s) !! k' = Some r' →
       ro_state r = StOpen → ro_state r' = StOpen → ro_dispatch r = ro_dispatch r' →
       ro_name r = ro_name r' → k = k').
Proof.
  intros Hw Hs. pose proof (reach_shape w s Hw Hs) as Hsh. split_and!; [apply (sh_roles _ Hsh)|..].
  - intros k k' d d' m Hk Hk' Ho Ho' Hm Hm'. destruct (decide (k = k')) as [|Hne]; [done|].
    pose proof (sh_unique _ Hsh TDispatches k k' d d' Hk Hk' Hne) as Hc. cbn in Hc.
    rewrite Ho, Ho', Hm, Hm' in Hc. cbn in Hc. by rewrite !bool_decide_true in Hc.
  - intros k k' r r' Hk Hk' Ho Ho' Hd Hn. destruct (decide (k = k')) as [|Hne]; [done|].
    pose proof (sh_unique _ Hsh TRoles k k' r r' Hk Hk' Hne) as Hc. cbn in Hc.
    rewrite Ho, Ho', Hd, Hn in Hc. by rewrite !bool_decide_true in Hc.
Qed.

Lemma brackets_nest_witness :
  ∃ r d, roles (s_proj demo_store) !! role0 = Some r ∧ ro_state r = StOpen
    ∧ dispatches (s_proj demo_store) !! ro_dispatch r = Some d ∧ dp_state d = StOpen.
Proof.
  eexists. destruct (proj1 (brackets_nest demo_world demo_store demo_world_ok reach_demo) role0 _
    ltac:(vm_compute; reflexivity) ltac:(reflexivity)) as (d & H1 & H2 & _).
  exists d. split; [vm_compute; reflexivity|]. split; [reflexivity|]. exact (conj H1 H2).
Defined.

(** A bracket, a role, a run or a Batch that has closed stays exactly as it
    closed, whatever happens next. *)
Theorem closed_stays_closed w s s' :
  world_ok w → reach w s → future w s s' →
  (∀ k d, dispatches (s_proj s) !! k = Some d → dp_state d = StClosed → dispatches (s_proj s') !! k = Some d)
  ∧ (∀ k r, roles (s_proj s) !! k = Some r → ro_state r = StClosed → roles (s_proj s') !! k = Some r)
  ∧ (∀ k r, runs (s_proj s) !! k = Some r → rn_state r = StClosed → runs (s_proj s') !! k = Some r)
  ∧ (∀ k b, batches (s_proj s) !! k = Some b → bt_state b = BatchClosedState →
       batches (s_proj s') !! k = Some b).
Proof.
  intros Hw Hs Hf. pose proof (reach_ok w s Hw Hs) as Hok.
  split_and!; intros k r Hk Hr.
  - apply (future_frozen TDispatches (λ d, dp_state d = StClosed) w s); try done.
    intros _ q j o n (Ho & _) Hc. congruence.
  - apply (future_frozen TRoles (λ d, ro_state d = StClosed) w s); try done.
    intros _ q j o n (Ho & _) Hc. congruence.
  - apply (future_frozen TRuns (λ d, rn_state d = StClosed) w s); try done.
    intros _ q j o n (Ho & _) Hc. congruence.
  - apply (future_frozen TBatches (λ d, bt_state d = BatchClosedState) w s); try done.
    intros _ q j o n (Ho & _) Hc. congruence.
Qed.

Lemma closed_stays_closed_witness :
  ∃ d, dispatches (s_proj store_bracket) !! disp0 = Some d ∧ dp_state d = StClosed
    ∧ dispatches (s_proj store_last) !! disp0 = Some d.
Proof.
  eexists. split; [vm_compute; reflexivity|]. split; [reflexivity|].
  apply (proj1 (closed_stays_closed demo_world store_bracket store_last demo_world_ok reach_bracket
    future_last) disp0); [vm_compute; reflexivity|reflexivity].
Defined.

(** ** The outbox *)

(** What an operator may do with a queued entry. *)
Definition approvable (r : OutboxRow) : bool :=
  bool_decide (ob_state r = OutboxQueued) && bool_decide (ob_attempts r = 0) && bool_decide (ob_reason r = "").

Definition retryable (r : OutboxRow) : bool :=
  bool_decide (ob_state r = OutboxQueued) && (0 <? ob_attempts r) && negb (bool_decide (ob_reason r = "")).

Lemma isBlank_empty : isBlank "" = true.
Proof. reflexivity. Qed.

(** C15. The state of an outbox entry of a reachable store says what happened
    to it: an approved or flushed entry carries no reason and a flushed one was
    attempted; a declined or withheld one carries a non-blank reason; and a queued
    one is either untouched, so that approve applies and retry does not, or failed,
    so that retry applies and approve does not. *)
Theorem outbox_state_meaning w s k r :
  world_ok w → reach w s → outbox_entries (s_proj s) !! k = Some r →
  0 <= ob_attempts r ∧
  match ob_state r with
  | OutboxQueued => xorb (approvable r) (retryable r) = true
  | OutboxApprovedState => ob_reason r = ""
  | OutboxDeclinedState | OutboxWithheldState => isBlank (ob_reason r) = false
  | OutboxFlushedState => 0 < ob_attempts r ∧ ob_reason r = ""
  end.
Proof.
  intros Hw Hs Hk. destruct (sh_outbox _ (reach_shape w s Hw Hs) k r Hk) as [Ha Hst].
  split; [exact Ha|]. destruct (ob_state r) eqn:E; try exact Hst.
  unfold approvable, retryable. rewrite E, (bool_decide_true (OutboxQueued = OutboxQueued)) by reflexivity.
  destruct Hst as [[H1 H2]|[H1 H2]].
  - rewrite H1, H2, !bool_decide_true by reflexivity. reflexivity.
  - rewrite (proj2 (Z.ltb_lt _ _) H1), bool_decide_false by lia.
    rewrite bool_decide_false; [reflexivity|]. intros H. rewrite H, isBlank_empty in H2. discriminate H2.
Qed.

Lemma outbox_state_meaning_witness :
  ∃ r, outbox_entries (s_proj store_delegated) !! outbox0 = Some r
    ∧ ob_state r = OutboxDeclinedState ∧ isBlank (ob_reason r) = false.
Proof.
  eexists. split; [vm_compute; reflexivity|]. split; [reflexivity|].
  exact (proj2 (outbox_state_meaning demo_world store_delegated outbox0 _ demo_world_ok reach_delegated
    ltac:(vm_compute; reflexivity))).
Defined.

(** In every future an outbox entry is the same item (Repo, kind, subject,
    reference, idempotency key and payload), its attempts never decrease, and once
    it is declined or flushed it never changes again. *)
Theorem outbox_item_permanent w s s' k o :
  world_ok w → reach w s → future w s s' → outbox_entries (s_proj s) !! k = Some o →
  ∃ n, outbox_entries (s_proj s') !! k = Some n ∧ same_item o n ∧ ob_attempts o <= ob_attempts n
    ∧ (ob_state o = OutboxDeclinedState ∨ ob_state o = OutboxFlushedState → n = o).
Proof.
  intros Hw Hs Hf Ho. pose proof (reach_ok w s Hw Hs) as Hok.
  pose (R := λ o n : OutboxRow, same_item o n ∧ ob_attempts o <= ob_attempts n
    ∧ (ob_state o = OutboxDeclinedState ∨ ob_state o = OutboxFlushedState → n = o)).
  assert (PreOrder R) as HR.
  { split; [intros x; split_and!; [done|lia|done]|].
    intros a b c (H1 & H2 & H3) (H4 & H5 & H6). split_and!; [by etrans|lia|].
    intros Ha. pose proof (H3 Ha). subst b. by apply H6. }
  apply (future_evolve TOutbox R) with (w := w) (s := s); [|exact Hw|exact Hok|exact Hf|exact Ho].
  intros e q j x y Hc Hu. split_and!; [by eapply outbox_change_item|..];
    destruct Hc as (_ & _ & _ & _ & _ & _ & Hm).
  - clear -Hm. destruct Hm; lia.
  - clear -Hm. destruct Hm; intros [?|?]; try discriminate; destruct_or?; congruence.
Qed.

Lemma outbox_item_permanent_witness :
  ∃ o n, outbox_entries (s_proj store_delegated) !! outbox0 = Some o
    ∧ outbox_entries (s_proj store_bracket) !! outbox0 = Some n ∧ n = o.
Proof.
  eexists. destruct (outbox_item_permanent demo_world store_delegated store_bracket outbox0 _ demo_world_ok
    reach_delegated future_bracket ltac:(vm_compute; reflexivity)) as (n & H1 & _ & _ & H2).
  exists n. split; [vm_compute; reflexivity|]. split; [exact H1|]. apply H2. left. reflexivity.
Defined.

(** ** The backlog *)

(** A backlog entry is triaged once: in every future a planned or declined
    entry is unchanged, a delegated one stays delegated to the same outbox entry,
    and that entry exists, is a create candidate and names the backlog entry as its
    subject. *)
Theorem backlog_triage_final w s s' k o :
  world_ok w → reach w s → future w s s' → backlog_entries (s_proj s) !! k = Some o →
  ∃ n, backlog_entries (s_proj s') !! k = Some n
    ∧ match bl_state o with
      | BacklogEnteredState => True
      | BacklogPlannedState | BacklogDeclinedState => n = o
      | BacklogDelegatedState => bl_state n = BacklogDelegatedState ∧ bl_outbox n = bl_outbox o
      end
    ∧ (∀ ob, bl_outbox n = Some ob →
         ∃ x, outbox_entries (s_proj s') !! ob = Some x ∧ ob_kind x = OutboxCreate ∧ ob_subject x = k).
Proof.
  intros Hw Hs Hf Ho. pose proof (reach_ok w s Hw Hs) as Hok.
  pose (R := λ o n : BacklogRow, match bl_state o with
      | BacklogEnteredState => True
      | BacklogPlannedState | BacklogDeclinedState => n = o
      | BacklogDelegatedState => bl_state n = BacklogDelegatedState ∧ bl_outbox n = bl_outbox o
      end).
  assert (PreOrder R) as HR.
  { unfold R. split; [intros x; destruct (bl_state x) eqn:E; auto|]. intros a b c H1 H2.
    destruct (bl_state a) eqn:E; [done| | |].
    - subst b. by rewrite E in H2.
    - subst b. by rewrite E in H2.
    - destruct H1 as [H1 H3]. rewrite H1 in H2. destruct H2. split; congruence. }
  destruct (future_evolve TBacklog R) with (w := w) (s := s) (s' := s') (k := k) (o := o)
    as (n & Hn & Hon); [|exact Hw|exact Hok|exact Hf|exact Ho|].
  - intros _ q j x y (_ & _ & _ & _ & _ & [(H1 & _)|(H1 & H2 & H3)]) _; unfold R; rewrite H1; auto.
  - exists n. split_and!; [exact Hn|exact Hon|].
    intros ob Hob. pose proof (future_ok w s s' Hw Hf Hok) as Hok'.
    exact (sh_delegated _ (db_shape _ _ (st_db _ Hok')) k n ob Hn Hob).
Qed.

Lemma backlog_triage_final_witness :
  ∃ n x, backlog_entries (s_proj store_bracket) !! entry0 = Some n ∧ bl_outbox n = Some outbox0
    ∧ outbox_entries (s_proj store_bracket) !! outbox0 = Some x ∧ ob_subject x = entry0.
Proof.
  destruct (backlog_triage_final demo_world store_delegated store_bracket entry0 _ demo_world_ok
    reach_delegated future_bracket ltac:(vm_compute; reflexivity)) as (n & H1 & [_ H2] & H3).
  destruct (H3 outbox0 H2) as (x & Hx & _ & Hsub). exists n, x. exact (conj H1 (conj H2 (conj Hx Hsub))).
Defined.

(** ** Delivery *)

(** What was delivered to the tracker is remembered for ever: the push
    record of a reference is never dropped, and once it says completed or canceled
    it says so in every future. *)
Theorem push_record_monotone w s s' ref o :
  world_ok w → reach w s → future w s s' → tracker_push_records (s_proj s) !! ref = Some o →
  ∃ n, tracker_push_records (s_proj s') !! ref = Some n
    ∧ (pr_disposition o ≠ TrackerActive → pr_disposition n = pr_disposition o).
Proof.
  intros Hw Hs Hf Ho. pose proof (reach_ok w s Hw Hs) as Hok.
  pose (R := λ o n : PushRow, pr_disposition o ≠ TrackerActive → pr_disposition n = pr_disposition o).
  assert (PreOrder R) as HR.
  { unfold R. split; [by intros x|]. intros a b c H1 H2 Ha. rewrite H2; [by apply H1|].
    by rewrite (H1 Ha). }
  apply (future_evolve TPush R) with (w := w) (s := s); [|exact Hw|exact Hok|exact Hf|exact Ho].
  intros _ q j x y [Hc|Hc] _ Hx; congruence.
Qed.

Lemma push_record_monotone_witness :
  ∃ n, tracker_push_records (s_proj store_after_push) !! ref0 = Some n
    ∧ pr_disposition n = TrackerCompleted.
Proof.
  destruct (push_record_monotone demo_world store_push store_after_push ref0 _ demo_world_ok reach_push
    future_push ltac:(vm_compute; reflexivity)) as (n & H1 & H2).
  exists n. split; [exact H1|]. apply H2. discriminate.
Defined.

(** ** Gates *)

(** A gate row of a reachable store is permanent, sits on a node at that
    node's own scale, and is backed by the event that bore it: the closure, or a
    dismissal naming that gate and that scale.  An exemption names a node of its
    Repo at the scale the gate is declared for. *)
Theorem gate_rows_backed w s s' :
  world_ok w → reach w s → future w s s' →
  (∀ k r, gate_state (s_proj s) !! k = Some r →
     gate_state (s_proj s') !! k = Some r
     ∧ (∃ n, nodes (s_proj s) !! k.1 = Some n ∧ gs_scale r = nd_kind n)
     ∧ ∃ e, e ∈ s_log s ∧ ev_id e = gs_last r ∧ gate_event e k.2 r)
  ∧ (∀ k u, gate_exemptions (s_proj s) !! k = Some u → exemption (s_proj s) k).
Proof.
  intros Hw Hs Hf. pose proof (reach_ok w s Hw Hs) as Hok.
  destruct (sh_gates _ (db_shape _ _ (st_db _ Hok))) as [Hg Hx]. split; [|exact Hx].
  intros k r Hk. split_and!.
  - by apply (future_frozen TGateState (λ _, True) w s s' k r).
  - by apply Hg.
  - destruct (db_gates _ _ (st_db _ Hok) k r Hk) as (e & He & Hge).
    apply find_event_Some in He as [Hin Hid]. exists e. split_and!; done.
Qed.

Lemma gate_rows_backed_witness :
  ∃ r e, gate_state (s_proj store_bracket) !! (matter0, "review") = Some r
    ∧ e ∈ s_log store_bracket ∧ ev_id e = gs_last r.
Proof.
  eexists. destruct (proj1 (gate_rows_backed demo_world store_bracket store_last demo_world_ok
    reach_bracket future_last) (matter0, "review") _ ltac:(vm_compute; reflexivity))
    as (_ & _ & e & H1 & H2 & _).
  exists e. split; [vm_compute; reflexivity|]. exact (conj H1 H2).
Defined.
