(* ===== verification/ContentTheorems.v ===== *)
(** Content written through ContentDraft and a commit reads back byte for byte,
    in the database or through its blob; content rows are immutable and
    create-once; reaping blobs never loses live content. *)
From stdpp Require Import relations.
From S2P Require Import Prelude GoStd Ulid Taxonomy Json Payloads Tables View Gates Project Store.
From S2P Require Import Steps Invariants Shape Replay Mint Reach Content Scenario.

(** ** Identities and digests are ASCII *)
Lemma minted_valid id : minted id → utf8_valid id = true ∧ String.length id = IDLen ∧ id ≠ "".
Proof.
  intros (raw & Hb & Hl & ->). pose proof (encodeCrockford_shaped raw Hb Hl) as Hs.
  unfold IsIdentityShaped in Hs. apply andb_true_iff in Hs as [Hlen Hc]. inv_bool. split_and!; [|done|].
  - apply bool_decide_eq_true, utf8_coerce_ascii, all_crockford_ascii, Hc.
  - intros E. by rewrite E in Hlen.
Qed.

Lemma hexdigit_ascii d : (0 <= d < 16)%Z → (0 <= byte_of (hexdigit d) < 128)%Z.
Proof.
  intros Hd. unfold hexdigit. rewrite byte_ascii; destruct (Z.ltb_spec d 10); lia.
Qed.

Lemma hex_encode_ascii bs :
  Forall (λ b, 0 <= b < 256)%Z bs → Forall (λ b, 0 <= b < 128)%Z (bytes_of (hex_encode bs)).
Proof.
  induction 1 as [|b bs Hb _ IH]; cbn; [constructor|].
  constructor; [|constructor; [|exact IH]]; apply hexdigit_ascii.
  - split; [apply Z.div_pos; lia|apply Z.div_lt_upper_bound; lia].
  - by apply Z.mod_pos_bound.
Qed.

Lemma sha256_hex_valid data : utf8_valid (sha256_hex data) = true.
Proof.
  apply bool_decide_eq_true, utf8_coerce_ascii. unfold sha256_hex.
  apply hex_encode_ascii, Sha256.sum_byte.
Qed.

#[local] Opaque sha256_hex.

(** ** One draft, one event *)
Lemma write_one w fuel req d log p h events log' p' h' :
  write_drafts w fuel req [d] [] log p h = Some (Ok (events, log', p'), h') →
  ∃ ev, events = [ev] ∧ appendEvent log ev = Ok log' ∧ stamped req d ev
    ∧ applyEvent (MkCtx log' true) ev p = Ok p' ∧ h_blobs h' = h_blobs h.
Proof.
  cbn [write_drafts]. intros H. apply bind_Some in H as ([re h1] & H1 & H).
  match type of H with match ?x with _ => _ end = _ => destruct x as [[[ev log1] p1]|err] eqn:E end;
    [|discriminate H].
  injection H as <- <- <- <-. inv_ok. subst.
  apply stamp_Ok in H1 as [Hst Hid].
  match goal with H : chain _ _ _ = Ok _ |- _ => apply chain_Ok in H as [Hev _] end.
  exists ev. split_and!; [reflexivity|eassumption| |eassumption|].
  - rewrite Hev. exact Hst.
  - clear -Hid. revert h Hid. induction fuel as [|fuel IH]; intros h; cbn [NewID]; [done|].
    destruct (draw w h) as [i h2] eqn:Ed. unfold draw in Ed. destruct (next _ _ _) as [ids j].
    injection Ed as <- <-. destruct (String.ltb _ _); [by intros [= _ <-]|]. intros H. by apply IH in H.
Qed.

#[local] Opaque appendEvent applyEvent.

(** ** The row a content event leaves *)
Lemma content_event_row c ev p p' w k :
  enum_parse (ev_type ev) = Some TypeContentCreated ∨ enum_parse (ev_type ev) = Some TypeContentAppended →
  decode (S := ContentWritten) (ev_payload ev) = Ok w → enum_parse (ContentWritten_Kind w) = Some k →
  applyEvent c ev p = Ok p' →
  content p' !! ContentWritten_Content w =
    Some (MkContentRow (ev_subject ev) k (ContentWritten_Bytes w) (nullable (ContentWritten_BlobRef w))
            (ContentWritten_ByteLen w) (ContentWritten_SHA256 w) (ev_id ev) (ev_id ev) None).
Proof.
  Transparent applyEvent.
  intros Hty Hd Hk H. assert (insertContent c ev p = Ok p') as Hi.
  { unfold applyEvent in H. destruct Hty as [Hty|Hty]; rewrite Hty in H; exact H. }
  clear H. unfold insertContent in Hi. rewrite Hd in Hi. cbn [mbind result_bind] in Hi.
  apply bind_Ok in Hi as (? & _ & Hi). apply bind_Ok in Hi as (? & _ & Hi).
  apply bind_Ok in Hi as (? & _ & Hi). apply bind_Ok in Hi as (? & _ & Hi).
  apply bind_Ok in Hi as (? & _ & Hi). unfold check_enum in Hi. rewrite Hk in Hi.
  apply bind_Ok in Hi as (k' & Hk' & Hi). injection Hk' as <-.
  apply sql_insert_Ok in Hi as (_ & _ & Hi%put_tget_eq). cbn in Hi. by rewrite Hi, lookup_insert_eq.
Qed.
#[local] Opaque applyEvent.

(** The decision a content verb makes: one draft, prepared by ContentDraft. *)
Definition write_content (w : World) (fuel : nat) (subject kind data : string) : Decide :=
  λ _ _ h, '(rd, h') ← ContentDraft w fuel subject kind data h;
           Some (d ← rd; Ok [d], h').

Lemma write_content_decides w fuel subject kind data : decides w (write_content w fuel subject kind data).
Proof.
  intros log p h r h' H. unfold write_content, ContentDraft in H.
  apply bind_Some in H as ([rd h1] & H & [= _ ->]).
  destruct (enum_parse kind); [|injection H as _ <-; apply rtc_refl].
  apply bind_Some in H as ([id h2] & Hid & H). destruct (_ <? _)%Z; injection H as _ <-.
  - eapply rtc_l; [by eapply hs_mint|]. apply rtc_once, hs_blob.
  - eapply rtc_once. by eapply hs_mint.
Qed.

(** What the draft says, and where its bytes are. *)
Lemma ContentDraft_Ok w fuel subject kind data h d h' :
  world_ok w → handle_ok h → ContentDraft w fuel subject kind data h = Some (Ok d, h') →
  ∃ k id bytes blob, enum_parse kind = Some k ∧ minted id
    ∧ d_type d = enum_str (if AppendOnlyKind k then TypeContentAppended else TypeContentCreated)
    ∧ d_subject d = subject
    ∧ d_payload d = pl_enc (MkContentWritten kind id bytes blob (Z.of_nat (String.length data)) (sha256_hex data))
    ∧ ((bytes = Some data ∧ blob = "") ∨ (bytes = None ∧ blob = id ∧ h_blobs h' !! id = Some data)).
Proof.
  intros Hw Hh H. unfold ContentDraft in H. destruct (enum_parse kind) as [k|]; [|discriminate H].
  apply bind_Some in H as ([id h1] & Hid & H).
  destruct (NewID_ok w Hw _ _ _ _ Hid Hh) as (_ & Hm & _).
  cbv zeta in H. exists k, id. destruct (SpillThreshold <? _)%Z; injection H as <- <-.
  - exists None, id. split_and!; [done..|]. right. split_and!; [done..|]. cbn. apply lookup_insert_eq.
  - exists (Some data), "". split_and!; [done..|]. by left.
Qed.

Lemma content_decode kind k id bytes blob data :
  enum_parse (A := ContentKind) kind = Some k → minted id → (blob = "" ∨ blob = id) →
  (Z.of_nat (String.length data) < 2 ^ 63)%Z →
  let x := MkContentWritten kind id bytes blob (Z.of_nat (String.length data)) (sha256_hex data) in
  decode (S := ContentWritten) (pl_enc x) = Ok x.
Proof.
  intros Hk Hm Hb Hlen x. apply decodeStrict_decode, pl_roundtrip.
  destruct (minted_valid id Hm) as (Hv & _ & _). cbn [pl_valid ContentWritten_payload x ContentWritten_Kind
    ContentWritten_Content ContentWritten_BlobRef ContentWritten_ByteLen ContentWritten_SHA256].
  rewrite Hv, sha256_hex_valid. apply enum_parse_Some in Hk as ->.
  assert (utf8_valid (enum_str k) = true) as -> by (by destruct k).
  assert (utf8_valid blob = true) as -> by (destruct Hb as [-> | ->]; done).
  assert (int64_ok (Z.of_nat (String.length data)) = true) as ->; [|done].
  unfold int64_ok. apply andb_true_iff. split; [apply Z.leb_le|apply Z.ltb_lt]; lia.
Qed.

Lemma string_append_nil s : String.append s "" = s.
Proof. induction s as [|c s IH]; [done|]. change (String c (String.append s "") = String c s). by rewrite IH. Qed.

(** A row whose bytes are where it says reads back. *)
Lemma segment_reads p blobs id r data :
  content p !! id = Some r → ct_byte_len r = Z.of_nat (String.length data) →
  ct_sha256 r = sha256_hex data →
  (ct_bytes r = Some data ∧ ct_blob_ref r = None)
  ∨ (∃ ref, ct_blob_ref r = Some ref ∧ blobs !! ref = Some data) →
  SegmentBytes p blobs id = Ok data.
Proof.
  intros Hr Hl Hs Hb. unfold SegmentBytes. rewrite Hr. cbn [from_option_err mbind result_bind].
  destruct Hb as [[Hb Hn]|(ref & Hf & Hd)].
  - rewrite Hn, Hb. cbn [mbind result_bind coalesce default]. rewrite !bool_decide_true by done. done.
  - rewrite Hf, Hd. cbn [from_option_err mbind result_bind]. rewrite !bool_decide_true by done. done.
Qed.

(** A create-once kind has one live segment, the one just written. *)
Lemma only_segment log p node id r ev :
  unique p → content p !! id = Some r → ct_node r = node → ct_tombstone r = None →
  AppendOnlyKind (ct_kind r) = false → find_event log (ct_birth r) = Some ev →
  ∃ seg, ContentSegments log p node (ct_kind r) = [seg] ∧ sg_id seg = id.
Proof.
  intros Hu Hr Hn Ht Ha Hev. unfold ContentSegments. set (sel := select TContent p _ _).
  assert (sel = [(id, r)]) as ->.
  { apply Permutation_singleton_r, NoDup_Permutation; [apply select_NoDup|apply NoDup_singleton|].
    intros [k x]. unfold sel. rewrite (elem_of_select TContent), list_elem_of_singleton. split.
    - intros [Hk Hg]. apply andb_true_iff in Hg as [[Hgn Hgk]%andb_true_iff Hgl]. inv_bool. destruct (decide (k = id)) as [->|Hne].
      { cbn in Hk. by rewrite Hr in Hk; injection Hk as <-. }
      pose proof (Hu TContent k id x r Hk Hr Hne) as Hc. cbn in Hc. unfold content_live in *.
      rewrite Ht in Hc. cbn in Hc. destruct (ct_tombstone x); [done|]. cbn in Hc.
      rewrite Hgk, Ha in Hc. cbn in Hc. by rewrite !bool_decide_true in Hc by congruence.
    - intros [= -> ->]. split; [exact Hr|]. unfold content_live. rewrite Hn, Ht. cbn.
      by rewrite !bool_decide_true. }
  cbn [omap list_omap fst snd]. rewrite Hev. cbn. eauto.
Qed.

#[local] Opaque Commit write_drafts.

(** C37. Content is read back as written.  When a commit of a content draft
    succeeds, on any reachable store, for any bytes (kept in the database or, above
    the threshold, spilled to a blob), reading the new segment returns exactly
    those bytes, its length and digest verified; and for a kind written once the
    whole content of the subject is those bytes. *)
Theorem content_reads_back w fuel fuel' req subject kind data s events s' :
  world_ok w → reach w s → (Z.of_nat (String.length data) < 2 ^ 63)%Z →
  Commit w fuel req (write_content w fuel' subject kind data) s = Some (Ok events, s') →
  ∃ id k, enum_parse (A := ContentKind) kind = Some k
    ∧ SegmentBytes (s_proj s') (h_blobs (s_handle s')) id = Ok data
    ∧ (AppendOnlyKind k = false →
       Content (s_log s') (s_proj s') (h_blobs (s_handle s')) subject k = Ok data).
Proof.
  intros Hw Hs Hlen Hc. pose proof (reach_ok w s Hw Hs) as Hok.
  pose proof (Commit_db _ _ _ _ _ _ _ Hc (st_db _ Hok)) as Hdb'.
  apply Commit_cases in Hc as [(e & [=] & _)|(ds & h1 & evs & Hd & _ & [= <-] & Hwr)].
  unfold write_content in Hd. apply bind_Some in Hd as ([rd h2] & Hd & Hds).
  destruct rd as [d|]; [|discriminate Hds]. injection Hds as <- <-.
  destruct (ContentDraft_Ok _ _ _ _ _ _ _ _ Hw (st_handle _ Hok) Hd)
    as (k & id & bytes & blob & Hk & Hm & Hty & Hsub & Hpay & Hwhere).
  apply write_one in Hwr as (ev & _ & Happ & Hst & Hap & Hblobs).
  destruct Hst as (rule & _ & Hety & Hesub & Hepay & _).
  pose proof (content_decode kind k id bytes blob data Hk Hm) as Hdec.
  assert (blob = "" ∨ blob = id) as Hblob by (destruct Hwhere as [[_ ?]|(_ & ? & _)]; auto).
  specialize (Hdec Hblob Hlen). cbv zeta in Hdec. rewrite <-Hpay, <-Hepay in Hdec.
  pose proof (content_event_row _ _ _ _ _ k ltac:(rewrite Hety, Hty, enum_parse_str; destruct (AppendOnlyKind k); auto)
    Hdec Hk Hap) as Hrow. cbn [ContentWritten_Content ContentWritten_Bytes ContentWritten_BlobRef
      ContentWritten_ByteLen ContentWritten_SHA256] in Hrow.
  destruct (minted_valid id Hm) as (_ & _ & Hne).
  assert (Hseg : SegmentBytes (s_proj s') (h_blobs (s_handle s')) id = Ok data).
  { eapply segment_reads; [exact Hrow|reflexivity|reflexivity|]. cbn [ct_bytes ct_blob_ref].
    destruct Hwhere as [[-> ->]|(-> & -> & Hb)]; [by left|right].
    exists id. rewrite Hblobs. split; [|exact Hb]. unfold nullable. by rewrite bool_decide_false. }
  exists id, k. split_and!; [exact Hk|exact Hseg|]. intros Ha.
  apply appendEvent_Ok in Happ as [Hlog Hlt].
  destruct (only_segment (s_log s') (s_proj s') subject id _ ev (sh_unique _ (db_shape _ _ Hdb')) Hrow)
    as (seg & Hsegs & Hid); cbn [ct_node ct_tombstone ct_kind ct_birth]; [congruence|reflexivity|exact Ha| |].
  { rewrite Hlog. by apply find_event_snoc. }
  cbn [ct_kind] in Hsegs. unfold Content. rewrite Hsegs. cbn [concat_segments]. rewrite Hid, Hseg.
  cbn [mbind result_bind]. f_equal. apply string_append_nil.
Qed.

(** The brief of the demo's second Matter. *)
Definition store_brief : Store :=
  Eval vm_compute in after (Commit demo_world 2 demo_req
    (write_content demo_world 2 matter1 "brief" "Ship it.") demo_store).

Lemma commit_brief :
  Commit demo_world 2 demo_req (write_content demo_world 2 matter1 "brief" "Ship it.") demo_store
  = Some (Ok (events_after 15 store_brief), store_brief).
Proof. Transparent Commit write_drafts. vm_compute. reflexivity. Qed.

Lemma content_reads_back_witness :
  ∃ k, enum_parse (A := ContentKind) "brief" = Some k
    ∧ Content (s_log store_brief) (s_proj store_brief) (h_blobs (s_handle store_brief)) matter1 k
      = Ok "Ship it.".
Proof.
  destruct (content_reads_back demo_world 2 2 demo_req matter1 "brief" "Ship it." demo_store _ store_brief
    demo_world_ok reach_demo ltac:(cbn; lia) commit_brief) as (id & k & Hk & _ & Hc).
  exists k. split; [exact Hk|]. apply Hc. injection Hk as <-. reflexivity.
Defined.

(** A content row, once written, is the same in every future of its store:
    there is no event that rewrites or removes content.  Two live rows of a kind
    written once never share a node, and the bytes kept in a row have the length
    and the digest it records. *)
Theorem content_write_once w s s' id r :
  world_ok w → reach w s → future w s s' → content (s_proj s) !! id = Some r →
  content (s_proj s') !! id = Some r
  ∧ (∀ b, ct_bytes r = Some b →
       ct_byte_len r = Z.of_nat (String.length b) ∧ ct_sha256 r = sha256_hex b)
  ∧ (∀ id' r', content (s_proj s) !! id' = Some r' → id ≠ id' →
       ct_tombstone r = None → ct_tombstone r' = None →
       ct_node r = ct_node r' → ct_kind r = ct_kind r' → AppendOnlyKind (ct_kind r) = true).
Proof.
  intros Hw Hs Hf Hr. pose proof (reach_ok w s Hw Hs) as Hok.
  pose proof (db_shape _ _ (st_db _ Hok)) as Hsh. split_and!.
  - by apply (future_frozen TContent (λ _, True) w s s' id r).
  - by apply (sh_content _ Hsh id).
  - intros id' r' Hr' Hne H1 H2 H3 H4. pose proof (sh_unique _ Hsh TContent id id' r r' Hr Hr' Hne) as Hc.
    cbn in Hc. unfold content_live in Hc. rewrite H1, H2, <-H3, <-H4 in Hc. cbn in Hc.
    rewrite !bool_decide_true in Hc by done. by destruct (AppendOnlyKind (ct_kind r)).
Qed.

Definition brief_id : string :=
  Eval vm_compute in match (map_to_list (content (s_proj store_brief))).*1 with k :: _ => k | [] => "" end.

Definition store_brief_last : Store := Eval vm_compute in run last_work store_brief.

Lemma reach_brief : reach demo_world store_brief.
Proof.
  eapply rtc_r; [exact reach_demo|]. eapply step_commit; [apply write_content_decides|exact commit_brief].
Qed.

Lemma future_brief : future demo_world store_brief store_brief_last.
Proof.
  eapply (future_plan last_work store_brief _ (events_after 16 store_brief_last)).
  vm_compute. reflexivity.
Qed.

Lemma content_write_once_witness :
  ∃ r, content (s_proj store_brief) !! brief_id = Some r
    ∧ content (s_proj store_brief_last) !! brief_id = Some r.
Proof.
  eexists. split; [vm_compute; reflexivity|].
  apply (content_write_once demo_world store_brief store_brief_last brief_id _ demo_world_ok reach_brief
    future_brief). vm_compute. reflexivity.
Defined.

(** ** Reaping *)
Lemma select_count_pos t p guard :
  (0 <? select_count t p guard)%nat = true ↔ ∃ k r, tget t p !! k = Some r ∧ guard k r = true.
Proof.
  unfold select_count. rewrite Nat.ltb_lt. split.
  - intros H. destruct (filter _ _) as [|[k r] l] eqn:E; [cbn in H; lia|]. exists k, r.
    assert ((k, r) ∈ filter (λ kr : Key t * Row t, guard kr.1 kr.2 = true) (map_to_list (tget t p))) as Hin
      by (rewrite E; by left).
    apply list_elem_of_filter in Hin as [Hg Hm]. by apply elem_of_map_to_list in Hm.
  - intros (k & r & Hk & Hg). destruct (filter _ _) as [|x l] eqn:E; [|cbn; lia].
    assert ((k, r) ∈ filter (λ kr : Key t * Row t, guard kr.1 kr.2 = true) (map_to_list (tget t p))) as Hin.
    { apply list_elem_of_filter. split; [done|]. by apply elem_of_map_to_list. }
    rewrite E in Hin. by apply elem_of_nil in Hin.
Qed.

(** C38. Reaping orphan blobs, at any cutoff and whatever the files' times,
    changes nothing a live content row resolves to; it reports exactly the files
    it removes. *)
Theorem reap_keeps_live_content p mtime cutoff blobs id r :
  content p !! id = Some r → ct_tombstone r = None →
  let '(kept, reaped) := ReapOrphanBlobs p mtime cutoff blobs in
  SegmentBytes p kept id = SegmentBytes p blobs id
  ∧ ∀ ref, ref ∈ reaped ↔ is_Some (blobs !! ref) ∧ kept !! ref = None.
Proof.
  intros Hr Ht. unfold ReapOrphanBlobs. split.
  - unfold SegmentBytes. rewrite Hr. cbn [from_option_err mbind result_bind].
    destruct (ct_blob_ref r) as [ref|] eqn:Eb; [|done]. do 2 f_equal.
    assert (live_blob p ref = true) as Hl.
    { apply select_count_pos. exists id, r. split; [exact Hr|]. unfold content_live.
      rewrite Eb, Ht, bool_decide_true by done. done. }
    apply option_eq. intros x. rewrite map_lookup_filter_Some. cbn [fst]. rewrite Hl. naive_solver.
  - intros ref. rewrite list_elem_of_filter, elem_of_order_by, map_lookup_filter_None. split.
    + intros [Hf ([k v] & -> & Hk%elem_of_map_to_list)%list_elem_of_fmap]. cbn in *. split; [by eexists|].
      right. intros y _. by rewrite Hf.
    + intros [[v Hv] [Hn|Hn]]; [congruence|]. split.
      * specialize (Hn v Hv). cbn in Hn. by apply not_true_iff_false in Hn.
      * apply list_elem_of_fmap. exists (ref, v). split; [done|]. by apply elem_of_map_to_list.
Qed.

Lemma brief_row : ∃ r, content (s_proj store_brief) !! brief_id = Some r ∧ ct_tombstone r = None.
Proof. eexists. split; [vm_compute; reflexivity|reflexivity]. Qed.

Lemma reap_keeps_live_content_witness :
  SegmentBytes (s_proj store_brief)
    (ReapOrphanBlobs (s_proj store_brief) (λ _, 0%Z) 5 {["orphan" := "x"]}).1 brief_id = Ok "Ship it.".
Proof.
  destruct brief_row as (r & Hr & Ht).
  destruct (reap_keeps_live_content (s_proj store_brief) (λ _, 0%Z) 5 {["orphan" := "x"]} brief_id r Hr Ht)
    as [H1 _].
  refine (eq_trans H1 _). vm_compute. reflexivity.
Defined.
