(* ===== verification/MintTheorems.v ===== *)
(** Identities: the encoding, the source and the minting loop, and that a commit
    returns while the clock moves. *)
From stdpp Require Import relations.
From S2P Require Import Prelude GoStd Ulid Taxonomy Json Payloads Tables View Gates Project Store.
From S2P Require Import Mint Reach Scenario.
Local Open Scope Z_scope.

(** encodeCrockford renders sixteen bytes so that byte order is value order:
    two identities compare as strings exactly as the 128-bit numbers they encode;
    each is identity-shaped; and timeOfID reads back the 48 timestamp bits. *)
Theorem encoding_faithful raw raw' :
  Forall is_byte raw → Forall is_byte raw' → length raw = 16%nat → length raw' = 16%nat →
  String.compare (encodeCrockford raw) (encodeCrockford raw') = Z.compare (be raw) (be raw')
  ∧ IsIdentityShaped (encodeCrockford raw) = true
  ∧ timeOfID (encodeCrockford raw) = Ok (be (take 6 raw)).
Proof.
  intros H1 H2 L1 L2. split_and!; [by apply encodeCrockford_compare|by apply encodeCrockford_shaped|].
  by apply timeOfID_encode.
Qed.

Lemma encoding_faithful_witness :
  String.compare (encodeCrockford (replicate 16 1)) (encodeCrockford (replicate 16 2))
  = Z.compare (be (replicate 16 1)) (be (replicate 16 2)).
Proof.
  apply (encoding_faithful (replicate 16 1) (replicate 16 2));
    [apply Forall_replicate; unfold is_byte; lia|apply Forall_replicate; unfold is_byte; lia|reflexivity|reflexivity].
Defined.



(** NewID returns only identities strictly above everything the handle has
    issued or read: above the floor, which it raises to what it returns, minted
    from sixteen bytes, leaving the blobs alone and the handle well formed, whatever
    the clock did. *)
Theorem NewID_above_floor w fuel h id h' :
  world_ok w → handle_ok h → NewID w fuel h = Some (id, h') →
  h_floor h <s id ∧ h_floor h' = id ∧ minted id ∧ h_blobs h' = h_blobs h ∧ handle_ok h'.
Proof. intros Hw Hh H. destruct (NewID_ok w Hw _ _ _ _ H Hh) as (? & ? & ? & ? & ?). done. Qed.

Lemma NewID_above_floor_witness :
  ∃ id h', NewID demo_world 1 (s_handle fresh_store) = Some (id, h') ∧ minted id ∧ h_floor h' = id.
Proof.
  do 2 eexists. split; [vm_compute; reflexivity|].
  destruct (NewID_above_floor demo_world 1 (s_handle fresh_store) _ _ demo_world_ok fresh_handle_ok
    ltac:(vm_compute; reflexivity)) as (_ & H1 & H2 & _). exact (conj H2 H1).
Defined.

(** NewID terminates: if within the draws allowed the clock once reads a
    millisecond past the floor's, the loop has returned by then. *)
Theorem NewID_terminates w fuel h v k :
  world_ok w → handle_ok h → floor_value (h_floor h) v → (k < fuel)%nat →
  v / 2 ^ 80 < w_clock w (h_tick h + k) →
  ∃ id h', NewID w fuel h = Some (id, h').
Proof.
  intros Hw Hh Hv Hk Hc. destruct (NewID_returns w Hw fuel h v k Hh Hv Hk Hc) as [[id h'] H]. by eauto.
Qed.

(** A clock that stands at the epoch for three readings, then moves. *)
Definition stalled_world : World := MkWorld (λ n, if (n <? 3)%nat then 0 else 7) (λ _, replicate 10 9).

Definition stalled_handle : Handle :=
  MkHandle newIDSource 0 (encodeCrockford (replicate 16 0)) ∅.

Lemma NewID_terminates_witness : ∃ id h', NewID stalled_world 4 stalled_handle = Some (id, h').
Proof.
  apply (NewID_terminates stalled_world 4 stalled_handle 0 3).
  - intros n. split; [unfold stalled_world; cbn [w_clock]; destruct (n <? 3)%nat; lia|].
    split; [apply Forall_replicate; unfold is_byte; lia|reflexivity].
  - split; [apply newIDSource_wf|reflexivity|]. exists 0. split_and!; [|intros _; vm_compute; discriminate|lia].
    right. exists (replicate 16 0). split_and!; [apply Forall_replicate; unfold is_byte; lia|reflexivity..].
  - right. exists (replicate 16 0). split_and!; [apply Forall_replicate; unfold is_byte; lia|reflexivity..].
  - lia.
  - reflexivity.
Defined.

#[local] Opaque Commit.

(** C40. Commit returns.  If the decision returns, leaving the handle well
    formed with the clock past its floor, and the clock moves between the readings
    that stamp the drafts, then one draw per identity is enough and the commit
    comes back with an answer. *)
Theorem Commit_terminates w req decide s rd h1 :
  world_ok w → decide (s_log s) (s_proj s) (s_handle s) = Some (rd, h1) →
  handle_ok h1 → current w h1 → (∀ ds, rd = Ok ds → ticking w (h_tick h1) (length ds)) →
  ∃ r s', Commit w 1 req decide s = Some (r, s').
Proof.
  intros Hw Hd Hh Hc Ht. destruct (Commit_returns w 0 req decide s rd h1 Hw Hd Hh Hc Ht) as [[r s'] H].
  by eauto.
Qed.

Lemma Commit_terminates_witness :
  ∃ r s', Commit demo_world 1 demo_req (plan tiers) fresh_store = Some (r, s').
Proof.
  apply (Commit_terminates demo_world demo_req (plan tiers) fresh_store (Ok tiers) (s_handle fresh_store)
    demo_world_ok eq_refl fresh_handle_ok).
  - exists (-1). split; [by left|reflexivity].
  - intros ds [= <-] i Hi. cbn. cbn in Hi. lia.
Defined.
