(* ===== verification/GraphTheorems.v ===== *)
(** Dependencies: the search decides reachability, the add-time check keeps the
    graph acyclic, and the audit reports exactly the loops. *)
From stdpp Require Import relations.
From S2P Require Import Prelude GoStd Ulid Taxonomy Json Payloads Tables View Gates Project Store.
From S2P Require Import Steps Invariants Shape Replay Mint Reach Cycle Scenario.

#[local] Opaque applyEvent appendEvent.

(** The stack search of cycle.go decides the transitive closure: for every
    graph and every pair of nodes, reaches answers true exactly when there is a
    path of one or more edges. *)
Theorem reaches_decides g from to : reaches g from to = true ↔ tc (waits g) from to.
Proof. apply reaches_iff. Qed.

(** A cycle never enters the store.  If the edges in force of a reachable
    store are acyclic, they are acyclic after any further event is appended and
    folded, provided that an edge a dependency.added bears is one WouldCycle had
    answered false for; no other event can close a cycle. *)
Theorem dependencies_stay_acyclic w s ev log' p' :
  world_ok w → reach w s →
  appendEvent (s_log s) ev = Ok log' → applyEvent (MkCtx log' true) ev (s_proj s) = Ok p' →
  (∀ x y, borne_edge ev x y → WouldCycle (s_proj s) x y = false) →
  acyclic (waits (liveEdgeGraph (s_proj s))) → acyclic (waits (liveEdgeGraph p')).
Proof.
  intros Hw Hs Ha Hp Hb Hac. pose proof (reach_ok w s Hw Hs) as Hok.
  eapply applyEvent_acyclic; [|exact Hp|exact Hb|exact Hac].
  apply appendEvent_Ok in Ha as [-> _].
  eapply refs_ok_grow; [by apply prefix_app_r|]. apply (st_db _ Hok).
Qed.

(** The demo's edge, and its event. *)
Definition edge_event0 : option Event := Eval vm_compute in last (s_log store_edge).

Lemma no_cycles_work : acyclic (waits (liveEdgeGraph (s_proj store_work))).
Proof. apply cycles_nil_iff. vm_compute. reflexivity. Qed.

Lemma dependencies_stay_acyclic_witness :
  acyclic (waits (liveEdgeGraph (s_proj store_edge)))
  ∧ waits (liveEdgeGraph (s_proj store_edge)) matter0 matter1.
Proof.
  Transparent applyEvent appendEvent.
  split; [|vm_compute; by left].
  refine (dependencies_stay_acyclic demo_world store_work _ (s_log store_edge) _ demo_world_ok reach_work _ _ _
    no_cycles_work).
  - instantiate (1 := match edge_event0 with Some e => e | None => MkEvent "" "" 0 "" "" "" "" "" "" "" JNull end).
    vm_compute. reflexivity.
  - vm_compute. reflexivity.
  - intros x y (_ & -> & d & Hd & ->). vm_compute in Hd. injection Hd as <-. vm_compute. reflexivity.
Defined.
#[local] Opaque applyEvent appendEvent.

(** C20. The audit is exact: the lists Cycles returns are the simple loops of the
    edges in force, each written from its smallest node, every one of them, and in
    a reachable store each exactly once. *)
Theorem cycles_exact w s :
  world_ok w → reach w s →
  (∀ c, c ∈ Cycles (s_proj s) ↔ is_loop (liveEdgeGraph (s_proj s)) c) ∧ NoDup (Cycles (s_proj s)).
Proof.
  intros Hw Hs. split; [intros c; apply elem_of_cycles|]. apply cycles_NoDup. intros x.
  apply live_succs_NoDup. apply (st_db _ (reach_ok w s Hw Hs)).
Qed.

Lemma cycles_exact_witness : NoDup (Cycles (s_proj demo_store)).
Proof. exact (proj2 (cycles_exact demo_world demo_store demo_world_ok reach_demo)). Defined.

(** The audit and the add-time check agree on what a cycle is: the audit
    reports nothing exactly when the edges in force are acyclic; and it reports
    nothing and WouldCycle admits an edge exactly when the edges in force together
    with that edge are acyclic. *)
Theorem audit_agrees_with_check p :
  (Cycles p = [] ↔ acyclic (waits (liveEdgeGraph p)))
  ∧ ∀ a b, (Cycles p = [] ∧ WouldCycle p a b = false)
           ↔ acyclic (plus_edge (waits (liveEdgeGraph p)) a b).
Proof.
  assert (Hnil : Cycles p = [] ↔ acyclic (waits (liveEdgeGraph p))) by apply cycles_nil_iff.
  split; [exact Hnil|]. intros a b. rewrite Hnil, WouldCycle_false. split.
  - intros (Hac & Hab & Hba). by apply acyclic_plus_edge.
  - intros Hp. assert (Hsub : ∀ x y, waits (liveEdgeGraph p) x y →
      plus_edge (waits (liveEdgeGraph p)) a b x y) by (intros x y ?; by left).
    assert (Hedge : tc (plus_edge (waits (liveEdgeGraph p)) a b) a b) by (apply tc_once; by right).
    split_and!; [by eapply acyclic_mono|intros ->; by apply (Hp b)|].
    intros Hba. apply (Hp a). etrans; [exact Hedge|]. by eapply tc_congruence with (f := id).
Qed.
