(* ===== verification/GateTheorems.v ===== *)
(** Gates: what completion means, that the prospective evaluation predicts the
    write, that the walk is complete, and that the two definitions of the archive
    agree. *)
From stdpp Require Import relations.
From S2P Require Import Prelude GoStd Ulid Taxonomy Json Payloads Tables View Gates Project Store.
From S2P Require Import Steps Invariants Shape Replay Mint Reach Cycle Completion NodeVerbs ReadSurface Removal.
From S2P Require Import ReadFacts Scenario.

#[local] Opaque Commit Rebuild applyEvent appendEvent.

(** ** A reference for the evaluator

    What is asked of a node, read off the rows: the gates declared at the scale of each
    node from it up to its Matter. *)
Inductive lineage (p : Proj) : Node → list Node → Prop :=
| lineage_root n : n_parent n = "" → lineage p n [n]
| lineage_up n m l : n_parent n ≠ "" → view_Node p (n_parent n) = Ok m → lineage p m l → lineage p n (n :: l).

Definition duties (decls : list GateDeclaration) (l : list Node) : list (string * string) :=
  l ≫= λ a, (λ d, (n_id a, gd_gate d)) <$> filter (λ d, gd_scale d = n_kind a) decls.

(** A gate on a node is discharged by a closure or a dismissal, by an exemption, or by
    the closure the overlay supposes. *)
Definition discharged (p : Proj) (o : CompletionOverlay) (repo : string) (x : string * string) : bool :=
  is_some (gate_state p !! x) || is_some (gate_exemptions p !! (repo, x.2, x.1)) || closing o x.1 x.2.

Definition duty (r : GateRequirement) : string * string := (n_id (gr_subject r), gr_gate r).

(** What one requirement of the walk says. *)
Definition requirement_true (p : Proj) (o : CompletionOverlay) (target : Node) (r : GateRequirement) : Prop :=
  satisfied o r = discharged p o (n_repo target) (duty r)
  ∧ own_req r = bool_decide (n_id (gr_subject r) = n_id target).

Lemma duty_requirement p m target n d : duty (requirement p m target n d) = (n_id n, gd_gate d).
Proof. unfold duty, requirement. destruct (m !! _); [case_bool_decide|]; done. Qed.

Lemma own_requirement p m target n d :
  own_req (requirement p m target n d) = bool_decide (n_id (gr_subject (requirement p m target n d)) = n_id target).
Proof.
  unfold requirement, own_req. destruct (m !! gd_gate d) as [y|]; [destruct (bool_decide (cg_state y = _))|];
    cbn [gr_relationship gr_subject]; by destruct (bool_decide (n_id n = n_id target)).
Qed.

Lemma node_duties log p o decls target n reqs :
  gates_logged log p → node_requirements log p decls target n = Ok reqs →
  duty <$> reqs = duties decls [n] ∧ Forall (requirement_true p o target) reqs.
Proof.
  intros Hg. unfold node_requirements. destruct (closedGateMetadata_lookup log p (n_id n) Hg) as (m & -> & Hm).
  cbn [mbind result_bind]. intros [= <-]. split.
  - unfold duties. cbn. rewrite app_nil_r, <-list_fmap_compose. apply list_fmap_ext. intros i d _. apply duty_requirement.
  - apply Forall_fmap, Forall_true. intros d. split; [|apply own_requirement].
    cbn [compose]. rewrite duty_requirement. by apply (requirement_satisfied log).
Qed.

Lemma walk_duties log p o decls target l n fuel reqs :
  gates_logged log p → lineage p n l → walk_requirements fuel log p decls target n = Ok reqs →
  duty <$> reqs = duties decls l ∧ Forall (requirement_true p o target) reqs.
Proof.
  intros Hg Hl. revert fuel reqs. induction Hl as [n Hp|n m l Hp Hm _ IH]; intros [|fuel] reqs H; try discriminate H;
    cbn [walk_requirements] in H; apply bind_Ok in H as (here & Hh & H);
    apply (node_duties log p o decls target n here Hg) in Hh as [Hd Hf].
  - rewrite bool_decide_true in H by done. injection H as <-. by split.
  - rewrite bool_decide_false, Hm in H by done. apply bind_Ok in H as (m' & [= <-] & H).
    apply bind_Ok in H as (rest & Hr & [= <-]). destruct (IH _ _ Hr) as [Hd' Hf'].
    split; [|by apply Forall_app]. rewrite fmap_app, Hd, Hd'. unfold duties. cbn. by rewrite app_nil_r.
Qed.

(** Filtering and testing requirements is filtering and testing duties. *)
Lemma duties_forallb p o target reqs (sel : string * string → bool) :
  Forall (requirement_true p o target) reqs →
  forallb (λ r, negb (sel (duty r)) || satisfied o r) reqs
  = forallb (discharged p o (n_repo target)) (filter (λ x, sel x = true) (duty <$> reqs)).
Proof.
  induction 1 as [|r reqs [Hs _] _ IH]; [done|]. cbn [forallb fmap list_fmap]. rewrite IH, Hs, filter_cons.
  destruct (sel (duty r)); [by rewrite decide_True|by rewrite decide_False].
Qed.

Lemma duties_filter p o target reqs :
  Forall (requirement_true p o target) reqs →
  duty <$> filter (λ r, satisfied o r = false) reqs
  = filter (λ x, discharged p o (n_repo target) x = false) (duty <$> reqs).
Proof.
  induction 1 as [|r reqs [Hs _] _ IH]; [done|]. cbn [fmap list_fmap]. rewrite !filter_cons, <-Hs.
  destruct (decide (satisfied o r = false)); cbn [fmap list_fmap]; by rewrite <-IH.
Qed.

Lemma lineage_total log p n :
  db_ok log p → only_steps_removed p → view_Node p (n_id n) = Ok n → ∃ l, lineage p n l.
Proof.
  intros Hdb Hst Hn. refine (climb_ind log p Hdb Hst (λ _ n, ∃ l, lineage p n l) _ _ tree_depth n Hn (scale_depth n)).
  - intros _ m _ Hp. exists [m]. by constructor.
  - intros _ x m _ Hp Hm _ _ (l & Hl). exists (x :: l). by econstructor.
Qed.

(** C18. What the evaluator answers for any live node of a reachable store in which
    only Steps were removed, under any overlay.  The gates asked of it are those
    declared at the scale of each node from it up to its Matter, in that order; one is
    discharged by a closure, a dismissal, an exemption, or the closure the overlay
    supposes.  The evaluation never fails; the node is sealed exactly when it is done
    (or the overlay finishes it) and all of them are discharged, locally complete when
    its own are; and pending are, for a done node, exactly those not discharged, each
    once per declaration and in that order. *)
Theorem completion_meaning w s n o :
  world_ok w → reach w s → only_steps_removed (s_proj s) → view_Node (s_proj s) (n_id n) = Ok n →
  let p := s_proj s in
  let done := bool_decide (n_lifecycle n = Done) || bool_decide (FinishingNode o = n_id n) in
  ∃ l c, lineage p n l ∧ NodeCompletionWithOverlay (s_log s) p n o = Ok c
    ∧ let asked := duties (GateDeclarations p (n_repo n)) l in
      let ok := discharged p o (n_repo n) in
      duty <$> Requirements c = asked
      ∧ Sealed c = done && forallb ok asked
      ∧ LocallyComplete c = done && forallb ok (filter (λ x, bool_decide (x.1 = n_id n) = true) asked)
      ∧ duty <$> Pending c = if done then filter (λ x, ok x = false) asked else [].
Proof.
  intros Hw Hs Hst Hn p done. pose proof (st_db _ (reach_ok w s Hw Hs)) as Hdb. fold p in Hdb, Hst, Hn.
  destruct (lineage_total _ _ _ Hdb Hst Hn) as (l & Hl).
  destruct (walk_total (s_log s) p Hdb Hst (GateDeclarations p (n_repo n)) n 2 n Hn) as (reqs & Hr);
    [destruct (n_kind n); cbn; lia|].
  destruct (walk_duties _ _ o _ n l n _ _ (db_gates _ _ Hdb) Hl Hr) as [Hd Hf].
  destruct (NodeCompletionWithOverlay (s_log s) p n o) as [c|e] eqn:Ec.
  2: { unfold NodeCompletionWithOverlay, EffectiveGateRequirements, tree_depth in Ec. rewrite Hr in Ec.
       cbn [mbind result_bind] in Ec. cbv zeta in Ec. by rewrite completion_fold in Ec. }
  destruct (completion_Ok _ _ _ _ _ Ec) as (Hreq & Hlo & Hse & Hpe). fold done in Hlo, Hse, Hpe.
  unfold EffectiveGateRequirements, tree_depth in Hreq. rewrite Hr in Hreq. injection Hreq as Hreq. rewrite <-Hreq in *.
  exists l, c. split_and!; [done..|]. cbv zeta. rewrite <-Hd. split_and!.
  - by rewrite <-Hreq.
  - rewrite Hse. f_equal. etrans; [apply (duties_forallb p o n reqs (λ _, true) Hf)|].
    f_equal. clear. induction (duty <$> reqs) as [|x xs IH]; [done|]. by rewrite filter_cons_True, IH.
  - rewrite Hlo. f_equal. rewrite <-(duties_forallb p o n reqs (λ x, bool_decide (x.1 = n_id n)) Hf).
    clear -Hf. induction Hf as [|r reqs [_ Ho] _ IH]; [done|]. cbn [forallb]. by rewrite IH, Ho.
  - rewrite Hpe. destruct done; [by apply duties_filter|done].
Qed.

(** The demo's finished Matter, whose review gate is still open. *)
Definition matter_node (s : Store) (id : string) : Node :=
  match view_Node (s_proj s) id with Ok n => n | Error _ => MkNode "" ScaleMatter "" "" "" "" "" Planned 0 "" end.

Definition demo_matter : Node := Eval vm_compute in matter_node store_delegated matter0.

Definition demo_completion (o : CompletionOverlay) : NodeCompletion :=
  match NodeCompletionWithOverlay (s_log store_delegated) (s_proj store_delegated) demo_matter o with
  | Ok c => c | Error _ => MkNodeCompletion false false [] [] end.

Lemma delegated_rooted : only_steps_removed (s_proj store_delegated).
Proof. apply (bool_decide_unpack _). vm_compute. exact I. Qed.

Lemma completion_meaning_witness :
  ∃ l c, lineage (s_proj store_delegated) demo_matter l
    ∧ NodeCompletionWithOverlay (s_log store_delegated) (s_proj store_delegated) demo_matter no_overlay = Ok c
    ∧ duty <$> Requirements c = duties (GateDeclarations (s_proj store_delegated) repo0) l.
Proof.
  destruct (completion_meaning demo_world store_delegated demo_matter no_overlay demo_world_ok reach_delegated
    delegated_rooted ltac:(vm_compute; reflexivity)) as (l & c & H1 & H2 & H3 & _).
  exists l, c. exact (conj H1 (conj H2 H3)).
Defined.

(** The prospective answer is the answer after the write: on a reachable
    store, evaluating any node with an overlay that closes a gate on a subject
    gives the Sealed and LocallyComplete that the plain evaluation gives once the
    gate.closed of that gate on that subject has been appended and folded. *)
Theorem overlay_predicts_close w s ev log' p' n c g :
  world_ok w → reach w s →
  appendEvent (s_log s) ev = Ok log' → applyEvent (MkCtx log' true) ev (s_proj s) = Ok p' →
  enum_parse (ev_type ev) = Some TypeGateClosed →
  decode (S := GateClosed) (ev_payload ev) = Ok g →
  view_Node (s_proj s) (n_id n) = Ok n →
  NodeCompletionWithOverlay (s_log s) (s_proj s) n
    (MkOverlay "" (ev_subject ev) (GateClosed_Gate g)) = Ok c →
  ∃ c', view_NodeCompletion log' p' n = Ok c'
    ∧ Sealed c' = Sealed c ∧ LocallyComplete c' = LocallyComplete c.
Proof.
  intros Hw Hs Ha Hp Hty Hg Hn Hc.
  destruct (close_predicted _ _ _ _ _ _ _ _ (st_db _ (reach_ok w s Hw Hs)) Ha Hp Hty Hg Hn Hc)
    as (c' & _ & ? & ? & ?). by eauto.
Qed.

Definition close_event : Event :=
  match last (s_log store_closed) with
  | Some e => e | None => MkEvent "" "" 0 "" "" "" "" "" "" "" JNull end.

Lemma overlay_predicts_close_witness :
  ∃ c', view_NodeCompletion (s_log store_closed) (s_proj store_closed) demo_matter = Ok c'
    ∧ Sealed c' = true.
Proof.
  Transparent applyEvent appendEvent.
  destruct (overlay_predicts_close demo_world store_delegated close_event (s_log store_closed)
    (s_proj store_closed) demo_matter (demo_completion (MkOverlay "" matter0 "review"))
    (MkGateClosed "review" "matter" "off") demo_world_ok reach_delegated
    ltac:(vm_compute; reflexivity) ltac:(vm_compute; reflexivity) ltac:(vm_compute; reflexivity)
    ltac:(vm_compute; reflexivity) ltac:(vm_compute; reflexivity) ltac:(vm_compute; reflexivity))
    as (c' & H1 & H2 & _).
  exists c'. split; [exact H1|]. refine (eq_trans H2 _). vm_compute. reflexivity.
Defined.
#[local] Opaque applyEvent appendEvent.

(** The archive has one meaning: on a reachable store ArchivedMatters
    succeeds, and lists exactly the Matters of the Repo that the archived_matters
    view selects, live, done and with every Matter-scale gate of the Repo closed,
    dismissed or exempt. *)
Theorem archive_matches_view w s repo :
  world_ok w → reach w s →
  ∃ out, ArchivedMatters (s_log s) (s_proj s) repo = Ok out
    ∧ ∀ n, n ∈ out ↔ ∃ id r, n = scanNode id r ∧ nodes (s_proj s) !! id = Some r
                           ∧ nd_repo r = repo ∧ archived_row (s_proj s) id r = true.
Proof.
  intros Hw Hs. destruct (reach_ok w s Hw Hs) as [[_ _ Hsh Hg _] _ _].
  assert (Hm : ∀ n, n ∈ Matters (s_proj s) repo ↔ ∃ id r, n = scanNode id r
    ∧ nodes (s_proj s) !! id = Some r ∧ nd_repo r = repo ∧ nd_kind r = ScaleMatter ∧ nd_tombstone r = None).
  { intros n. unfold Matters, nodeList. rewrite list_elem_of_fmap. split.
    - intros ([id r] & -> & Hin). apply (elem_of_select TNodes) in Hin as [Hk Hb].
      apply andb_true_iff in Hb as [[Hb1 Hb2]%andb_true_iff Hb3]. inv_bool.
      apply node_live_true in Hb3. exists id, r. done.
    - intros (id & r & -> & Hk & H1 & H2 & H3). exists (id, r). split; [done|].
      apply (elem_of_select TNodes). split; [exact Hk|]. apply node_live_true in H3.
      rewrite H3, !bool_decide_true by done. done. }
  destruct (keep_sealed_spec (s_log s) (s_proj s) (Matters (s_proj s) repo) Hg Hsh) as (out & Ho & Hiff).
  { intros n (id & r & -> & Hk & _ & H2 & H3)%Hm. exists id, r. done. }
  exists out. split; [exact Ho|]. intros n. rewrite Hiff, Hm. split.
  - intros [(id & r & -> & Hk & Hrp & _) (id' & r' & Hn & Hk' & Ha)].
    assert (id = id') as <- by (by apply (f_equal n_id) in Hn). rewrite Hk in Hk'. injection Hk' as <-.
    by exists id, r.
  - intros (id & r & -> & Hk & Hrp & Ha). split; [|by exists id, r]. exists id, r.
    unfold archived_row in Ha. inv_bool. split_and!; try done. by apply node_live_true.
Qed.

Lemma archive_matches_view_witness :
  ∃ out, ArchivedMatters (s_log store_closed) (s_proj store_closed) repo0 = Ok out
    ∧ ∃ n, n ∈ out ∧ n_id n = matter0.
Proof.
  destruct (archive_matches_view demo_world store_closed repo0 demo_world_ok reach_closed) as (out & H1 & H2).
  exists out. split; [exact H1|]. eexists. split; [apply H2; exists matter0; eexists;
    split; [reflexivity|split; [vm_compute; reflexivity|split; [reflexivity|vm_compute; reflexivity]]]|reflexivity].
Defined.

(** The walk to the root is complete: on a reachable store, for any live
    node, walking with more steps than the three the evaluator allows changes
    nothing, so the bounded walk is the source's unbounded loop. *)
Theorem requirement_walk_complete w s id n fuel :
  world_ok w → reach w s → view_Node (s_proj s) id = Ok n → (tree_depth ≤ fuel)%nat →
  walk_requirements fuel (s_log s) (s_proj s) (GateDeclarations (s_proj s) (n_repo n)) n n
  = EffectiveGateRequirements (s_log s) (s_proj s) n.
Proof.
  intros Hw Hs Hn Hf. unfold EffectiveGateRequirements.
  eapply walk_fuel_enough; [|exact Hn|destruct (n_kind n); cbn; unfold tree_depth; lia|exact Hf].
  apply (st_db _ (reach_ok w s Hw Hs)).
Qed.

Lemma requirement_walk_complete_witness :
  walk_requirements 50 (s_log store_delegated) (s_proj store_delegated)
    (GateDeclarations (s_proj store_delegated) (n_repo demo_matter)) demo_matter demo_matter
  = EffectiveGateRequirements (s_log store_delegated) (s_proj store_delegated) demo_matter.
Proof.
  apply (requirement_walk_complete demo_world store_delegated matter0 demo_matter 50 demo_world_ok
    reach_delegated); [vm_compute; reflexivity|unfold tree_depth; lia].
Defined.
