(* ===== verification/TaxonomyTheorems.v ===== *)
(** The vocabulary: event types and their dimension rules, the start-up check,
    payload round trips, and the presentation attributes a caller asks the View
    for (sort keys and Step locators). *)
From stdpp Require Import relations.
From S2P Require Import Prelude GoStd Ulid Taxonomy Json Payloads Tables View Gates Project Store.
From S2P Require Import Steps Invariants Shape Replay Mint Reach Scenario.

(** ** The taxonomy *)

(** The taxonomy is total and unambiguous: the index is built without the
    duplicate-type panic, each constant of the file is registered exactly once, and
    a string has a dimension rule exactly when it spells one of the constants, the
    rule being that constant's own. *)
Theorem taxonomy_exact :
  is_Some taxonomyIndex ∧ et_type <$> registeredTypes ≡ₚ enum_all
  ∧ ∀ s t, (∃ et, requiredDimensions s = Ok et ∧ et_type et = t) ↔ s = enum_str t.
Proof.
  split_and!; [by rewrite taxonomyIndex_ok|exact registeredTypes_perm|].
  intros s t. split.
  - intros (et & [_ <-]%requiredDimensions_Ok & <-). done.
  - intros ->. apply requiredDimensions_total.
Qed.

Lemma verified_slices_spec (t : EType) :
  t ∈ et_type <$> verified_slices ↔ t ∉ et_type <$> (V7Taxonomy ++ V9Taxonomy).
Proof.
  assert (Forall (λ t : EType, t ∈ et_type <$> verified_slices
    ↔ t ∉ et_type <$> (V7Taxonomy ++ V9Taxonomy)) enum_all) as H
    by (apply (bool_decide_unpack _); vm_compute; exact I).
  rewrite Forall_forall in H. apply H. exact (enum_complete (A := EType) t).
Qed.

(** What the start-up check checks.  verifyTaxonomy accepts a database
    exactly when it registers every event type outside V7Taxonomy and V9Taxonomy;
    those two slices are stampable all the same, so a database that lacks one of
    their types passes the check and refuses at the first append. *)
Theorem verifyTaxonomy_misses known :
  (verifyTaxonomy known = Ok () ↔
    ∀ t : EType, t ∉ et_type <$> (V7Taxonomy ++ V9Taxonomy) → enum_str t ∈ known)
  ∧ ∀ t : EType, ∃ et, requiredDimensions (enum_str t) = Ok et.
Proof.
  split; [|intros t; destruct (requiredDimensions_total t) as (et & ? & _); by exists et].
  unfold verifyTaxonomy. rewrite ensure_Ok, forallb_forall. split.
  - intros H t Ht. apply verified_slices_spec, list_elem_of_fmap in Ht as (et & -> & Hin).
    apply list_elem_of_In, H in Hin. by apply bool_decide_eq_true in Hin.
  - intros H et Hin%list_elem_of_In. apply bool_decide_eq_true, H, verified_slices_spec.
    by apply list_elem_of_fmap_2.
Qed.

(** ** Identities above the floor *)

(** The high-water mark does not dominate every identity: there is a
    reachable store with a row whose identity is above every event id.  The fold
    derives the id of a tracker candidate from a hash, so it is not below the event
    that births it; loadFloor reads the log only. *)
Theorem candidate_above_floor :
  ∃ w s id, world_ok w ∧ reach w s ∧ is_Some (outbox_entries (s_proj s) !! id)
    ∧ loadFloor (s_log s) <s id.
Proof.
  exists demo_world, store_push, candidate0.
  split_and!; [exact demo_world_ok|exact reach_push|eexists; vm_compute; reflexivity|].
  vm_compute. reflexivity.
Qed.

(** ** Payloads *)

Record AnyPayload := Pack { ap_type : Type; ap_payload : Payload ap_type }.

Definition pack (S : Type) `{Payload S} : AnyPayload := Pack S _.

(** The structs of payloads.go. *)
Definition all_payloads : list AnyPayload :=
  [pack NodeBirth; pack Transition; pack ContentWritten; pack Reordered; pack Replaced;
   pack Removed; pack DependencyChange; pack GateClosed; pack GateDismissed; pack GateDeclared;
   pack GateExemptionRepaired; pack ConfigSet; pack BacklogEntered; pack BacklogPlanned; pack BacklogDeclined;
   pack BacklogDelegated; pack ReferenceBound; pack ReferenceAdded; pack ReferenceRemoved; pack ReferenceRebound;
   pack TrackerStatePushed; pack TrackerStateObserved; pack TrackerItemCreated; pack TrackerAdhocProposed; pack OutboxApproved;
   pack OutboxDeclined; pack OutboxWithheld; pack OutboxDeliveryFailed; pack OutboxRetried; pack OutboxFlushed;
   pack RepoAttached; pack CloneAttached; pack WorktreeAttached; pack RepoKeyAdopted; pack CloneRelinked;
   pack CloneLabeled; pack CursorMoved; pack BatchCreated; pack BatchMembership; pack BatchDismissedPayload;
   pack BatchSweptPayload; pack DispatchOpened; pack DispatchClosed; pack RunStarted; pack RunSkipped;
   pack RunResumed; pack RunFinished; pack RunStoodDown; pack RoleSpawned; pack RoleClosed;
   pack RenderPerformed].

Definition round_trips (P : AnyPayload) : Prop :=
  ∀ s : ap_type P, pl_valid (Payload := ap_payload P) s = true →
    decodeStrict (H := ap_payload P) (pl_enc (Payload := ap_payload P) s) = Ok s
    ∧ decode (H := ap_payload P) (pl_enc (Payload := ap_payload P) s) = Ok s.

Lemma lawful_round_trips (S : Type) `{LawfulPayload S} : round_trips (pack S).
Proof. intros s Hs. split; [by apply pl_roundtrip|by apply pl_roundtrip_lenient]. Qed.

(** For every payload struct of the store, a value whose strings are valid
    UTF-8 and whose integers fit int64 is what both decoders of the fold read back
    from its encoding. *)
Theorem payloads_round_trip : Forall round_trips all_payloads.
Proof.
  unfold all_payloads. repeat (apply Forall_cons_2; [apply lawful_round_trips; apply _|]).
  apply Forall_nil_2.
Qed.

(** ** Sort keys *)
Local Open Scope Z_scope.

(** Between two int64 keys in order whose distance fits int64,
    SortKeyBetween reports the gap exhausted exactly when no integer lies strictly
    between them, and otherwise returns one that does. *)
Theorem SortKeyBetween_exact before after :
  int64_ok before = true → int64_ok after = true → before <= after → after - before < 2 ^ 63 →
  match SortKeyBetween before after with
  | Some m => before < m < after
  | None => ¬ ∃ m, before < m < after
  end.
Proof.
  unfold int64_ok. intros Hb Ha Hle Hd. unfold SortKeyBetween. rewrite (wrap64_id (after - before)) by lia.
  destruct (after - before <? 2) eqn:E.
  - apply Z.ltb_lt in E. intros (m & H). lia.
  - apply Z.ltb_ge in E. rewrite Z.quot_div_nonneg by lia.
    assert (0 < (after - before) / 2 < after - before).
    { split; [apply Z.div_str_pos; lia|apply Z.div_lt; lia]. }
    rewrite wrap64_id by lia. lia.
Qed.

Lemma SortKeyBetween_exact_witness : 1000 < 1500 < 2000 ∧ SortKeyBetween 1000 1001 = None.
Proof.
  split; [|reflexivity].
  exact (SortKeyBetween_exact 1000 2000 eq_refl eq_refl ltac:(lia) ltac:(lia)).
Defined.

Lemma foldr_max_ge k ks z : z ∈ k :: ks → z <= foldr Z.max k ks.
Proof.
  rewrite elem_of_cons. revert k. induction ks as [|a ks IH]; intros k; cbn [foldr].
  - intros [->|H]; [lia|]. by apply elem_of_nil in H.
  - rewrite elem_of_cons. intros [->|[->|H]]; [specialize (IH k (or_introl eq_refl))| |specialize (IH k (or_intror H))]; lia.
Qed.

Lemma foldr_max_in k ks : foldr Z.max k ks ∈ k :: ks.
Proof.
  induction ks as [|a ks IH]; cbn [foldr]; [by left|].
  destruct (Z.max_spec a (foldr Z.max k ks)) as [[_ ->]|[_ ->]]; [|by right; left].
  apply elem_of_cons in IH as [->|IH]; [by left|by right; right].
Qed.

(** NextSortKey places a new child last: while every live sibling's key is
    an int64 with room for one more gap, the key it returns is strictly above each of
    them. *)
Theorem NextSortKey_last p parent :
  Forall (λ n, - 2 ^ 63 <= n_sort_key n < 2 ^ 63 - sortKeyGap) (Children p parent) →
  Forall (λ n, n_sort_key n < NextSortKey p parent) (Children p parent).
Proof.
  intros H. apply Forall_forall. intros n Hn. unfold NextSortKey.
  apply (list_elem_of_fmap_2 n_sort_key) in Hn.
  assert (∀ z, z ∈ n_sort_key <$> Children p parent → - 2 ^ 63 <= z < 2 ^ 63 - sortKeyGap) as Hz.
  { intros z (m & -> & Hm)%list_elem_of_fmap. rewrite Forall_forall in H. by apply H. }
  destruct (n_sort_key <$> Children p parent) as [|k ks]; [by apply elem_of_nil in Hn|].
  pose proof (foldr_max_ge k ks _ Hn). pose proof (Hz _ (foldr_max_in k ks)).
  unfold sortKeyGap in *. rewrite wrap64_id by lia. lia.
Qed.

Lemma NextSortKey_last_witness :
  Forall (λ n, n_sort_key n < 3000) (Children (s_proj store_work) stage0)
  ∧ length (Children (s_proj store_work) stage0) = 2%nat.
Proof.
  split; [|vm_compute; reflexivity].
  refine (NextSortKey_last (s_proj store_work) stage0 _).
  apply (bool_decide_unpack _). vm_compute. exact I.
Defined.

(** ** Step locators *)

(** The number a string of decimal digits spells. *)
Fixpoint digits_value (acc : Z) (s : string) : Z :=
  match s with
  | String a s => digits_value (10 * acc + (Z.of_nat (Ascii.nat_of_ascii a) - 48)) s
  | EmptyString => acc
  end.

Lemma digits_value_app acc s s' : digits_value acc (s ++ s') = digits_value (digits_value acc s) s'.
Proof. revert acc. induction s as [|a s IH]; intros acc; cbn; [done|apply IH]. Qed.

Lemma digits_value_digit acc d : 0 <= d < 10 → digits_value acc (digit_char d) = 10 * acc + d.
Proof.
  intros Hd. assert (d ∈ seqZ 0 10) as Hin by (apply elem_of_seqZ; lia). revert Hin. cbn [seqZ].
  intros Hin. repeat (apply elem_of_cons in Hin as [->|Hin]; [reflexivity|]). by apply elem_of_nil in Hin.
Qed.

Lemma digits_value_decimal fuel n : 0 <= n < 2 ^ Z.of_nat fuel → digits_value 0 (decimal fuel n) = n.
Proof.
  revert n. induction fuel as [|fuel IH]; intros n Hn; cbn [decimal]; [cbn in *; lia|].
  destruct (Z.ltb_spec n 10); [rewrite digits_value_digit; lia|].
  rewrite digits_value_app, IH.
  - rewrite digits_value_digit by (apply Z.mod_pos_bound; lia). pose proof (Z.div_mod n 10). lia.
  - split; [apply Z.div_pos; lia|]. apply Z.div_lt_upper_bound; [lia|].
    rewrite Nat2Z.inj_succ, Z.pow_succ_r in Hn by lia. lia.
Qed.

Lemma digits_value_pad2 n : 0 <= n → digits_value 0 (pad2 n) = n.
Proof.
  intros Hn. assert (digits_value 0 (itoa n) = n) as Hv.
  { apply digits_value_decimal. split; [done|]. rewrite Nat2Z.inj_succ, Z2Nat.id by apply Z.log2_nonneg.
    destruct (decide (n = 0)) as [->|]; [cbn; lia|]. apply Z.log2_spec. lia. }
  unfold pad2. destruct (n <? 10); exact Hv.
Qed.

Definition steps_of (p : Proj) (matter : string) : nat :=
  select_count TNodes p (λ _ r, bool_decide (nd_matter r = matter) && bool_decide (nd_kind r = ScaleStep)).

Lemma NextStepLocator_inj p p' matter :
  NextStepLocator p matter = NextStepLocator p' matter → steps_of p matter = steps_of p' matter.
Proof.
  unfold NextStepLocator. fold (steps_of p matter). fold (steps_of p' matter). intros H.
  apply (inj (String.append "step-")) in H. apply (f_equal (digits_value 0)) in H. rewrite !digits_value_pad2 in H; lia.
Qed.

(** A count that keeps every key it had and gains one is larger. *)
Lemma select_count_lt t p p' guard k r :
  (∀ j o, tget t p !! j = Some o → guard j o = true →
    ∃ n, tget t p' !! j = Some n ∧ guard j n = true) →
  tget t p !! k = None → tget t p' !! k = Some r → guard k r = true →
  (select_count t p guard < select_count t p' guard)%nat.
Proof.
  intros Hkeep Hno Hk Hg.
  pose (keys := λ q, (filter (λ kr : Key t * Row t, guard kr.1 kr.2 = true) (map_to_list (tget t q))).*1).
  assert (∀ q j, j ∈ keys q ↔ ∃ o, tget t q !! j = Some o ∧ guard j o = true) as Hin.
  { intros q j. unfold keys. rewrite list_elem_of_fmap. split.
    - intros ([j' o] & -> & [Hj Hm%elem_of_map_to_list]%list_elem_of_filter). by exists o.
    - intros (o & Hj & Ho). exists (j, o). split; [done|]. apply list_elem_of_filter.
      by rewrite elem_of_map_to_list. }
  assert (length (k :: keys p) ≤ length (keys p'))%nat as Hlen.
  { apply submseteq_length, NoDup_submseteq.
    - apply NoDup_cons. split; [rewrite Hin; intros (o & Ho & _); congruence|].
      unfold keys. eapply sublist_NoDup; [apply (NoDup_fst_map_to_list (tget t p))|].
      apply fmap_sublist, sublist_filter.
    - intros j [->|Hj]%elem_of_cons; rewrite Hin; [by exists r|].
      apply Hin in Hj as (o & Ho & Hgo). by apply Hkeep with o. }
  unfold keys in Hlen. cbn [length] in Hlen. rewrite !length_fmap in Hlen. exact Hlen.
Qed.

(** A Step number is never handed out twice: whatever commands run between
    two readings, if the Matter gained a Step in between then NextStepLocator answers
    differently, removed Steps and Stages notwithstanding. *)
Theorem step_numbers_not_reused w s s' matter k r :
  world_ok w → reach w s → future w s s' →
  nodes (s_proj s) !! k = None → nodes (s_proj s') !! k = Some r →
  nd_matter r = matter → nd_kind r = ScaleStep →
  NextStepLocator (s_proj s) matter ≠ NextStepLocator (s_proj s') matter.
Proof.
  intros Hw Hs Hf Hno Hk Hm Hkd H%NextStepLocator_inj. revert H. apply Nat.lt_neq.
  apply select_count_lt with k r; [|done|done|by rewrite Hm, Hkd, !bool_decide_true].
  intros j o Ho Hg. destruct (future_evolve TNodes same_place) with (w := w) (s := s) (s' := s') (k := j) (o := o)
    as (n & Hn & (Ek & _ & Em & _)); try done.
  - intros e q i x y. apply node_change_place.
  - apply (reach_ok w s Hw Hs).
  - exists n. split; [done|]. by rewrite Ek, Em.
Qed.

Lemma step_numbers_not_reused_witness :
  NextStepLocator (s_proj store_tiers) matter0 ≠ NextStepLocator (s_proj store_work) matter0
  ∧ NextStepLocator (s_proj store_work) matter0 = "step-03".
Proof.
  split; [|vm_compute; reflexivity].
  refine (step_numbers_not_reused demo_world store_tiers store_work matter0 step0 _ demo_world_ok reach_tiers
    (future_plan work store_tiers store_work _ commit_work) _ _ _ _).
  - vm_compute. reflexivity.
  - vm_compute. reflexivity.
  - reflexivity.
  - reflexivity.
Defined.
