(* ===== verification/VerbTheorems.v ===== *)
(** What the write surface promises: a verb is all or nothing and stays inside
    the reachable stores, it moves lifecycles along the graph of the model only, it
    never lets a cycle into the dependencies; Start's cascade; and the births,
    orders and addresses of nodes. *)
From stdpp Require Import relations.
From S2P Require Import Prelude GoStd Ulid Taxonomy Json Payloads Tables View Gates Project Store.
From S2P Require Import Steps Invariants Shape Replay Mint Reach Completion Cycle Content Command.
From S2P Require Import Resolve Config NodeVerbs WorkVerbs Effects Outcome Verbs VerbAtomic Cascade.
From S2P Require Import Seal Archive GateOrder Slug Reap Reorder Scenario VerbScenario.

#[local] Opaque applyEvent appendEvent stamp Commit.

(** ** Every verb *)

(** C3. Every verb of the write surface is all or nothing: run on a reachable
    store, whatever its arguments, it leaves a reachable store whose log extends
    the old one, and when it answers an error the log and the projection are the
    ones it found, so that no refusal, failed write or failed read-back after the
    commit leaves a partial effect behind. *)
Theorem verb_all_or_nothing w fuel v s r s' :
  world_ok w → reach w s → run_verb w fuel v s = Some (r, s') →
  reach w s' ∧ s_log s `prefix_of` s_log s'
  ∧ ∀ e, r = Error e → s_log s' = s_log s ∧ s_proj s' = s_proj s.
Proof.
  intros Hw Hs H. pose proof (reach_ok w s Hw Hs) as Hok.
  pose proof (verb_sound w fuel v s r s' H) as Hfut. split_and!.
  - by eapply reach_future.
  - by eapply future_log.
  - intros e ->. by eapply (verb_atomic w fuel s v).
Qed.

Lemma verb_all_or_nothing_witness :
  reach demo_world store_started ∧ s_log store_work `prefix_of` s_log store_started.
Proof.
  Transparent applyEvent appendEvent stamp Commit.
  destruct (verb_all_or_nothing demo_world 2 start_verb store_work (Ok tt) store_started demo_world_ok reach_work
    ltac:(vm_compute; reflexivity)) as (H1 & H2 & _). by split.
Defined.

Definition moves (o n : NodeRow) : Prop := rtc lifecycle_edge (nd_lifecycle o) (nd_lifecycle n).

#[local] Instance moves_preorder : PreOrder moves.
Proof. split; [intros r; apply rtc_refl|intros a b c H1 H2; unfold moves; by trans (nd_lifecycle b)]. Qed.

Lemma lifecycle_utf8 (l : Lifecycle) : utf8_coerce (enum_str l) = enum_str l.
Proof. by destruct l; vm_compute. Qed.

Lemma follows_graph_moves req d ev q k o n :
  follows_graph d → stamped req d ev → row_change ev q TNodes k o n → moves o n.
Proof.
  intros Hd (rule & _ & Ht & _ & Hp & _) (_ & _ & _ & _ & _ & _ & _ & _ & Hm).
  destruct Hm as [E|(ty & t & _ & Hty & Htr & Hdec & Hfrom & Hto)]; [unfold moves; rewrite E; apply rtc_refl|].
  rewrite Ht in Hty. destruct (Hd ty Hty Htr) as (from & to & c & level & reason & He & Hpl).
  rewrite Hp, Hpl in Hdec. destruct (decode_transition (enum_str from) (enum_str to) c level reason)
    as (t' & Ht' & Hf' & Hto' & _). rewrite Ht' in Hdec. injection Hdec as <-.
  rewrite Hf', lifecycle_utf8 in Hfrom. rewrite Hto', lifecycle_utf8 in Hto.
  apply enum_str_inj in Hfrom, Hto. subst. by apply rtc_once.
Qed.

(** C6. No verb moves a node against the lifecycle: a node that exists before any
    verb exists after it, and its state is the old one or one reached from it by the
    five moves start, finish, cancel, pause and resume; done and canceled are final
    and nothing returns to planned. *)
Theorem verb_lifecycle w fuel v s r s' id o :
  run_verb w fuel v s = Some (r, s') → nodes (s_proj s) !! id = Some o →
  ∃ n, nodes (s_proj s') !! id = Some n ∧ rtc lifecycle_edge (nd_lifecycle o) (nd_lifecycle n).
Proof.
  intros H%verb_follows. revert o. induction H as [s|s s1 s2 Hs _ IH]; intros o Ho; [exists o; by split|].
  destruct Hs as [[_ Hp]|(req & ds & new & Hds & Hf)]; [apply IH; congruence|].
  edestruct (folded_evolve TNodes moves follows_graph) as (n & Hn & Hm); [|exact Hds|exact Hf|exact Ho|].
  { intros d ev q k o' n' Hd Hst Hc _. by eapply follows_graph_moves. }
  destruct (IH n Hn) as (n' & ? & ?). exists n'. split; [done|]. etrans; [exact Hm|done].
Qed.

Lemma verb_lifecycle_witness :
  ∃ n, nodes (s_proj store_started) !! step0 = Some n ∧ nd_lifecycle n = InProgress
    ∧ rtc lifecycle_edge Planned (nd_lifecycle n).
Proof.
  Transparent applyEvent appendEvent stamp Commit.
  eassert (nodes (s_proj store_work) !! step0 = Some _) as Ho by (vm_compute; reflexivity).
  destruct (verb_lifecycle demo_world 2 start_verb store_work (Ok tt) store_started step0 _
    ltac:(vm_compute; reflexivity) Ho) as (n & Hn & Hm).
  exists n. split; [exact Hn|]. split; [|exact Hm]. vm_compute in Hn. injection Hn as <-. reflexivity.
Defined.

(** Node identities have the identity shape, and nothing waits for itself. *)
Definition graph_ok (p : Proj) : Prop :=
  ids_shaped p ∧ acyclic (waits (liveEdgeGraph p)).

Lemma steps_node_keys c ev p p' (Q : string → Prop) :
  (∀ k, node_key ev k → Q k) → steps c ev p p' →
  (∀ k, is_Some (nodes p !! k) → Q k) → ∀ k, is_Some (nodes p' !! k) → Q k.
Proof.
  intros HQ H Hp. eapply (steps_stable c ev (λ p, ∀ k, is_Some (nodes p !! k) → Q k)); [|exact H|exact Hp].
  clear -HQ. intros p q Hs Hp k [r Hk].
  destruct (step_table _ _ _ _ TNodes Hs) as [He|j n Hj He _ _ _ Hb _|j o n Ho He _ _ _ _ _];
    cbn in He; rewrite He in Hk; [by apply Hp|..].
  - apply lookup_insert_Some in Hk as [[<- _]|[_ Hk]]; [|by apply Hp]. by apply HQ, Hb.
  - apply lookup_insert_Some in Hk as [[<- _]|[_ Hk]]; apply Hp; by eexists.
Qed.

(** One event, given what it bears. *)
Lemma event_graph_ok log ev p p' :
  refs_ok log p → appendEvent log ev = Ok (log ++ [ev]) → applyEvent (MkCtx (log ++ [ev]) true) ev p = Ok p' →
  (∀ k, node_key ev k → IsIdentityShaped k = true) →
  (∀ x y, borne_edge ev x y → WouldCycle p x y = false) →
  graph_ok p → graph_ok p'.
Proof.
  intros Hr Ha Hf Hk Hb [Hids Hac]. split.
  - exact (steps_node_keys _ _ _ _ (λ k, IsIdentityShaped k = true) Hk (applyEvent_steps _ _ _ _ Hf) Hids).
  - eapply applyEvent_acyclic; [|exact Hf|exact Hb|exact Hac]. eapply refs_ok_grow; [by apply prefix_app_r|done].
Qed.

Lemma plain_node_key log req d ev k :
  d_type d ≠ enum_str TypeStepReplaced → stamped req d ev → appendEvent log ev = Ok (log ++ [ev]) →
  node_key ev k → IsIdentityShaped k = true.
Proof.
  intros Hd (rule & _ & Ht & _) Ha [->|[Hr _]]; [by eapply appended_subject|].
  rewrite Ht in Hr. by apply (enum_parse_Some (A := EType)) in Hr.
Qed.

Lemma plain_borne_edge req d ev x y :
  d_type d ≠ enum_str TypeDependencyAdded → stamped req d ev → ¬ borne_edge ev x y.
Proof.
  intros Hd (rule & _ & Ht & _) [Hr _]. rewrite Ht in Hr. by apply (enum_parse_Some (A := EType)) in Hr.
Qed.

(** A commit of drafts that bear no edge and replace no Step. *)
Definition graph_draft (d : Draft) : Prop :=
  d_type d ≠ enum_str TypeDependencyAdded ∧ d_type d ≠ enum_str TypeStepReplaced.

Lemma folded_graph_ok req ds events log p new log' p' :
  Forall graph_draft ds → folded req ds events log p new log' p' → db_ok log p → graph_ok p →
  db_ok log' p' ∧ graph_ok p'.
Proof.
  intros Hds Hf Hdb Hg. eapply (folded_ind_db (λ log p, db_ok log p ∧ graph_ok p) graph_draft); [|done..].
  intros d ev l q q' (Hdep & Hrep) Hst [Hq Hgq] Ha Hap. split; [by eapply db_ok_append|].
  eapply event_graph_ok; [apply Hq|exact Ha|exact Hap| | |exact Hgq].
  - intros k. by eapply plain_node_key.
  - intros x y Hb. by destruct (plain_borne_edge _ _ _ _ _ Hdep Hst Hb).
Qed.

(** The verbs but two. *)
Definition graph_verb (v : Verb) : bool :=
  match v with VDependAdd _ _ _ _ | VReplaceStep _ _ _ _ => false | _ => true end.

Lemma verb_graph_writes w fuel v : graph_verb v = true → Writes graph_draft (run_verb w fuel v).
Proof.
  intros Hv. destruct (plain_verb v) eqn:Hp.
  - eapply writes_mono; [|by apply verb_writes].
    intros d [Hd _]. split; intros E; by apply Hd in E.
  - destruct v; try discriminate Hv; try discriminate Hp; cbn [run_verb];
      unfold RemoveStep, DeclareGate, store_DeclareGate;
      solve_writes ltac:(first [match goal with |- graph_draft _ => by split end]).
Qed.

Lemma decode_dependency edge blocker :
  decode (pl_enc (MkDependencyChange edge blocker))
  = Ok (MkDependencyChange (utf8_coerce edge) (utf8_coerce blocker)).
Proof. unfold pl_enc, DependencyChange_payload; eval_decode. reflexivity. Qed.

Lemma minted_shaped id : minted id → IsIdentityShaped id = true.
Proof. intros (raw & Hb & Hl & ->). by apply encodeCrockford_shaped. Qed.

Lemma DependAdd_graph_ok w fuel a r x y s e s' :
  refs_ok (s_log s) (s_proj s) → graph_ok (s_proj s) →
  DependAdd w fuel a r x y s = Some (Ok e, s') → graph_ok (s_proj s').
Proof.
  intros Hr Hg H. unfold DependAdd in H. inv_cmd.
  match goal with H : commit _ _ _ _ _ = Some (Ok ?p, _) |- _ =>
    destruct p; apply commit_folded in H as (ds & h & Hd & _ & Hf) end.
  inv_tx. one_draft. destruct (stamped_draft _ _ _ _ _ Hst) as (Hty & Hsub & Hpl & _).
  eapply event_graph_ok; [exact Hr|exact Ha|exact Hap| | |exact Hg].
  - intros k [->|[Hk _]]; [by eapply appended_subject|congruence].
  - intros u v (_ & -> & d & Hdec & ->). rewrite Hpl, decode_dependency in Hdec. injection Hdec as <-.
    rewrite Hsub. cbn [DependencyChange_Blocker]. rewrite identity_utf8; [by inv_ok; inv_bool|].
    apply Hg. match goal with H : resolve _ y _ _ = Ok _ |- _ =>
      apply ResolveNode_live, view_Node_Ok in H as (? & -> & _) end. by eexists.
Qed.

Lemma ReplaceStep_graph_ok w fuel a r l t s n s' :
  world_ok w → store_ok s → graph_ok (s_proj s) →
  ReplaceStep w fuel a r l t s = Some (Ok n, s') → graph_ok (s_proj s').
Proof.
  intros Hw Hs Hg H. unfold ReplaceStep in H. inv_cmd.
  match goal with H : commit _ _ _ _ _ = Some (Ok ?p, _) |- _ =>
    destruct p; apply commit_folded in H as (ds & h & Hd & _ & Hf) end.
  inv_tx. one_draft. destruct (stamped_draft _ _ _ _ _ Hst) as (Hty & Hsub & Hpl & _).
  match goal with H : NewID _ _ _ = Some _ |- _ =>
    destruct (NewID_ok w Hw _ _ _ _ H (st_handle _ Hs)) as (_ & Hm & _) end.
  eapply event_graph_ok; [apply Hs|exact Ha|exact Hap| | |exact Hg].
  - intros k [->|(_ & b & Hdec & ->)]; [by eapply appended_subject|].
    rewrite Hpl, decode_replaced in Hdec. injection Hdec as <-. cbn [Replaced_Replacement]. rewrite (minted_utf8 _ Hm).
    by apply minted_shaped.
  - intros u v [Hk _]. congruence.
Qed.

(** C10. Whatever verb runs on a reachable store whose dependencies in force have no
    cycle, the ones after it have none either: DependAdd's check is enough, and no
    other verb (removal and replacement of Steps included) can close a loop.  That node
    identities have the shape NewID mints is supposed and kept with it. *)
Theorem verb_keeps_acyclic w fuel v s r s' :
  world_ok w → reach w s → graph_ok (s_proj s) → run_verb w fuel v s = Some (r, s') →
  graph_ok (s_proj s').
Proof.
  intros Hw Hs Hg H. pose proof (reach_ok w s Hw Hs) as Hok.
  destruct r as [u|e]; [|by destruct (verb_atomic w fuel s v Hw Hok e s' H) as [_ ->]].
  destruct (graph_verb v) eqn:Hv.
  - apply verb_graph_writes in H; [|done]. clear Hs. apply st_db in Hok as Hdb. clear Hok.
    assert (db_ok (s_log s') (s_proj s') ∧ graph_ok (s_proj s')) as [_ ?]; [|done].
    induction H as [s|s s1 s2 Hst _ IH]; [done|].
    destruct Hst as [[Hl Hp]|(req & ds & new & Hds & Hf)]; [apply IH; congruence|].
    by apply IH; eapply (folded_graph_ok _ _ _ _ _ _ _ _ Hds Hf Hdb Hg).
  - destruct v; try discriminate Hv; cbn [run_verb] in H; inv_cmd.
    + by eapply ReplaceStep_graph_ok.
    + eapply DependAdd_graph_ok; [apply Hok|done..].
Qed.

Lemma verb_keeps_acyclic_witness :
  graph_ok (s_proj store_depends) ∧ waits (liveEdgeGraph (s_proj store_depends)) matter0 matter1.
Proof.
  Transparent applyEvent appendEvent stamp Commit.
  split; [|vm_compute; by left].
  refine (verb_keeps_acyclic demo_world 2 depend_verb store_work (Ok tt) store_depends demo_world_ok reach_work
    _ ltac:(vm_compute; reflexivity)).
  split; [exact work_shaped|]. apply cycles_nil_iff. vm_compute. reflexivity.
Defined.

(** ** Start *)
(** C7. Start opens exactly the planned part of the path to its target: it succeeds
    only on a planned target, emits one event per planned node of the chain from the
    Matter down, in that order, each caused by the one before it and marked as a
    cascade exactly when it is not the target, and afterwards those nodes are in
    progress while every other node has the state it had. *)
Theorem start_cascades w fuel actor repo locator s evs s' :
  world_ok w → reach w s → Start w fuel actor repo locator s = Some (Ok evs, s') →
  ∃ target ancestors, ResolveNode (s_proj s) repo locator = Ok target
    ∧ ancestorsRootFirst (s_proj s) target = Ok ancestors ∧ n_lifecycle target = Planned
    ∧ let planned := planned_of (ancestors ++ [target]) in
      length evs = length planned
      ∧ (∀ i n, planned !! i = Some n → started_by evs (n_id target) i n)
      ∧ ∀ id o, nodes (s_proj s) !! id = Some o →
          ∃ r, nodes (s_proj s') !! id = Some r
            ∧ nd_lifecycle r = if bool_decide (id ∈ n_id <$> planned) then InProgress else nd_lifecycle o.
Proof.
  intros Hw Hs H. unfold Start in H. inv_cmd.
  match goal with H : commit _ _ _ _ _ = Some (Ok ?x, _) |- _ =>
    destruct x as [evs u]; apply commit_folded in H as (ds & h & Hd & _ & Hf) end.
  inv_tx. unfold resolve, ancestorsRootFirst in *. inv_ok.
  match goal with H : ResolveNode _ _ _ = Ok ?t |- _ => rename t into target, H into Ht end.
  pose proof (ResolveNode_live _ _ _ _ Ht) as Hlive.
  pose proof (sh_tree _ (db_shape _ _ (st_db _ (reach_ok w s Hw Hs)))) as Htree.
  match goal with H : ancestors_up _ _ _ = Ok ?l |- _ =>
    destruct (ancestors_up_spec _ _ _ _ Htree Hlive H) as [_ Hup]; rename l into up, H into Hau end.
  match goal with H : start_loop _ _ _ _ _ = Ok _ |- _ => apply start_loop_spec in H as [-> Hplan] end.
  2: { intros n [Hn|Hn]%elem_of_app; [rewrite elem_of_reverse in Hn; by destruct (Hup n Hn)|].
       apply list_elem_of_singleton in Hn as ->. done. }
  cbn [app length Nat.add] in Hf. exists target, (reverse up). rewrite Hau.
  split; [exact Ht|]. split; [reflexivity|]. split.
  { apply Hplan; [|done]. apply elem_of_app. right. by left. }
  cbv zeta. cbn [fst]. split_and!.
  - apply folded_log in Hf as [_ ->]. apply length_imap.
  - intros i n. by eapply start_events.
  - by apply (start_folded _ _ _ _ 0 _ _ _ _ _ _ Hf).
Qed.

Lemma start_cascades_witness :
  ∃ target ancestors, ResolveNode (s_proj store_work) repo0 "first/build/step-01" = Ok target
    ∧ ancestorsRootFirst (s_proj store_work) target = Ok ancestors
    ∧ length (planned_of (ancestors ++ [target])) = 3%nat.
Proof.
  Transparent applyEvent appendEvent stamp Commit.
  destruct (start_cascades demo_world 2 ActorHuman repo0 "first/build/step-01" store_work
    (events_after 8 store_started) store_started demo_world_ok reach_work ltac:(vm_compute; reflexivity))
    as (t & l & Ht & Hl & _ & Hlen & _).
  exists t, l. split; [exact Ht|]. split; [exact Hl|]. refine (eq_trans (eq_sym Hlen) _). vm_compute. reflexivity.
Defined.

(** ** Sealing *)
(** C8. What Finish, CloseGate and DismissGate report: they resolve the node they
    were given and return it as it is after the commit; for a Matter the flag
    BecameSealed says exactly that the evaluator's answer went from not sealed to
    sealed, and when it is set every anonymous Batch of that Matter has been closed by
    the same command; below a Matter the flag is never set.  The gate is given in valid
    UTF-8, as every declared one is. *)
Theorem seal_flag_exact w fuel v s r s' :
  world_ok w → reach w s → utf8_valid (seal_gate v) = true → run_seal w fuel v s = Some (Ok r, s') →
  ∃ n, ResolveNode (s_proj s) (seal_repo v) (seal_locator v) = Ok n ∧ seal_report s s' n r.
Proof. intros Hw Hs. apply run_seal_report, (reach_ok w s Hw Hs). Qed.

Lemma seal_flag_exact_witness :
  ∃ n r, ResolveNode (s_proj store_delegated) repo0 "first" = Ok n ∧ BecameSealed r = true
    ∧ seal_report store_delegated store_sealed n r.
Proof.
  Transparent applyEvent appendEvent stamp Commit.
  eassert (run_seal demo_world 2 seal_close store_delegated = Some (Ok (MkSealTransition _ true), store_sealed)) as Hrun
    by (vm_compute; reflexivity).
  destruct (seal_flag_exact demo_world 2 seal_close store_delegated _ store_sealed demo_world_ok reach_delegated
    ltac:(vm_compute; reflexivity) Hrun) as (n & Hn & Hr).
  exists n. eexists. split; [exact Hn|]. split; [|exact Hr]. reflexivity.
Defined.

Lemma writes_archived s s' id : rtc (wrote archive_draft) s s' → archived (s_proj s) id → archived (s_proj s') id.
Proof.
  induction 1 as [s|s s1 s2 Hs _ IH]; [done|]. intros Ha. apply IH.
  destruct Hs as [[_ ->]|(req & ds & new & Hds & Hf)]; [done|]. by eapply folded_archived.
Qed.

(** C9. The archive only grows: a Matter sealed before a verb is sealed after it.
    In particular a gate declared later, a Step removed or replaced or a new
    dependency never reopens an archived Matter.  Node identities are supposed to have
    the shape NewID mints, as every verb leaves them. *)
Theorem archive_never_shrinks w fuel v s r s' id :
  world_ok w → reach w s → ids_shaped (s_proj s) → run_verb w fuel v s = Some (r, s') →
  archived (s_proj s) id → archived (s_proj s') id.
Proof.
  intros Hw Hs Hids H Ha. pose proof (reach_ok w s Hw Hs) as Hok.
  destruct r as [u|e]; [|by destruct (verb_atomic w fuel s v Hw Hok e s' H) as [_ ->]].
  destruct (plain_verb v) eqn:Hv.
  - apply verb_writes in H; [|done]. eapply writes_archived; [|exact Ha].
    eapply rtc_subrel; [|exact H]. intros x y [?|(req & ds & new & Hds & Hf)]; [by left|right].
    exists req, ds, new. split; [|done]. eapply Forall_impl; [exact Hds|apply verb_draft_archive].
  - destruct v; try discriminate Hv; cbn [run_verb] in H; inv_cmd.
    + by eapply ReplaceStep_archive.
    + by eapply RemoveStep_archive.
    + by eapply writes_archived; [eapply DependAdd_archive|].
    + unfold DeclareGate in H. inv_cmd. by eapply store_DeclareGate_archive.
Qed.

Lemma archive_never_shrinks_witness : archived (s_proj store_closed) matter0 ∧ archived (s_proj store_declared) matter0.
Proof.
  Transparent applyEvent appendEvent stamp Commit.
  assert (archived (s_proj store_closed) matter0) as Ha.
  { eexists. split; [vm_compute; reflexivity|]. vm_compute. reflexivity. }
  split; [exact Ha|].
  refine (archive_never_shrinks demo_world 2 declare_verb store_closed (Ok tt) store_declared matter0
    demo_world_ok reach_closed closed_shaped ltac:(vm_compute; reflexivity) Ha).
Defined.

(** ** Gate order *)
Definition decl_draft (d : Draft) : Prop := d_type d ≠ enum_str TypeGateDeclared.

Lemma folded_decls req ds events log p new log' p' :
  Forall decl_draft ds → folded req ds events log p new log' p' → gate_declarations p' = gate_declarations p.
Proof.
  intros Hds Hf. eapply (folded_ind_db (λ _ q, gate_declarations q = gate_declarations p) decl_draft);
    [|exact Hds|exact Hf|done].
  intros d ev l q q' Hd (rule & _ & Ht & _) <- _ Hap%applyEvent_steps. eapply steps_decls; [|exact Hap].
  rewrite Ht. intros E. by apply (enum_parse_Some (A := EType)) in E.
Qed.

Definition declares (v : Verb) : option string :=
  match v with VDeclareGate _ g _ => Some g | _ => None end.

Lemma verb_decl_writes w fuel v : declares v = None → Writes decl_draft (run_verb w fuel v).
Proof.
  intros Hv. destruct (plain_verb v) eqn:Hp.
  - eapply writes_mono; [|by apply verb_writes]. intros d [Hd _] E. by apply Hd in E.
  - destruct v; try discriminate Hv; try discriminate Hp; cbn [run_verb]; unfold RemoveStep, ReplaceStep, DependAdd;
      solve_writes ltac:(first [match goal with |- decl_draft _ => done end]).
Qed.

(** C19. The declared gates of a Repo stay in order: if no two declarations violate
    the order of gates (an outer gate at no finer a scale than an inner one), no verb
    introduces a violation, DeclareGate included, whatever the bytes of the name it is
    given. *)
Theorem gates_stay_ordered w fuel v s r s' :
  world_ok w → reach w s → gates_ordered (s_proj s) →
  run_verb w fuel v s = Some (r, s') → gates_ordered (s_proj s').
Proof.
  intros Hw Hs Ho H. pose proof (reach_ok w s Hw Hs) as Hok.
  destruct r as [u|e]; [|by destruct (verb_atomic w fuel s v Hw Hok e s' H) as [_ ->]].
  destruct (declares v) as [g|] eqn:Hv.
  - destruct v; try discriminate Hv. injection Hv as ->. cbn [run_verb] in H.
    eapply DeclareGate_ordered; [exact H|exact Ho].
  - apply verb_decl_writes in H; [|done]. eapply gates_ordered_same; [|exact Ho]. clear Ho Hok Hs.
    induction H as [s|s s1 s2 Hst _ IH]; [done|]. rewrite IH.
    destruct Hst as [[_ ->]|(req & ds & new & Hds & Hf)]; [done|]. by eapply folded_decls.
Qed.

Lemma gates_stay_ordered_witness :
  gates_ordered (s_proj store_declared) ∧ length (GateDeclarations (s_proj store_declared) repo0) = 2%nat.
Proof.
  Transparent applyEvent appendEvent stamp Commit.
  split; [|vm_compute; reflexivity].
  exact (gates_stay_ordered demo_world 2 declare_verb store_closed (Ok tt) store_declared
    demo_world_ok reach_closed closed_ordered ltac:(vm_compute; reflexivity)).
Defined.

(** ** Order and addresses *)
(** ReorderStep does what it was asked: the locators resolve, one by one, to a
    permutation of the live Steps of the parent, and afterwards the live Steps are
    listed in that order (for orders whose keys fit int64). *)
Theorem reorder_exact w fuel actor repo parent order s n s' :
  ids_shaped (s_proj s) → (Z.of_nat (length order) < 2 ^ 53)%Z →
  ReorderStep w fuel actor repo parent order s = Some (Ok n, s') →
  ∃ m ids, ResolveNode (s_proj s) repo parent = Ok m
    ∧ Forall2 (λ loc id, ∃ t, ResolveNode (s_proj s) repo loc = Ok t ∧ n_id t = id) order ids
    ∧ ids ≡ₚ (n_id <$> liveSteps (s_proj s) (n_id m))
    ∧ (n_id <$> liveSteps (s_proj s') (n_id m)) = ids.
Proof.
  intros Hids Hlen H. destruct (ReorderStep_order _ _ _ _ _ _ _ _ _ H Hids Hlen) as (m & ids & Hm & Hord & Hp & Hl).
  exists m, ids. split_and!; [done| |done..]. by eapply resolve_order_locators.
Qed.

Lemma reorder_exact_witness :
  ∃ m, ResolveNode (s_proj store_work) repo0 "first/build" = Ok m
    ∧ (n_id <$> liveSteps (s_proj store_work) (n_id m)) = [step0; step1]
    ∧ (n_id <$> liveSteps (s_proj store_reordered) (n_id m)) = [step1; step0].
Proof.
  Transparent applyEvent appendEvent stamp Commit.
  eassert (reorder_of store_work = Some (Ok _, store_reordered)) as Hrun by (vm_compute; reflexivity).
  destruct (reorder_exact demo_world 2 ActorHuman repo0 "first/build" ["first/step-02"; "first/step-01"] store_work _
    store_reordered work_shaped
    ltac:(vm_compute; reflexivity) Hrun) as (m & ids & Hm & Hf & _ & Hl).
  exists m. split; [exact Hm|]. vm_compute in Hm. injection Hm as <-. split; [vm_compute; reflexivity|].
  refine (eq_trans Hl _). inversion Hf as [|? ? ? ? (t & Ht & <-) Hf']; subst.
  inversion Hf' as [|? ? ? ? (t' & Ht' & <-) Hf'']; subst. inversion Hf''; subst.
  vm_compute in Ht, Ht'. injection Ht as <-. injection Ht' as <-. reflexivity.
Defined.

(** C36. A Matter created is the Matter found: CreateMatter returns a new planned
    Matter of the Repo with the given title (as JSON carries it) and its slug, or the
    given locator; it is resolved by its identity, and by its locator unless that
    locator itself has the shape of an identity (26 digits) and is not by chance its
    own, which then does not resolve to it. *)
Theorem create_then_resolve w fuel actor repo title locator s n s' :
  CreateMatter w fuel actor repo title locator s = Some (Ok n, s') →
  n_title n = utf8_coerce title ∧ n_repo n = repo ∧ n_kind n = ScaleMatter ∧ n_lifecycle n = Planned
  ∧ n_locator n = new_locator title locator ∧ nodes (s_proj s) !! n_id n = None
  ∧ ResolveNode (s_proj s') repo (n_id n) = Ok n
  ∧ (ResolveNode (s_proj s') repo (n_locator n) = Ok n
     ↔ IsIdentityShaped (n_locator n) = false ∨ n_locator n = n_id n).
Proof.
  intros H. destruct (CreateMatter_Ok _ _ _ _ _ _ _ _ _ H)
    as (Hslug & Hne & Hloc & Hk & Hr & Hlife & Hti & Hv & Hnew & Hi & Hby).
  split_and!; try done.
  - unfold ResolveNode. by rewrite Hi, Hv.
  - rewrite Hloc in *. destruct (slug_segment _ Hslug) as [Hseg _]. unfold ResolveNode.
    destruct (IsIdentityShaped (new_locator title locator)) eqn:E.
    + split; [|intros [?|Heq]; [done|by rewrite Heq, Hv]]. intros Hv'%recode_Ok. right.
      apply view_Node_Ok in Hv' as (r & _ & _ & ->). done.
    + rewrite Hseg. cbn [hd]. rewrite Hby. split; [by left|done].
Qed.

Lemma create_then_resolve_witness :
  ∃ n, ResolveNode (s_proj store_created) repo0 "fix-the-parser" = Ok n ∧ n_lifecycle n = Planned.
Proof.
  Transparent applyEvent appendEvent stamp Commit.
  eassert (create_of store_work = Some (Ok _, store_created)) as Hrun by (vm_compute; reflexivity).
  destruct (create_then_resolve demo_world 2 ActorHuman repo0 "Fix: the Parser" "" store_work _ store_created Hrun)
    as (_ & _ & _ & Hlife & _ & _ & _ & Hloc).
  eexists. split; [|exact Hlife]. apply Hloc. left. reflexivity.
Defined.

(** What slugify returns is a locator: a fixed point of slugify, a single path
    segment that survives JSON unchanged, of lower-case letters and digits with single
    hyphens between them. *)
Theorem slugs_are_locators title :
  slugify (slugify title) = slugify title ∧ split_slash (slugify title) = [slugify title]
  ∧ utf8_coerce (slugify title) = slugify title
  ∧ ∃ bs, slugify title = string_of bs ∧ slug_form bs.
Proof.
  pose proof (slugify_fixed title) as H. destruct (slug_segment _ H) as [H1 H2].
  destruct (slugify_form title) as (bs & ? & ? & _). split_and!; eauto.
Qed.

(** ** Standing down *)
(** C14. Standing a Run down closes everything in it: the Run the verb returns is the
    stored row and is closed, every Dispatch of the Run is closed, and so is every role
    in one of them. *)
Theorem standdown_leaves_nothing_open w fuel acquire actor env run s row evs s' :
  world_ok w → reach w s → StandDownRun w fuel acquire actor env run s = Some (Ok (row, evs), s') →
  runs (s_proj s') !! run = Some row ∧ rn_state row = StClosed
  ∧ (∀ k d, dispatches (s_proj s') !! k = Some d → dp_run d = Some run → dp_state d = StClosed)
  ∧ ∀ k r d, roles (s_proj s') !! k = Some r → dispatches (s_proj s') !! ro_dispatch r = Some d →
      dp_run d = Some run → ro_state r = StClosed.
Proof.
  intros Hw Hs H. pose proof (reach_ok w s Hw Hs) as Hok.
  destruct (StandDownRun_reaps _ _ _ _ _ _ _ _ _ _ Hok H) as (Hrow & Hcl & Hd).
  split_and!; [done..|]. intros k r d Hk Hdr Hrun.
  assert (future w s s') as Hfut.
  { eapply (verb_sound w fuel (VStandDownRun acquire actor env run) s (Ok tt)). cbn [run_verb].
    unfold mbind, cmd_bind. rewrite H. reflexivity. }
  pose proof (sh_roles _ (db_shape _ _ (st_db _ (reach_ok w s' Hw (reach_future _ _ _ Hs Hfut))))) as Hro.
  destruct (ro_state r) eqn:E; [|done]. destruct (Hro k r Hk E) as (d' & Hd' & Ho & _).
  rewrite Hdr in Hd'. injection Hd' as <-. pose proof (Hd _ _ Hdr Hrun). congruence.
Qed.

Lemma standdown_leaves_nothing_open_witness :
  (∃ d, dispatches (s_proj store_run) !! disp1 = Some d ∧ dp_state d = StOpen ∧ dp_run d = Some run0)
  ∧ ∀ r d, roles (s_proj store_stood_down) !! role1 = Some r →
      dispatches (s_proj store_stood_down) !! ro_dispatch r = Some d → dp_run d = Some run0 → ro_state r = StClosed.
Proof.
  Transparent applyEvent appendEvent stamp Commit.
  split; [eexists; split; [vm_compute; reflexivity|split; reflexivity]|].
  eassert (stand_down store_run = Some (Ok (_, events_after 12 store_stood_down), store_stood_down)) as Hrun
    by (vm_compute; reflexivity).
  destruct (standdown_leaves_nothing_open demo_world 2 no_lock ActorHuman demo_env run0 store_run _ _
    store_stood_down demo_world_ok reach_run Hrun) as (_ & _ & _ & H). exact (H role1).
Defined.
