(* ===== verification/ReadTheorems.v ===== *)
(** The reads of reachable stores: the frontier, what a Repo waits for, what comes
    next, status, the cursor, the sessions of the log, and a Run's frontier beside
    the one people are shown. *)
From stdpp Require Import relations.
From S2P Require Import Prelude GoStd Ulid Taxonomy Json Payloads Tables View Gates Project Store.
From S2P Require Import Steps Invariants Shape Replay Mint Reach Cycle Completion Content Command.
From S2P Require Import Resolve Config NodeVerbs WorkVerbs ReadSurface Effects Outcome Verbs VerbAtomic Archive Removal.
From S2P Require Import ReadFacts Waiting WaitingFacts Next NextFacts StatusFacts Session SessionFacts.
From S2P Require Import SchedFrontier SchedFacts Scenario VerbScenario.

#[local] Opaque applyEvent appendEvent stamp Commit.

(** Decided by running over the node table. *)
Lemma rooted_check p :
  bool_decide (map_Forall (λ _ r, nd_tombstone r ≠ None → nd_kind r = ScaleStep) (nodes p)) = true →
  only_steps_removed p.
Proof. intros H%bool_decide_eq_true k r Hr. by apply (H k r). Qed.

Lemma work_rooted : only_steps_removed (s_proj store_work).
Proof. apply rooted_check. vm_compute. reflexivity. Qed.

Lemma edge_rooted : only_steps_removed (s_proj store_edge).
Proof. apply rooted_check. vm_compute. reflexivity. Qed.

Lemma tiers_rooted : only_steps_removed (s_proj store_tiers).
Proof. apply rooted_check. vm_compute. reflexivity. Qed.

Lemma closed_rooted : only_steps_removed (s_proj store_closed).
Proof. apply rooted_check. vm_compute. reflexivity. Qed.

Lemma run_rooted : only_steps_removed (s_proj store_run).
Proof. apply rooted_check. vm_compute. reflexivity. Qed.

Lemma edge_acyclic : acyclic (waits (liveEdgeGraph (s_proj store_edge))).
Proof. apply cycles_nil_iff. vm_compute. reflexivity. Qed.

(** [local] is what the read answers. *)
Lemma local_read log p m b :
  db_ok log p → only_steps_removed p → view_Node p (n_id m) = Ok m →
  read_LocallyComplete log p m = Ok b ↔ local log p m = b.
Proof. intros Hdb Hst Hm. rewrite (read_local log p Hdb Hst m Hm). split; [by intros [= ->]|by intros ->]. Qed.

(** ** The frontier *)

(** C24. The frontier is derived without failing on every reachable store in which
    only Steps were removed, and it splits the planned nodes exactly: a node is
    ready when every node it waits for is locally complete, and otherwise it is
    listed as blocked with precisely those of its blockers that are not. *)
Theorem frontier_exact w s :
  world_ok w → reach w s → only_steps_removed (s_proj s) →
  let log := s_log s in let p := s_proj s in
  ∃ ready blocked, ReadSurface.Frontier log p = Ok (ready, blocked)
    ∧ (∀ n, n ∈ ready ↔ view_Node p (n_id n) = Ok n ∧ n_lifecycle n = Planned
         ∧ ∀ m, view_Node p (n_id m) = Ok m → waits (liveEdgeGraph p) (n_id n) (n_id m) →
             read_LocallyComplete log p m = Ok true)
    ∧ (∀ b, b ∈ blocked → view_Node p (n_id (bk_node b)) = Ok (bk_node b) ∧ n_lifecycle (bk_node b) = Planned
         ∧ bk_blockers b ≠ []
         ∧ ∀ m, m ∈ bk_blockers b ↔ view_Node p (n_id m) = Ok m
             ∧ waits (liveEdgeGraph p) (n_id (bk_node b)) (n_id m) ∧ read_LocallyComplete log p m = Ok false)
    ∧ (∀ n, view_Node p (n_id n) = Ok n → n_lifecycle n = Planned → n ∉ ready → n ∈ bk_node <$> blocked).
Proof.
  intros Hw Hs Hst log p. pose proof (st_db _ (reach_ok w s Hw Hs)) as Hdb. fold log p in Hdb, Hst.
  pose proof (Frontier_total log p Hdb Hst) as Hf. eexists _, _. split; [exact Hf|]. split_and!.
  - intros n. rewrite (elem_of_ready log p Hdb Hst n _ _ Hf).
    split; intros (H1 & H2 & H3); (split_and!; [done..|]); intros m Hm Hwt; apply (local_read log p m true Hdb Hst Hm); auto.
  - intros b (H1 & H2 & H3 & H4)%(elem_of_blocked log p Hdb Hst b _ _ Hf). split_and!; [done..|]. intros m.
    rewrite H3, (elem_of_unmet log p Hdb Hst). split; intros (Hm & Hwt & Hl); (split_and!; [done..|]);
      by apply (local_read log p m false Hdb Hst Hm).
  - intros n Hn Hp Hno. rewrite list_elem_of_fmap. exists (MkBlocked n (unmet log p (n_id n))). split; [done|].
    apply (elem_of_blocked log p Hdb Hst _ _ _ Hf). cbn. split_and!; [done..|]. intros E. apply Hno.
    apply list_elem_of_filter. split; [done|]. by apply elem_of_lifecycle.
Qed.

Definition edge_frontier : option (list string * list (string * list string)) :=
  match ReadSurface.Frontier (s_log store_edge) (s_proj store_edge) with
  | Ok (r, b) => Some (n_id <$> r, (λ x, (n_id (bk_node x), n_id <$> bk_blockers x)) <$> b)
  | Error _ => None
  end.

Lemma frontier_exact_witness :
  edge_frontier = Some ([stage0; step0; step1; matter1], [(matter0, [matter1])])
  ∧ ∃ ready blocked, ReadSurface.Frontier (s_log store_edge) (s_proj store_edge) = Ok (ready, blocked).
Proof.
  split; [vm_compute; reflexivity|].
  destruct (frontier_exact demo_world store_edge demo_world_ok reach_edge edge_rooted) as (r & b & H & _). eauto.
Defined.

(** C25. A plan without cycles never deadlocks, on any reachable store in which only
    Steps were removed.  Follow from any planned node what holds it, each link a
    dependency in force whose blocker is not locally complete: the chain passes
    through planned nodes only and ends, after finitely many links, at a node that the
    frontier offers as ready, or at one that is not planned and not locally complete
    (in progress, paused, done with a gate of its own open, or canceled: a canceled
    blocker goes on blocking). *)
Theorem plan_never_deadlocks w s n :
  world_ok w → reach w s → only_steps_removed (s_proj s) → acyclic (waits (liveEdgeGraph (s_proj s))) →
  view_Node (s_proj s) (n_id n) = Ok n → n_lifecycle n = Planned →
  let log := s_log s in let p := s_proj s in
  ∃ ready blocked m, ReadSurface.Frontier log p = Ok (ready, blocked)
    ∧ rtc (held log p) (n_id n) (n_id m) ∧ view_Node p (n_id m) = Ok m
    ∧ (m ∈ ready ∨ (n_lifecycle m ≠ Planned ∧ read_LocallyComplete log p m = Ok false)).
Proof.
  intros Hw Hs Hst Hac Hn Hp log p. pose proof (st_db _ (reach_ok w s Hw Hs)) as Hdb. fold log p in Hdb, Hst, Hac, Hn.
  pose proof (Frontier_total log p Hdb Hst) as Hf.
  destruct (waiting_chain log p Hdb Hst _ _ Hf Hac (n_id n) n Hn Hp) as (m & Hr & Hm & Hor).
  eexists _, _, m. split; [exact Hf|]. split_and!; [done..|]. destruct Hor as [?|[? Hl]]; [by left|right].
  split; [done|]. by apply (local_read log p m false Hdb Hst Hm).
Qed.

Definition edge_matter : Node :=
  Eval vm_compute in match view_Node (s_proj store_edge) matter0 with Ok n => n | Error _ => scanNode "" (MkNodeRow ScaleStep "" "" None "" "" Done 0 None "" "" None) end.

Lemma plan_never_deadlocks_witness :
  n_id edge_matter = matter0
  ∧ ∃ ready blocked m, ReadSurface.Frontier (s_log store_edge) (s_proj store_edge) = Ok (ready, blocked)
    ∧ rtc (held (s_log store_edge) (s_proj store_edge)) matter0 (n_id m) ∧ (m ∈ ready ∨ n_lifecycle m ≠ Planned).
Proof.
  split; [reflexivity|].
  destruct (plan_never_deadlocks demo_world store_edge edge_matter demo_world_ok reach_edge edge_rooted edge_acyclic
    ltac:(vm_compute; reflexivity) ltac:(reflexivity)) as (ready & blocked & m & H1 & H2 & _ & H3).
  exists ready, blocked, m. split_and!; [exact H1|exact H2|tauto].
Defined.

(** C30. What a Repo waits for is complete and justified.  The derivation never
    fails; each Matter it lists is live, listed once, in identity order, and every
    entry under it has a cause: a pending gate of a finished node of that Matter, or
    an unmet blocker of one of its outermost blocked nodes, with nothing in the
    Matter workable.  Conversely every such cause is listed.  On reachable stores in
    which only Steps were removed. *)
Theorem waiting_exact w s repo :
  world_ok w → reach w s → only_steps_removed (s_proj s) →
  let log := s_log s in let p := s_proj s in
  ∃ ready blocked fs ws, ReadSurface.Frontier log p = Ok (ready, blocked) ∧ FinishedNodes log p = Ok fs
    ∧ Waiting p repo (view_InProgress p) ready fs blocked = Ok ws
    ∧ let work := workable p repo (view_InProgress p) ready in
      StronglySorted slt ((λ x, n_id (wm_matter x)) <$> ws)
      ∧ (∀ x, x ∈ ws → waiting_ok p repo work fs blocked x)
      ∧ (∀ k r, gate_cause repo work fs k r →
           ∃ x, x ∈ ws ∧ n_id (wm_matter x) = k ∧ gate_key r ∈ gate_key <$> wm_gates x)
      ∧ (∀ k b h, dep_cause p repo work blocked k b h →
           ∃ x, x ∈ ws ∧ n_id (wm_matter x) = k ∧ lists_dep (wm_dependencies x) b (n_id h)).
Proof.
  intros Hw Hs Hst log p. pose proof (st_db _ (reach_ok w s Hw Hs)) as Hdb. fold log p in Hdb, Hst.
  destruct (FinishedNodes_total log p Hdb Hst) as (fs & Hfs & _ & Hall).
  destruct (Waiting_total log p Hdb Hst repo (view_InProgress p) (ready_nodes log p) fs (blocked_nodes log p))
    as (ws & Hws & H).
  - intros f Hf. by apply Hall.
  - apply (blocked_nodes_live log p Hdb Hst).
  - apply (blocked_nodes_unmet log p Hdb Hst).
  - exists (ready_nodes log p), (blocked_nodes log p), fs, ws. split; [apply (Frontier_total log p Hdb Hst)|]. auto.
Qed.

Lemma waiting_exact_witness :
  ∃ ready blocked fs ws, ReadSurface.Frontier (s_log store_edge) (s_proj store_edge) = Ok (ready, blocked)
    ∧ FinishedNodes (s_log store_edge) (s_proj store_edge) = Ok fs
    ∧ Waiting (s_proj store_edge) repo0 (view_InProgress (s_proj store_edge)) ready fs blocked = Ok ws.
Proof.
  destruct (waiting_exact demo_world store_edge repo0 demo_world_ok reach_edge edge_rooted)
    as (r & b & fs & ws & H1 & H2 & H3 & _). eauto 10.
Defined.

(** ** What comes next *)

(** The reads a cursor decides, over a projection the fold built. *)
Section cursor.
Context (log : list Event) (p : Proj) (Hdb : db_ok log p) (Hst : only_steps_removed p).
#[local] Set Default Proof Using "All".

Lemma ready_collapsed repo :
  ∃ out, CollapseReady p (filterByRepo (ready_nodes log p) repo) = Ok out
    ∧ (out = [] → filterByRepo (ready_nodes log p) repo = []).
Proof.
  destruct (CollapseReady_total log p Hdb Hst (filterByRepo (ready_nodes log p) repo)) as (out & Hout & _ & _ & Hcov).
  { intros n [_ Hn]%list_elem_of_filter. by apply (ready_nodes_live log p Hdb Hst). }
  exists out. split; [done|]. intros ->. apply elem_of_nil_inv. intros n (m & Hm & _)%Hcov. by apply elem_of_nil in Hm.
Qed.

(** next reduced to its three shapes. *)
Lemma next_shapes cur :
  ∃ out, CollapseReady p (filterByRepo (ready_nodes log p) (cur_repo cur)) = Ok out
    ∧ next log p cur =
      (let bs := filterBlockedByRepo (blocked_nodes log p) (cur_repo cur) in
       match read_Cursor p cur with
       | None => noCursorView log p (cur_repo cur) out bs
       | Some node =>
           match view_Node p node with
           | Error _ => chooseNextView log p (cur_repo cur) None "removed" out bs
           | Ok target =>
               if bool_decide (n_lifecycle target = Canceled)
               then chooseNextView log p (cur_repo cur) (Some target) "canceled" out bs
               else if sealed log p target
                    then chooseNextView log p (cur_repo cur) (Some target) "sealed" out bs
                    else positionedView log p target
           end
       end).
Proof.
  destruct (ready_collapsed (cur_repo cur)) as (out & Hout & _). exists out. split; [done|].
  unfold next. rewrite (Frontier_total log p Hdb Hst). fold (ready_nodes log p). fold (blocked_nodes log p).
  cbn [mbind result_bind fst snd]. rewrite Hout. cbn [mbind result_bind]. cbv zeta.
  destruct (read_Cursor p cur) as [node|]; [|done]. destruct (view_Node p node) as [target|] eqn:Ht; [|done].
  case_bool_decide; [done|]. rewrite (read_sealed log p Hdb Hst); [done|].
  pose proof Ht as (? & _ & _ & ->)%view_Node_Ok. done.
Qed.

Lemma EndedCursor_shapes cur :
  match read_Cursor p cur with
  | None => EndedCursor log p (cur_clone cur) (cur_worktree cur) = Ok None
  | Some node =>
      match view_Node p node with
      | Error _ => EndedCursor log p (cur_clone cur) (cur_worktree cur) = Ok (Some (MkCursorEnded "removed" None None))
      | Ok target =>
          if bool_decide (n_lifecycle target = Canceled)
          then EndedCursor log p (cur_clone cur) (cur_worktree cur) = Ok (Some (MkCursorEnded "canceled" (Some target) None))
          else if sealed log p target
               then ∃ sug, EndedCursor log p (cur_clone cur) (cur_worktree cur)
                           = Ok (Some (MkCursorEnded "sealed" (Some target) sug))
               else EndedCursor log p (cur_clone cur) (cur_worktree cur) = Ok None
      end
  end.
Proof.
  unfold EndedCursor, read_Cursor. destruct (view_Cursor p _ _) as [node|]; [|done].
  destruct (view_Node p node) as [target|] eqn:Ht; [|done]. case_bool_decide; [done|].
  rewrite (read_sealed log p Hdb Hst); [|pose proof Ht as (? & _ & _ & ->)%view_Node_Ok; done].
  cbn [mbind result_bind]. destruct (sealed log p target); cbn [negb]; [|done].
  unfold readySiblingStep. rewrite (Frontier_total log p Hdb Hst). cbn [mbind result_bind].
  destruct (_ && _); cbn [mbind result_bind]; eauto.
Qed.

(** Only the answer without a cursor says that everything is sealed. *)
Lemma next_everything_sealed cur v :
  next log p cur = Ok v → nv_kind v = EverythingSealed →
  filterByRepo (ready_nodes log p) (cur_repo cur) = [] ∧ filterByRepo (view_InProgress p) (cur_repo cur) = []
  ∧ nv_backlog v = unprocessed p (cur_repo cur)
  ∧ (filterBlockedByRepo (blocked_nodes log p) (cur_repo cur) ≠ [] →
     waitingForRepo log p (cur_repo cur) (filterBlockedByRepo (blocked_nodes log p) (cur_repo cur)) = Ok [])
  ∧ waitingForRepo log p (cur_repo cur) [] = Ok [].
Proof.
  destruct (next_shapes cur) as (out & Hout & ->). cbv zeta. intros Hv Hk.
  destruct (in_repo_blocked log p Hdb Hst (cur_repo cur)) as [Hl Hne].
  assert (∀ node reason, chooseNextView log p (cur_repo cur) node reason out
    (filterBlockedByRepo (blocked_nodes log p) (cur_repo cur)) ≠ Ok v) as Hno.
  { intros node reason E. destruct (chooseNextView_total log p Hdb Hst (cur_repo cur) node reason out _ Hl Hne)
      as (v' & Hv' & Hk' & _). rewrite E in Hv'. injection Hv' as <-. congruence. }
  destruct (read_Cursor p cur) as [node|].
  - exfalso. destruct (view_Node p node) as [target|] eqn:Ht; [|by apply Hno in Hv].
    case_bool_decide; [by apply Hno in Hv|]. destruct (sealed log p target); [by apply Hno in Hv|].
    destruct (positionedView_total log p Hdb Hst target) as (v' & Hv' & _ & _ & Hk' & _).
    { pose proof Ht as (? & _ & _ & ->)%view_Node_Ok. done. }
    rewrite Hv in Hv'. injection Hv' as <-. destruct Hk'; congruence.
  - destruct (noCursorView_total log p Hdb Hst (cur_repo cur) out _ Hl Hne) as (v' & Hv' & _ & _ & _ & Hall).
    rewrite Hv in Hv'. injection Hv' as <-. destruct (Hall Hk) as (-> & Hprog & Hb & H1 & H2).
    destruct (ready_collapsed (cur_repo cur)) as (out' & Hout' & Hnil). rewrite Hout in Hout'. injection Hout' as <-.
    split_and!; auto.
Qed.
End cursor.

(** C29. next always answers on a reachable store in which only Steps were removed,
    and its answer agrees with the hand-off a write verb prints.  Without a cursor it
    is one of the four cursorless shapes; with one it chooses again exactly when
    EndedCursor says the cursor's work has ended, for the same reason and target, and
    otherwise it is positioned on the cursor's node with that node's blockers, met and
    unmet. *)
Theorem next_exact w s cur :
  world_ok w → reach w s → only_steps_removed (s_proj s) →
  let log := s_log s in let p := s_proj s in
  ∃ v ended, next log p cur = Ok v ∧ EndedCursor log p (cur_clone cur) (cur_worktree cur) = Ok ended
    ∧ match read_Cursor p cur, ended with
      | None, None => cursorless (nv_kind v)
      | Some _, Some e => nv_kind v = ChooseNext ∧ nv_ended v = ce_reason e ∧ nv_node v = ce_target e
      | Some node, None => ∃ target, view_Node p node = Ok target ∧ nv_node v = Some target
          ∧ (nv_kind v = if bool_decide (n_kind target = ScaleMatter) && bool_decide (Children p node = [])
                         then BareMatter else Positioned)
          ∧ split_blockers log p (BlockedBy p node) = Ok (nv_met v, nv_unmet v)
      | None, Some _ => False
      end.
Proof.
  intros Hw Hs Hst log p. pose proof (st_db _ (reach_ok w s Hw Hs)) as Hdb. fold log p in Hdb, Hst.
  destruct (next_shapes log p Hdb Hst cur) as (out & _ & Hnext). cbv zeta in Hnext.
  pose proof (EndedCursor_shapes log p Hdb Hst cur) as He. destruct (in_repo_blocked log p Hdb Hst (cur_repo cur)) as [Hl Hne].
  assert (∀ node reason, ∃ v, chooseNextView log p (cur_repo cur) node reason out
    (filterBlockedByRepo (blocked_nodes log p) (cur_repo cur)) = Ok v
    ∧ nv_kind v = ChooseNext ∧ nv_ended v = reason ∧ nv_node v = node) as Hchoose.
  { intros node reason. destruct (chooseNextView_total log p Hdb Hst (cur_repo cur) node reason out _ Hl Hne)
      as (v & H1 & H2 & H3 & H4 & _). eauto 10. }
  rewrite Hnext. destruct (read_Cursor p cur) as [node|].
  2: { destruct (noCursorView_total log p Hdb Hst (cur_repo cur) out _ Hl Hne) as (v & H1 & H2 & _). eauto. }
  destruct (view_Node p node) as [target|] eqn:Ht; [|destruct (Hchoose None "removed") as (v & H1 & H2); eexists v, _; eauto].
  case_bool_decide; [destruct (Hchoose (Some target) "canceled") as (v & H1 & H2); eexists v, _; eauto|].
  destruct (sealed log p target).
  { destruct He as (sug & He), (Hchoose (Some target) "sealed") as (v & H1 & H2). eexists v, _; eauto. }
  pose proof Ht as (r & Hr & Htb & E)%view_Node_Ok. assert (n_id target = node) as Hid by (by rewrite E).
  destruct (positionedView_total log p Hdb Hst target) as (v & H1 & H2 & H3 & H4 & H5 & H6); [by rewrite Hid|].
  exists v, None. split_and!; [done..|]. exists target. split_and!; [done..| |].
  - rewrite Hid in H3. destruct (bool_decide (n_kind target = ScaleMatter)) eqn:E1, (bool_decide (Children p node = [])) eqn:E2;
      inv_bool; cbn; destruct H4 as [H4|H4]; rewrite H4 in *; naive_solver.
  - by rewrite H5, H6, Hid, (split_blockers_of log p Hdb Hst).
Qed.

Definition cur0 : Current := MkCurrent repo0 clone0 tree0.

Lemma next_exact_witness :
  ∃ v, next (s_log store_work) (s_proj store_work) cur0 = Ok v ∧ cursorless (nv_kind v).
Proof.
  destruct (next_exact demo_world store_work cur0 demo_world_ok reach_work work_rooted) as (v & [e|] & H1 & H2 & H3).
  - destruct H3.
  - exists v. split; [exact H1|exact H3].
Defined.

(** When next answers that everything is sealed, it is: no node of the Repo is
    planned or in progress, every Matter that is done is sealed, and the count beside
    the answer is the number of backlog entries nobody has triaged. *)
Theorem everything_sealed_means_it w s cur v n :
  world_ok w → reach w s → only_steps_removed (s_proj s) →
  next (s_log s) (s_proj s) cur = Ok v → nv_kind v = EverythingSealed →
  nv_backlog v = unprocessed (s_proj s) (cur_repo cur)
  ∧ (view_Node (s_proj s) (n_id n) = Ok n → n_repo n = cur_repo cur →
     n_lifecycle n ≠ Planned ∧ n_lifecycle n ≠ InProgress
     ∧ (n_kind n = ScaleMatter → n_lifecycle n = Done → read_Sealed (s_log s) (s_proj s) n = Ok true)).
Proof.
  intros Hw Hs Hst Hv Hk. set (log := s_log s) in *. set (p := s_proj s) in *.
  pose proof (st_db _ (reach_ok w s Hw Hs)) as Hdb. fold log p in Hdb.
  destruct (next_everything_sealed log p Hdb Hst cur v Hv Hk) as (Hready & Hprog & Hback & Hblk & Hgate).
  split; [done|]. intros Hn Hr. split_and!.
  - by apply (no_planned_left log p Hdb Hst (cur_repo cur) Hready Hprog n Hblk).
  - intros Hl. assert (n ∈ filterByRepo (view_InProgress p) (cur_repo cur)) as Hin.
    { apply list_elem_of_filter. split; [done|]. by apply elem_of_lifecycle. }
    rewrite Hprog in Hin. by apply elem_of_nil in Hin.
  - intros Hm Hd. rewrite (read_sealed log p Hdb Hst n Hn).
    by rewrite (matters_sealed_left log p Hdb Hst (cur_repo cur) Hready Hprog n Hgate Hn Hr Hm Hd).
Qed.

Lemma everything_sealed_means_it_witness :
  ∃ v, next (s_log store_tiers) (s_proj store_tiers) cur0 = Ok v ∧ nv_kind v = EverythingSealed ∧ nv_backlog v = O.
Proof.
  eexists. split; [vm_compute; reflexivity|]. split; [reflexivity|].
  apply (everything_sealed_means_it demo_world store_tiers cur0 _ edge_matter demo_world_ok reach_tiers tiers_rooted
    ltac:(vm_compute; reflexivity) eq_refl).
Defined.

(** Planned, and held by nothing. *)
Definition startable (log : list Event) (p : Proj) (repo : string) (n : Node) : Prop :=
  view_Node p (n_id n) = Ok n ∧ n_repo n = repo ∧ n_lifecycle n = Planned
  ∧ ∀ m, view_Node p (n_id m) = Ok m → waits (liveEdgeGraph p) (n_id n) (n_id m) → read_LocallyComplete log p m = Ok true.

Lemma ready_startable log p repo n :
  db_ok log p → only_steps_removed p →
  n ∈ filterByRepo (ready_nodes log p) repo ↔ startable log p repo n.
Proof.
  intros Hdb Hst. unfold filterByRepo, startable. rewrite list_elem_of_filter.
  rewrite (elem_of_ready log p Hdb Hst n _ _ (Frontier_total log p Hdb Hst)).
  split; [intros (Hr & Hn & Hp & Hall)|intros (Hn & Hr & Hp & Hall)]; (split_and!; [done..|]);
    intros m Hm Hw; apply (local_read log p m true Hdb Hst Hm); auto.
Qed.

Lemma blocked_held log p repo :
  db_ok log p → only_steps_removed p →
  (∀ b, b ∈ filterBlockedByRepo (blocked_nodes log p) repo →
     n_repo (bk_node b) = repo ∧ bk_blockers b ≠ [] ∧ ∀ m, m ∈ bk_blockers b ↔ view_Node p (n_id m) = Ok m
       ∧ held log p (n_id (bk_node b)) (n_id m))
  ∧ ∀ n y, view_Node p (n_id n) = Ok n → n_repo n = repo → held log p (n_id n) y →
      n ∈ bk_node <$> filterBlockedByRepo (blocked_nodes log p) repo.
Proof.
  intros Hdb Hst. pose proof (Frontier_total log p Hdb Hst) as Hf. unfold filterBlockedByRepo. split.
  - intros b [Hr (Hn & Hp & Hb & Hne)%(elem_of_blocked log p Hdb Hst b _ _ Hf)]%list_elem_of_filter.
    split_and!; [done..|]. intros m. rewrite Hb, (elem_of_unmet log p Hdb Hst). split.
    + intros (Hm & Hw & Hl). split; [done|]. exists (bk_node b), m. split_and!; [done..|].
      by apply (local_read log p m false Hdb Hst Hm).
    + intros (Hm & n' & m' & _ & _ & Hm' & Hw & Hl). rewrite Hm in Hm'. injection Hm' as <-.
      split_and!; [done..|]. by apply (local_read log p m false Hdb Hst Hm).
  - intros n y Hn Hr (n' & m & Hn' & Hp & Hm & Hw & Hl). rewrite Hn in Hn'. injection Hn' as <-.
    assert (n_id m = y) as <- by (apply view_Node_Ok in Hm as (? & _ & _ & ->); done).
    apply list_elem_of_fmap. exists (MkBlocked n (unmet log p (n_id n))). split; [done|].
    apply list_elem_of_filter. split; [done|]. apply (elem_of_blocked log p Hdb Hst _ _ _ Hf). cbn.
    split_and!; [done..|]. intros E. assert (m ∈ unmet log p (n_id n)) as Hin.
    { apply (elem_of_unmet log p Hdb Hst). split_and!; [done..|]. by apply (local_read log p m false Hdb Hst Hm). }
    rewrite E in Hin. by apply elem_of_nil in Hin.
Qed.

(** C31. What status shows of a Repo, on any reachable store in which only Steps were
    removed.  It never fails.  In progress are exactly the Repo's nodes in progress.
    Every planned node of the Repo is accounted for: one that nothing holds is listed
    as ready or is below one that is, and only such nodes are listed; one that is held
    is listed as blocked, with exactly what holds it, and no other.  Paused and
    canceled nodes are in no list.  A finished node is shown unless it is sealed, off
    the cursor's chain, and either below another sealed node of the Repo or a Matter
    sealed before the fourteen-day window; with --all nothing is hidden. *)
Theorem status_hides_only_sealed w s repo opts :
  world_ok w → reach w s → only_steps_removed (s_proj s) →
  let log := s_log s in let p := s_proj s in
  ∃ c, status_Content log p repo opts = Ok c
    ∧ (∀ n, n ∈ rc_in_progress c ↔ view_Node p (n_id n) = Ok n ∧ n_repo n = repo ∧ n_lifecycle n = InProgress)
    ∧ (∀ n, n ∈ rc_ready c → startable log p repo n)
    ∧ (∀ n, startable log p repo n → ∃ m, m ∈ rc_ready c ∧ (n = m ∨ above p (n_id n) (n_id m)))
    ∧ (∀ b, b ∈ rc_blocked c → n_repo (bk_node b) = repo ∧ bk_blockers b ≠ []
         ∧ ∀ m, m ∈ bk_blockers b ↔ view_Node p (n_id m) = Ok m ∧ held log p (n_id (bk_node b)) (n_id m))
    ∧ (∀ n y, view_Node p (n_id n) = Ok n → n_repo n = repo → held log p (n_id n) y → n ∈ bk_node <$> rc_blocked c)
    ∧ (co_all opts = true → rc_hidden c = O)
    ∧ (∀ f, f ∈ rc_finished c → view_Node p (n_id (fin_node f)) = Ok (fin_node f)
         ∧ n_repo (fin_node f) = repo ∧ n_lifecycle (fin_node f) = Done)
    ∧ ∀ n, view_Node p (n_id n) = Ok n → n_lifecycle n = Done → n_repo n = repo →
        n ∈ fin_node <$> rc_finished c
        ∨ (co_all opts = false ∧ read_Sealed log p n = Ok true
           ∧ (co_cursor opts ≠ "" → ¬ on_chain p (co_cursor opts) (n_id n))
           ∧ ((∃ m, view_Node p (n_id m) = Ok m ∧ n_repo m = repo ∧ above p (n_id n) (n_id m)
                    ∧ read_Sealed log p m = Ok true)
              ∨ (n_kind n = ScaleMatter
                 ∧ ∃ t, SealedAt log p n = Ok (Some t) ∧ (nanoseconds t < co_now opts - recentSealedWindow)%Z))).
Proof.
  intros Hw Hs Hst log p. pose proof (st_db _ (reach_ok w s Hw Hs)) as Hdb. fold log p in Hdb, Hst.
  destruct (status_total log p Hdb Hst repo opts) as (c & Hc & H1 & Hrd & Hbl & H2 & H3 & H4).
  destruct (blocked_held log p repo Hdb Hst) as [Hb1 Hb2]. rewrite <-Hbl in Hb1, Hb2.
  destruct (CollapseReady_total log p Hdb Hst (filterByRepo (ready_nodes log p) repo)) as (rs & Hrs & Hsub & _ & Hcov).
  { intros n [_ Hn]%list_elem_of_filter. by apply (ready_nodes_live log p Hdb Hst). }
  rewrite Hrs in Hrd. injection Hrd as Hrd. rewrite Hrd in *.
  exists c. split_and!; [done|..|done|done|done|intros f Hf; by destruct (H3 f Hf) as (? & ? & ? & _)|].
  - intros n. rewrite H1. unfold filterByRepo, view_InProgress. rewrite list_elem_of_filter, elem_of_lifecycle. tauto.
  - intros n Hn. apply (ready_startable log p repo n Hdb Hst). by eapply elem_of_sublist.
  - intros n Hn. apply Hcov. by apply (ready_startable log p repo n Hdb Hst).
  - intros n Hn Hd Hr. destruct (H4 n Hn Hd Hr) as [?|(Ha & Hsl & Hcur & Hor)]; [by left|right].
    rewrite (read_sealed log p Hdb Hst n Hn), Hsl. split_and!; [done..|].
    destruct Hor as [(m & Hm & Hmr & Hab & Hms)|[? ?]]; [left|by right].
    exists m. rewrite (read_sealed log p Hdb Hst m Hm), Hms. done.
Qed.

Lemma status_hides_only_sealed_witness :
  ∃ c, status_Content (s_log store_closed) (s_proj store_closed) repo0 (MkContentOptions false 0 "") = Ok c
    ∧ (n_id ∘ fin_node) <$> rc_finished c = [matter0].
Proof.
  destruct (status_hides_only_sealed demo_world store_closed repo0 (MkContentOptions false 0 "")
    demo_world_ok reach_closed closed_rooted) as (c & Hc & _).
  exists c. split; [exact Hc|].
  assert (((n_id ∘ fin_node) <$> rc_finished c) = match status_Content (s_log store_closed) (s_proj store_closed) repo0
    (MkContentOptions false 0 "") with Ok c => (n_id ∘ fin_node) <$> rc_finished c | Error _ => [] end) as -> by (by rewrite Hc).
  vm_compute. reflexivity.
Defined.

(** ** Sessions *)

(** The sessions of the log are its evidence cut at every idle gap, computed in
    two passes with one pointer each.  Each session starts and ends at evidence,
    holds exactly the events of the log in between, and the evidence in the sessions,
    in order, is all of it; neighbours inside a session are closer than the gap and
    consecutive sessions are not. *)
Theorem sessions_partition w s gap :
  world_ok w → reach w s → (0 < gap)%Z →
  let log := s_log s in
  ∃ pieces, Forall2 (period log) (Session.Derive log gap) pieces ∧ concat pieces = evidence log
    ∧ Forall (Sorted (λ x y, time_Sub (ev_occurred y) (ev_occurred x) < gap)%Z) pieces
    ∧ Sorted (λ a b, gap <= time_Sub (se_start b) (se_end a))%Z (Session.Derive log gap).
Proof.
  intros Hw Hs Hg log. pose proof (reach_in_time w s Hw Hs) as Ht. fold log in Ht.
  pose proof (Derive_pieces log gap Hg Ht) as Hd. exists (pieces_of gap (evidence log)). split; [done|].
  assert (concat (pieces_of gap (evidence log)) = evidence log
    ∧ Forall (Sorted (λ x y, time_Sub (ev_occurred y) (ev_occurred x) < gap)%Z) (pieces_of gap (evidence log))
    ∧ Sorted (λ a b, gap <= time_Sub (ends_of b).1 (ends_of a).2)%Z (pieces_of gap (evidence log))) as (H1 & H2 & H3).
  { destruct (evidence log) as [|e es]; [split_and!; constructor|]. cbn [pieces_of].
    destruct (cut_dense gap e es). split_and!; [apply cut_concat|done..]. }
  split_and!; [done..|]. clear H1 H2. revert H3. induction Hd as [|x q xs qs Hx Hd IH]; intros H3; [constructor|].
  apply Sorted_inv in H3 as [H3 Hh]. constructor; [by apply IH|].
  destruct Hd as [|y r ys rs Hy _]; constructor. apply HdRel_inv in Hh.
  destruct Hx as (_ & Hx & _), Hy as (_ & Hy & _). rewrite <-Hx, <-Hy in Hh. exact Hh.
Qed.

Lemma sessions_partition_witness :
  length (Session.Derive (s_log store_work) 5) = 8%nat ∧ length (Session.Derive (s_log store_work) 5000000) = 1%nat
  ∧ ∃ pieces, Forall2 (period (s_log store_work)) (Session.Derive (s_log store_work) 5000000) pieces
              ∧ concat pieces = evidence (s_log store_work).
Proof.
  split_and!; [vm_compute; reflexivity..|].
  destruct (sessions_partition demo_world store_work 5000000 demo_world_ok reach_work ltac:(lia)) as (q & H1 & H2 & _).
  eauto.
Defined.

(** ** The scheduler's frontier *)

(** C26. What a Run may engage agrees with what people are shown.  On a reachable
    store in which only Steps were removed, deriving a Run's frontier never fails; a
    node is in it exactly when it belongs to a Matter of the frozen set, has no
    children, is ready on the read surface, and everything above it is ready too, or
    in progress with nothing unmet.  Both lists are strictly in identity order, so no
    reordering of siblings moves them, and taking work for the free slots never
    passes the cap, yet takes something when there is a slot and something ready. *)
Theorem scheduler_agrees_with_reads w s run cap :
  world_ok w → reach w s → only_steps_removed (s_proj s) → (0 <= cap < 2 ^ 63)%Z →
  let log := s_log s in let p := s_proj s in
  ∃ f ready blocked, Sched.Derive log p run cap = Ok f ∧ ReadSurface.Frontier log p = Ok (ready, blocked)
    ∧ (∀ n, n ∈ Sched.f_ready f ↔ n_matter n ∈ RunMatters p run ∧ n ∈ ready ∧ Children p (n_id n) = []
         ∧ ∀ m, view_Node p (n_id m) = Ok m → above p (n_id n) (n_id m) →
             m ∈ ready ∨ (n_lifecycle m = InProgress ∧ unmet log p (n_id m) = []))
    ∧ (∀ n, n ∈ Sched.f_engaged f ↔ n_matter n ∈ RunMatters p run ∧ view_Node p (n_id n) = Ok n
         ∧ n_lifecycle n = InProgress ∧ Children p (n_id n) = [])
    ∧ StronglySorted slt (n_id <$> Sched.f_ready f) ∧ StronglySorted slt (n_id <$> Sched.f_engaged f)
    ∧ let engaged := Z.of_nat (length (Sched.f_engaged f)) in
      let taken := Sched.Select (Sched.f_ready f) (Sched.f_slots f) in
      ((engaged < 2 ^ 63)%Z →
       (∃ rest, Sched.f_ready f = taken ++ rest)
       ∧ (engaged + Z.of_nat (length taken) <= Z.max cap engaged)%Z
       ∧ ((engaged < cap)%Z → Sched.f_ready f ≠ [] → taken ≠ [])).
Proof.
  intros Hw Hs Hst Hcap log p. pose proof (st_db _ (reach_ok w s Hw Hs)) as Hdb. fold log p in Hdb, Hst.
  destruct (Derive_total log p Hdb Hst run cap) as (f & Hf & _ & Hr & He & Hready & Hengaged & Hslots).
  exists f, (ready_nodes log p), (blocked_nodes log p).
  split_and!; [done|apply (Frontier_total log p Hdb Hst)| |done..|].
  - intros n. rewrite Hready. unfold ready_leaf. unfold ready_nodes, view_Planned.
    setoid_rewrite list_elem_of_filter. setoid_rewrite elem_of_lifecycle. split.
    + intros (Hm & Hn & Hp & Hc & [Hu Hall] & Hup). split_and!; [done..|]. intros m Hm' Ha.
      destruct (Hup m Hm' Ha); [left|right]; split_and!; auto.
    + intros (Hm & (Hu & Hn & Hp) & Hc & Hall). split_and!; [done..| |].
      * split; [done|]. intros m Hm' Ha. destruct (Hall m Hm' Ha) as [[? _]|[_ ?]]; done.
      * intros m Hm' Ha. destruct (Hall m Hm' Ha) as [(_ & _ & ?)|[? _]]; [by left|by right].
  - cbv zeta. intros Hlt. destruct (Select_prefix (Sched.f_ready f) (Sched.f_slots f)) as (rest & Hrest & Hlen).
    rewrite wrap64_id in Hslots by lia.
    split_and!; [eauto|lia|]. intros Hc Hne Hnil. rewrite Hnil in Hlen. cbn in Hlen.
    destruct (Sched.f_ready f); [done|]. cbn [length] in Hlen. lia.
Qed.

Definition run_frontier : option (list string * list string) :=
  match Sched.Derive (s_log store_run) (s_proj store_run) run0 1 with
  | Ok f => Some (n_id <$> Sched.f_ready f, n_id <$> Sched.Select (Sched.f_ready f) (Sched.f_slots f))
  | Error _ => None
  end.

Lemma scheduler_agrees_with_reads_witness :
  run_frontier = Some ([step0; step1], [step0])
  ∧ ∃ f ready blocked, Sched.Derive (s_log store_run) (s_proj store_run) run0 1 = Ok f
      ∧ ReadSurface.Frontier (s_log store_run) (s_proj store_run) = Ok (ready, blocked).
Proof.
  split; [vm_compute; reflexivity|].
  destruct (scheduler_agrees_with_reads demo_world store_run run0 1 demo_world_ok reach_run run_rooted ltac:(lia))
    as (f & r & b & H1 & H2 & _). eauto.
Defined.

(** ** The cursor *)

(** The reads and the verbs resolve a locator in the same way. *)
Lemma resolveLocator_verbs : resolveLocator = ResolveNode.
Proof. reflexivity. Qed.

Lemma resolved_identity p repo locator n :
  ids_shaped p → resolveLocator p repo locator = Ok n → nullable (utf8_coerce (n_id n)) = Some (n_id n).
Proof.
  intros Hids H. rewrite resolveLocator_verbs in H. apply ResolveNode_live, view_Node_Ok in H as (r & Hr & _).
  assert (IsIdentityShaped (n_id n) = true) as Hi by (apply Hids; by eexists).
  rewrite (identity_utf8 _ Hi). apply nullable_Some. split; [done|]. intros E. by rewrite E in Hi.
Qed.

(** C32. Setting the cursor and clearing it, on a store whose nodes have identities of
    the shape NewID mints, as every verb leaves them.  A successful wip next --set
    resolved its argument, leaves the Worktree's cursor at that node and touches
    nothing else: not another Worktree's cursor, not another table.  A --clear after it
    answers that node and leaves the Worktree without a cursor, again touching nothing
    else, or fails and leaves the database as it was. *)
Theorem cursor_round_trip w fuel actor cur locator s target s' :
  ids_shaped (s_proj s) →
  setCursor w fuel actor cur locator s = Some (Ok target, s') →
  resolveLocator (s_proj s) (cur_repo cur) locator = Ok target
  ∧ cursor_at (s_proj s) (s_proj s') cur (Some (n_id target))
  ∧ ∀ fuel' actor' r s'', clearCursor w fuel' actor' cur s' = Some (r, s'') →
      match r with
      | Ok id => id = n_id target ∧ cursor_at (s_proj s') (s_proj s'') cur None
      | Error _ => same_db s' s''
      end.
Proof.
  intros Hids Hset.
  assert (resolveLocator (s_proj s) (cur_repo cur) locator = Ok target
    ∧ cursor_at (s_proj s) (s_proj s') cur (Some (n_id target))) as [Hres Hat].
  { unfold setCursor in Hset. inv_cmd. split; [done|].
    match goal with H : commit _ _ _ _ _ = Some (Ok ?a, _) |- _ =>
      destruct a; apply commit_folded in H as (ds & h & Hd & _ & Hf) end.
    inv_tx. apply cursor_moved in Hf. by erewrite resolved_identity in Hf. }
  split_and!; [done..|]. intros fuel' actor' r s'' Hclear.
  unfold clearCursor in Hclear. pose proof Hat as (Hread & _).
  unfold mbind at 1, cmd_bind at 1, cread in Hclear. rewrite Hread in Hclear.
  unfold mbind, cmd_bind in Hclear. destruct (commit _ _ _ _ s') as [[[[evs []]|e] s1]|] eqn:E; [| |discriminate];
    injection Hclear as <- <-; [split; [done|]|by eapply commit_Error].
  apply commit_folded in E as (ds & h & Hd & _ & Hf). inv_tx. apply cursor_moved in Hf. done.
Qed.

Definition set_of (s : Store) := setCursor demo_world 2 ActorHuman cur0 "first/step-01" s.
Definition store_set : Store := Eval vm_compute in after_cmd (set_of store_work).
Definition clear_of (s : Store) := clearCursor demo_world 2 ActorHuman cur0 s.
Definition store_cleared : Store := Eval vm_compute in after_cmd (clear_of store_set).

Lemma cursor_round_trip_witness :
  read_Cursor (s_proj store_set) cur0 = Some step0 ∧ read_Cursor (s_proj store_cleared) cur0 = None.
Proof.
  Transparent applyEvent appendEvent stamp Commit.
  eassert (set_of store_work = Some (Ok _, store_set)) as Hset by (vm_compute; reflexivity).
  eassert (clear_of store_set = Some (Ok _, store_cleared)) as Hclear by (vm_compute; reflexivity).
  destruct (cursor_round_trip demo_world 2 ActorHuman cur0 "first/step-01" store_work _ store_set work_shaped Hset)
    as (_ & [H1 _] & H).
  split; [exact H1|]. exact (proj1 (proj2 (H 2%nat ActorHuman _ store_cleared Hclear))).
Defined.

(** C12. Only Steps are ever removed: whatever verb runs, successful or refused, a
    store in which every removed node is a Step stays one, so every live node keeps a
    live chain of parents up to its Matter, which the reads above climb. *)
Theorem verb_keeps_rooted w fuel v s r s' n :
  world_ok w → reach w s → only_steps_removed (s_proj s) → run_verb w fuel v s = Some (r, s') →
  only_steps_removed (s_proj s')
  ∧ (view_Node (s_proj s') (n_id n) = Ok n → n_parent n ≠ "" →
     ∃ m, view_Node (s_proj s') (n_parent n) = Ok m ∧ n_matter m = n_matter n).
Proof.
  intros Hw Hs Hst H. pose proof (verb_removes w fuel v s r s' Hw (reach_ok w s Hw Hs) H Hst) as Hst'.
  pose proof (st_db _ (reach_ok w s' Hw (reach_future _ _ _ Hs (verb_sound w fuel v s r s' H)))) as Hdb. split; [done|]. intros Hn Hp. destruct (parent_live _ _ Hdb Hst' _ _ Hn Hp) as (m & Hm & Hmat & _). eauto.
Qed.

Definition remove_verb : Verb := VRemoveStep ActorHuman repo0 "first/step-02" "".
Definition store_removed : Store := Eval vm_compute in verb_after remove_verb store_work.

Lemma verb_keeps_rooted_witness :
  only_steps_removed (s_proj store_removed) ∧ Tombstoned (s_proj store_removed) step1 = Ok true.
Proof.
  Transparent applyEvent appendEvent stamp Commit.
  split; [|vm_compute; reflexivity].
  exact (proj1 (verb_keeps_rooted demo_world 2 remove_verb store_work (Ok tt) store_removed edge_matter demo_world_ok reach_work
    work_rooted ltac:(vm_compute; reflexivity))).
Defined.
