(* ===== verification/OpTheorems.v ===== *)
(** The guarantees of the operation boundary: one encoding per command, a decoder that
    accepts exactly those encodings, hashes, the definitions, target claims, and the
    dispatcher. *)
From S2P Require Import Prelude GoStd Ulid View Cbor CborFacts OpText Operation OpCatalog OpValidate OpCodec OpFacts OpDispatch.
Local Open Scope Z_scope.

(** ** Bytes *)

(** C35. The deterministic encoding spells data, and nothing else: two values encode to
    the same bytes exactly when they hold the same data, an int64 that is not negative
    being the uint64 of the same value and a map being its entries whatever order they
    were visited in; and a decoder written from RFC 8949 reads that data back. *)
Theorem canonical_encoding_exact (nfc : string → bool) v1 v2 b1 b2 :
  cval_ok v1 → cval_ok v2 → marshalCanonical nfc v1 = Ok b1 → marshalCanonical nfc v2 = Ok b2 →
  (b1 = b2 ↔ plain v1 = plain v2) ∧ dec_all b1 = Some (plain v1).
Proof. intros H1 H2 E1 E2. split; [by eapply enc_canonical|by eapply dec_enc]. Qed.

Definition sample_map (m : list (string * CVal)) : CVal := CMap m.
Definition sample_fields : list (string * CVal) := [("title", CText "t"); ("id", CInt 300); ("order", CArray [CNil; CBool true; CInt (-5)])].

Lemma canonical_encoding_exact_witness :
  ∃ b, marshalCanonical (λ _, true) (sample_map sample_fields) = Ok b
    ∧ marshalCanonical (λ _, true) (sample_map (reverse sample_fields)) = Ok b ∧ dec_all b = Some (plain (sample_map sample_fields)).
Proof.
  eexists. split; [vm_compute; reflexivity|]. split; [vm_compute; reflexivity|].
  eapply (canonical_encoding_exact (λ _, true) (sample_map sample_fields) (sample_map (reverse sample_fields))).
  - apply cval_map_ok; [vm_compute; reflexivity|]. repeat constructor; cbn; lia.
  - apply cval_map_ok; [vm_compute; reflexivity|]. repeat constructor; cbn; lia.
  - vm_compute. reflexivity.
  - vm_compute. reflexivity.
Defined.

(** ** Commands *)
Definition sample_ulid : string := "01ARZ3NDEKTSV4RRFFQ69G5FAV".
Definition sample_ulid2 : string := "01ARZ3NDEKTSV4RRFFQ69G5FAW".

Definition sample_command : Command :=
  mkCommand sample_ulid sample_ulid2 1 sample_ulid2 7 "2024-02-29T23:59:59Z" "" sample_ulid
    (mkRequest (mkID "step.insert" 1) "role:builder" (mkOpContext sample_ulid sample_ulid sample_ulid)
       (Some (mkClaimContext sample_ulid2 "12")) (Some (StepInsertInput sample_ulid "Write the tests" sample_ulid2 "")) []).

Lemma sample_command_ok : command_ok sample_command.
Proof.
  split.
  - cbn. lia.
  - cbn. lia.
  - vm_compute. reflexivity.
  - vm_compute. reflexivity.
  - intros i [= <-]. apply cval_map_ok; [vm_compute; reflexivity|].
    repeat (apply Forall_cons; split); [vm_compute; reflexivity..|vm_compute; exact I|apply Forall_nil_2].
  - split; [vm_compute; reflexivity|constructor].
Qed.

(** C21. A command's canonical bytes are its identity: two commands that have canonical
    bytes have the same ones exactly when they are the same command. *)
Theorem command_identity_exact (nfc : string → bool) c1 c2 b1 b2 :
  command_ok c1 → command_ok c2 → CanonicalBytes nfc c1 = Ok b1 → CanonicalBytes nfc c2 = Ok b2 → b1 = b2 ↔ c1 = c2.
Proof.
  intros H1 H2 E1 E2. split; [|intros <-; congruence].
  intros <-. pose proof (bytes_decide _ _ _ H1 E1) as D1. rewrite (bytes_decide _ _ _ H2 E2) in D1. congruence.
Qed.

Definition sample_later : Command :=
  mkCommand sample_ulid sample_ulid2 1 sample_ulid2 8 "2024-02-29T23:59:59Z" "" sample_ulid (cm_Request sample_command).

Lemma sample_later_ok : command_ok sample_later.
Proof. destruct sample_command_ok. split; assumption. Qed.

Definition sample_bytes (c : Command) : list Z := match CanonicalBytes (λ _, true) c with Ok b => b | Error _ => [] end.

Lemma command_identity_exact_witness :
  is_ok (CanonicalBytes (λ _, true) sample_command) = true ∧ sample_bytes sample_command ≠ sample_bytes sample_later.
Proof.
  split; [vm_compute; reflexivity|]. intros E.
  apply (command_identity_exact (λ _, true) sample_command sample_later) in E; [discriminate E|apply sample_command_ok|apply sample_later_ok|..];
    vm_compute; reflexivity.
Defined.

(** ** Decoding *)
(** What canonicalCommandDecoder promises: it reads a deterministic encoding back when
    it is within the configured limits. *)
Definition unmarshal_reads (nfc : string → bool) (unmarshal : list Z → result CVal) : Prop :=
  ∀ v b, cval_ok v → within_limits 16 v = true → marshalCanonical nfc v = Ok b → unmarshal b = Ok (plain v).

(** C22. The decoder accepts exactly the identities: a byte string decodes to a command
    when, and only when, it is that command's canonical bytes, whatever other CBOR
    spellings the library would read; the one bound is the decoder's own, 1024
    elements, on the order of a step.reorder. *)
Theorem decode_accepts_exactly (nfc : string → bool) (unmarshal : list Z → result CVal) c data :
  unmarshal_reads nfc unmarshal → command_ok c → order_limit c →
  DecodeCanonicalCommand nfc unmarshal data = Ok c ↔ CanonicalBytes nfc c = Ok data.
Proof.
  intros Hu Hok Ho. unfold DecodeCanonicalCommand. split.
  - intros H. inv_ok. inv_bool. congruence.
  - intros Hb. destruct (CanonicalBytes_inv _ _ _ Hb) as (v & Hv & He).
    rewrite (Hu v data); [|by eapply canonicalValue_ok|by eapply canonicalValue_within|done]. cbn [mbind result_bind].
    rewrite (decode_value_plain nfc c v), (canonical_form_id nfc c v) by done. cbn [mbind result_bind].
    rewrite Hb. cbn [mbind result_bind]. by rewrite bool_decide_true.
Qed.

(** The reference decoder in the place of the library. *)
Definition reference_unmarshal (b : list Z) : result CVal := from_option_err (ERefuse "cbor") (dec_all b).

Lemma reference_unmarshal_reads nfc : unmarshal_reads nfc reference_unmarshal.
Proof. intros v b Hok _ He. unfold reference_unmarshal. by rewrite (dec_enc nfc v b). Qed.

Lemma decode_accepts_exactly_witness :
  DecodeCanonicalCommand (λ _, true) reference_unmarshal (sample_bytes sample_command) = Ok sample_command.
Proof.
  apply (decode_accepts_exactly (λ _, true) reference_unmarshal sample_command).
  - apply reference_unmarshal_reads.
  - apply sample_command_ok.
  - exact I.
  - vm_compute. reflexivity.
Defined.

(** ** Hashes *)
Lemma sum_bytes data : Forall (λ b, 0 <= b < 256) (Sha256.sum data).
Proof.
  unfold Sha256.sum. generalize (Sha256.blocks (length (Sha256.pad (bytes_of data)) / 64) (Sha256.pad (bytes_of data)) Sha256.H0).
  intros l. induction l as [|x l IH]; [constructor|]. rewrite fmap_cons. cbn [concat]. apply Forall_app.
  split; [apply Sha256.be_bytes_byte|done].
Qed.

Lemma hexdigit_lower d : 0 <= d < 16 → is_lower_hex (byte_of (hexdigit d)) = true.
Proof.
  intros Hd. unfold hexdigit. rewrite byte_ascii by (destruct (d <? 10); lia). unfold is_lower_hex, is_digit_byte, between.
  destruct (Z.ltb_spec d 10); apply orb_true_iff; [left|right]; apply andb_true_iff; lia.
Qed.

Lemma hex_lower bs : Forall (λ b, 0 <= b < 256) bs → forallb is_lower_hex (bytes_of (hex_encode bs)) = true.
Proof.
  induction 1 as [|b bs Hb _ IH]; [done|]. cbn [hex_encode bytes_of forallb]. destruct (Base64.byte_split4 b Hb). by rewrite IH, !hexdigit_lower.
Qed.

Lemma digest_canonical data : digestPattern (digestPrefix +:+ hex_encode (Sha256.sum data)) = true.
Proof.
  unfold digestPattern. change (drop 7 (bytes_of (digestPrefix +:+ ?s))) with (bytes_of s).
  rewrite hex_lower, andb_true_r by apply sum_bytes. apply andb_true_iff. split; [generalize (hex_encode (Sha256.sum data)); by intros []|].
  change (String.length (digestPrefix +:+ ?s)) with (7 + String.length s)%nat.
  by rewrite hex_encode_length, Sha256.sum_length.
Qed.

(** The authority rule: an asserted hash is accepted exactly when it is the hash of
    the received command; nothing malformed or missing is, and no command with an
    identity is refused its own hash. *)
Theorem verify_hash_exact (nfc : string → bool) c asserted :
  VerifyRequestHash nfc c asserted = Ok () ↔ RequestHash nfc c = Ok asserted.
Proof.
  unfold VerifyRequestHash, same. split.
  - intros H. inv_ok. inv_bool. congruence.
  - intros H. assert (digestPattern asserted = true) as Hd. { unfold RequestHash in H. inv_ok. apply digest_canonical. }
    rewrite Hd, H. cbn. by rewrite bool_decide_true.
Qed.

(** ** Definitions *)
(** Every definition's metadata is accepted by define.
    The versioned names are distinct, so an operation has one identity schema, found
    under its name, and one decoder; and the dependency, reference, Batch and Step 10
    operations are outside the default catalogue. *)
Theorem definitions_sound :
  Forall (λ d, define (inputType d) (outputType d) (metadata d) = Ok d ∧ commandIdentityDefinition (op_id d) = Some d
               ∧ decoder_agrees d = true) identity_definitions
  ∧ NoDup (op_id <$> identity_definitions)
  ∧ Forall (λ d, find_op Catalogue (op_id d) = None)
      (Step10Catalogue ++ step8ContractDefinitions ++ NamedBatchMembershipCatalogue ++ [BatchCreateV1; BatchSweepAnonymousV1]).
Proof.
  split; [|split].
  - repeat (apply Forall_cons; split; [split; [vm_compute; reflexivity|split; vm_compute; reflexivity]|]). apply Forall_nil_2.
  - nodup.
  - repeat (apply Forall_cons; split; [vm_compute; reflexivity|]). apply Forall_nil_2.
Qed.

(** ** Target claims *)
Definition claim_formed (c : TargetClaim) : Prop :=
  ulidPattern (tc_MatterID c) = true ∧ ulidPattern (tc_ClaimID c) = true ∧ tc_ClaimEpoch c ≠ 0.

Lemma target_claim_spec previous c m :
  target_claim previous c = Ok m ↔ claim_formed c ∧ (previous = "" ∨ previous <s tc_MatterID c) ∧ m = tc_MatterID c.
Proof.
  unfold target_claim, validateULID, claim_formed, no, slt. split.
  - intros H. inv_ok. inv_bool. inv_cmp. match goal with H : (_ || _) = true |- _ => apply orb_true_iff in H as [?|?] end; inv_bool; auto.
  - intros ((-> & -> & He) & Hp & ->). cbn [ensure mbind result_bind]. rewrite (proj2 (Z.eqb_neq _ _)) by done.
    cbn [negb ensure mbind result_bind]. destruct Hp as [->| ->]; rewrite ?orb_true_r; done.
Qed.

Lemma formed_named c : claim_formed c → tc_MatterID c ≠ "".
Proof. intros [H _] E. by rewrite E in H. Qed.

Lemma target_claims_loop claims previous :
  is_ok (foldM target_claim previous claims) = true ↔
  Forall claim_formed claims ∧ StronglySorted slt (tc_MatterID <$> claims)
  ∧ (previous = "" ∨ Forall (λ c, previous <s tc_MatterID c) claims).
Proof.
  revert previous. induction claims as [|c claims IH]; intros previous; cbn [foldM].
  { split; [|done]. intros _. repeat split; [constructor|constructor|right; constructor]. }
  rewrite fmap_cons, !Forall_cons. split.
  - destruct (target_claim previous c) as [m|] eqn:E; [|done]. cbn [mbind result_bind].
    apply target_claim_spec in E as (Hc & Hp & ->). intros (Hf & Hs & [E|Hlt])%IH; [by apply formed_named in Hc|].
    split; [done|]. split.
    + constructor; [done|]. by apply Forall_fmap.
    + destruct Hp as [->|Hp]; [by left|right]. split; [done|]. eapply Forall_impl; [exact Hlt|]. cbn. intros x Hx. by eapply slt_trans.
  - intros ((Hc & Hf) & Hs & Hp). apply StronglySorted_cons in Hs as [Hall Hs]. rewrite Forall_fmap in Hall.
    rewrite (proj2 (target_claim_spec previous c (tc_MatterID c))); [|split; [done|]; split; [by destruct Hp as [->|[? _]]; auto|done]].
    cbn [mbind result_bind]. apply IH. auto.
Qed.

(** The claims a request presents for the Matters it touches are accepted exactly
    when there are at most two of them, each names its Matter and its claim by
    identity with a positive epoch, and they are listed in strictly ascending order of
    Matter: no Matter is claimed twice and a set of claims has one spelling. *)
Theorem target_claims_exact claims :
  validateTargetClaims claims = Ok () ↔
  (length claims ≤ 2)%nat ∧ Forall claim_formed claims ∧ StronglySorted slt (tc_MatterID <$> claims).
Proof.
  pose proof (target_claims_loop claims "") as Hl. unfold validateTargetClaims. split.
  - intros H. inv_ok. inv_cmp. match goal with H : foldM _ _ _ = Ok _ |- _ => rewrite H in Hl end.
    destruct Hl as [Hl _]. destruct (Hl eq_refl) as (? & ? & _). auto.
  - intros (Hlen & Hf & Hs). rewrite (proj2 (Nat.leb_le _ _)) by done. cbn [ensure mbind result_bind].
    pose proof (proj2 Hl (conj Hf (conj Hs (or_introl eq_refl)))) as Hok. by destruct (foldM target_claim "" claims).
Qed.

(** ** Dispatch *)
(** The errors of the boundary have a text. *)
Definition speaks {A} (m : result A) : Prop := match m with Ok _ => True | Error e => err_text e ≠ "" end.

Lemma speaks_bind {A B} (m : result A) (f : A → result B) : speaks m → (∀ a, speaks (f a)) → speaks (m ≫= f).
Proof. destruct m; cbn; auto. Qed.

Lemma speaks_ensure b msg : msg ≠ "" → speaks (ensure b (ERefuse msg)).
Proof. by destruct b. Qed.

Lemma speaks_option {A} msg (o : option A) : msg ≠ "" → speaks (from_option_err (ERefuse msg) o).
Proof. by destruct o. Qed.

Lemma speaks_foldM {A B} (f : A → B → result A) l a : (∀ a b, speaks (f a b)) → speaks (foldM f a l).
Proof. intros Hf. revert a. induction l as [|b l IH]; intros a; cbn [foldM]; [done|]. by apply speaks_bind. Qed.

Lemma speaks_mapM {A B} (f : A → result B) l : (∀ a, speaks (f a)) → speaks (mapM_r f l).
Proof. intros Hf. induction l as [|b l IH]; cbn [mapM_r]; [done|]. repeat (apply speaks_bind; intros; try done). Qed.

Ltac speak :=
  repeat first
    [ exact I | apply speaks_bind; [|intros ?] | apply speaks_ensure; discriminate | apply speaks_option; discriminate
    | apply speaks_foldM; intros ? ? | apply speaks_mapM; intros ? | discriminate
    | match goal with |- context [match ?x with _ => _ end] => destruct x end ].

Lemma validateULID_speaks s : speaks (validateULID s).
Proof. unfold validateULID. speak. Qed.

Lemma check_blobs_speaks declared seen blobs : speaks (check_blobs declared seen blobs).
Proof. revert seen. induction blobs as [|b blobs IH]; intros seen; cbn [check_blobs]; [done|]. speak. apply IH. Qed.

#[local] Ltac speak_all :=
  repeat first [ apply validateULID_speaks | apply check_blobs_speaks | progress speak ].

Lemma validate_input_speaks nfc op i r : speaks (validate_input nfc op i r).
Proof.
  destruct i; cbn [validate_input validate_authoring];
    unfold validateSchedulerHookInput, validate_work, validate_plan, validate_ask, validateRoleLifecycleRequest, validateRunFinishRequest,
      validateRunResumeRequest, validate_claim_close, validateDependencyV2Input, validateReferenceV2Input, validateTargetClaims, target_claim,
      validateGateExemptionRepairInput; speak_all.
Qed.

Lemma ValidateRequest_speaks nfc d r : speaks (ValidateRequest nfc d r).
Proof.
  unfold ValidateRequest, validate_claim, validate_birth_claim, validateBlobs.
  repeat first [apply validate_input_speaks | progress speak_all].
Qed.

Lemma validate_output_speaks nfc op o : speaks (validate_output nfc op o).
Proof. destruct o; cbn [validate_output]; unfold validateSchedulerHookOutput; speak_all. Qed.

Lemma ValidateResult_speaks nfc d r : speaks (ValidateResult nfc d r).
Proof. unfold ValidateResult. repeat first [apply validate_output_speaks | progress speak_all]. Qed.

(** The results of the boundary itself pass every definition's check. *)
Lemma rejected_valid nfc d code msg :
  one_of (problemPrefix code) ["operation"; "validation"; "not-found"] = true → msg ≠ "" →
  ValidateResult nfc d (rejectedResult code msg) = Ok ().
Proof.
  intros Hp Hm. unfold ValidateResult, rejectedResult. cbn [rs_Code rs_Output rs_Problem]. unfold no.
  cbn -[problemPrefix one_of]. rewrite bool_decide_false by done. cbn -[problemPrefix one_of]. by rewrite Hp.
Qed.

Lemma failed_valid nfc d msg : msg ≠ "" → ValidateResult nfc d (failedResult ProblemInvalidResult msg) = Ok ().
Proof.
  intros Hm. unfold ValidateResult, failedResult. cbn [rs_Code rs_Output rs_Problem]. unfold no.
  cbn -[problemPrefix]. rewrite bool_decide_false by done. reflexivity.
Qed.

Lemma Resolve_code {W} (r : Registry (W := W)) id code :
  Resolve r id = inr code → code ∈ [ProblemInvalidRequest; ProblemUnsupportedVersion; ProblemUnknownOperation] ∧ resolution_text id code ≠ "".
Proof.
  unfold Resolve. intros H. repeat case_match; simplify_eq; (split; [set_solver|]); unfold resolution_text; by case_match.
Qed.

(** C23. Dispatch lets nothing through unchecked.  Whatever handlers are registered,
    the result passes the check of the operation's definition (of every definition when
    the operation is not registered); and either the world is untouched and the request
    is rejected, or the one handler registered under the request's versioned name ran,
    once, on a request its definition accepts, and its own result came back or an
    internal failure in its place. *)
Theorem dispatch_safe {W} (nfc : string → bool) (r : Registry (W := W)) (w : W) request :
  let res := (Dispatch nfc r w request).2 in let w' := (Dispatch nfc r w request).1 in
  (∀ d, (∀ g, r !! rq_Operation request = Some g → rg_Definition g = d) → ValidateResult nfc d res = Ok ())
  ∧ ((w' = w ∧ rs_Code res = ResultRejected)
     ∨ ∃ g, r !! rq_Operation request = Some g ∧ ValidateRequest nfc (rg_Definition g) request = Ok ()
            ∧ w' = (rg_Handler g w request).1
            ∧ (res = (rg_Handler g w request).2 ∨ res = failedResult ProblemInvalidResult (err_text
                 match ValidateResult nfc (rg_Definition g) (rg_Handler g w request).2 with Error e => e | Ok _ => EFuel end))).
Proof.
  unfold Dispatch. destruct (Resolve r (rq_Operation request)) as [g|code] eqn:E.
  - assert (r !! rq_Operation request = Some g) as Hg. { unfold Resolve in E. by repeat case_match; simplify_eq. }
    pose proof (ValidateRequest_speaks nfc (rg_Definition g) request) as Hs.
    destruct (ValidateRequest nfc (rg_Definition g) request) as [[]|e] eqn:Er; cbn [fst snd].
    + destruct (rg_Handler g w request) as [w' res] eqn:Eh. pose proof (ValidateResult_speaks nfc (rg_Definition g) res) as Hr.
      destruct (ValidateResult nfc (rg_Definition g) res) as [[]|e] eqn:Ev; cbn [fst snd].
      * split; [intros d Hd; by rewrite <-(Hd g)|]. right. exists g. rewrite Eh. auto.
      * split; [intros d _; by apply failed_valid|]. right. exists g. rewrite Eh. cbn. rewrite Ev. auto.
    + split; [intros d _; by apply rejected_valid|by left].
  - destruct (Resolve_code _ _ _ E) as [Hc Ht]. cbn [fst snd]. split; [|by left].
    intros d _. apply rejected_valid; [|done]. revert Hc. rewrite !elem_of_cons, elem_of_nil. by intros [->|[->|[->|[]]]].
Qed.

(** Registries as they are built. *)
Inductive registered {W} : Registry (W := W) → Prop :=
| registered_new : registered NewRegistry
| registered_add r d h r' : registered r → Register r d h = Ok r' → registered r'.

Lemma Register_inv {W} (r : Registry (W := W)) d h r' :
  Register r d h = Ok r' → ∃ f, h = Some f ∧ ValidateMetadata (metadata d) = Ok () ∧ r !! op_id d = None ∧ r' = <[op_id d := mkRegistration d f]> r.
Proof.
  unfold Register. intros H. inv_ok. repeat match goal with u : () |- _ => destruct u end.
  destruct (r !! op_id d) eqn:E; [done|]. eauto 10.
Qed.

Lemma registered_keys {W} (r : Registry (W := W)) id g :
  registered r → r !! id = Some g → op_id (rg_Definition g) = id ∧ ID_Validate id = Ok ().
Proof.
  induction 1 as [|r d h r' _ IH (f & -> & Hm & _ & ->)%Register_inv]; [done|].
  unfold Registry in *. intros [[<- <-]|[_ H]]%lookup_insert_Some; [|by apply IH]. split; [done|]. unfold ValidateMetadata in Hm. inv_ok.
  by repeat match goal with u : () |- _ => destruct u end.
Qed.

(** What a registry advertises is what it can run: a definition is in the listed
    set exactly when resolving its versioned name gives it back with its handler; and
    a registration leaves every other name as it was. *)
Theorem advertised_resolves {W} (r : Registry (W := W)) d h r' :
  registered r → Register r d h = Ok r' →
  (∀ d', d' ∈ Definitions r' ↔ ∃ g, Resolve r' (op_id d') = inl g ∧ rg_Definition g = d')
  ∧ (∃ f, h = Some f ∧ Resolve r' (op_id d) = inl (mkRegistration d f))
  ∧ ∀ id g, Resolve r id = inl g → Resolve r' id = inl g.
Proof.
  intros Hr HR. pose proof (registered_add _ _ _ _ Hr HR) as Hr'. apply Register_inv in HR as (f & -> & Hm & Hn & ->).
  assert (∀ id g, <[op_id d:=mkRegistration d f]> r !! id = Some g → Resolve (<[op_id d:=mkRegistration d f]> r) id = inl g) as Hres.
  { intros id g Hg. unfold Resolve. destruct (registered_keys _ _ _ Hr' Hg) as [_ ->]. by rewrite Hg. }
  assert (∀ (q : Registry (W := W)) id g, Resolve q id = inl g → q !! id = Some g) as Hlook.
  { intros q id g. unfold Resolve. intros H. by repeat case_match; simplify_eq. }
  split; [|split].
  - intros d'. unfold Definitions. rewrite elem_of_order_by, list_elem_of_fmap. split.
    + intros ([id g] & -> & Hin). unfold Registry in *. apply elem_of_map_to_list in Hin. cbn [snd]. exists g. split; [|done].
      destruct (registered_keys _ _ _ Hr' Hin) as [Hid _]. rewrite Hid. by apply Hres.
    + intros (g & Hg%Hlook & <-). exists (op_id (rg_Definition g), g). split; [done|]. unfold Registry in *. by apply elem_of_map_to_list.
  - exists f. split; [done|]. apply Hres. unfold Registry in *. apply lookup_insert_eq.
  - intros id g Hg%Hlook. apply Hres. unfold Registry in *. rewrite lookup_insert_ne; [done|]. congruence.
Qed.

Definition sample_handler : Handler (W := nat) := λ w _, (S w, mkResult ResultSucceeded (Some (StepRemoveOutput sample_ulid)) None).
Definition sample_registry : Registry (W := nat) := <[op_id StepRemoveV1 := mkRegistration StepRemoveV1 sample_handler]> NewRegistry.

Lemma sample_registers : Register NewRegistry StepRemoveV1 (Some sample_handler) = Ok sample_registry.
Proof.
  unfold Register. assert (ValidateMetadata (metadata StepRemoveV1) = Ok ()) as -> by (vm_compute; reflexivity).
  unfold sample_registry, NewRegistry, Registry. cbn [from_option_err mbind result_bind]. by rewrite lookup_empty.
Qed.

Lemma advertised_resolves_witness :
  ∃ f, Resolve sample_registry (op_id StepRemoveV1) = inl (mkRegistration StepRemoveV1 f).
Proof.
  destruct (advertised_resolves NewRegistry StepRemoveV1 (Some sample_handler) sample_registry) as (_ & (f & _ & H) & _).
  - constructor.
  - apply sample_registers.
  - exists f. exact H.
Defined.

(** ** The size of a repair command *)
Lemma ulid_length s u : validateULID s = Ok u → String.length s = 26%nat.
Proof. unfold validateULID, ulidPattern, IsIdentityShaped. intros H. inv_ok. by inv_bool. Qed.

Lemma ulidPattern_length s : ulidPattern s = true → String.length s = 26%nat.
Proof. unfold ulidPattern, IsIdentityShaped. intros H. by inv_bool. Qed.

Lemma digest_length s : digestPattern s = true → String.length s = 71%nat.
Proof. unfold digestPattern. intros H. inv_bool. by inv_cmp. Qed.

Lemma timestamp_length s u : validateCanonicalTimestamp s = Ok u → (String.length s ≤ 30)%nat.
Proof.
  unfold validateCanonicalTimestamp. intros H. inv_ok. inv_bool.
  match goal with H : fraction_ok _ = true |- _ => rename H into Hf end. inv_cmp. rewrite <-bytes_of_length in *.
  assert (length (take (length (bytes_of s) - 20) (drop 19 (bytes_of s))) = length (bytes_of s) - 20)%nat as Hl
    by (rewrite length_take, length_drop; lia).
  destruct (take (length (bytes_of s) - 20) (drop 19 (bytes_of s))) as [|p ds]; [cbn in Hl; lia|]. cbn [fraction_ok length] in *. inv_bool. inv_cmp. lia.
Qed.

Lemma optional_bound s u : optional_ulid s = Ok u → (cbound (nullableIdentity s) ≤ 35)%nat.
Proof.
  unfold optional_ulid, nullableIdentity. destruct (no s); [cbn; lia|]. intros H%ulid_length. cbn [cbound]. lia.
Qed.

Lemma claim_bound claim v : canonicalClaim claim = Ok v → (cbound v ≤ 100)%nat.
Proof.
  destruct claim as [[id epoch]|]; cbn [canonicalClaim cl_ID cl_Epoch]; intros H; [|simplify_eq; cbn; lia].
  inv_ok. case_match; [|done]. inv_ok. match goal with H : validateULID _ = Ok _ |- _ => apply ulid_length in H end.
  cbn [cbound foldr fst snd String.length]. lia.
Qed.

Lemma strings_bound l n : Forall (λ s, String.length s = n) l → (cbound (canonicalStrings l) ≤ 9 + (9 + n) * length l)%nat.
Proof.
  intros H. unfold canonicalStrings. cbn [cbound]. induction H as [|s l Hs _ IH]; [cbn; lia|].
  rewrite fmap_cons. cbn [foldr cbound length] in *. lia.
Qed.

Lemma repair_input_bound nfc i u :
  validateGateExemptionRepairInput nfc i = Ok u → Z.of_nat (cbound (canonicalInput (GateExemptionRepairInput i))) <= 9600.
Proof.
  unfold validateGateExemptionRepairInput, validRepairIncidentRef, validRepairText. intros H. inv_ok. inv_bool. inv_cmp.
  repeat match goal with
  | H : ulidPattern _ = true |- _ => apply ulidPattern_length in H
  | H : digestPattern _ = true |- _ => apply digest_length in H
  end.
  assert (Forall (λ s, String.length s = 71%nat) (ge_EvidenceRefs i)) as He.
  { apply Forall_forall. intros s Hs%list_elem_of_In. apply digest_length.
    match goal with H : forallb digestPattern _ = true |- _ => rewrite forallb_forall in H; by apply H end. }
  pose proof (strings_bound _ _ He). cbn [canonicalInput cbound foldr fst snd String.length]. nia.
Qed.

Lemma envelope_bound c claim input blobs :
  validate_envelope c = Ok () →
  (cbound (envelope_value c claim input blobs)
   ≤ 1200 + String.length (rq_Actor (cm_Request c)) + String.length (id_Name (rq_Operation (cm_Request c)))
     + cbound claim + cbound input + cbound blobs)%nat.
Proof.
  unfold validate_envelope. intros H. inv_ok.
  assert (cbound (nullableIdentity (cm_CausationCommandID c)) ≤ 35)%nat as Hcaus.
  { unfold nullableIdentity. destruct (no (cm_CausationCommandID c)); [cbn; lia|]. inv_ok.
    match goal with H : validateULID (cm_CausationCommandID c) = Ok _ |- _ => apply ulid_length in H end. cbn [cbound]. lia. }
  repeat match goal with
  | H : validateULID _ = Ok _ |- _ => apply ulid_length in H
  | H : optional_ulid _ = Ok _ |- _ => apply optional_bound in H
  | H : validateCanonicalTimestamp _ = Ok _ |- _ => apply timestamp_length in H
  end.
  unfold envelope_value, commandIdentitySchema. cbn [cbound foldr fst snd String.length]. lia.
Qed.

(** The size limit of gate.exemption.repair never refuses a command: what the
    other checks accept encodes to at most 12 KiB, far below the limit of 1 MiB. *)
Theorem repair_limit_slack (nfc : string → bool) c v b :
  is_op GateExemptionRepairV1 (rq_Operation (cm_Request c)) = true → canonicalValue nfc c = Ok v → marshalCanonical nfc v = Ok b →
  Z.of_nat (length b) <= 12288 ∧ CanonicalBytes nfc c = Ok b.
Proof.
  intros Hop Hv Hb. assert (Z.of_nat (length b) <= 12288) as Hlen.
  2:{ split; [done|]. unfold CanonicalBytes. rewrite Hv. cbn [mbind result_bind]. rewrite Hb. cbn [mbind result_bind].
      rewrite Hop, (proj2 (Z.ltb_ge _ _)) by lia. done. }
  pose proof (enc_bound _ _ _ Hb) as Hle. unfold is_op in Hop. apply bool_decide_eq_true in Hop.
  destruct (canonicalValue_inv _ _ _ Hv) as (d & i & claim & He & Hd & Hr & Hi & Ht & _ & Hc & _ & ->).
  rewrite <-Hop in Hd. injection Hd as <-. destruct i; try discriminate Ht.
  unfold ValidateRequest in Hr. inv_ok.
  match goal with H : validateBlobs _ _ = Ok _ |- _ => apply validateBlobs_length in H as Hbl end.
  rewrite Hi in *. simplify_eq.
  match goal with H : validate_input _ _ _ _ = Ok _ |- _ => cbn [validate_input] in H; apply repair_input_bound in H end.
  assert (rq_Actor (cm_Request c) = "human") as Ha
    by (match goal with H : _ || same (rq_Actor _) _ = true |- _ => apply bool_decide_eq_true in H; exact H end).
  assert (rq_Blobs (cm_Request c) = []) as Hbs by (destruct (rq_Blobs (cm_Request c)); [done|cbn in Hbl; lia]).
  pose proof (envelope_bound c claim (canonicalInput (GateExemptionRepairInput i)) (CArray []) He) as Hen.
  pose proof (claim_bound _ _ Hc). rewrite Hbs in Hle. rewrite Ha, <-Hop in Hen. cbn [String.length op_id md_Operation metadata id_Name] in Hen.
  change (cbound (CArray [])) with 9%nat in Hen. change (String.length (id_Name (op_id GateExemptionRepairV1))) with 21%nat in Hen.
  change (CArray (blob_value <$> order_by name_leb [])) with (CArray []) in Hle. lia.
Qed.

Definition sample_digest : string := BlobDigest "abc".
Definition sample_repair : Command :=
  mkCommand sample_ulid sample_ulid2 1 sample_ulid2 7 "2024-02-29T23:59:59.5Z" "" sample_ulid
    (mkRequest (mkID "gate.exemption.repair" 1) "human" (mkOpContext sample_ulid sample_ulid sample_ulid)
       (Some (mkClaimContext sample_ulid2 "3"))
       (Some (GateExemptionRepairInput (mkGateExemptionRepair sample_ulid "review" 4 sample_ulid2 sample_digest
                "https://example.org/incident/7" "declared twice" [sample_digest]))) []).

Lemma repair_limit_slack_witness :
  is_ok (CanonicalBytes (λ _, true) sample_repair) = true ∧ Z.of_nat (length (sample_bytes sample_repair)) <= 12288.
Proof.
  split; [vm_compute; reflexivity|].
  apply (repair_limit_slack (λ _, true) sample_repair
           (match canonicalValue (λ _, true) sample_repair with Ok v => v | Error _ => CNil end)); vm_compute; reflexivity.
Defined.
