(* ===== verification/EngineTheorems.v ===== *)
(** The theorems about delivery, the comparison after a seal, the doctor and the
    Orchestrator's pass. *)
From stdpp Require Import gmap relations.
From S2P Require Import Prelude Ulid GoStd Taxonomy Json Payloads Tables View Gates Project Store Steps.
From S2P Require Import Invariants Shape Replay Mint Reach Cycle Completion Content Command Resolve Config.
From S2P Require Import NodeVerbs WorkVerbs Effects Outcome GateOrder SchedFrontier Tracker FlushFacts.
From S2P Require Import Alignment AlignFacts Doctor SchedLoop PassLogic PassFacts Scenario VerbScenario.
From S2P Require Import EngineScenario.

(** ** Delivery *)

(** C16. A flush that returned, with or without an error, is all in the store: an
    entry in the report was approved and now is in the state, with the reason, that
    the report names; an entry that is not in the report is as it was; no entry is
    reported twice; and if there was no error, the report has every approved entry
    of the Repo and nothing else.  Whatever the provider answers, and in whatever
    order the candidates of references are visited. *)
Theorem flush_records_everything w fuel errText visit actor repo deliver s r s' :
  (∀ g, visit g ≡ₚ (map_to_list g).*1) →
  Flush w fuel errText visit actor repo (Some deliver) s = Some (r, s') →
  ∃ st err, r = Ok (st, err)
    ∧ (∀ x, x ∈ fl_report st → ∃ o inc e, outbox_entries (s_proj s) !! er_id x = Some o
         ∧ ob_repo o = repo ∧ ob_state o = OutboxApprovedState
         ∧ outbox_entries (s_proj s') !! er_id x
           = Some (set_outbox (durable (er_state x)) (utf8_coerce (er_reason x)) inc e o))
    ∧ (∀ id, id ∉ er_id <$> fl_report st →
         outbox_entries (s_proj s') !! id = outbox_entries (s_proj s) !! id)
    ∧ NoDup (er_id <$> fl_report st)
    ∧ (err = None → er_id <$> fl_report st ≡ₚ oe_id <$> filter approved (Outbox (s_proj s) repo)).
Proof.
  intros Hv H. destruct (Flush_yields w fuel errText visit actor repo (s_proj s) deliver Hv s r s' eq_refl H)
    as ([st err] & -> & Hst). exists st, err. split; [done|]. unfold stage in Hst. cbn in Hst.
  assert (kept repo (s_proj s) st (s_proj s')) as [K1 K2 K3] by (destruct err; apply Hst).
  split_and!; [exact K2|exact K1|exact K3|]. intros ->. apply Hst.
Qed.

Lemma flush_records_everything_witness :
  length (fl_report flush_end) = 3%nat
  ∧ er_id <$> fl_report flush_end ≡ₚ oe_id <$> filter approved (Outbox (s_proj store_approved) repo0).
Proof.
  split; [reflexivity|].
  destruct (flush_records_everything demo_world 2 (λ _, "message") (λ g, (map_to_list g).*1) ActorHuman repo0 demo_seam
    store_approved (Ok (flush_end, None)) store_flushed (λ g, Permutation_refl _) flush_ran)
    as (st & err & [= <- <-] & _ & _ & _ & H). exact (H eq_refl).
Defined.

(** C17. The provider is called with what it should be and nothing else: with the
    creations and comments that are approved, and per reference with the newest of
    the approved state entries that are well formed and do not take a settled
    reference to another disposition; in outbox order, each once, and all of them
    unless an error stopped the flush.  No two calls move the same reference.  Every
    call got the entry as the store held it at that moment, its lease included, and
    the calls before it were the ones recorded. *)
Theorem flush_sends_newest w fuel errText visit actor repo deliver s r s' :
  (∀ g, visit g ≡ₚ (map_to_list g).*1) →
  Flush w fuel errText visit actor repo (Some deliver) s = Some (r, s') →
  ∃ st err, r = Ok (st, err)
    ∧ let sent := ca_entry <$> fl_calls st in
      let due := to_send (s_proj s) (Outbox (s_proj s) repo) in
      sent `prefix_of` due ∧ (err = None → sent = due)
      ∧ (∀ e e', e ∈ sent → e' ∈ sent → is_state e = true → is_state e' = true →
           oe_ref e = oe_ref e' → e = e')
      ∧ (∀ i c, fl_calls st !! i = Some c →
           view_OutboxEntry (ca_proj c) repo (oe_id (ca_entry c)) = Ok (ca_entry c)
           ∧ ca_answer c = deliver (take i (fl_calls st)) (ca_entry c)).
Proof.
  intros Hv H. destruct (Flush_yields w fuel errText visit actor repo (s_proj s) deliver Hv s r s' eq_refl H)
    as ([st err] & -> & Hst). exists st, err. split; [done|]. unfold stage in Hst. cbn in Hst. cbv zeta.
  set (l := Outbox (s_proj s) repo) in *.
  assert (Hpre : (ca_entry <$> fl_calls st) `prefix_of` to_send (s_proj s) l)
    by (destruct err; [apply Hst|by rewrite (flushed_calls _ _ _ _ _ _ Hst)]).
  split_and!; [exact Hpre|by intros ->; apply Hst| |by destruct err; apply Hst].
  intros e e' He He'. destruct Hpre as [rest Hpre].
  assert (∀ x, x ∈ ca_entry <$> fl_calls st → x ∈ l ∧ sent (s_proj s) l x = true) as Hin.
  { intros x Hx. assert (x ∈ to_send (s_proj s) l) as [Hs Hl]%list_elem_of_filter by (rewrite Hpre; set_solver).
    split; [done|]. by apply Is_true_true_1. }
  destruct (Hin e He) as [? ?], (Hin e' He') as [? ?].
  by apply (sent_once repo (s_proj s) l eq_refl).
Qed.

Lemma flush_sends_newest_witness :
  length (fl_calls flush_end) = 2%nat
  ∧ ca_entry <$> fl_calls flush_end = to_send (s_proj store_approved) (Outbox (s_proj store_approved) repo0).
Proof.
  split; [reflexivity|].
  destruct (flush_sends_newest demo_world 2 (λ _, "message") (λ g, (map_to_list g).*1) ActorHuman repo0 demo_seam
    store_approved (Ok (flush_end, None)) store_flushed (λ g, Permutation_refl _) flush_ran)
    as (st & err & [= <- <-] & _ & H & _). exact (H eq_refl).
Defined.

(** ** Comparison *)

(** C33. After a seal, Check compares exactly the references of the Matter: nothing
    for a node that is not a sealed Matter; otherwise one item per active reference,
    in their order.  An item that is not unavailable expects completed when every
    live Matter bound to the reference is archived or canceled, and active otherwise
    (never canceled, and never nothing); and an item offers a move exactly when the
    tracker is behind, to what is expected, and only from a state that is not
    terminal. *)
Theorem alignment_exact w s errText providers id n :
  world_ok w → reach w s → nodes (s_proj s) !! id = Some n → nd_tombstone n = None →
  let items := Check_alignment errText providers (s_log s) (s_proj s) id in
  (archived_row (s_proj s) id n = false → items = [])
  ∧ (archived_row (s_proj s) id n = true → al_reference <$> items = TrackerReferences (s_proj s) id)
  ∧ (∀ i, i ∈ items → al_class i ≠ AlignmentUnavailable →
       al_expected i = Some (if existsb (unsettled (s_proj s)) (bound_matters (s_proj s) (al_reference i))
                             then TrackerActive else TrackerCompleted))
  ∧ (∀ i, i ∈ items → (al_class i = AlignmentBehind ↔ is_Some (al_offer i))
       ∧ (is_Some (al_offer i) → al_offer i = al_expected i ∧ movable (al_observed_class i))).
Proof.
  intros Hw Hs Hn Ht items. destruct (reach_ok w s Hw Hs) as [Hdb]. pose proof (db_gates _ _ Hdb) as Hg.
  pose proof (db_shape _ _ Hdb) as Hsh. unfold items. clear items.
  rewrite (Check_alignment_live _ _ Hg Hsh errText providers id n Hn Ht).
  destruct (archived_row (s_proj s) id n) eqn:Ha.
  - pose proof (check_sealed_items _ _ Hg Hsh errText providers id n Hn Ha) as Hi.
    split_and!; [done|intros _; by apply items_refs in Hi|..]; intros i Hin;
      destruct (items_each _ _ _ _ Hi Hin) as [_ H1 H2 H3]; [exact H1|by split].
  - split_and!; [done|done|..]; by intros i ?%elem_of_nil.
Qed.

Lemma alignment_exact_witness :
  ∃ n, nodes (s_proj store_backend) !! matter0 = Some n
    ∧ al_reference <$> Check_alignment (λ _, "message") (Some demo_registry) (s_log store_backend)
        (s_proj store_backend) matter0 = TrackerReferences (s_proj store_backend) matter0.
Proof.
  eexists. split; [vm_compute; reflexivity|].
  exact (proj1 (proj2 (alignment_exact demo_world store_backend (λ _, "message") (Some demo_registry) matter0 _
    demo_world_ok reach_backend ltac:(vm_compute; reflexivity) ltac:(reflexivity))) ltac:(vm_compute; reflexivity)).
Defined.

(** ** The doctor *)

(** C34. The doctor's checks over the store miss nothing and repeat nothing.  On a
    reachable store, unless the Repo's push level is one that does not parse (then the
    run fails with that error), the findings are, in this order: one per active
    reference of a live Matter of the Repo while the push level is off; one per simple
    cycle of the dependencies in force, naming its nodes by locator along the cycle and
    back to the start; and one per pair of gates declared in one Repo, any Repo, of
    which the earlier in the order is at the coarser scale: every such instance, each
    exactly once.  So there is none of the second kind exactly when the dependencies
    have no cycle, and none of the third when every Repo's gates are in order. *)
Theorem doctor_exact w s repo dir :
  world_ok w → reach w s →
  let p := s_proj s in
  match EffectiveTrackerPushLevel p repo with
  | Error e => Run p dir (store_checks repo) = Error e
  | Ok _ =>
      ∃ refs loops cycles pairs,
        Run p dir (store_checks repo)
        = Ok (((λ x, inert_finding x.1 x.2) <$> refs) ++ cycles ++ ((λ x, violation_finding x.2) <$> pairs))
        ∧ (NoDup refs ∧ ∀ x, x ∈ refs ↔ inert p repo x)
        ∧ (NoDup loops ∧ (∀ c, c ∈ loops ↔ is_loop (liveEdgeGraph p) c) ∧ Forall2 (names_cycle p) loops cycles)
        ∧ (NoDup pairs ∧ ∀ x, x ∈ pairs ↔ out_of_order p x)
        ∧ (cycles = [] ↔ acyclic (waits (liveEdgeGraph p)))
        ∧ (pairs = [] ↔ ∀ r row, repos p !! r = Some row → ordered (GateDeclarations p r))
  end.
Proof.
  intros Hw Hs p. destruct (EffectiveTrackerPushLevel p repo) as [level|e] eqn:El.
  2: { unfold Run, store_checks, CheckInertTrackerBindings. cbn [collect]. by rewrite El. }
  destruct (inert_instances p repo level El) as (refs & Hi & Hi1 & Hi2).
  destruct (CheckCycles_total p dir) as (cycles & Hc & Hf).
  destruct (gate_instances p) as (pairs & Hg & Hg1 & Hg2).
  exists refs, (Cycles p), cycles, pairs. split_and!; [|done..| | |done|done|done|by apply cycles_silent|].
  - unfold Run, store_checks. cbn [collect]. rewrite Hi, Hc. change (CheckGateOrder p dir) with (CheckGateOrder p "").
    rewrite Hg. cbn. by rewrite app_nil_r.
  - apply cycles_NoDup. intros x. apply live_succs_NoDup, (st_db _ (reach_ok w s Hw Hs)).
  - intros c. apply elem_of_cycles.
  - rewrite <-violations_silent. unfold CheckGateOrder in Hg. injection Hg as Hg. rewrite Hg. by destruct pairs.
Qed.

Lemma doctor_exact_witness :
  ∃ refs (loops : list (list string)) cycles pairs,
    Run (s_proj store_reference) "" (store_checks repo0)
    = Ok (((λ x, inert_finding x.1 x.2) <$> refs) ++ cycles ++ ((λ x, violation_finding x.2) <$> pairs))
    ∧ (∀ x, x ∈ refs ↔ inert (s_proj store_reference) repo0 x)
    ∧ (∀ c, c ∈ loops ↔ is_loop (liveEdgeGraph (s_proj store_reference)) c)
    ∧ (∀ x, x ∈ pairs ↔ out_of_order (s_proj store_reference) x).
Proof.
  destruct (doctor_exact demo_world store_reference repo0 "" demo_world_ok reach_reference)
    as (refs & loops & cycles & pairs & H1 & [_ H2] & (_ & H3 & _) & [_ H4] & _).
  exists refs, loops, cycles, pairs. exact (conj H1 (conj H2 (conj H3 H4))).
Defined.

(** C27. What a pass over a Run reports is what it did, whether it is a first pass or
    a resumed one and whatever its hooks write.  Every skip in the report is a
    run.skipped of this pass, every node reported worked was finished by the Builder
    in this pass.  The pass is halted exactly when the handling of some skip, after
    asking, is to halt; that skip is then the last one and the one it names.  And a
    pass without an error ended in one of three ways: halted; finished, with the Run
    closed as completed and every member archived or canceled; or standing by, with
    a member that is neither. *)
Theorem pass_ends_honestly w fuel loops acquire driver env run runCap policy hooks resume s out err s' :
  world_ok w → reach w s → hooks_sound w hooks →
  run_pass w fuel loops driver env run runCap policy hooks resume acquire s = Some (Ok (out, err), s') →
  (∀ k, k ∈ po_skipped out → skip_logged run s s' k)
  ∧ (∀ n, n ∈ po_worked out → work_logged s s' n)
  ∧ (po_state out = Some StateHalted ↔ Exists (λ k, halts policy hooks k = true) (po_skipped out))
  ∧ (po_state out = Some StateHalted → ∃ l k, po_skipped out = l ++ [k] ∧ po_halted_on out = Some k
       ∧ Forall (λ k, halts policy hooks k = false) l)
  ∧ (err = None →
       po_state out = Some StateHalted
       ∨ po_state out = Some StateFinished
         ∧ forallb (over (s_proj s')) (RunMatters (s_proj s') run) = true
         ∧ (∃ r, runs (s_proj s') !! run = Some r ∧ rn_state r = StClosed ∧ rn_close_reason r = Some RunCompleted)
       ∨ po_state out = Some StateStandingBy
         ∧ forallb (over (s_proj s')) (RunMatters (s_proj s') run) = false).
Proof.
  intros Hw Hs Hh H. apply (reach_ok w s Hw) in Hs.
  destruct (run_pass_told w fuel loops driver env run runCap policy hooks resume s Hw Hs Hh acquire _ _ _ H)
    as (ps & <- & ([B1 B2 B3] & [[_ Hst (l & k & Hl & Hon & Hk & Hq)]|(Hst & Hon & Hq)]) & He).
  all: split_and!; [by apply Forall_forall|by apply Forall_forall|..].
  - split; [intros _|done]. rewrite Hl. apply Exists_app. right. by constructor.
  - intros _. eauto.
  - intros ->. by left.
  - split; [done|]. intros (k & Hk & Hh1)%Exists_exists. rewrite Forall_forall in Hq. by rewrite (Hq k Hk) in Hh1.
  - done.
  - intros ->. destruct (He eq_refl) as [[_ Hc _]|[_ Hc]]; [done|by right].
Qed.

Lemma pass_ends_honestly_witness :
  length (po_worked out_finished) = 4%nat
  ∧ (∀ n, n ∈ po_worked out_finished → work_logged store_pass store_finished n)
  ∧ forallb (over (s_proj store_finished)) (RunMatters (s_proj store_finished) run0) = true.
Proof.
  split; [reflexivity|].
  destruct (pass_ends_honestly demo_world 3 20 no_lock ActorHuman demo_env run0 2 skips demo_hooks false store_pass
    out_finished None store_finished demo_world_ok reach_pass demo_hooks_sound pass_finished) as (_ & H & _ & _ & He).
  split; [exact H|]. destruct (He eq_refl) as [E|[[_ [Ho _]]|[E _]]]; [discriminate E|exact Ho|discriminate E].
Defined.

(** ** Groupings *)

(** C28. Completing the groupings of a Matter ends, and completely.  On a reachable
    store, while the clock moves between the readings that stamp its events and with a
    PostSeal hook that returns and writes nothing (as its comment asks), it returns with
    one draw per identity, and never because its rounds were spent: any bound above the
    number of nodes gives the same answer, which is the end of the loop or the error of
    a write.  A node is left alone, or is a grouping in progress that became done, with
    every child done or canceled; and when there was no error, no grouping of the
    Matter is left in progress with its interior done. *)
Theorem groupings_complete w fuel env hooks matter ps s :
  let ns := MatterNodes (s_proj s) (n_id matter) in
  world_ok w → reach w s → current w (s_handle s) → ticking w (h_tick (s_handle s)) (2 * length ns) →
  post_seal_quiet hooks →
  ∃ r ps' s', completeContainers w (S fuel) env hooks matter ps s = Some (r, ps', s')
    ∧ (∀ k, length ns < k → complete_loop w (S fuel) env hooks k matter ns ps s
         = Some (match r with Ok _ => Ok true | Error e => Error e end, ps', s'))
    ∧ grouped ns (s_proj s) (s_proj s')
    ∧ (r = Ok tt → ∀ n row, n ∈ ns → nodes (s_proj s') !! n_id n = Some row → nd_lifecycle row = InProgress →
         hasChild ns (n_id n) = true → interiorDone (s_proj s') (n_id n) = false).
Proof.
  intros ns Hw Hs Hc Ht Hq.
  pose proof (List.filter_length_le (active (s_proj s)) ns) as Hle. fold (active_count (s_proj s) ns) in Hle.
  destruct (complete_loop_returns ns w fuel env hooks matter Hw Hq (S (length ns)) ps s) as [[[rl ps'] s'] El].
  { split_and!; [apply (reach_ok w s Hw Hs)|done|]. intros i Hi. apply Ht. lia. }
  destruct (complete_loop_grouped ns w (S fuel) env hooks matter Hq _ _ _ _ _ _ El) as [Hg Hfix].
  assert (Hne : rl ≠ Ok false) by (eapply complete_loop_ends; [exact Hq| |exact El]; lia).
  exists (match rl with Ok _ => Ok tt | Error e => Error e end), ps', s'. split_and!; [..|exact Hg|].
  - unfold completeContainers, pread, plift, cread, mbind, pm_bind. fold ns. rewrite El. by destruct rl as [[]|e].
  - intros k Hk. rewrite (complete_loop_bound ns w (S fuel) env hooks matter Hq k (S (length ns))) by lia.
    rewrite El. by destruct rl as [[]|e].
  - destruct rl as [[]|e]; [|done..]. intros _ n row Hn Hrow Hl Hch. specialize (Hfix eq_refl n Hn).
    unfold completable in Hfix. rewrite Hrow, Hl, Hch in Hfix. exact Hfix.
Qed.

Lemma groupings_complete_witness :
  post_seal_quiet demo_hooks
  ∧ grouped (MatterNodes (s_proj store_interior) matter0) (s_proj store_interior) (s_proj store_complete)
  ∧ nd_lifecycle <$> nodes (s_proj store_interior) !! matter0 = Some InProgress
  ∧ nd_lifecycle <$> nodes (s_proj store_complete) !! matter0 = Some Done.
Proof.
  assert (Hq : post_seal_quiet demo_hooks) by (intros post n s E; discriminate E).
  split; [exact Hq|]. split; [|split; reflexivity].
  assert (Hl : length (MatterNodes (s_proj store_interior) matter0) = 4) by (vm_compute; reflexivity).
  destruct (groupings_complete demo_world 2 demo_env demo_hooks (matter0_node store_interior) pass0
    store_interior demo_world_ok reach_interior interior_current 
    ltac:(intros i Hi; apply interior_ticking; change (n_id (matter0_node store_interior)) with matter0 in Hi; lia) Hq)
    as (r & ps' & s' & E & _ & Hg & _).
  pose proof interior_completed as E'. unfold complete_of in E'. rewrite E in E'. injection E' as _ _ E'.
  rewrite <-E'. exact Hg.
Defined.
